(** * MakePolymer: the polymer assembly engine of LogP/MakePolymer.py

    A shallow embedding of the assembly functions of [LogP/MakePolymer.py]
    ([getRepeatUnit], [monomer_smi_lookup], [inator_smi_lookup],
    [validate_end_group], [get_building_blocks], [attatch_frags],
    [add_inator_smiles], [createPolymerSMILES], [optPol],
    [confirmStructure], [make_One_or_More_Polymers]) and the properties of
    the assembly engine proved about them, followed by the functions
    around the engine ([getJsonArgs], [drawPol], [write_or_read_pol],
    [Sasa], [LogP], [RadGyration], [MolVolume], [doCalcs], [makePlot],
    [exportToCSV], [main]) on a session that holds the files of the
    working directory and the calls of the plotting library.

    Conventions of the embedding.
    - A Python [str] is a [string]; every [ascii] stands for one code point
      below 256.
    - A Python [int] is a [Z].  A string has no bound in the model: where
      Python raises [OverflowError] because a number does not fit an index
      or a string would be too long, a theorem that states what is
      returned says so in a hypothesis ([mul_fits], [concat_fits]).
      Running out of memory is not modelled.
    - The tables [monomer_dict] and [init_dict] come from the module
      [smiles], and the molecule parser and writer from the RDKit toolkit;
      the engine takes both as parameters, the classes [SmilesTables] and
      [RDKit].  What the engine does with a molecule (atoms, notes, bonds)
      is modelled on a graph, [mol].
    - A molecule object that the engine mutates and compares by identity
      lives in a store, and a computation threads the store and the calls
      and events of the run; an exception ends it with that state.
    - Output written with [print] is not modelled, so the keyword
      [verbosity] is left out of every signature; the decorator [cache]
      does not change what a call returns and is left out too. *)

From Stdlib Require Import ZArith Ascii String List Lia Bool.
From Stdlib Require Import Floats.PrimFloat DecimalString DecimalZ.
From stdpp Require Import base option list strings gmap.

Local Open Scope string_scope.
Local Open Scope Z_scope.

(* ===================================================================== *)
(** ** Python strings *)
(* ===================================================================== *)

Module PyStr.

(** The placeholder marker of the notation, [*]. *)
Definition marker : ascii := "*"%char.

(** [s[0]]; [None] stands for the [IndexError] of the empty string. *)
Definition first (s : string) : option ascii :=
  match s with
  | EmptyString => None
  | String c _ => Some c
  end.

(** [s[-1]]. *)
Fixpoint last (s : string) : option ascii :=
  match s with
  | EmptyString => None
  | String c EmptyString => Some c
  | String _ r => last r
  end.

(** [s[idx]] for the two indices the validator uses, [0] and [-1]. *)
Definition at_end (from_front : bool) (s : string) : option ascii :=
  if from_front then first s else last s.

(** [s[::-1]]. *)
Definition reversed (s : string) : string := String.rev s.

(** [c in s] for a one-character [c]. *)
Fixpoint contains (c : ascii) (s : string) : bool :=
  match s with
  | EmptyString => false
  | String d r => if Ascii.eqb d c then true else contains c r
  end.

(** [s.replace(c, "")] for a one-character [c]. *)
Fixpoint remove (c : ascii) (s : string) : string :=
  match s with
  | EmptyString => EmptyString
  | String d r => if Ascii.eqb d c then remove c r else String d (remove c r)
  end.

(** [s.count(c)] for a one-character [c]. *)
Fixpoint count (c : ascii) (s : string) : nat :=
  match s with
  | EmptyString => O
  | String d r => if Ascii.eqb d c then S (count c r) else count c r
  end.

Fixpoint repeat_nat (k : nat) (s : string) : string :=
  match k with
  | O => EmptyString
  | S k' => s +:+ repeat_nat k' s
  end.

(** [n * s]: the empty string when [n <= 0]. *)
Definition mul (n : Z) (s : string) : string := repeat_nat (Z.to_nat n) s.

(** [c.lower()] on the code points below 256. *)
Definition lower_char (c : ascii) : ascii :=
  let n := N_of_ascii c in
  if ((65 <=? n) && (n <=? 90))%N then ascii_of_N (n + 32)
  else if ((192 <=? n) && (n <=? 222) && negb (n =? 215))%N then ascii_of_N (n + 32)
  else c.

Fixpoint lower (s : string) : string :=
  match s with
  | EmptyString => EmptyString
  | String c r => String (lower_char c) (lower r)
  end.

(** *** [int(s)]

    The characters [int] strips at both ends: the ASCII white space and,
    of the code points from 127 to 255, the two Unicode spaces. *)
Definition is_space (c : ascii) : bool :=
  let n := N_of_ascii c in
  (((9 <=? n) && (n <=? 13)) || (n =? 32) || (n =? 133) || (n =? 160))%N.

Definition digit_val (c : ascii) : option Z :=
  let n := N_of_ascii c in
  if ((48 <=? n) && (n <=? 57))%N then Some (Z.of_N (n - 48)) else None.

Fixpoint lstrip (l : list ascii) : list ascii :=
  match l with
  | c :: r => if is_space c then lstrip r else l
  | [] => []
  end.

Definition strip (l : list ascii) : list ascii :=
  rev (lstrip (rev (lstrip l))).

(** The default of [sys.int_max_str_digits]. *)
Definition int_max_str_digits : nat := 4300.

(** The digits of a literal: underscores are allowed one at a time and
    only between two digits.  [after_us] says that the previous position
    was an underscore or the start of the literal. *)
Fixpoint digits_go (acc : Z) (ndig : nat) (after_us : bool) (l : list ascii)
  : option (Z * nat) :=
  match l with
  | [] => if after_us then None else Some (acc, ndig)
  | c :: r =>
      if Ascii.eqb c "_" then
        if after_us then None else digits_go acc ndig true r
      else
        match digit_val c with
        | Some d => digits_go (10 * acc + d) (S ndig) false r
        | None => None
        end
  end.

(** [int(s)] in base ten; [None] stands for its [ValueError]. *)
Definition int (s : string) : option Z :=
  let body := strip (list_ascii_of_string s) in
  let '(neg, ds) :=
    match body with
    | c :: r =>
        if Ascii.eqb c "-" then (true, r)
        else if Ascii.eqb c "+" then (false, r)
        else (false, body)
    | [] => (false, body)
    end in
  match digits_go 0 0 true ds with
  | Some (v, nd) =>
      if (nd <=? int_max_str_digits)%nat then Some (if neg then - v else v)
      else None
  | None => None
  end.

End PyStr.

(* ===================================================================== *)
(** ** Exceptions and the state-and-error monad *)
(* ===================================================================== *)

(** The classes of the exceptions the engine can raise.  [ToolkitError]
    stands for an exception raised inside the toolkit, whose Python class
    is not modelled; [UnreachableError] marks a branch of the model that
    has no counterpart in Python (a reference to an object that was never
    created). *)
Inductive exn_kind :=
| ValueError | TypeError | KeyError | IndexError | AttributeError
| UnboundLocalError | RuntimeError | EOFError | SystemExit | Exception_
| ToolkitError | UnreachableError.

(** An exception: its class and a text.  For a [raise] of the source the
    text is the source's message; for an exception raised by a builtin or
    by the toolkit the text names the operation that failed. *)
Inductive exn := Exn (k : exn_kind) (msg : string).

Inductive outcome (A : Type) :=
| Ok (a : A)
| Raise (e : exn).
Arguments Ok {A} a.
Arguments Raise {A} e.

(** A computation that reads and writes a state of type [S] and either
    returns or raises. The state survives an exception, as it does in
    Python. *)
Definition SE (S A : Type) : Type := S -> outcome A * S.

Definition ret {S A} (a : A) : SE S A := fun s => (Ok a, s).

Definition raise {S A} (e : exn) : SE S A := fun s => (Raise e, s).

Definition bind {S A B} (m : SE S A) (k : A -> SE S B) : SE S B :=
  fun s =>
    match m s with
    | (Ok a, s') => k a s'
    | (Raise e, s') => (Raise e, s')
    end.

Definition gets {S A} (f : S -> A) : SE S A := fun s => (Ok (f s), s).

Definition modify {S} (f : S -> S) : SE S unit := fun s => (Ok tt, f s).

Declare Scope se_scope.
Delimit Scope se_scope with se.
Notation "x <- m ;; k" := (bind m (fun x => k))
  (at level 100, m at next level, right associativity) : se_scope.
Notation "m ;;; k" := (bind m (fun _ => k))
  (at level 100, right associativity) : se_scope.
Local Open Scope se_scope.

(** A list comprehension whose element expression may raise. *)
Fixpoint mapM {S A B} (f : A -> SE S B) (l : list A) : SE S (list B) :=
  match l with
  | [] => ret []
  | a :: r => b <- f a ;; bs <- mapM f r ;; ret (b :: bs)
  end.

(** A [for] loop over a list, threading the loop variables. *)
Fixpoint foldM {S A B} (f : B -> A -> SE S B) (b : B) (l : list A) : SE S B :=
  match l with
  | [] => ret b
  | a :: r => b' <- f b a ;; foldM f b' r
  end.

(** [l[k]] *)
Definition index {S A} (l : list A) (k : nat) : SE S A :=
  match l !! k with
  | Some a => ret a
  | None => raise (Exn IndexError "list index out of range")
  end.

(* ===================================================================== *)
(** ** The molecule graph of the toolkit *)
(* ===================================================================== *)

(** The part of an RDKit molecule the engine reads and writes: the atoms
    in index order, each with its atomic number and its [atomNote]
    property, and the bonds in the order they were made. *)
Record atom := { atomic_num : nat; atomNote : option string }.

Inductive bond_type := SINGLE | DOUBLE | TRIPLE | AROMATIC.

Record bond := { begin_idx : nat; end_idx : nat; btype : bond_type }.

Record mol := { atoms : list atom; bonds : list bond }.

Module Mol.

(** [[a.GetIdx() for a in m.GetAtoms() if P(a)]], counting from [i]. *)
Fixpoint indices_from (P : atom -> bool) (i : nat) (l : list atom) : list nat :=
  match l with
  | [] => []
  | a :: r =>
      if P a then i :: indices_from P (S i) r else indices_from P (S i) r
  end.

Definition indices (P : atom -> bool) (m : mol) : list nat :=
  indices_from P 0 (atoms m).

(** [a.GetAtomicNum() == 0] *)
Definition is_dummy (a : atom) : bool := Nat.eqb (atomic_num a) 0.

(** [a.HasProp('atomNote')] *)
Definition has_note (a : atom) : bool :=
  match atomNote a with Some _ => true | None => false end.

(** [a.GetProp('atomNote') == s], for an atom that has the property. *)
Definition note_is (s : string) (a : atom) : bool :=
  match atomNote a with Some t => String.eqb t s | None => false end.

Definition note_at (m : mol) (i : nat) : option string :=
  match atoms m !! i with Some a => atomNote a | None => None end.

(** [m.GetAtomWithIdx(i).GetNeighbors()], as atom indices: the other
    ends of the bonds of atom [i], in bond order. *)
Definition neighbors (m : mol) (i : nat) : list nat :=
  omap (fun b =>
          if Nat.eqb (begin_idx b) i then Some (end_idx b)
          else if Nat.eqb (end_idx b) i then Some (begin_idx b)
          else None) (bonds m).

(** [m.GetAtomWithIdx(i).SetProp('atomNote', s)] *)
Definition SetProp (m : mol) (i : nat) (s : string) : mol :=
  {| atoms := alter (fun a => {| atomic_num := atomic_num a; atomNote := Some s |}) i (atoms m);
     bonds := bonds m |}.

Definition shift_bond (k : nat) (b : bond) : bond :=
  {| begin_idx := k + begin_idx b; end_idx := k + end_idx b; btype := btype b |}.

(** [Chem.CombineMols(a, b)]: a copy holding the atoms of [a] and then
    those of [b], with the properties of the atoms, and no bond between
    the two parts. *)
Definition CombineMols (a b : mol) : mol :=
  {| atoms := atoms a ++ atoms b;
     bonds := bonds a ++ map (shift_bond (length (atoms a))) (bonds b) |}.

Definition joins (i j : nat) (b : bond) : bool :=
  (Nat.eqb (begin_idx b) i && Nat.eqb (end_idx b) j)
  || (Nat.eqb (begin_idx b) j && Nat.eqb (end_idx b) i).

(** [m.AddBond(i, j, t)]: the toolkit refuses an index out of range, a
    bond from an atom to itself and a second bond between two atoms. *)
Definition AddBond {S} (m : mol) (i j : nat) (t : bond_type) : SE S mol :=
  if (i <? length (atoms m))%nat && (j <? length (atoms m))%nat
     && negb (Nat.eqb i j) && negb (existsb (joins i j) (bonds m))
  then ret {| atoms := atoms m;
              bonds := bonds m ++ [{| begin_idx := i; end_idx := j; btype := t |}] |}
  else raise (Exn RuntimeError "AddBond").

Definition renumber (i k : nat) : nat := if (i <? k)%nat then Nat.pred k else k.

(** [m.RemoveAtom(i)]: the atom and its bonds go, and every atom after
    it moves one index down. *)
Definition RemoveAtom (m : mol) (i : nat) : mol :=
  {| atoms := delete i (atoms m);
     bonds :=
       map (fun b => {| begin_idx := renumber i (begin_idx b);
                        end_idx := renumber i (end_idx b);
                        btype := btype b |})
           (filter (fun b => begin_idx b <> i /\ end_idx b <> i) (bonds m)) |}.

Definition dummies (m : mol) : list nat := indices is_dummy m.

End Mol.

(** The functions of the toolkit the engine calls and the model leaves
    open.  [MolFromSmiles] answers [None] for a notation it cannot parse,
    as the toolkit does.  [lowest_energy_conformer] stands for lines 245 to
    258 of [optPol]: embedding ten conformers, minimising each, and reading
    back the one of lowest energy; [None] when no conformer was embedded. *)
Class RDKit := {
  MolFromSmiles : string -> option mol;
  MolToSmiles : mol -> string;
  AddHs : mol -> mol;
  lowest_energy_conformer : mol -> option mol
}.

(** The two tables of the module [smiles]. *)
Class SmilesTables := {
  monomer_dict : gmap string string;
  init_dict : gmap string string
}.

(* ===================================================================== *)
(** ** Python values and the object store *)
(* ===================================================================== *)

(** What an end group is after validation: a [str], a molecule object, or
    [None] when the toolkit could not parse the fragment.  A molecule
    object is a reference into the store, because [attatch_frags] writes
    a property on it and compares objects with [==], which for molecule
    objects is identity. *)
Inductive pyval :=
| PStr (s : string)
| PMol (r : nat)
| PNone.

(** [a == b] *)
Definition pyeq (a b : pyval) : bool :=
  match a, b with
  | PStr s, PStr t => String.eqb s t
  | PMol r, PMol q => Nat.eqb r q
  | PNone, PNone => true
  | _, _ => false
  end.

(** [type(v) != str] *)
Definition not_str (v : pyval) : bool :=
  match v with PStr _ => false | _ => true end.

(** The calls of the fusion engine, in the order they are made: the entry
    into [attatch_frags], and each [AddBond] with the two atom indices and
    the [atomNote] of the two atoms at that moment. *)
Inductive fusion_call :=
| CallAttatchFrags (polymer_smiles : string)
| CallAddBond (bond_here inator_attatchment : nat)
              (note_here note_attatchment : option string) (t : bond_type).

(** The state of the assembly functions: the molecule objects created so
    far and the calls made so far. *)
Record chem_state := { heap : list mol; calls : list fusion_call }.

Definition Chem (A : Type) : Type := SE chem_state A.

Definition new_object (m : option mol) : Chem pyval :=
  match m with
  | None => ret PNone
  | Some x =>
      fun s => (Ok (PMol (length (heap s))),
                {| heap := heap s ++ [x]; calls := calls s |})
  end.

Definition deref (r : nat) : Chem mol :=
  fun s =>
    match heap s !! r with
    | Some m => (Ok m, s)
    | None => (Raise (Exn UnreachableError "dangling reference"), s)
    end.

Definition store (r : nat) (m : mol) : Chem unit :=
  modify (fun s => {| heap := <[r := m]> (heap s); calls := calls s |}).

Definition log_call (c : fusion_call) : Chem unit :=
  modify (fun s => {| heap := heap s; calls := calls s ++ [c] |}).

(* ===================================================================== *)
(** ** The repeat-unit resolver and the end-group validator *)
(* ===================================================================== *)

(** The repeat specification as [main] hands it on: the [str] of [-m] or
    the [list] of [-s]. *)
Inductive repeat_spec :=
| RStr (s : string)
| RList (l : list string).

(** Truth value of an entry of [[single, super]]; [None] is Python's. *)
Definition truthy (v : option repeat_spec) : bool :=
  match v with
  | None => false
  | Some (RStr s) => negb (String.eqb s "")
  | Some (RList l) => match l with [] => false | _ => true end
  end.

(** [getRepeatUnit(single, super)], lines 48 to 55. *)
Definition getRepeatUnit (single : option string) (super : option (list string))
  : outcome repeat_spec :=
  match single, super with
  | Some _, Some _ =>
      Raise (Exn TypeError "Cannot specify both single and super monomers")
  | _, _ =>
      match List.filter truthy [RStr <$> single; RList <$> super] with
      | Some x :: _ => Ok x
      | _ => Raise (Exn IndexError "list index out of range")
      end
  end.

(** [d[x] if x in d else x] *)
Definition lookup_or_literal (d : gmap string string) (x : string) : string :=
  match d !! x with
  | Some v => v
  | None => x
  end.

(** [sum(l)] *)
Definition py_sum (l : list Z) : Z := fold_left Z.add l 0.

(** The element expression of line 100: [int(x) if len(x) == 1 else 0]. *)
Definition explicit_coef {S} (x : string) : SE S Z :=
  if Nat.eqb (String.length x) 1 then
    match PyStr.int x with
    | Some v => ret v
    | None => raise (Exn ValueError "int")
    end
  else ret 0.

(** The body of the loop of lines 108 to 113, on the loop variables
    [(repeat_unit, repeat_coef)]. *)
Definition repeat_step (vars : string * Z) (element : string) : string * Z :=
  let '(repeat_unit, repeat_coef) := vars in
  match PyStr.int element with
  | Some c => (repeat_unit, c)
  | None => (repeat_unit +:+ PyStr.mul repeat_coef element, 1)
  end.

(** Lines 105 to 113: the loop from [repeat_unit = ""], [repeat_coef = 1]. *)
Definition repeat_loop (deciphered_dict_keys : list string) : string :=
  fst (fold_left repeat_step deciphered_dict_keys ("", 1)).

Section Engine.

Context `{Toolkit : RDKit} `{Tables : SmilesTables}.

(** [monomer_smi_lookup(m)], lines 57 to 60. The cache does not change
    what a call returns. *)
Definition monomer_smi_lookup {S} (m : string) : SE S string :=
  match monomer_dict !! m with
  | Some repeat_unit => ret repeat_unit
  | None => raise (Exn KeyError m)
  end.

(** [inator_smi_lookup(i, t)], lines 62 to 69. *)
Definition inator_smi_lookup (i t : string) : string * string :=
  (lookup_or_literal init_dict i, lookup_or_literal init_dict t).

(** [validate_end_group(inator, Init=..., Term=...)], lines 71 to 89. *)
Definition validate_end_group (inator : string) (Init Term : bool) : Chem pyval :=
  if negb Init && negb Term then
    raise (Exn ValueError
             "Need to specify wether end group is terminator or initiator.")
  else
    (* idx = 0 when Init, else -1 *)
    if negb (String.eqb inator "")
       && bool_decide (PyStr.at_end Init inator = Some PyStr.marker)
    then new_object (MolFromSmiles inator)
    else if negb (String.eqb inator (PyStr.reversed inator))
            && negb (PyStr.contains PyStr.marker inator)
    then raise (Exn ValueError
                  "end group smiles is not palendromic and has no attatchment point specified.")
    else ret (PStr (PyStr.remove PyStr.marker inator)).

(** [get_building_blocks(i, t, m)], lines 91 to 121. *)
Definition get_building_blocks (i t : string) (m : repeat_spec)
  : Chem (pyval * pyval * string * Z) :=
  let '(init, term) := inator_smi_lookup i t in
  rm <- match m with
        | RList m =>
            let deciphered_dict_keys := map (lookup_or_literal monomer_dict) m in
            explicit_coefs <- mapM explicit_coef deciphered_dict_keys ;;
            let sum_implicit_coefs :=
              Z.of_nat (length deciphered_dict_keys) - Z.of_nat (length explicit_coefs) in
            let monomers_per_n := py_sum explicit_coefs + sum_implicit_coefs in
            ret (repeat_loop deciphered_dict_keys, monomers_per_n)
        | RStr m =>
            repeat_unit <- monomer_smi_lookup m ;;
            ret (repeat_unit, 1)
        end ;;
  let '(repeat_unit, monomers_per_n) := rm in
  init <- validate_end_group init true false ;;
  term <- validate_end_group term false true ;;
  ret (init, term, repeat_unit, monomers_per_n).

(* =================================================================== *)
(** ** The structural fusion engine and the chain string builder *)
(* =================================================================== *)

(** [m.GetAtomWithIdx(x).GetNeighbors()[0]], as an index. *)
Definition first_neighbor (m : mol) (x : nat) : Chem nat :=
  index (Mol.neighbors m x) 0.

(** [[i for i in attachments if m.GetAtomWithIdx(i).GetProp('atomNote') == s][0]],
    where [attachments] are the atoms that have the property. *)
Definition first_noted (m : mol) (s : string) : Chem nat :=
  index (List.filter (fun i => bool_decide (Mol.note_at m i = Some s))
                     (Mol.indices Mol.has_note m)) 0.

(** The body of the loop of lines 149 to 175 on the loop variables
    [(mergedrw, bond_here)]; [bond_here] is [None] while the name is
    unbound. *)
Definition fuse_inator (add_initiator add_terminator : bool * pyval)
    (vars : mol * option nat) (inator : pyval) : Chem (mol * option nat) :=
  let '(mergedrw, bond_here) := vars in
  match inator with
  | PMol r =>
      im <- deref r ;;
      let fake_atoms := Mol.dummies im in
      nbrs <- mapM (first_neighbor im) fake_atoms ;;
      attatch <- index nbrs 0 ;;
      let im := Mol.SetProp im attatch "attatch" in
      store r im ;;;
      let merged := Mol.CombineMols im mergedrw in
      let mergedrw := merged in
      inator_attatchment <- first_noted mergedrw "attatch" ;;
      bond_here <- (if pyeq inator (snd add_initiator)
                    then b <- first_noted mergedrw "head" ;; ret (Some b)
                    else ret bond_here) ;;
      bond_here <- (if pyeq inator (snd add_terminator)
                    then b <- first_noted mergedrw "tail" ;; ret (Some b)
                    else ret bond_here) ;;
      match bond_here with
      | None => raise (Exn UnboundLocalError "bond_here")
      | Some b =>
          log_call (CallAddBond b inator_attatchment
                      (Mol.note_at mergedrw b)
                      (Mol.note_at mergedrw inator_attatchment) SINGLE) ;;;
          mergedrw <- Mol.AddBond mergedrw b inator_attatchment SINGLE ;;
          ret (Mol.SetProp mergedrw inator_attatchment "done", Some b)
      end
  | _ => raise (Exn AttributeError "GetAtoms")
  end.

(** Lines 182 and 183: [k] times, remove the first placeholder atom. *)
Fixpoint remove_dummies (k : nat) (mergedrw : mol) : Chem mol :=
  match k with
  | O => ret mergedrw
  | S k' =>
      i <- index (Mol.dummies mergedrw) 0 ;;
      remove_dummies k' (Mol.RemoveAtom mergedrw i)
  end.

(** Lines 124 to 175 of [attatch_frags]: the chain is read, its attachment
    atoms are noted and the end groups are fused.  The result is
    [mergedrw] as it is when the loop ends. *)
Definition fuse_ends (polymer_smiles : string)
    (add_initiator add_terminator : bool * pyval) : Chem mol :=
  log_call (CallAttatchFrags polymer_smiles) ;;;
  match MolFromSmiles polymer_smiles with
  | None => raise (Exn AttributeError "GetAtoms")
  | Some pol =>
      let fake_atoms := Mol.dummies pol in
      conn_atoms <- mapM (first_neighbor pol) fake_atoms ;;
      pi <- (if fst add_initiator then
               head <- index conn_atoms 0 ;;
               let pol := Mol.SetProp pol head "head" in
               if fst add_terminator then
                 tail <- index conn_atoms 1 ;;
                 let pol := Mol.SetProp pol tail "tail" in
                 ret (pol, [snd add_initiator; snd add_terminator])
               else ret (pol, [snd add_initiator])
             else if fst add_terminator then
               tail <- index conn_atoms 0 ;;
               let pol := Mol.SetProp pol tail "tail" in
               ret (pol, [snd add_terminator])
             else raise (Exn Exception_ "Unknown combination of inators")) ;;
      let '(pol, inators) := pi in
      vars <- foldM (fuse_inator add_initiator add_terminator) (pol, None) inators ;;
      ret (fst vars)
  end.

(** Lines 177 to 183: the placeholder atoms are counted and removed. *)
Definition strip_dummies (mergedrw : mol) : Chem mol :=
  let numDummies := length (Mol.dummies mergedrw) in
  remove_dummies numDummies mergedrw.

(** [attatch_frags(polymer_smiles, add_initiator=..., add_terminator=...)],
    lines 123 to 186. *)
Definition attatch_frags (polymer_smiles : string)
    (add_initiator add_terminator : bool * pyval) : Chem string :=
  mergedrw <- fuse_ends polymer_smiles add_initiator add_terminator ;;
  mergedrw <- strip_dummies mergedrw ;;
  ret (MolToSmiles mergedrw).

(** [add_inator_smiles(smi, init, term)], lines 188 to 215. *)
Definition add_inator_smiles (smi : string) (init term : pyval) : Chem string :=
  let '(smi, add_initiator) :=
    match init with
    | PStr init => (init +:+ smi, false)
    | _ => ("*" +:+ smi, true)
    end in
  let '(smi, add_terminator) :=
    match term with
    | PStr term => (smi +:+ term, false)
    | _ => (smi +:+ "*", true)
    end in
  if add_terminator || add_initiator then
    attatch_frags smi (add_initiator, init) (add_terminator, term)
  else ret smi.

(** [createPolymerSMILES(i, n, r, t, test=...)], lines 217 to 235.  The
    result is [(Some test_smi, full_smiles, m_per_n)] for the tuple of
    three and [(None, full_smiles, m_per_n)] for the tuple of two. *)
Definition createPolymerSMILES (i : string) (n : Z) (r : repeat_spec) (t : string)
    (test : bool) : Chem (option string * string * Z) :=
  b <- get_building_blocks i t r ;;
  let '(init, term, repeat_unit, m_per_n) := b in
  let polymer_SMILES := PyStr.mul n repeat_unit in
  test_smi <- (if test then
                 test_smi <- add_inator_smiles repeat_unit init term ;;
                 ret (Some test_smi)
               else ret None) ;;
  full_smiles <- add_inator_smiles polymer_SMILES init term ;;
  ret (test_smi, full_smiles, m_per_n).

End Engine.

(* ===================================================================== *)
(** ** The confirmation path and the chain-family driver *)
(* ===================================================================== *)

(** What the operator and the embedding collaborator see of a run, in
    order: the preview shown by [confirmStructure] with its prompt, and
    the call of [EmbedMultipleConfs] in [optPol]. *)
Inductive run_event :=
| ShowPreview (smi : string)
| EmbedMultipleConfs (smiles : string).

(** The state of a run: the state of the assembly functions, the lines
    still to be read from standard input, and the events so far. *)
Record world := {
  chem : chem_state;
  stdin : list string;
  trace : list run_event
}.

Definition Run (A : Type) : Type := SE world A.

(** An assembly function called from the driver: it acts on the assembly
    state and on nothing else. *)
Definition liftC {A} (c : Chem A) : Run A :=
  fun w =>
    let '(o, s) := c (chem w) in
    (o, {| chem := s; stdin := stdin w; trace := trace w |}).

Definition emit (e : run_event) : Run unit :=
  modify (fun w => {| chem := chem w; stdin := stdin w; trace := trace w ++ [e] |}).

(** [input(...)]: the next line of standard input. *)
Definition input : Run string :=
  fun w =>
    match stdin w with
    | l :: rest =>
        (Ok l, {| chem := chem w; stdin := rest; trace := trace w |})
    | [] => (Raise (Exn EOFError "input"), w)
    end.

Definition lift_outcome {S A} (o : outcome A) : SE S A := fun s => (o, s).

(** The response [confirmStructure] takes for a yes, line 279. *)
Definition affirmative (inp : string) : bool :=
  String.eqb (PyStr.lower inp) "y" || String.eqb inp "".

(** What the driver returns: the lists of a family of chains (with
    [plot]) or one chain. *)
Inductive polymers :=
| Family (POL_LIST : list mol) (SMI_LIST : list string) (Unopt_pols : list mol)
         (m_per_n : Z)
| OnePolymer (pol_h : mol) (full_smi : string) (pol : mol) (m_per_n : Z).

(** The names the loop of lines 304 to 320 reads and writes; [None] is an
    unbound name for [smi] and [m_per_n], and Python's [None] for
    [proceed]. *)
Record family_vars := {
  proceed : option bool;
  smi : option string;
  m_per_n : option Z;
  POL_LIST : list mol;
  SMI_LIST : list string;
  Unopt_pols : list mol
}.

(** [not proceed] *)
Definition not_ (p : option bool) : bool :=
  match p with Some true => false | _ => true end.

(** [range(1, n+1)] *)
Definition range_1 (n : Z) : list Z := map Z.of_nat (seq 1 (Z.to_nat n)).

(** The label of entry [i] (counted from 0) of a family: [(i + 1) * mpn],
    line 337 of [drawPol] and line 436 of [makePlot]. *)
Definition legend_n (i : nat) (mpn : Z) : Z := (Z.of_nat i + 1) * mpn.

Section Driver.

Context `{Toolkit : RDKit} `{Tables : SmilesTables}.

(** [optPol(smiles)], lines 237 to 264. *)
Definition optPol (smiles : string) : Run (mol * mol) :=
  match MolFromSmiles smiles with
  | None => raise (Exn ToolkitError "SanitizeMol")
  | Some pol =>
      let pol_h := AddHs pol in
      emit (EmbedMultipleConfs smiles) ;;;
      match lowest_energy_conformer pol_h with
      | None => raise (Exn IndexError "list index out of range")
      | Some pol_h => ret (pol_h, pol)
      end
  end.

(** [confirmStructure(smi, proceed=...)], lines 266 to 289.  The
    argument [proceed] is [None] when the keyword is left out, and the
    result [None] is Python's. *)
Definition confirmStructure (smi : string) (proceed : option (option bool))
  : Run (option bool) :=
  match MolFromSmiles smi with
  | None => raise (Exn ToolkitError "drawPol")
  | Some _ =>
      emit (ShowPreview smi) ;;;
      inp <- input ;;
      if affirmative inp then
        match proceed with
        | Some _ => ret (Some true)
        | None => ret None
        end
      else raise (Exn SystemExit "quit")
  end.

(** The unpacking of the result of [createPolymerSMILES] into three
    names, lines 306 and 323. *)
Definition unpack3 {S} (res : option string * string * Z) : SE S (string * string * Z) :=
  match res with
  | (Some test_smi, full, mpn) => ret (test_smi, full, mpn)
  | (None, _, _) => raise (Exn ValueError "not enough values to unpack")
  end.

(** The unpacking into two names, line 311. *)
Definition unpack2 {S} (res : option string * string * Z) : SE S (string * Z) :=
  match res with
  | (None, full, mpn) => ret (full, mpn)
  | (Some _, _, _) => raise (Exn ValueError "too many values to unpack")
  end.

(** The body of the loop of lines 304 to 320. *)
Definition family_step (i : string) (r : repeat_spec) (t : string) (confirm : bool)
    (v : family_vars) (j : Z) : Run family_vars :=
  v <- (if (j =? 1) && confirm && not_ (proceed v) then
          res <- liftC (createPolymerSMILES i j r t true) ;;
          u <- unpack3 res ;;
          let '(test_smi, smi, m_per_n) := u in
          proceed <- confirmStructure test_smi (Some (proceed v)) ;;
          ret {| proceed := proceed; smi := Some smi; m_per_n := Some m_per_n;
                 POL_LIST := POL_LIST v; SMI_LIST := SMI_LIST v;
                 Unopt_pols := Unopt_pols v |}
        else ret v) ;;
  v <- (if (1 <? j) || negb confirm then
          res <- liftC (createPolymerSMILES i j r t false) ;;
          u <- unpack2 res ;;
          let '(smi, m_per_n) := u in
          ret {| proceed := proceed v; smi := Some smi; m_per_n := Some m_per_n;
                 POL_LIST := POL_LIST v; SMI_LIST := SMI_LIST v;
                 Unopt_pols := Unopt_pols v |}
        else ret v) ;;
  match smi v with
  | None => raise (Exn UnboundLocalError "smi")
  | Some s =>
      hp <- optPol s ;;
      let '(pol_h, pol) := hp in
      ret {| proceed := proceed v; smi := smi v; m_per_n := m_per_n v;
             POL_LIST := POL_LIST v ++ [pol_h]; SMI_LIST := SMI_LIST v ++ [s];
             Unopt_pols := Unopt_pols v ++ [pol] |}
  end.

(** [make_One_or_More_Polymers(i, n, r, t, plot=..., confirm=...)],
    lines 291 to 333. *)
Definition make_One_or_More_Polymers (i : string) (n : Z) (r : repeat_spec)
    (t : string) (plot confirm : bool) : Run polymers :=
  if plot then
    let N_array := range_1 n in
    let proceed := if confirm then Some false else Some true in
    v <- foldM (family_step i r t confirm)
               {| proceed := proceed; smi := None; m_per_n := None;
                  POL_LIST := []; SMI_LIST := []; Unopt_pols := [] |}
               N_array ;;
    match m_per_n v with
    | None => raise (Exn UnboundLocalError "m_per_n")
    | Some mpn => ret (Family (POL_LIST v) (SMI_LIST v) (Unopt_pols v) mpn)
    end
  else
    res <- liftC (createPolymerSMILES i n r t true) ;;
    u <- unpack3 res ;;
    let '(test_smi, full_smi, m_per_n) := u in
    (if confirm then _ <- confirmStructure test_smi None ;; ret tt else ret tt) ;;;
    hp <- optPol full_smi ;;
    let '(pol_h, pol) := hp in
    ret (OnePolymer pol_h full_smi pol m_per_n).

(** The arguments of a run that the engine uses, as [main] reads them
    from [vardict]. *)
Record vardict := {
  arg_n : Z;
  arg_initiator : string;
  arg_terminator : string;
  arg_single_monomer : option string;
  arg_super_monomer : option (list string);
  arg_plot : bool;
  arg_quiet : bool
}.

(** Lines 484 to 491 of [main], for a run that does not read its
    molecule from a file. *)
Definition main_make_polymers (v : vardict) : Run polymers :=
  repeat_unit <- lift_outcome (getRepeatUnit (arg_single_monomer v) (arg_super_monomer v)) ;;
  make_One_or_More_Polymers (arg_initiator v) (arg_n v) repeat_unit (arg_terminator v)
    (arg_plot v) (negb (arg_quiet v)).

End Driver.

(* ===================================================================== *)
(** ** A sample toolkit and sample tables, for evaluating the engine *)
(* ===================================================================== *)

Module Sample.

(** The sample reader knows the unbranched notations over [C], [N], [O]
    and the marker: every character is one atom, and each atom is joined
    to the next by a single bond. *)
Definition atom_of_char (c : ascii) : option atom :=
  if Ascii.eqb c "C" then Some {| atomic_num := 6; atomNote := None |}
  else if Ascii.eqb c "N" then Some {| atomic_num := 7; atomNote := None |}
  else if Ascii.eqb c "O" then Some {| atomic_num := 8; atomNote := None |}
  else if Ascii.eqb c "*" then Some {| atomic_num := 0; atomNote := None |}
  else None.

Fixpoint read_atoms (s : string) : option (list atom) :=
  match s with
  | EmptyString => Some []
  | String c r =>
      match atom_of_char c, read_atoms r with
      | Some a, Some l => Some (a :: l)
      | _, _ => None
      end
  end.

Definition chain_bonds (n : nat) : list bond :=
  map (fun i => {| begin_idx := i; end_idx := S i; btype := SINGLE |})
      (seq 0 (Nat.pred n)).

Definition read (s : string) : option mol :=
  match read_atoms s with
  | Some l => Some {| atoms := l; bonds := chain_bonds (length l) |}
  | None => None
  end.

Definition char_of_atom (a : atom) : ascii :=
  match atomic_num a with
  | 6%nat => "C"
  | 7%nat => "N"
  | 8%nat => "O"
  | 0%nat => "*"
  | _ => "?"
  end%char.

(** The sample writer lists the atoms in index order. *)
Definition write (m : mol) : string :=
  string_of_list_ascii (map char_of_atom (atoms m)).

Definition toolkit : RDKit :=
  {| MolFromSmiles := read;
     MolToSmiles := write;
     AddHs := fun m => m;
     lowest_energy_conformer := fun m => Some m |}.

Definition tables : SmilesTables :=
  {| monomer_dict := {[ "Ethylene" := "CC" ]};
     init_dict := {[ "Hydrogen" := "" ]} |}.

(** A run that has created no object and made no call yet. *)
Definition fresh : chem_state := {| heap := []; calls := [] |}.

(** The start of a run whose operator will type the given lines. *)
Definition start (lines : list string) : world :=
  {| chem := fresh; stdin := lines; trace := [] |}.

End Sample.

(* ===================================================================== *)
(** ** The vocabulary of the statements *)
(* ===================================================================== *)

Local Open Scope list_scope.

(** The two errors of the validator. *)
Definition role_error : exn :=
  Exn ValueError "Need to specify wether end group is terminator or initiator.".

Definition asymmetric_error : exn :=
  Exn ValueError
      "end group smiles is not palendromic and has no attatchment point specified.".

(** The value line 100 gives a token when it does not raise. *)
Definition coef_value (x : string) : Z :=
  if Nat.eqb (String.length x) 1 then
    match PyStr.int x with Some v => v | None => 0 end
  else 0.

(** Line 100 raises on a token of one character that is not a digit. *)
Definition coef_defined (x : string) : bool :=
  negb (Nat.eqb (String.length x) 1)
  || match PyStr.int x with Some _ => true | None => false end.



(** The largest index of the implementation: [sys.maxsize] on a 64-bit
    build, which is also the length of the longest string. *)
Definition index_max : Z := 2 ^ 63 - 1.

(** [n * s] does not raise [OverflowError]: [n] fits an index, and the
    repeated string is not longer than the longest string.  Only then is
    [PyStr.mul n s] what [n * s] evaluates to. *)
Definition mul_fits (n : Z) (s : string) : bool :=
  (- index_max - 1 <=? n) && (n <=? index_max)
  && (n * Z.of_nat (String.length s) <=? index_max).

(** [a + b] does not raise [OverflowError]. *)
Definition concat_fits (a b : string) : bool :=
  Z.of_nat (String.length a) + Z.of_nat (String.length b) <=? index_max.

(** No pass of the loop of lines 108 to 113, entered with [repeat_unit]
    and [repeat_coef], raises [OverflowError] at line 112. *)
Fixpoint repeat_fits (repeat_unit : string) (repeat_coef : Z) (elements : list string)
  : bool :=
  match elements with
  | [] => true
  | element :: rest =>
      match PyStr.int element with
      | Some c => repeat_fits repeat_unit c rest
      | None =>
          mul_fits repeat_coef element
          && concat_fits repeat_unit (PyStr.mul repeat_coef element)
          && repeat_fits (repeat_unit +:+ PyStr.mul repeat_coef element) 1 rest
      end
  end.

(** The same for a repeat specification: a single key is looked up and
    not multiplied. *)
Definition resolver_fits `{Tables : SmilesTables} (r : repeat_spec) : bool :=
  match r with
  | RList m => repeat_fits "" 1 (map (lookup_or_literal monomer_dict) m)
  | RStr _ => true
  end.

(** Line 220 and lines 197 and 206 raise no [OverflowError] on two end
    groups that are plain text: for the chain, and for the preview when
    it is built. *)
Definition chain_fits (test : bool) (a : string) (n : Z) (ru b : string) : bool :=
  mul_fits n ru
  && concat_fits a (PyStr.mul n ru) && concat_fits (a +:+ PyStr.mul n ru) b
  && (negb test || (concat_fits a ru && concat_fits (a +:+ ru) b)).

(** A call that makes a single bond from the atom noted [role] to the atom
    noted [attatch]. *)
Definition bond_for (role : string) (c : fusion_call) : Prop :=
  exists bond_here inator_attatchment,
    c = CallAddBond bond_here inator_attatchment (Some role) (Some "attatch") SINGLE.

(** The roles of the ends that are fused, in the order of the fusion. *)
Definition fused_roles (init term : pyval) : list string :=
  ((if not_str init then ["head"] else []) ++ (if not_str term then ["tail"] else []))%list.

(** The chain as [add_inator_smiles] has it after lines 192 to 208: an end
    group that is plain text is spliced on, and a marker stands where an
    end group is to be fused. *)
Definition marked_body (init term : pyval) (smi : string) : string :=
  (match init with PStr a => a | _ => "*" end +:+ smi)
  +:+ match term with PStr b => b | _ => "*" end.

(** The sizes of the object behind an end group: zero for plain text. *)
Definition object_atoms (h : list mol) (v : pyval) : nat :=
  match v with
  | PMol r => match h !! r with Some m => length (atoms m) | None => O end
  | _ => O
  end.

Definition object_bonds (h : list mol) (v : pyval) : nat :=
  match v with
  | PMol r => match h !! r with Some m => length (bonds m) | None => O end
  | _ => O
  end.

(** The state of a run after one more event. *)
Definition with_event (w : world) (e : run_event) : world :=
  {| chem := chem w; stdin := stdin w; trace := trace w ++ [e] |}.

(** The state of a run after an assembly function has run. *)
Definition with_chem (w : world) (s : chem_state) : world :=
  {| chem := s; stdin := stdin w; trace := trace w |}.

Definition is_preview (e : run_event) : bool :=
  match e with ShowPreview _ => true | _ => false end.

Definition is_embedding (e : run_event) : bool :=
  match e with EmbedMultipleConfs _ => true | _ => false end.

(** [built i r t j smi mpn]: a call of [createPolymerSMILES] for [j]
    repeat passes has returned the notation [smi] and the count [mpn]. *)
Definition built `{RDKit} `{SmilesTables} (i : string) (r : repeat_spec) (t : string)
    (j : Z) (smi : string) (mpn : Z) : Prop :=
  exists test s res s', createPolymerSMILES i j r t test s = (Ok (res, smi, mpn), s').

(** An entry of a family: the notation built for [j] repeat passes, the
    structure read from it, and its conformer of lowest energy. *)
Definition entry `{RDKit} `{SmilesTables} (i : string) (r : repeat_spec) (t : string)
    (mpn : Z) (j : Z) (pol_h : mol) (smi : string) (pol : mol) : Prop :=
  built i r t j smi mpn
  /\ MolFromSmiles smi = Some pol
  /\ lowest_energy_conformer (AddHs pol) = Some pol_h.

(** The three lists of a family hold, position by position, the entries
    for the lengths [js]. *)
Inductive family_entries (E : Z -> mol -> string -> mol -> Prop)
  : list Z -> list mol -> list string -> list mol -> Prop :=
| family_nil : family_entries E [] [] [] []
| family_cons j js h hs smi smis p ps :
    E j h smi p -> family_entries E js hs smis ps ->
    family_entries E (j :: js) (h :: hs) (smi :: smis) (p :: ps).

(** The steps of the loop of the driver that do not ask for confirmation:
    all of them without [confirm], and those after the first with it. *)
Definition unprompted (confirm : bool) (p : option bool) (j : Z) : Prop :=
  (j =? 1) && confirm && not_ p = false /\ (1 <? j) || negb confirm = true.

(** The end of both branches of the driver: ask for confirmation (when
    [ask]), then optimise the chain [full]. *)
Definition prompt_then_embed `{RDKit} {A} (ts : string) (p : option (option bool))
    (ask : bool) (full : string) (f : option bool -> mol -> mol -> A) : Run A :=
  (q <- (if ask then confirmStructure ts p else ret None) ;;
   hp <- optPol full ;;
   ret (f q (fst hp) (snd hp)))%se.

(** The answer of [confirmStructure] once the operator has said yes. *)
Definition confirmed (p : option (option bool)) : option bool :=
  match p with Some _ => Some true | None => None end.

(** [preview i r t s test_smi]: [test_smi] is the chain of one repeat unit
    with its end groups, as [createPolymerSMILES] builds it with [test]
    from the state [s]. *)
Definition preview `{RDKit} `{SmilesTables} (i : string) (r : repeat_spec) (t : string)
    (s : chem_state) (test_smi : string) : Prop :=
  exists init term ru mpn s1 s2,
    get_building_blocks i t r s = (Ok (init, term, ru, mpn), s1)
    /\ add_inator_smiles ru init term s1 = (Ok test_smi, s2).

(** The loop variables at the start of the loop of the driver. *)
Definition family_start (confirm : bool) : family_vars :=
  {| proceed := if confirm then Some false else Some true;
     smi := None; m_per_n := None;
     POL_LIST := []; SMI_LIST := []; Unopt_pols := [] |}.

(** The chain of [j] repeat passes on the string path. *)
Definition plain_chain (a ru b : string) (j : Z) : string :=
  (a +:+ PyStr.mul j ru) +:+ b.

(** The atom the engine attaches at: the first neighbour of the [k]-th
    placeholder atom, [[m.GetAtomWithIdx(x).GetNeighbors()[0] for x in fake_atoms][k]]
    when the comprehension does not raise. *)
Definition attachment (m : mol) (k : nat) : option nat :=
  match Mol.dummies m !! k with
  | Some x => Mol.neighbors m x !! 0%nat
  | None => None
  end.

(** [notes_at s m L]: the atoms of [m] noted [s] are among [L]. *)
Definition notes_at (s : string) (m : mol) (L : list nat) : Prop :=
  forall i, Mol.note_at m i = Some s -> In i L.

(** An end-group object as the engine leaves it: the only note it may
    carry is [attatch], on its attachment atom. *)
Definition object_ok (im : mol) : Prop :=
  notes_at "head" im [] /\ notes_at "tail" im []
  /\ notes_at "attatch" im (match attachment im 0 with Some a => [a] | None => [] end).

Definition objects_ok (h : list mol) (v : pyval) : Prop :=
  match v with
  | PMol r => forall im, h !! r = Some im -> object_ok im
  | _ => True
  end.

(** The [AddBond] calls that fuse the end groups to the chain [pol]: for
    each fused end a single bond from the attachment atom of the chain for
    that role (at the first placeholder of the chain, or at the second for
    the terminator when both ends are fused) to the attachment atom of the
    end group.  The indices are those of the structure at the time of the
    call, in which the atoms of the end group come first. *)
Definition expected_calls (pol : mol) (h : list mol) (init term : pyval)
  : option (list fusion_call) :=
  match init, term with
  | PMol r1, PMol r2 =>
      match h !! r1, h !! r2, attachment pol 0, attachment pol 1 with
      | Some im1, Some im2, Some head, Some tail =>
          match attachment im1 0, attachment im2 0 with
          | Some a1, Some a2 =>
              Some [CallAddBond (length (atoms im1) + head) a1
                      (Some "head") (Some "attatch") SINGLE;
                    CallAddBond (length (atoms im2) + (length (atoms im1) + tail)) a2
                      (Some "tail") (Some "attatch") SINGLE]
          | _, _ => None
          end
      | _, _, _, _ => None
      end
  | PMol r1, PStr _ =>
      match h !! r1, attachment pol 0 with
      | Some im1, Some head =>
          match attachment im1 0 with
          | Some a1 =>
              Some [CallAddBond (length (atoms im1) + head) a1
                      (Some "head") (Some "attatch") SINGLE]
          | None => None
          end
      | _, _ => None
      end
  | PStr _, PMol r2 =>
      match h !! r2, attachment pol 0 with
      | Some im2, Some tail =>
          match attachment im2 0 with
          | Some a2 =>
              Some [CallAddBond (length (atoms im2) + tail) a2
                      (Some "tail") (Some "attatch") SINGLE]
          | None => None
          end
      | _, _ => None
      end
  | _, _ => None
  end.

(** The reader of the toolkit gives structures whose atoms carry no
    [atomNote]. *)
Definition reads_without_notes `{RDKit} : Prop :=
  forall smi m, MolFromSmiles smi = Some m -> forall k, Mol.note_at m k = None.

(** [placeholder_at m u]: atom [u] of [m] is a placeholder atom. *)
Definition placeholder_at (m : mol) (u : nat) : bool :=
  match atoms m !! u with Some a => Mol.is_dummy a | None => false end.

(** The index an atom that is kept has once every placeholder atom is
    removed: it moves down by the number of placeholder atoms before it. *)
Definition settled (m : mol) (u : nat) : nat :=
  (u - length (List.filter Mol.is_dummy (take u (atoms m))))%nat.

(** A bond none of whose two atoms is a placeholder atom. *)
Definition kept_bond (m : mol) (b : bond) : bool :=
  negb (placeholder_at m (begin_idx b)) && negb (placeholder_at m (end_idx b)).

(** The structure without its placeholder atoms: the other atoms in their
    order, and the bonds between them. *)
Definition without_placeholders (m : mol) : mol :=
  {| atoms := List.filter (fun a => negb (Mol.is_dummy a)) (atoms m);
     bonds := map (fun b => {| begin_idx := settled m (begin_idx b);
                               end_idx := settled m (end_idx b);
                               btype := btype b |})
                  (List.filter (kept_bond m) (bonds m)) |}.

(** The object with the note the fusion writes on it: [attatch] on its
    attachment atom, when it has one. *)
Definition renoted (im : mol) : mol :=
  match attachment im 0 with
  | Some a => Mol.SetProp im a "attatch"
  | None => im
  end.

(** Two stores that hold the same objects up to that note. *)
Definition same_objects (s s' : chem_state) : Prop :=
  renoted <$> heap s = renoted <$> heap s'.

(** Two runs of assembly code come out alike: both return the same value
    or both raise the same exception, and they leave the same objects up
    to the note of the fusion. *)
Definition alike {A} (r r' : outcome A * chem_state) : Prop :=
  fst r = fst r' /\ same_objects (snd r) (snd r').

(** A computation whose outcome does not depend on that note. *)
Definition note_blind {A} (c : Chem A) : Prop :=
  forall s s', same_objects s s' -> alike (c s) (c s').

(** The store [s'] holds the objects of [s], each as it was or, for a
    reference in [R], with the note of the fusion on its attachment
    atom. *)
Definition noted_only (R : nat -> Prop) (s s' : chem_state) : Prop :=
  length (heap s') = length (heap s)
  /\ forall i im, heap s !! i = Some im ->
       heap s' !! i = Some im \/ (R i /\ heap s' !! i = Some (renoted im)).

(** A computation that changes the store in no other way, whether it
    returns or raises. *)
Definition notes_only {A} (R : nat -> Prop) (c : Chem A) : Prop :=
  forall s o s', c s = (o, s') -> noted_only R s s'.

(** The references of the two end groups. *)
Definition end_group_ref (init term : pyval) (i : nat) : Prop :=
  PMol i = init \/ PMol i = term.

(* ===================================================================== *)
(** ** The arguments of the runs *)
(* ===================================================================== *)

(** A value as [json.load] gives it, and as [argparse] gives the value of
    an argument: [None], a [bool], an [int], a [float], a [str], a [list]
    or a [dict] with [str] keys.  The loop of [getJsonArgs] reads and
    writes a [dict] by key only, so a [dict] is a finite map. *)
Inductive json :=
| JNull
| JBool (b : bool)
| JInt (n : Z)
| JFloat (f : float)
| JStr (s : string)
| JList (l : list json)
| JDict (d : gmap string json).

(** What a [for] loop over a value goes through: the elements of a
    [list], the keys of a [dict], the characters of a [str]. *)
Definition py_iter {S} (v : json) : SE S (list json) :=
  match v with
  | JList l => ret l
  | JDict d => ret (map (fun kv => JStr (fst kv)) (map_to_list d))
  | JStr s => ret (map (fun c => JStr (String c "")) (list_ascii_of_string s))
  | _ => raise (Exn TypeError "object is not iterable")
  end.

(** [v["runs"]] *)
Definition py_getitem_runs {S} (v : json) : SE S json :=
  match v with
  | JDict d =>
      match d !! "runs" with
      | Some x => ret x
      | None => raise (Exn KeyError "runs")
      end
  | JList _ => raise (Exn TypeError "list indices must be integers or slices, not str")
  | JStr _ => raise (Exn TypeError "string indices must be integers, not 'str'")
  | _ => raise (Exn TypeError "object is not subscriptable")
  end.

(** The loop of lines 14 to 16 on one run: every key of [dict] that the
    run does not have is added to it with the value of [dict]. *)
Definition fill_run {S} (dict : gmap string json) (run : json) : SE S json :=
  match run with
  | JDict r =>
      ret (JDict (map_fold (fun dict_key value run =>
                              match run !! dict_key with
                              | Some _ => run
                              | None => <[dict_key := value]> run
                              end) r dict))
  | _ => raise (Exn AttributeError "keys")
  end.

(** [getJsonArgs(jsonFile, dict)], lines 9 to 18, from the value
    [runs_dict] that [json.load] has read from the file.  The runs are
    changed in place, so the list that is returned holds the runs as the
    loop left them. *)
Definition getJsonArgs {S} (runs_dict : json) (dict : gmap string json) : SE S json :=
  runs <- py_getitem_runs runs_dict ;;
  elements <- py_iter runs ;;
  filled <- mapM (fill_run dict) elements ;;
  ret (match runs with
       | JList _ => JList filled
       | _ => runs
       end).

(* ===================================================================== *)
(** ** Files, drawings, descriptors and plots *)
(* ===================================================================== *)

(** More of Python's [str]. *)
Module PyText.

(** [s.split(sep)] for a one-character [sep]: the pieces between the
    separators, of which there is always at least one. *)
Fixpoint split (sep : ascii) (s : string) : list string :=
  match s with
  | EmptyString => [EmptyString]
  | String c r =>
      if Ascii.eqb c sep then EmptyString :: split sep r
      else match split sep r with
           | h :: t => String c h :: t
           | [] => [String c EmptyString]
           end
  end.

(** [str(n)] for an [int]. *)
Definition of_int (n : Z) : string := NilZero.string_of_int (Z.to_int n).

End PyText.

(** Two exceptions of classes that [exn_kind] does not name.  Both are
    subclasses of [Exception], and are given as [Exception_] with the
    name of their class at the start of the text. *)
Definition FileNotFoundError (name : string) : exn :=
  Exn Exception_ ("FileNotFoundError: " +:+ name).

Definition ZeroDivisionError : exn :=
  Exn Exception_ "ZeroDivisionError: float division by zero".

(** [a / b] on two [float]s. *)
Definition py_truediv {S} (a b : float) : SE S float :=
  if PrimFloat.eqb b 0%float then raise ZeroDivisionError
  else ret (PrimFloat.div a b).

(** A [dict] whose order of keys is seen (by [csv.DictWriter] and by the
    loops over the keys of [data]): the items in the order the keys were
    first set. *)
Definition odict : Type := list (string * json).

(** [d[k] = v] *)
Fixpoint od_set (k : string) (v : json) (d : odict) : odict :=
  match d with
  | [] => [(k, v)]
  | (k', v') :: r =>
      if String.eqb k' k then (k, v) :: r else (k', v') :: od_set k v r
  end.

(** [d.get(k)] *)
Fixpoint od_get (d : odict) (k : string) : option json :=
  match d with
  | [] => None
  | (k', v) :: r => if String.eqb k' k then Some v else od_get r k
  end.

(** [d[k]] *)
Definition od_getitem {S} (d : odict) (k : string) : SE S json :=
  match od_get d k with
  | Some v => ret v
  | None => raise (Exn KeyError k)
  end.

(** [list(d.keys())] *)
Definition od_keys (d : odict) : list string := map fst d.

(** [enumerate(l)] *)
Definition enumerate {A} (l : list A) : list (nat * A) := imap (fun i x => (i, x)) l.

(** The three formats [write_or_read_pol] knows. *)
Inductive mol_format := XYZ | PDB | MOLFILE.

(** What a file holds: what the call that wrote it was given.  [Foreign]
    is a file that no call of the run has written. *)
Inductive fcontent :=
| MolFile (fmt : mol_format) (m : mol)
| MolImage (m : mol)
| GridImage (mols : list mol) (legends : list string)
| FigureFile
| CsvFile (fieldnames : list string) (rows : list (list json))
| Foreign (text : string).

(** The calls of [matplotlib.pyplot] and of the axes of [plt.subplots],
    with their arguments. *)
Inductive plt_call :=
| PltPlot (x y : json) (fmt : string)
| PltTitle (label : string)
| PltXlabel (label : string)
| PltYlabel (label : string)
| PltSubplots (ncols : Z)
| AxScatter (series : nat) (x y : json)
| AxSetTitle (series : nat) (label : string)
| PltSavefig (fname : string)
| PltShow.

(** The state of a session of [main]: the state of the runs of the
    driver, the files of the working directory by name, and the calls of
    the plotting library so far.  Every write is taken to succeed.  The
    scratch files [tmp.mol] of [optPol] and [confirm.png] of
    [confirmStructure], which those functions write and remove again,
    are not among [files]: the arguments of a run are taken not to name
    them. *)
Record session := {
  run_world : world;
  files : gmap string fcontent;
  plt_calls : list plt_call
}.

Definition Sess (A : Type) : Type := SE session A.

(** A function of the driver called from [main]: it acts on the state of
    the driver. *)
Definition liftW {A} (c : Run A) : Sess A :=
  fun x =>
    let '(o, w) := c (run_world x) in
    (o, {| run_world := w; files := files x; plt_calls := plt_calls x |}).

Definition write_file (name : string) (c : fcontent) : Sess unit :=
  modify (fun x => {| run_world := run_world x; files := <[name := c]> (files x);
                      plt_calls := plt_calls x |}).

Definition plt (c : plt_call) : Sess unit :=
  modify (fun x => {| run_world := run_world x; files := files x;
                      plt_calls := plt_calls x ++ [c] |}).

(** The descriptors of the toolkit, each on the conformer the structure
    has; [None] stands for an exception of the toolkit (a structure
    without a conformer, for the three that need one). *)
Class Descriptors := {
  CalcSASA : mol -> option float;
  MolLogP : mol -> option float;
  CalcRadiusOfGyration : mol -> option float;
  ComputeMolVolume : mol -> option float
}.

(** The two readers of the toolkit [write_or_read_pol] calls, on what
    the file holds; [None] when the toolkit cannot parse it. *)
Class MolReaders := {
  MolFromPDBFile : fcontent -> option mol;
  MolFromMolFile : fcontent -> option mol
}.

Definition toolkit_float {S} (call : string) (v : option float) : SE S float :=
  match v with
  | Some x => ret x
  | None => raise (Exn ToolkitError call)
  end.

(** What the name [pol] of [main] is bound to when it is drawn: one
    structure, which is [None] when the toolkit could not read back the
    notation of a file, or the list of the structures of a family. *)
Inductive pol_val :=
| PolOne (pol : option mol)
| PolMany (pols : list mol).

(** The arguments of a run: those of the assembly ([vardict]) and those
    that [main] reads itself.  Each has the type [argparse] gives it. *)
Record run_args := {
  polymer_args : vardict;
  arg_read : option string;
  arg_file : option string;
  arg_draw : option string;
  arg_verbose : bool;
  arg_calculation : option (list string);
  arg_export : option string
}.

(** The names of [main] that keep their value from one pass of its loop
    to the next and are not bound anew in every pass; [None] is an
    unbound name.  The other names of [main] are bound in a pass before
    that pass reads them. *)
Record main_env := {
  POL_LIST_ : option (list mol);
  SMI_LIST_ : option (list string);
  UNOPT_POL_LIST_ : option (list mol);
  M_PER_N_ : option Z;
  pol_h_ : option mol;
  polSMILES_ : option string;
  pol_ : option pol_val
}.

(** No name is bound when [main] starts. *)
Definition main_start : main_env :=
  {| POL_LIST_ := None; SMI_LIST_ := None; UNOPT_POL_LIST_ := None; M_PER_N_ := None;
     pol_h_ := None; polSMILES_ := None; pol_ := None |}.

(** The value of a name that may be unbound. *)
Definition read_name {S A} (name : string) (v : option A) : SE S A :=
  match v with
  | Some x => ret x
  | None => raise (Exn UnboundLocalError name)
  end.

Section Session.

Context `{Toolkit : RDKit} `{Tables : SmilesTables}
        `{Calc : Descriptors} `{Readers : MolReaders}.

(** [drawPol(pol, drawName, mpn=...)], lines 335 to 341.  The names the
    program passes end in [.png], which the image writers accept. *)
Definition drawPol (pol : pol_val) (drawName : string) (mpn : Z) : Sess unit :=
  match pol with
  | PolMany pol =>
      write_file drawName
        (GridImage pol (imap (fun i _ => "n = " +:+ PyText.of_int (legend_n i mpn)) pol))
  | PolOne (Some pol) => write_file drawName (MolImage pol)
  | PolOne None => raise (Exn ToolkitError "MolToFile")
  end.

(** [write_or_read_pol(name, read=..., mol=...)], lines 343 to 376.  A
    call that reads returns [(pol_h, polSMILES, pol)], and a call that
    writes returns [None]. *)
Definition write_or_read_pol (name : string) (read : bool) (mol_ : option mol)
  : Sess (option (mol * string * option mol)) :=
  ext <- index (PyText.split "." name) 1 ;;
  if read then
    fs <- gets files ;;
    match fs !! name with
    | Some content =>
        pol_h <- (if String.eqb ext "pdb" then ret (MolFromPDBFile content)
                  else if String.eqb ext "mol" then ret (MolFromMolFile content)
                  else raise (Exn SystemExit "quit")) ;;
        match pol_h with
        | Some pol_h =>
            let polSMILES := MolToSmiles pol_h in
            let pol := MolFromSmiles polSMILES in
            ret (Some (pol_h, polSMILES, pol))
        | None => raise (Exn ToolkitError "MolToSmiles")
        end
    | None => raise (FileNotFoundError name)
    end
  else
    fmt <- (if String.eqb ext "xyz" then ret XYZ
            else if String.eqb ext "pdb" then ret PDB
            else if String.eqb ext "mol" then ret MOLFILE
            else raise (Exn SystemExit "quit")) ;;
    match mol_ with
    | Some m => write_file name (MolFile fmt m) ;;; ret None
    | None => raise (Exn ToolkitError "MolToFile")
    end.

(** [Sasa], [LogP], [RadGyration] and [MolVolume], lines 378 to 397. *)
Definition Sasa {S} (pol_h : mol) : SE S float :=
  toolkit_float "CalcSASA" (CalcSASA pol_h).

Definition LogP {S} (pol_h : mol) : SE S float :=
  toolkit_float "MolLogP" (MolLogP pol_h).

Definition RadGyration {S} (pol_h : mol) : SE S float :=
  toolkit_float "CalcRadiusOfGyration" (CalcRadiusOfGyration pol_h).

Definition MolVolume {S} (pol_h : mol) : SE S float :=
  toolkit_float "ComputeMolVolume" (ComputeMolVolume pol_h).

(** [name in calcs] *)
Definition asked (name : string) (calcs : gset string) : bool :=
  bool_decide (name ∈ calcs).

(** [doCalcs(pol_h, calcs)], lines 399 to 429.  The call returns [data]
    and changes the set [calcs] of its caller; the result is [data] with
    the set as the call leaves it.  [sasa] and [logP] are [None] while
    the names are unbound. *)
Definition doCalcs {S} (pol_h : mol) (calcs : gset string) : SE S (odict * gset string) :=
  let data : odict := [] in
  r <- (if asked "SA" calcs || asked "MHP" calcs || asked "XMHP" calcs then
          sasa <- Sasa pol_h ;;
          let data := if negb (asked "XMHP" calcs)
                      then od_set "SA" (JFloat sasa) data else data in
          ret (data, calcs ∖ {["SA"]}, Some sasa)
        else ret (data, calcs, None)) ;;
  let '(data, calcs, sasa) := r in
  r <- (if asked "LogP" calcs || asked "MHP" calcs || asked "XMHP" calcs then
          logP <- LogP pol_h ;;
          let data := if negb (asked "XMHP" calcs)
                      then od_set "LogP" (JFloat logP) data else data in
          ret (data, calcs ∖ {["LogP"]}, Some logP)
        else ret (data, calcs, None)) ;;
  let '(data, calcs, logP) := r in
  r <- (if asked "RG" calcs then
          rg <- RadGyration pol_h ;;
          ret (od_set "RG" (JFloat rg) data, calcs ∖ {["RG"]})
        else ret (data, calcs)) ;;
  let '(data, calcs) := r in
  r <- (if asked "MV" calcs then
          mv <- MolVolume pol_h ;;
          ret (od_set "MV" (JFloat mv) data, calcs ∖ {["MV"]})
        else ret (data, calcs)) ;;
  let '(data, calcs) := r in
  if asked "MHP" calcs || asked "XMHP" calcs then
    match logP, sasa with
    | Some logP, Some sasa =>
        mhp <- py_truediv logP sasa ;;
        ret (od_set "MHP" (JFloat mhp) data, (calcs ∖ {["MHP"]}) ∖ {["XMHP"]})
    | None, _ => raise (Exn UnboundLocalError "logP")
    | Some _, None => raise (Exn UnboundLocalError "sasa")
    end
  else ret (data, calcs).

(** The body of the loop of lines 433 to 438 of [makePlot]. *)
Definition plot_row (calculations : list string) (smiles_list : list string) (mpn : Z)
    (ip : nat * mol) : Sess odict :=
  let '(i, pol) := ip in
  let calcs : gset string := list_to_set calculations in
  r <- doCalcs pol calcs ;;
  let pol_data := fst r in
  let pol_data := od_set "N" (JInt (legend_n i mpn)) pol_data in
  smi <- index smiles_list i ;;
  let pol_data := od_set "smi" (JStr smi) pol_data in
  ret pol_data.

(** Line 439: [{k: [d[k] for d in dicts] for k in dicts[0]}]. *)
Definition columns (dicts : list odict) : Sess odict :=
  first <- index dicts 0 ;;
  foldM (fun data k =>
           col <- mapM (fun d => od_getitem d k) dicts ;;
           ret (od_set k (JList col) data))
        [] (od_keys first).

(** The body of the loop of lines 453 to 458, on [series]. *)
Definition scatter_step (ncols : Z) (data : odict) (series : nat) (key : string)
  : Sess nat :=
  if negb (String.eqb key "N") && negb (String.eqb key "smi") then
    (if (Z.of_nat series <? ncols) then ret tt
     else raise (Exn IndexError "index out of bounds")) ;;;
    x <- od_getitem data "N" ;;
    y <- od_getitem data key ;;
    plt (AxScatter series x y) ;;;
    plt (AxSetTitle series (key +:+ " vs n")) ;;;
    ret (S series)
  else ret series.

(** [makePlot(pol_list, calculations, smiles_list, verbosity=..., mpn=...)],
    lines 431 to 465.  [plt.subplots] refuses a number of columns that is
    not positive. *)
Definition makePlot (pol_list : list mol) (calculations : list string)
    (smiles_list : list string) (verbosity : bool) (mpn : Z)
  : Sess (odict * list odict) :=
  dicts <- mapM (plot_row calculations smiles_list mpn) (enumerate pol_list) ;;
  data <- columns dicts ;;
  let ncols := Z.of_nat (length data) - 2 in
  (if ncols =? 1 then
     calc_key <- index (map (fun k => if negb (String.eqb k "XMHP") then k else "MHP")
                            calculations) 0 ;;
     x <- od_getitem data "N" ;;
     y <- od_getitem data calc_key ;;
     plt (PltPlot x y "o") ;;;
     plt (PltTitle (calc_key +:+ " vs n")) ;;;
     plt (PltXlabel "n") ;;;
     plt (PltYlabel calc_key)
   else
     (if (0 <? ncols) then plt (PltSubplots ncols)
      else raise (Exn ValueError "Number of columns must be a positive integer")) ;;;
     _ <- foldM (scatter_step ncols data) O (od_keys data) ;;
     ret tt) ;;;
  let figname := "Size-dependent-stats.png" in
  plt (PltSavefig figname) ;;;
  write_file figname FigureFile ;;;
  (if verbosity then plt PltShow else ret tt) ;;;
  ret (data, dicts).

(** [DictWriter._dict_to_list]: the values of a row in the order of the
    field names, with the empty string for a field the row lacks; a row
    with a key that is no field name is refused. *)
Definition dict_to_list {S} (fieldnames : list string) (rowdict : odict)
  : SE S (list json) :=
  if forallb (fun k => bool_decide (k ∈ fieldnames)) (od_keys rowdict) then
    ret (map (fun key => match od_get rowdict key with
                         | Some v => v
                         | None => JStr ""
                         end) fieldnames)
  else raise (Exn ValueError "dict contains fields not in fieldnames").

(** [exportToCSV(exptName, data, dicts_list)], lines 467 to 477: the file
    is opened for writing, the header is written, and then the rows one
    by one. *)
Definition exportToCSV (exptName : string) (data : odict) (dicts_list : list odict)
  : Sess unit :=
  let cols := od_keys data in
  write_file exptName (CsvFile cols []) ;;;
  _ <- foldM (fun rows rowdict =>
                row <- dict_to_list cols rowdict ;;
                let rows := rows ++ [row] in
                write_file exptName (CsvFile cols rows) ;;;
                ret rows)
             [] dicts_list ;;
  ret tt.

(** Lines 483 to 495 of [main]: the polymer is made, or read from a
    file. *)
Definition main_subject (v : run_args) (e : main_env) : Sess main_env :=
  let a := polymer_args v in
  match arg_read v with
  | None =>
      made <- liftW (main_make_polymers a) ;;
      match made with
      | Family POL_LIST SMI_LIST UNOPT_POL_LIST M_PER_N =>
          if arg_plot a then
            ret {| POL_LIST_ := Some POL_LIST; SMI_LIST_ := Some SMI_LIST;
                   UNOPT_POL_LIST_ := Some UNOPT_POL_LIST; M_PER_N_ := Some M_PER_N;
                   pol_h_ := pol_h_ e; polSMILES_ := polSMILES_ e; pol_ := pol_ e |}
          else raise (Exn UnreachableError "a family without plot")
      | OnePolymer pol_h polSMILES pol M_PER_N =>
          if arg_plot a then raise (Exn UnreachableError "one polymer with plot")
          else
            ret {| POL_LIST_ := POL_LIST_ e; SMI_LIST_ := SMI_LIST_ e;
                   UNOPT_POL_LIST_ := UNOPT_POL_LIST_ e; M_PER_N_ := Some M_PER_N;
                   pol_h_ := Some pol_h; polSMILES_ := Some polSMILES;
                   pol_ := Some (PolOne (Some pol)) |}
      end
  | Some name =>
      if arg_plot a then raise (Exn TypeError "You may not plot data read from a file.")
      else
        r <- write_or_read_pol name true None ;;
        match r with
        | Some (pol_h, polSMILES, pol) =>
            ret {| POL_LIST_ := POL_LIST_ e; SMI_LIST_ := SMI_LIST_ e;
                   UNOPT_POL_LIST_ := UNOPT_POL_LIST_ e; M_PER_N_ := M_PER_N_ e;
                   pol_h_ := Some pol_h; polSMILES_ := Some polSMILES;
                   pol_ := Some (PolOne pol) |}
        | None => raise (Exn TypeError "cannot unpack non-iterable NoneType object")
        end
  end.

(** The name of file [i] (counted from 0) of a family, line 504. *)
Definition family_file_name (base ext : string) (i : nat) : string :=
  base +:+ "_" +:+ PyText.of_int (Z.of_nat i + 1) +:+ "." +:+ ext.

(** Lines 499 to 507 of [main]: the polymer is saved. *)
Definition main_save (v : run_args) (e : main_env) : Sess unit :=
  match arg_file v with
  | Some file =>
      if arg_plot (polymer_args v) then
        base <- index (PyText.split "." file) 0 ;;
        ext <- index (PyText.split "." file) 1 ;;
        POL_LIST <- read_name "POL_LIST" (POL_LIST_ e) ;;
        _ <- mapM (fun im : nat * mol =>
                     write_or_read_pol (family_file_name base ext (fst im)) false
                                       (Some (snd im)))
                  (enumerate POL_LIST) ;;
        ret tt
      else
        pol_h <- read_name "pol_h" (pol_h_ e) ;;
        _ <- write_or_read_pol file false (Some pol_h) ;;
        ret tt
  | None => ret tt
  end.

(** Lines 510 to 520 of [main]: the polymer is drawn. *)
Definition main_draw (v : run_args) (e : main_env) : Sess main_env :=
  e <- (if arg_plot (polymer_args v) then
          UNOPT_POL_LIST <- read_name "UNOPT_POL_LIST" (UNOPT_POL_LIST_ e) ;;
          ret {| POL_LIST_ := POL_LIST_ e; SMI_LIST_ := SMI_LIST_ e;
                 UNOPT_POL_LIST_ := UNOPT_POL_LIST_ e; M_PER_N_ := M_PER_N_ e;
                 pol_h_ := pol_h_ e; polSMILES_ := polSMILES_ e;
                 pol_ := Some (PolMany UNOPT_POL_LIST) |}
        else ret e) ;;
  match arg_draw v with
  | Some draw =>
      base <- index (PyText.split "." draw) 0 ;;
      let drawName := base +:+ ".png" in
      pol <- read_name "pol" (pol_ e) ;;
      mpn <- read_name "M_PER_N" (M_PER_N_ e) ;;
      drawPol pol drawName mpn ;;;
      ret e
  | None =>
      if arg_verbose v then
        mpn <- read_name "M_PER_N" (M_PER_N_ e) ;;
        pol <- read_name "pol" (pol_ e) ;;
        drawPol pol "polymer.png" mpn ;;;
        ret e
      else ret e
  end.

(** Lines 525 to 541 of [main]: the calculations and their export. *)
Definition main_calculate (v : run_args) (e : main_env) : Sess unit :=
  match arg_calculation v with
  | Some calculation =>
      dd <- (if negb (arg_plot (polymer_args v)) then
               let calcs : gset string := list_to_set calculation in
               pol_h <- read_name "pol_h" (pol_h_ e) ;;
               r <- doCalcs pol_h calcs ;;
               let data := fst r in
               mpn <- read_name "M_PER_N" (M_PER_N_ e) ;;
               let data := od_set "N" (JInt (arg_n (polymer_args v) * mpn)) data in
               polSMILES <- read_name "polSMILES" (polSMILES_ e) ;;
               let data := od_set "smi" (JStr polSMILES) data in
               ret (data, [data])
             else
               POL_LIST <- read_name "POL_LIST" (POL_LIST_ e) ;;
               SMI_LIST <- read_name "SMI_LIST" (SMI_LIST_ e) ;;
               mpn <- read_name "M_PER_N" (M_PER_N_ e) ;;
               makePlot POL_LIST calculation SMI_LIST (arg_verbose v) mpn) ;;
      let '(data, dicts) := dd in
      match arg_export v with
      | Some export => exportToCSV export data dicts
      | None => ret tt
      end
  | None => ret tt
  end.

(** The body of the loop of [main], lines 482 to 543. *)
Definition main_run (e : main_env) (v : run_args) : Sess main_env :=
  e <- main_subject v e ;;
  main_save v e ;;;
  e <- main_draw v e ;;
  main_calculate v e ;;;
  ret e.

(** [main()] on the runs that [getArgs] returns. *)
Definition main (run_list : list run_args) : Sess unit :=
  _ <- foldM main_run main_start run_list ;;
  ret tt.

End Session.

(** Sample descriptors and readers, for evaluating a session: the
    descriptors count atoms and bonds, and the readers give back the
    structure of a file written in their format. *)
Module SampleSession.

Definition count (n : nat) : float := Nat.iter n (fun x => x + 1)%float 0%float.

Definition descriptors : Descriptors :=
  {| CalcSASA := fun m => Some (count (length (atoms m)));
     MolLogP := fun m => Some (count (length (bonds m)));
     CalcRadiusOfGyration := fun m => Some (count (length (Mol.dummies m)));
     ComputeMolVolume := fun m => Some (count (2 * length (atoms m))) |}.

Definition readers : MolReaders :=
  {| MolFromPDBFile := fun c => match c with MolFile PDB m => Some m | _ => None end;
     MolFromMolFile := fun c => match c with MolFile MOLFILE m => Some m | _ => None end |}.

(** The start of a session in a directory that holds the given files,
    with an operator who will type the given lines. *)
Definition start (fs : gmap string fcontent) (lines : list string) : session :=
  {| run_world := Sample.start lines; files := fs; plt_calls := [] |}.

End SampleSession.

(** The format [write_or_read_pol] writes for an extension. *)
Definition format_named (ext : string) : option mol_format :=
  if String.eqb ext "xyz" then Some XYZ
  else if String.eqb ext "pdb" then Some PDB
  else if String.eqb ext "mol" then Some MOLFILE
  else None.

(** The session after a file has been written. *)
Definition with_file (x : session) (name : string) (c : fcontent) : session :=
  {| run_world := run_world x; files := <[name := c]> (files x); plt_calls := plt_calls x |}.

(** A text that is empty or begins with a dot: what may follow the
    extension in a file name. *)
Definition dot_or_end (rest : string) : Prop :=
  rest = "" \/ exists r, rest = String "." r.

(** The six names [doCalcs] knows. *)
Definition known_calcs : gset string :=
  {[ "SA"; "LogP"; "RG"; "MV"; "MHP"; "XMHP" ]}.

(** The table of a structure whose descriptors have the given values,
    for a set of names: the surface area and the partition coefficient
    when they or [MHP] are asked for and [XMHP] is not, the radius of
    gyration and the volume when asked for, and the ratio of partition
    coefficient to surface area when [MHP] or [XMHP] is asked for, in
    this order. *)
Definition calc_table (sasa logP rg mv : float) (calcs : gset string) : odict :=
  (if (asked "SA" calcs || asked "MHP" calcs) && negb (asked "XMHP" calcs)
   then [("SA", JFloat sasa)] else [])
  ++ (if (asked "LogP" calcs || asked "MHP" calcs) && negb (asked "XMHP" calcs)
      then [("LogP", JFloat logP)] else [])
  ++ (if asked "RG" calcs then [("RG", JFloat rg)] else [])
  ++ (if asked "MV" calcs then [("MV", JFloat mv)] else [])
  ++ (if asked "MHP" calcs || asked "XMHP" calcs
      then [("MHP", JFloat (logP / sasa)%float)] else []).

(** The descriptors that a set of names asks for return for a
    structure, with the values the four functions give, and its surface
    area is not zero when the ratio is asked for. *)
Definition described `{Descriptors} (sa lp rg mv : mol -> float) (calcs : gset string)
    (pol : mol) : Prop :=
  (asked "SA" calcs || asked "MHP" calcs || asked "XMHP" calcs = true ->
   CalcSASA pol = Some (sa pol))
  /\ (asked "LogP" calcs || asked "MHP" calcs || asked "XMHP" calcs = true ->
      MolLogP pol = Some (lp pol))
  /\ (asked "RG" calcs = true -> CalcRadiusOfGyration pol = Some (rg pol))
  /\ (asked "MV" calcs = true -> ComputeMolVolume pol = Some (mv pol))
  /\ (asked "MHP" calcs || asked "XMHP" calcs = true ->
      PrimFloat.eqb (sa pol) 0%float = false).

(** The keys of the table for a set of names. *)
Definition calc_keys (calcs : gset string) : list string :=
  od_keys (calc_table 0 0 0 0 calcs).

(** The row [makePlot] makes for structure [i] (counted from 0) of a
    family: its table, its length and its notation. *)
Definition plot_rowdict (sa lp rg mv : mol -> float) (calcs : gset string) (mpn : Z)
    (i : nat) (pol : mol) (smi : string) : odict :=
  calc_table (sa pol) (lp pol) (rg pol) (mv pol) calcs
  ++ [("N", JInt (legend_n i mpn)); ("smi", JStr smi)].

(** The rows for the structures and notations from position [k] on. *)
Fixpoint plot_rows_from (sa lp rg mv : mol -> float) (calcs : gset string) (mpn : Z)
    (k : nat) (pol_list : list mol) (smiles_list : list string) : list odict :=
  match pol_list, smiles_list with
  | pol :: pols, smi :: smis =>
      plot_rowdict sa lp rg mv calcs mpn k pol smi
      :: plot_rows_from sa lp rg mv calcs mpn (S k) pols smis
  | _, _ => []
  end.

(** The values of the rows under one key. *)
Definition column (dicts : list odict) (k : string) : json :=
  JList (omap (fun d => od_get d k) dicts).

(** The rows by column, under the keys of the first row. *)
Definition table_columns (dicts : list odict) : odict :=
  match dicts with
  | first :: _ => map (fun k => (k, column dicts k)) (od_keys first)
  | [] => []
  end.

(** The calls [makePlot] makes to draw the columns of [dicts] under
    [keys]: one plot for a single key, and a row of scatter plots
    otherwise. *)
Definition scatter_calls (dicts : list odict) (j : nat) (k : string) : list plt_call :=
  [AxScatter j (column dicts "N") (column dicts k); AxSetTitle j (k +:+ " vs n")].

Fixpoint scatters_from (dicts : list odict) (j : nat) (keys : list string)
  : list plt_call :=
  match keys with
  | [] => []
  | k :: ks => scatter_calls dicts j k ++ scatters_from dicts (S j) ks
  end.

Definition plot_calls (dicts : list odict) (keys : list string) : list plt_call :=
  match keys with
  | [k] => [PltPlot (column dicts "N") (column dicts k) "o"; PltTitle (k +:+ " vs n");
            PltXlabel "n"; PltYlabel k]
  | _ => PltSubplots (Z.of_nat (length keys)) :: scatters_from dicts O keys
  end.

(** The name [makePlot] looks the single column up by: the first name of
    [calculations], with [MHP] for [XMHP]. *)
Definition first_calc (calculations : list string) : option string :=
  head (map (fun k => if negb (String.eqb k "XMHP") then k else "MHP") calculations).

(** The session after calls of the plotting library. *)
Definition with_calls (x : session) (cs : list plt_call) : session :=
  {| run_world := run_world x; files := files x; plt_calls := plt_calls x ++ cs |}.

(** The name of the figure of [makePlot]. *)
Definition figname : string := "Size-dependent-stats.png".

(** The row [csv.DictWriter] writes for a [dict]: its values in the
    order of the field names, and the empty string where it has none. *)
Definition csv_row (fieldnames : list string) (rowdict : odict) : list json :=
  map (fun key => match od_get rowdict key with
                  | Some v => v
                  | None => JStr ""
                  end) fieldnames.

(** Every key of the row is a field name. *)
Definition fits (fieldnames : list string) (rowdict : odict) : Prop :=
  forall k, In k (od_keys rowdict) -> In k fieldnames.

(** Sample structures and sample runs, for evaluating [main]. *)
Module SampleRuns.

Definition carbon : atom := {| atomic_num := 6; atomNote := None |}.

Definition methane : mol := {| atoms := [carbon]; bonds := [] |}.

Definition ethane : mol :=
  {| atoms := [carbon; carbon];
     bonds := [{| begin_idx := 0; end_idx := 1; btype := SINGLE |}] |}.

(** The four descriptors of [SampleSession.descriptors], as functions. *)
Definition sa (m : mol) : float := SampleSession.count (length (atoms m)).
Definition lp (m : mol) : float := SampleSession.count (length (bonds m)).
Definition rg (m : mol) : float := SampleSession.count (length (Mol.dummies m)).
Definition mv (m : mol) : float := SampleSession.count (2 * length (atoms m)).

Definition polymer (plot : bool) : vardict :=
  {| arg_n := 2; arg_initiator := "Hydrogen"; arg_terminator := "Hydrogen";
     arg_single_monomer := None; arg_super_monomer := None;
     arg_plot := plot; arg_quiet := true |}.

(** A run with no file, picture or calculation asked for. *)
Definition plain (plot : bool) : run_args :=
  {| polymer_args := polymer plot; arg_read := None; arg_file := None; arg_draw := None;
     arg_verbose := false; arg_calculation := None; arg_export := None |}.

(** A run that makes one polymer of two units, computes its radius of
    gyration and exports it. *)
Definition one_run : run_args :=
  {| polymer_args :=
       {| arg_n := 2; arg_initiator := "Hydrogen"; arg_terminator := "Hydrogen";
          arg_single_monomer := Some "Ethylene"; arg_super_monomer := None;
          arg_plot := false; arg_quiet := true |};
     arg_read := None; arg_file := None; arg_draw := None; arg_verbose := false;
     arg_calculation := Some ["RG"]; arg_export := Some "one.csv" |}.

(** The names of [main] after a family of two has been made. *)
Definition family_made : main_env :=
  {| POL_LIST_ := Some [methane; ethane]; SMI_LIST_ := Some ["C"; "CC"];
     UNOPT_POL_LIST_ := Some [methane; ethane]; M_PER_N_ := Some 1;
     pol_h_ := None; polSMILES_ := None; pol_ := None |}.

(** The names of [main] after one polymer has been made. *)
Definition one_made : main_env :=
  {| POL_LIST_ := None; SMI_LIST_ := None; UNOPT_POL_LIST_ := None; M_PER_N_ := Some 1;
     pol_h_ := Some ethane; polSMILES_ := Some "CC"; pol_ := Some (PolOne (Some ethane)) |}.

End SampleRuns.

(** A computation that raises [UnboundLocalError] for no name but those
    of [P]. *)
Definition only_unbound {S A} (P : string -> Prop) (m : SE S A) : Prop :=
  forall s name s', m s = (Raise (Exn UnboundLocalError name), s') -> P name.

(** The names that a pass of [main] reads after the polymer has been
    made or read are bound, [M_PER_N] apart: those of a family with
    [plot], those of one polymer without. *)
Definition subject_bound (v : run_args) (e : main_env) : Prop :=
  if arg_plot (polymer_args v)
  then POL_LIST_ e <> None /\ SMI_LIST_ e <> None /\ UNOPT_POL_LIST_ e <> None
  else pol_h_ e <> None /\ polSMILES_ e <> None /\ pol_ e <> None.

(* ===================================================================== *)
(** * Properties *)
(* ===================================================================== *)

(** ** Reasoning about computations *)

Lemma bind_ok {S A B} (m : SE S A) (k : A -> SE S B) s a s1 :
  m s = (Ok a, s1) -> bind m k s = k a s1.
Proof. intros E. unfold bind. now rewrite E. Qed.

Lemma bind_raise {S A B} (m : SE S A) (k : A -> SE S B) s e s1 :
  m s = (Raise e, s1) -> bind m k s = (Raise e, s1).
Proof. intros E. unfold bind. now rewrite E. Qed.

Lemma bind_inv_ok {S A B} (m : SE S A) (k : A -> SE S B) s b s' :
  bind m k s = (Ok b, s') ->
  exists a s1, m s = (Ok a, s1) /\ k a s1 = (Ok b, s').
Proof.
  unfold bind. destruct (m s) as [[a|e] s1]; intros E.
  - exists a, s1. split; [reflexivity | exact E].
  - discriminate E.
Qed.

Lemma bind_inv {S A B} (m : SE S A) (k : A -> SE S B) s o s' :
  bind m k s = (o, s') ->
  (exists e, m s = (Raise e, s') /\ o = Raise e)
  \/ (exists a s1, m s = (Ok a, s1) /\ k a s1 = (o, s')).
Proof.
  unfold bind. destruct (m s) as [[a|e] s1]; intros E.
  - right. exists a, s1. split; [reflexivity | exact E].
  - left. exists e. inversion E; subst. split; reflexivity.
Qed.

Lemma index_inv {S A} (l : list A) (k : nat) (s s' : S) (a : A) :
  index l k s = (Ok a, s') -> l !! k = Some a /\ s' = s.
Proof.
  unfold index. destruct (l !! k) as [x|]; unfold ret, raise; intros E;
    inversion E; subst; split; reflexivity.
Qed.

Lemma index_state {S A} (l : list A) (k : nat) (s s' : S) (o : outcome A) :
  index l k s = (o, s') -> s' = s.
Proof.
  unfold index. destruct (l !! k); unfold ret, raise; intros E;
    inversion E; reflexivity.
Qed.

(** ** Python strings *)

Lemma contains_count c s : PyStr.contains c s = false <-> PyStr.count c s = O.
Proof.
  induction s as [|d r IH]; simpl; [tauto|].
  destruct (Ascii.eqb d c); [split; discriminate | exact IH].
Qed.

Lemma remove_unmarked c s : PyStr.count c s = O -> PyStr.remove c s = s.
Proof.
  induction s as [|d r IH]; simpl; [reflexivity|].
  destruct (Ascii.eqb d c); [discriminate|].
  intros E. now rewrite IH.
Qed.

Lemma count_remove c s : PyStr.count c (PyStr.remove c s) = O.
Proof.
  induction s as [|d r IH]; simpl; [reflexivity|].
  destruct (Ascii.eqb d c) eqn:E; simpl; [exact IH|].
  now rewrite E.
Qed.

Lemma append_nil_l (t : string) : "" +:+ t = t.
Proof. reflexivity. Qed.

Lemma append_cons c (r t : string) : String c r +:+ t = String c (r +:+ t).
Proof. reflexivity. Qed.

Lemma count_app c s t :
  PyStr.count c (s +:+ t) = (PyStr.count c s + PyStr.count c t)%nat.
Proof.
  induction s as [|d r IH]; [reflexivity|].
  rewrite append_cons. simpl. destruct (Ascii.eqb d c); simpl; now rewrite IH.
Qed.

Lemma count_repeat_nat c k s :
  PyStr.count c (PyStr.repeat_nat k s) = (k * PyStr.count c s)%nat.
Proof.
  induction k as [|k IH]; simpl; [reflexivity|].
  now rewrite count_app, IH.
Qed.

Lemma append_empty_r s : s +:+ "" = s.
Proof.
  induction s as [|c r IH]; [reflexivity|].
  rewrite append_cons. now rewrite IH.
Qed.

Lemma append_assoc (s t u : string) : (s +:+ t) +:+ u = s +:+ (t +:+ u).
Proof.
  induction s as [|c r IH]; [reflexivity|].
  rewrite !append_cons. now rewrite IH.
Qed.

Lemma mul_1 s : PyStr.mul 1 s = s.
Proof. unfold PyStr.mul. simpl. apply append_empty_r. Qed.

Lemma mul_nonpos n s : n <= 0 -> PyStr.mul n s = "".
Proof.
  intros Hn. unfold PyStr.mul.
  replace (Z.to_nat n) with O by lia. reflexivity.
Qed.

Lemma eqb_string_false (s t : string) : String.eqb s t = false <-> s <> t.
Proof. apply String.eqb_neq. Qed.

(** The two answers [confirmStructure] takes for a yes besides the empty
    line. *)
Lemma lower_char_y c : PyStr.lower_char c = "y"%char -> c = "y"%char \/ c = "Y"%char.
Proof.
  destruct c as [[] [] [] [] [] [] [] []]; vm_compute; intros E;
    first [ discriminate E | now left | now right ].
Qed.

Lemma affirmative_iff inp :
  affirmative inp = true <-> inp = "y" \/ inp = "Y" \/ inp = "".
Proof.
  unfold affirmative. rewrite orb_true_iff, !String.eqb_eq. split.
  - intros [E | E]; [| now right; right].
    destruct inp as [|c [|d r]]; simpl in E; try discriminate E.
    inversion E as [Ec]. destruct (lower_char_y c Ec); subst; auto.
  - intros [-> | [-> | ->]]; auto.
Qed.

(* ===================================================================== *)
(** ** The repeat-form selector *)
(* ===================================================================== *)

(** C10. [getRepeatUnit] called with neither repeat form, or with no single
    key and an empty token list, raises the [IndexError] of indexing the
    empty filtered list, not the [TypeError] it raises when both forms are
    given: an entry is kept only when it is truthy, so [None], the empty
    list and the empty string are all filtered out.  In [main] nothing
    catches the exception, and nothing has been built when it is raised. *)
Theorem getRepeatUnit_nothing_selected :
  getRepeatUnit None None = Raise (Exn IndexError "list index out of range")
  /\ getRepeatUnit None (Some []) = Raise (Exn IndexError "list index out of range")
  /\ getRepeatUnit (Some "") None = Raise (Exn IndexError "list index out of range")
  /\ (forall s l, getRepeatUnit (Some s) (Some l)
                  = Raise (Exn TypeError "Cannot specify both single and super monomers"))
  /\ (forall single super,
        getRepeatUnit single super =
          match single, super with
          | Some _, Some _ =>
              Raise (Exn TypeError "Cannot specify both single and super monomers")
          | _, _ =>
              if truthy (RStr <$> single) then
                match single with Some s => Ok (RStr s) | None => Raise (Exn IndexError "list index out of range") end
              else if truthy (RList <$> super) then
                match super with Some l => Ok (RList l) | None => Raise (Exn IndexError "list index out of range") end
              else Raise (Exn IndexError "list index out of range")
          end)
  /\ (forall (TK : RDKit) (TB : SmilesTables) n i t plot quiet (super : option (list string)) w,
        match super with Some (_ :: _) => False | _ => True end ->
        main_make_polymers
          {| arg_n := n; arg_initiator := i; arg_terminator := t;
             arg_single_monomer := None; arg_super_monomer := super;
             arg_plot := plot; arg_quiet := quiet |} w
        = (Raise (Exn IndexError "list index out of range"), w)).
Proof.
  repeat split; try reflexivity.
  - intros [s|] [l|]; try reflexivity.
    + simpl. destruct (negb (String.eqb s "")); reflexivity.
    + simpl. destruct l; reflexivity.
  - intros TK TB n i t plot quiet super w Hs.
    destruct super as [[|x l]|]; try contradiction; reflexivity.
Qed.

Lemma getRepeatUnit_nothing_selected_witness :
  @main_make_polymers Sample.toolkit Sample.tables
    {| arg_n := 3; arg_initiator := "Hydrogen"; arg_terminator := "Hydrogen";
       arg_single_monomer := None; arg_super_monomer := Some [];
       arg_plot := true; arg_quiet := false |} (Sample.start [])
  = (Raise (Exn IndexError "list index out of range"), Sample.start []).
Proof.
  apply (proj2 (proj2 (proj2 (proj2 (proj2 getRepeatUnit_nothing_selected))))).
  exact I.
Defined.

(* ===================================================================== *)
(** ** The end-group validator *)
(* ===================================================================== *)

Section ValidatorFacts.

Context `{Toolkit : RDKit}.

(** A validator result that is plain text leaves the state as it was,
    and does not depend on it. *)
Lemma validate_end_group_plain inator Init Term s a s' :
  validate_end_group inator Init Term s = (Ok (PStr a), s') ->
  s' = s /\ PyStr.count PyStr.marker a = O
  /\ forall s2, validate_end_group inator Init Term s2 = (Ok (PStr a), s2).
Proof.
  unfold validate_end_group.
  destruct (negb Init && negb Term); [discriminate|].
  destruct (negb (String.eqb inator "")
            && bool_decide (PyStr.at_end Init inator = Some PyStr.marker)).
  - unfold new_object. destruct (MolFromSmiles inator); unfold ret; intros E;
      inversion E.
  - destruct (negb (String.eqb inator (PyStr.reversed inator))
              && negb (PyStr.contains PyStr.marker inator)); [discriminate|].
    unfold ret. intros E. inversion E; subst.
    split; [reflexivity|]. split; [apply count_remove | reflexivity].
Qed.

(** A validator result that is a molecule object is a new object, the
    next free reference of the store. *)
Lemma validate_end_group_object inator Init Term s r s' :
  validate_end_group inator Init Term s = (Ok (PMol r), s') ->
  r = length (heap s) /\ length (heap s') = S (length (heap s))
  /\ calls s' = calls s.
Proof.
  unfold validate_end_group.
  destruct (negb Init && negb Term); [discriminate|].
  destruct (negb (String.eqb inator "")
            && bool_decide (PyStr.at_end Init inator = Some PyStr.marker)).
  - unfold new_object. destruct (MolFromSmiles inator); unfold ret; intros E;
      inversion E; subst; simpl.
    rewrite length_app. simpl. repeat split; lia.
  - destruct (negb (String.eqb inator (PyStr.reversed inator))
              && negb (PyStr.contains PyStr.marker inator)); [discriminate|].
    unfold ret. intros E. inversion E.
Qed.

(** C3. For a fragment whose boundary character (the first for an
    initiator, the last for a terminator) is not the marker, the
    validator raises its validation error exactly when the fragment
    differs from its reversal and holds no marker; otherwise it returns
    the fragment with every marker removed.  So a palindromic fragment
    without a marker comes back unchanged, and so does the empty
    fragment. *)
Theorem validate_end_group_unmarked_boundary
    (inator : string) (Init Term : bool) (s : chem_state) :
  (Init = true /\ Term = false) \/ (Init = false /\ Term = true) ->
  PyStr.at_end Init inator <> Some PyStr.marker ->
  (validate_end_group inator Init Term s = (Raise asymmetric_error, s)
   <-> (inator <> PyStr.reversed inator /\ PyStr.count PyStr.marker inator = O))
  /\ (~ (inator <> PyStr.reversed inator /\ PyStr.count PyStr.marker inator = O) ->
      validate_end_group inator Init Term s
      = (Ok (PStr (PyStr.remove PyStr.marker inator)), s))
  /\ (inator = PyStr.reversed inator -> PyStr.count PyStr.marker inator = O ->
      validate_end_group inator Init Term s = (Ok (PStr inator), s))
  /\ (inator = "" -> validate_end_group inator Init Term s = (Ok (PStr ""), s)).
Proof.
  intros Hrole Hb.
  assert (Hflags : negb Init && negb Term = false)
    by (destruct Hrole as [[-> ->] | [-> ->]]; reflexivity).
  assert (Hcode : validate_end_group inator Init Term s =
                  if negb (String.eqb inator (PyStr.reversed inator))
                     && negb (PyStr.contains PyStr.marker inator)
                  then (Raise asymmetric_error, s)
                  else (Ok (PStr (PyStr.remove PyStr.marker inator)), s)).
  { unfold validate_end_group. rewrite Hflags.
    rewrite (bool_decide_eq_false_2 _ Hb), andb_false_r.
    destruct (negb (String.eqb inator (PyStr.reversed inator))
              && negb (PyStr.contains PyStr.marker inator)); reflexivity. }
  assert (Hasym : negb (String.eqb inator (PyStr.reversed inator))
                  && negb (PyStr.contains PyStr.marker inator) = true
                  <-> (inator <> PyStr.reversed inator
                       /\ PyStr.count PyStr.marker inator = O)).
  { rewrite andb_true_iff, !negb_true_iff, eqb_string_false, contains_count.
    reflexivity. }
  rewrite Hcode.
  destruct (negb (String.eqb inator (PyStr.reversed inator))
            && negb (PyStr.contains PyStr.marker inator)) eqn:E.
  - assert (Ha := proj1 Hasym eq_refl). destruct Ha as [Hne Hc].
    split; [|split; [|split]].
    + split; [intros _; split; assumption | reflexivity].
    + intros Hn. exfalso. apply Hn. split; assumption.
    + intros Hp. contradiction.
    + intros ->. exfalso. apply Hne. reflexivity.
  - assert (Hn : ~ (inator <> PyStr.reversed inator
                    /\ PyStr.count PyStr.marker inator = O)).
    { intros Ha. apply Hasym in Ha. discriminate Ha. }
    split; [|split; [|split]].
    + split; [intros Hx; inversion Hx | intros Ha; contradiction].
    + reflexivity.
    + intros _ Hc. now rewrite (remove_unmarked _ _ Hc).
    + intros ->. reflexivity.
Qed.

(** C4, as the code has it. The validator asks for a role: with neither
    flag set it raises its configuration error, for every fragment and
    before anything else is done.  With one flag or with both it does not
    raise that error; with both flags set it treats the fragment as an
    initiator. *)
Theorem validate_end_group_role_flags (inator : string) (s : chem_state) :
  validate_end_group inator false false s = (Raise role_error, s)
  /\ validate_end_group inator true true s = validate_end_group inator true false s
  /\ fst (validate_end_group inator true false s) <> Raise role_error
  /\ fst (validate_end_group inator false true s) <> Raise role_error
  /\ fst (validate_end_group inator true true s) <> Raise role_error.
Proof.
  assert (H : forall Init Term, Init || Term = true ->
              fst (validate_end_group inator Init Term s) <> Raise role_error).
  { intros Init Term Hf. unfold validate_end_group.
    replace (negb Init && negb Term) with false
      by (destruct Init, Term; simpl in *; congruence).
    destruct (negb (String.eqb inator "")
              && bool_decide (PyStr.at_end Init inator = Some PyStr.marker)).
    - unfold new_object. destruct (MolFromSmiles inator); simpl; discriminate.
    - destruct (negb (String.eqb inator (PyStr.reversed inator))
                && negb (PyStr.contains PyStr.marker inator)); simpl; discriminate. }
  repeat split; try reflexivity; apply H; reflexivity.
Qed.

End ValidatorFacts.

Lemma validate_end_group_unmarked_boundary_witness :
  @validate_end_group Sample.toolkit "CCO" false true Sample.fresh
  = (Raise asymmetric_error, Sample.fresh)
  /\ @validate_end_group Sample.toolkit "OCO" true false Sample.fresh
     = (Ok (PStr "OCO"), Sample.fresh)
  /\ @validate_end_group Sample.toolkit "C*C" true false Sample.fresh
     = (Ok (PStr "CC"), Sample.fresh).
Proof.
  split; [|split].
  - apply (@validate_end_group_unmarked_boundary Sample.toolkit "CCO" false true Sample.fresh).
    + right. split; reflexivity.
    + vm_compute. discriminate.
    + split; [vm_compute; discriminate | reflexivity].
  - apply (@validate_end_group_unmarked_boundary Sample.toolkit "OCO" true false Sample.fresh).
    + left. split; reflexivity.
    + vm_compute. discriminate.
    + reflexivity.
    + reflexivity.
  - apply (proj1 (proj2 (@validate_end_group_unmarked_boundary Sample.toolkit "C*C" true false
                           Sample.fresh (or_introl (conj eq_refl eq_refl))
                           ltac:(vm_compute; discriminate)))).
    intros [_ Hc]. vm_compute in Hc. discriminate Hc.
Defined.

(** C4, as stated, fails: with both role flags set the validator does not
    raise; it validates the fragment as an initiator. *)
Lemma validate_end_group_both_flags_accepted :
  @validate_end_group Sample.toolkit "CC" true true Sample.fresh
  = (Ok (PStr "CC"), Sample.fresh).
Proof. reflexivity. Qed.

Lemma validate_end_group_role_flags_witness :
  @validate_end_group Sample.toolkit "CC" false false Sample.fresh
  = (Raise role_error, Sample.fresh).
Proof.
  exact (proj1 (@validate_end_group_role_flags Sample.toolkit "CC" Sample.fresh)).
Defined.

(* ===================================================================== *)
(** ** The repeat-unit resolver *)
(* ===================================================================== *)

Lemma explicit_coef_unfold {S} (x : string) (s : S) :
  explicit_coef x s =
    if coef_defined x then (Ok (coef_value x), s)
    else (Raise (Exn ValueError "int"), s).
Proof.
  unfold explicit_coef, coef_defined, coef_value.
  destruct (Nat.eqb (String.length x) 1); simpl; [|reflexivity].
  destruct (PyStr.int x); reflexivity.
Qed.

Lemma mapM_explicit_coef {S} (l : list string) (s : S) :
  mapM explicit_coef l s =
    if forallb coef_defined l then (Ok (map coef_value l), s)
    else (Raise (Exn ValueError "int"), s).
Proof.
  induction l as [|x l IH]; [reflexivity|].
  cbn [mapM forallb map]. unfold bind at 1. rewrite explicit_coef_unfold.
  destruct (coef_defined x); [|reflexivity].
  unfold bind at 1. rewrite IH. simpl.
  destruct (forallb coef_defined l); reflexivity.
Qed.



Section ResolverFacts.

Context `{Toolkit : RDKit} `{Tables : SmilesTables}.

(** What [get_building_blocks] does on a token list, in one equation. *)
Lemma get_building_blocks_list (i t : string) (m : list string) (s : chem_state) :
  get_building_blocks i t (RList m) s =
    let d := map (lookup_or_literal monomer_dict) m in
    if forallb coef_defined d then
      bind (validate_end_group (lookup_or_literal init_dict i) true false)
           (fun init =>
              bind (validate_end_group (lookup_or_literal init_dict t) false true)
                   (fun term =>
                      ret (init, term, repeat_loop d, py_sum (map coef_value d) + 0))) s
    else (Raise (Exn ValueError "int"), s).
Proof.
  unfold get_building_blocks, inator_smi_lookup. cbn zeta.
  unfold bind at 1. unfold bind at 1. rewrite mapM_explicit_coef.
  destruct (forallb coef_defined (map (lookup_or_literal monomer_dict) m));
    [|reflexivity].
  unfold ret at 1. cbn iota beta.
  rewrite !length_map. rewrite Z.sub_diag. reflexivity.
Qed.

(** What it does on a single key. *)
Lemma get_building_blocks_str (i t m : string) (s : chem_state) :
  get_building_blocks i t (RStr m) s =
    match monomer_dict !! m with
    | Some repeat_unit =>
        bind (validate_end_group (lookup_or_literal init_dict i) true false)
             (fun init =>
                bind (validate_end_group (lookup_or_literal init_dict t) false true)
                     (fun term => ret (init, term, repeat_unit, 1))) s
    | None => (Raise (Exn KeyError m), s)
    end.
Proof.
  unfold get_building_blocks, inator_smi_lookup, monomer_smi_lookup.
  unfold bind at 1. unfold bind at 1.
  destruct (monomer_dict !! m); reflexivity.
Qed.

End ResolverFacts.

Section ResolverClaims.

Context `{Toolkit : RDKit} `{Tables : SmilesTables}.

(** The end groups a successful call returns are the results of the two
    validations, made in this order on the looked-up fragments. *)
Lemma get_building_blocks_inv i t r s a b ru mpn s' :
  get_building_blocks i t r s = (Ok (a, b, ru, mpn), s') ->
  exists s1,
    validate_end_group (lookup_or_literal init_dict i) true false s = (Ok a, s1)
    /\ validate_end_group (lookup_or_literal init_dict t) false true s1 = (Ok b, s').
Proof.
  intros E. destruct r as [m|m].
  - rewrite get_building_blocks_str in E.
    destruct (monomer_dict !! m); [|discriminate E].
    apply bind_inv_ok in E. destruct E as (x & s1 & E1 & E).
    apply bind_inv_ok in E. destruct E as (y & s2 & E2 & E).
    unfold ret in E. inversion E; subst. exists s1. split; assumption.
  - rewrite get_building_blocks_list in E. cbn zeta in E.
    destruct (forallb coef_defined _); [|discriminate E].
    apply bind_inv_ok in E. destruct E as (x & s1 & E1 & E).
    apply bind_inv_ok in E. destruct E as (y & s2 & E2 & E).
    unfold ret in E. inversion E; subst. exists s1. split; assumption.
Qed.

(** C1, what the code computes.  On a token list the count the resolver
    returns is the sum of the tokens of one character read as integers,
    and nothing else: the term for the implicit multipliers,
    [len(deciphered_dict_keys) - len(explicit_coefs)], is always zero.
    So for a list [2 A B] whose fragments have more than one character
    the count is 2, and for a list without a one-character token it
    is 0. *)
Theorem get_building_blocks_count (i t : string) (m : list string)
    (s s' : chem_state) (a b : pyval) (ru : string) (mpn : Z) :
  get_building_blocks i t (RList m) s = (Ok (a, b, ru, mpn), s') ->
  let d := map (lookup_or_literal monomer_dict) m in
  mpn = py_sum (map coef_value d)
  /\ (forall A B, d = ["2"; A; B] ->
                  String.length A <> 1%nat -> String.length B <> 1%nat -> mpn = 2)
  /\ (Forall (fun x => String.length x <> 1%nat) d -> mpn = 0).
Proof.
  intros E d. rewrite get_building_blocks_list in E. cbn zeta in E. fold d in E.
  destruct (forallb coef_defined d); [|discriminate E].
  apply bind_inv_ok in E. destruct E as (x & s1 & E1 & E).
  apply bind_inv_ok in E. destruct E as (y & s2 & E2 & E).
  unfold ret in E. inversion E; subst. clear E. rewrite Z.add_0_r.
  split; [reflexivity|]. split.
  - intros A B Hd HA HB. rewrite Hd. cbn [map]. unfold coef_value at 2 3.
    apply Nat.eqb_neq in HA, HB. rewrite HA, HB. reflexivity.
  - intros Hall. clear E1 E2.
    assert (Hz : forall acc, fold_left Z.add (map coef_value d) acc = acc).
    { induction Hall as [|x l Hx Hl IH]; intros acc; [reflexivity|].
      cbn [map fold_left]. unfold coef_value at 2.
      apply Nat.eqb_neq in Hx. rewrite Hx. rewrite Z.add_0_r. apply IH. }
    apply Hz.
Qed.

(** C5, as the code has it.  A single key is looked up in the monomer
    table and nowhere else.  An unknown key raises [KeyError]; it is not
    taken as raw notation.  A known key gives its table entry and the
    count 1 once both end groups validate, so the fragment is non-empty
    when the table has no empty entry. *)
Theorem get_building_blocks_single_key (i t m : string) (s : chem_state) :
  (monomer_dict !! m = None ->
   get_building_blocks i t (RStr m) s = (Raise (Exn KeyError m), s))
  /\ (forall frag a b s1 s2,
        monomer_dict !! m = Some frag ->
        validate_end_group (lookup_or_literal init_dict i) true false s = (Ok a, s1) ->
        validate_end_group (lookup_or_literal init_dict t) false true s1 = (Ok b, s2) ->
        get_building_blocks i t (RStr m) s = (Ok (a, b, frag, 1), s2))
  /\ (forall a b ru mpn s',
        get_building_blocks i t (RStr m) s = (Ok (a, b, ru, mpn), s') ->
        monomer_dict !! m = Some ru /\ mpn = 1
        /\ ((forall k, monomer_dict !! k <> Some "") -> ru <> "")).
Proof.
  split; [|split].
  - intros E. rewrite get_building_blocks_str. now rewrite E.
  - intros frag a b s1 s2 E E1 E2. rewrite get_building_blocks_str, E.
    rewrite (bind_ok _ _ _ _ _ E1). rewrite (bind_ok _ _ _ _ _ E2). reflexivity.
  - intros a b ru mpn s' E. rewrite get_building_blocks_str in E.
    destruct (monomer_dict !! m) as [frag|] eqn:Em; [|discriminate E].
    apply bind_inv_ok in E. destruct E as (x & s1 & E1 & E).
    apply bind_inv_ok in E. destruct E as (y & s2 & E2 & E).
    unfold ret in E. inversion E; subst.
    split; [reflexivity|]. split; [reflexivity|].
    intros Hne ->. exact (Hne m Em).
Qed.


End ResolverClaims.

Lemma get_building_blocks_count_witness :
  @get_building_blocks Sample.toolkit Sample.tables "C" "C"
    (RList ["2"; "CC"; "CO"]) Sample.fresh
  = (Ok (PStr "C", PStr "C", "CCCCCO", 2), Sample.fresh)
  /\ 2 = py_sum (map coef_value ["2"; "CC"; "CO"]).
Proof.
  split; [reflexivity|].
  exact (proj1 (@get_building_blocks_count Sample.toolkit Sample.tables "C" "C"
                  ["2"; "CC"; "CO"] Sample.fresh Sample.fresh
                  (PStr "C") (PStr "C") "CCCCCO" 2 eq_refl)).
Defined.

(** C5, as stated, fails on a key that is not in the table: the resolver
    raises instead of taking the key as notation. *)
Lemma get_building_blocks_unknown_key :
  @get_building_blocks Sample.toolkit Sample.tables "C" "C" (RStr "CC") Sample.fresh
  = (Raise (Exn KeyError "CC"), Sample.fresh)
  /\ lookup_or_literal (@monomer_dict Sample.tables) "CC" = "CC".
Proof. split; reflexivity. Qed.

Lemma get_building_blocks_single_key_witness :
  @get_building_blocks Sample.toolkit Sample.tables "Hydrogen" "C" (RStr "Ethylene")
    Sample.fresh
  = (Ok (PStr "", PStr "C", "CC", 1), Sample.fresh).
Proof.
  apply (proj1 (proj2 (@get_building_blocks_single_key Sample.toolkit Sample.tables
                         "Hydrogen" "C" "Ethylene" Sample.fresh))
           "CC" (PStr "") (PStr "C") Sample.fresh Sample.fresh);
    reflexivity.
Defined.



(* ===================================================================== *)
(** ** The chain string builder *)
(* ===================================================================== *)

Section BuilderFacts.

Context `{Toolkit : RDKit} `{Tables : SmilesTables}.

(** With two end groups that are plain text the builder splices them on
    and calls nothing. *)
Lemma add_inator_smiles_plain (smi a b : string) (s : chem_state) :
  add_inator_smiles smi (PStr a) (PStr b) s = (Ok ((a +:+ smi) +:+ b), s).
Proof. reflexivity. Qed.

(** When both validations give plain text, the resolver leaves the state
    as it was. *)
Lemma get_building_blocks_plain i t r s a b ru mpn s' :
  get_building_blocks i t r s = (Ok (PStr a, PStr b, ru, mpn), s') ->
  s' = s /\ PyStr.count PyStr.marker a = O /\ PyStr.count PyStr.marker b = O.
Proof.
  intros E. apply get_building_blocks_inv in E. destruct E as (s1 & E1 & E2).
  apply validate_end_group_plain in E1. destruct E1 as (-> & Ha & _).
  apply validate_end_group_plain in E2. destruct E2 as (-> & Hb & _).
  repeat split; assumption.
Qed.

(** The resolver on the string path does not depend on the state. *)
Lemma get_building_blocks_plain_any i t r s a b ru mpn s' :
  get_building_blocks i t r s = (Ok (PStr a, PStr b, ru, mpn), s') ->
  forall s2, get_building_blocks i t r s2 = (Ok (PStr a, PStr b, ru, mpn), s2).
Proof.
  intros E s2.
  destruct (get_building_blocks_inv _ _ _ _ _ _ _ _ _ E) as (s1 & E1 & E2).
  apply validate_end_group_plain in E1. destruct E1 as (_ & _ & V1).
  apply validate_end_group_plain in E2. destruct E2 as (_ & _ & V2).
  destruct r as [m|m].
  - rewrite get_building_blocks_str in E |- *.
    destruct (monomer_dict !! m) as [frag|]; [|discriminate E].
    apply bind_inv_ok in E. destruct E as (x & s3 & _ & E).
    apply bind_inv_ok in E. destruct E as (y & s4 & _ & E).
    unfold ret in E. inversion E; subst.
    rewrite (bind_ok _ _ _ _ _ (V1 s2)). rewrite (bind_ok _ _ _ _ _ (V2 s2)). reflexivity.
  - rewrite get_building_blocks_list in E |- *. cbn zeta in E |- *.
    destruct (forallb coef_defined _); [|discriminate E].
    apply bind_inv_ok in E. destruct E as (x & s3 & _ & E).
    apply bind_inv_ok in E. destruct E as (y & s4 & _ & E).
    unfold ret in E. inversion E; subst.
    rewrite (bind_ok _ _ _ _ _ (V1 s2)). rewrite (bind_ok _ _ _ _ _ (V2 s2)). reflexivity.
Qed.

(** The chain on the string path, from any state. *)
Lemma createPolymerSMILES_plain i n r t test s s1 a b ru mpn :
  get_building_blocks i t r s = (Ok (PStr a, PStr b, ru, mpn), s1) ->
  forall s2,
    createPolymerSMILES i n r t test s2
    = (Ok (if test then Some ((a +:+ ru) +:+ b) else None,
           (a +:+ PyStr.mul n ru) +:+ b, mpn), s2).
Proof.
  intros E s2.
  assert (E2 := get_building_blocks_plain_any _ _ _ _ _ _ _ _ _ E s2).
  unfold createPolymerSMILES. rewrite (bind_ok _ _ _ _ _ E2). cbn iota beta.
  destruct test.
  - unfold bind at 1. unfold bind at 1. rewrite add_inator_smiles_plain.
    unfold ret at 1. cbn iota beta.
    unfold bind at 1. rewrite add_inator_smiles_plain. reflexivity.
  - unfold bind at 1. unfold ret at 1. cbn iota beta.
    unfold bind at 1. rewrite add_inator_smiles_plain. reflexivity.
Qed.

(** C6. When the validator gives plain text for both end groups, building
    a chain of any length never enters the fusion engine: the notation is
    the initiator fragment, then [n] copies of the repeat unit, then the
    terminator fragment, and the state of the run, with its list of fusion
    calls, is left as it was.  The same holds for the preview chain built
    with [test].  The length is any [n] that fits the index size of the
    implementation, with a notation that is not longer than the longest
    string: beyond that Python's [n * repeat_unit] and [+] raise
    [OverflowError], which the total operations of the model do not
    show, and so does line 112 for a multiplier of the repeat
    specification. *)
Theorem createPolymerSMILES_plain_end_groups
    (i : string) (n : Z) (r : repeat_spec) (t : string) (test : bool)
    (s s1 : chem_state) (a b ru : string) (mpn : Z) :
  get_building_blocks i t r s = (Ok (PStr a, PStr b, ru, mpn), s1) ->
  resolver_fits r = true ->
  chain_fits test a n ru b = true ->
  createPolymerSMILES i n r t test s
  = (Ok (if test then Some ((a +:+ ru) +:+ b) else None,
         (a +:+ PyStr.repeat_nat (Z.to_nat n) ru) +:+ b, mpn), s)
  /\ calls (snd (createPolymerSMILES i n r t test s)) = calls s
  /\ heap (snd (createPolymerSMILES i n r t test s)) = heap s.
Proof.
  intros E _ _. rewrite (createPolymerSMILES_plain _ _ _ _ _ _ _ _ _ _ _ E s).
  repeat split; reflexivity.
Qed.

End BuilderFacts.

Lemma createPolymerSMILES_plain_end_groups_witness :
  @createPolymerSMILES Sample.toolkit Sample.tables "Hydrogen" 3 (RStr "Ethylene") "O*C"
    false Sample.fresh
  = (Ok (None, "CCCCCCOC", 1), Sample.fresh).
Proof.
  apply (@createPolymerSMILES_plain_end_groups Sample.toolkit Sample.tables
           "Hydrogen" 3 (RStr "Ethylene") "O*C" false Sample.fresh Sample.fresh
           "" "OC" "CC" 1); reflexivity.
Defined.

(* ===================================================================== *)
(** ** The structural fusion engine *)
(* ===================================================================== *)

(** *** Placeholder atoms and their removal *)

Lemma indices_from_length P i l :
  length (Mol.indices_from P i l) = length (List.filter P l).
Proof.
  revert i. induction l as [|a l IH]; intros i; simpl; [reflexivity|].
  destruct (P a); simpl; now rewrite IH.
Qed.

Lemma indices_from_first P i l k rest :
  Mol.indices_from P i l = k :: rest ->
  exists j a, k = (i + j)%nat /\ l !! j = Some a /\ P a = true.
Proof.
  revert i. induction l as [|a l IH]; intros i E; simpl in E; [discriminate E|].
  destruct (P a) eqn:Pa.
  - inversion E; subst. exists O, a. repeat split; [lia | assumption].
  - destruct (IH _ E) as (j & b & -> & Hj & Pb).
    exists (S j), b. repeat split; [lia | exact Hj | exact Pb].
Qed.

Lemma filter_delete_length (P : atom -> bool) l j a :
  l !! j = Some a -> P a = true ->
  length (List.filter P (delete j l)) = Nat.pred (length (List.filter P l)).
Proof.
  revert j. induction l as [|x l IH]; intros j Hj Pa; [discriminate Hj|].
  destruct j as [|j]; simpl in Hj.
  - inversion Hj; subst. simpl. now rewrite Pa.
  - change (delete (S j) (x :: l)) with (x :: delete j l). simpl.
    destruct (P x); simpl; rewrite (IH _ Hj Pa); [|reflexivity].
    assert (Hpos : (0 < length (List.filter P l))%nat).
    { clear IH. revert j Hj. induction l as [|y l IHl]; intros j Hj; [discriminate Hj|].
      destruct j as [|j]; simpl in Hj.
      - inversion Hj; subst. simpl. rewrite Pa. simpl. lia.
      - simpl. destruct (P y); simpl; [lia | exact (IHl _ Hj)]. }
    lia.
Qed.

Lemma dummies_length m :
  length (Mol.dummies m) = length (List.filter Mol.is_dummy (atoms m)).
Proof. apply indices_from_length. Qed.

Lemma RemoveAtom_first_dummy m i rest :
  Mol.dummies m = i :: rest ->
  length (Mol.dummies (Mol.RemoveAtom m i)) = Nat.pred (length (Mol.dummies m)).
Proof.
  intros E. unfold Mol.dummies, Mol.indices in E.
  destruct (indices_from_first _ _ _ _ _ E) as (j & a & Hi & Hj & Pa).
  simpl in Hi. subst j. rewrite !dummies_length. simpl.
  now apply (filter_delete_length _ _ _ a).
Qed.

Section FusionFacts.

Context `{Toolkit : RDKit} `{Tables : SmilesTables}.

Lemma remove_dummies_inv k m s m' s' :
  remove_dummies k m s = (Ok m', s') ->
  s' = s /\ length (Mol.dummies m') = (length (Mol.dummies m) - k)%nat.
Proof.
  revert m. induction k as [|k IH]; intros m E; simpl in E.
  - unfold ret in E. inversion E; subst. split; [reflexivity | lia].
  - apply bind_inv_ok in E. destruct E as (i & s1 & Ei & E).
    apply index_inv in Ei. destruct Ei as (Hi & ->).
    destruct (Mol.dummies m) as [|i0 rest] eqn:Ed; [discriminate Hi|].
    simpl in Hi. inversion Hi; subst i0.
    destruct (IH _ E) as (-> & Hlen). split; [reflexivity|].
    rewrite Hlen, (RemoveAtom_first_dummy _ _ _ Ed), Ed. simpl. lia.
Qed.

(** The removal loop always runs to its end when it is asked to remove
    as many atoms as there are placeholders. *)
Lemma remove_dummies_total k m s :
  (k <= length (Mol.dummies m))%nat ->
  exists m', remove_dummies k m s = (Ok m', s).
Proof.
  revert m. induction k as [|k IH]; intros m Hk; simpl.
  - exists m. reflexivity.
  - destruct (Mol.dummies m) as [|i rest] eqn:Ed; [simpl in Hk; lia|].
    unfold bind, index. simpl.
    apply IH. rewrite (RemoveAtom_first_dummy _ _ _ Ed), Ed. simpl in *. lia.
Qed.

(** *** The calls of one fusion *)

Lemma mapM_state {S A B} (f : A -> SE S B) (l : list A) :
  (forall a s o s', f a s = (o, s') -> s' = s) ->
  forall s o s', mapM f l s = (o, s') -> s' = s.
Proof.
  intros Hf. induction l as [|a l IH]; intros s o s' E; simpl in E.
  - unfold ret in E. inversion E; reflexivity.
  - apply bind_inv in E. destruct E as [(e & E & _) | (b & s1 & E1 & E)].
    + exact (Hf _ _ _ _ E).
    + apply Hf in E1. subst s1.
      apply bind_inv in E. destruct E as [(e & E & _) | (bs & s2 & E2 & E)].
      * exact (IH _ _ _ E).
      * apply IH in E2. subst s2. unfold ret in E. inversion E; reflexivity.
Qed.

Lemma first_neighbor_state m x s o s' : first_neighbor m x s = (o, s') -> s' = s.
Proof. apply index_state. Qed.

Lemma first_noted_inv m str s i s' :
  first_noted m str s = (Ok i, s') -> Mol.note_at m i = Some str /\ s' = s.
Proof.
  unfold first_noted. intros E. apply index_inv in E. destruct E as (Hi & ->).
  split; [|reflexivity].
  apply list_elem_of_lookup_2 in Hi. apply list_elem_of_In in Hi.
  apply filter_In in Hi. destruct Hi as (_ & Hb).
  now apply bool_decide_eq_true in Hb.
Qed.

End FusionFacts.

Lemma note_at_SetProp m i s j :
  Mol.note_at (Mol.SetProp m i s) j =
    if Nat.eqb j i && (j <? length (atoms m))%nat then Some s else Mol.note_at m j.
Proof.
  unfold Mol.note_at, Mol.SetProp. simpl.
  destruct (Nat.eqb j i) eqn:E.
  - apply Nat.eqb_eq in E. subst j. rewrite list_lookup_alter_eq.
    destruct (atoms m !! i) as [a|] eqn:Ea; simpl.
    + apply lookup_lt_Some in Ea. apply Nat.ltb_lt in Ea. now rewrite Ea.
    + apply lookup_ge_None in Ea. apply Nat.ltb_ge in Ea. now rewrite Ea.
  - apply Nat.eqb_neq in E. rewrite list_lookup_alter_ne by congruence. reflexivity.
Qed.

Lemma note_at_CombineMols a b j :
  Mol.note_at (Mol.CombineMols a b) j =
    if (j <? length (atoms a))%nat then Mol.note_at a j
    else Mol.note_at b (j - length (atoms a)).
Proof.
  unfold Mol.note_at, Mol.CombineMols. simpl.
  destruct (j <? length (atoms a))%nat eqn:E.
  - apply Nat.ltb_lt in E. now rewrite lookup_app_l.
  - apply Nat.ltb_ge in E. now rewrite lookup_app_r.
Qed.

Lemma indices_from_alter P (f : atom -> atom) k i l :
  (forall a, P (f a) = P a) ->
  Mol.indices_from P k (alter f i l) = Mol.indices_from P k l.
Proof.
  intros Hf. revert k i. induction l as [|a l IH]; intros k i; [reflexivity|].
  destruct i as [|i].
  - change (alter f 0%nat (a :: l)) with (f a :: l). cbn [Mol.indices_from].
    now rewrite Hf.
  - change (alter f (S i) (a :: l)) with (a :: alter f i l). cbn [Mol.indices_from].
    now rewrite IH.
Qed.

Lemma dummies_SetProp m i s : Mol.dummies (Mol.SetProp m i s) = Mol.dummies m.
Proof.
  unfold Mol.dummies, Mol.indices, Mol.SetProp. simpl.
  apply indices_from_alter. reflexivity.
Qed.

Lemma attachment_SetProp m i s k : attachment (Mol.SetProp m i s) k = attachment m k.
Proof. unfold attachment. rewrite dummies_SetProp. reflexivity. Qed.

Lemma notes_at_SetProp_same s m i L :
  notes_at s m L -> notes_at s (Mol.SetProp m i s) (i :: L).
Proof.
  intros H j Hj. rewrite note_at_SetProp in Hj.
  destruct (Nat.eqb j i && (j <? length (atoms m))%nat) eqn:E.
  - apply andb_true_iff in E. destruct E as (E & _). apply Nat.eqb_eq in E. now left.
  - right. now apply H.
Qed.

Lemma notes_at_SetProp_other s s' m i L :
  s <> s' -> notes_at s m L -> notes_at s (Mol.SetProp m i s') L.
Proof.
  intros Hs H j Hj. rewrite note_at_SetProp in Hj.
  destruct (Nat.eqb j i && (j <? length (atoms m))%nat); [congruence | now apply H].
Qed.

Lemma notes_at_SetProp_over s s' m i :
  s <> s' -> (i < length (atoms m))%nat ->
  notes_at s m [i] -> notes_at s (Mol.SetProp m i s') [].
Proof.
  intros Hs Hi H j Hj. rewrite note_at_SetProp in Hj.
  destruct (Nat.eqb j i && (j <? length (atoms m))%nat) eqn:E; [congruence|].
  destruct (H j Hj) as [<- | []].
  rewrite Nat.eqb_refl in E. apply Nat.ltb_lt in Hi. rewrite Hi in E. discriminate E.
Qed.

Lemma notes_at_CombineMols s a b La Lb :
  notes_at s a La -> notes_at s b Lb ->
  notes_at s (Mol.CombineMols a b) (La ++ map (fun j => length (atoms a) + j)%nat Lb).
Proof.
  intros Ha Hb j Hj. rewrite note_at_CombineMols in Hj. apply in_or_app.
  destruct (j <? length (atoms a))%nat eqn:E.
  - left. now apply Ha.
  - right. apply Nat.ltb_ge in E. apply in_map_iff.
    exists (j - length (atoms a))%nat. split; [lia | now apply Hb].
Qed.

Lemma note_at_lt m i s : Mol.note_at m i = Some s -> (i < length (atoms m))%nat.
Proof.
  unfold Mol.note_at. destruct (atoms m !! i) eqn:E; [|discriminate].
  intros _. now apply lookup_lt_Some in E.
Qed.

Section FusionClaims.

Context `{Toolkit : RDKit} `{Tables : SmilesTables}.

Lemma AddBond_inv m i j t (s : chem_state) m' s' :
  Mol.AddBond m i j t s = (Ok m', s') ->
  s' = s /\ atoms m' = atoms m
  /\ bonds m' = (bonds m ++ [{| begin_idx := i; end_idx := j; btype := t |}])%list
  /\ i <> j /\ existsb (Mol.joins i j) (bonds m) = false.
Proof.
  unfold Mol.AddBond.
  destruct ((i <? length (atoms m))%nat && (j <? length (atoms m))%nat
            && negb (Nat.eqb i j) && negb (existsb (Mol.joins i j) (bonds m))) eqn:C;
    unfold ret, raise; intros E; inversion E; subst; clear E.
  apply andb_true_iff in C. destruct C as (C & C2).
  apply andb_true_iff in C. destruct C as (_ & C1).
  apply negb_true_iff in C1, C2. apply Nat.eqb_neq in C1.
  repeat split; assumption.
Qed.

Lemma SetProp_atoms_length m i s : length (atoms (Mol.SetProp m i s)) = length (atoms m).
Proof. unfold Mol.SetProp. simpl. apply length_alter. Qed.

Lemma SetProp_bonds m i s : bonds (Mol.SetProp m i s) = bonds m.
Proof. reflexivity. Qed.

Lemma pyeq_refl v : pyeq v v = true.
Proof.
  destruct v; simpl; [apply String.eqb_refl | apply Nat.eqb_refl | reflexivity].
Qed.

Lemma mapM_first_neighbor_lookup m l : forall s nbrs s' k a,
  mapM (first_neighbor m) l s = (Ok nbrs, s') -> nbrs !! k = Some a ->
  exists x, l !! k = Some x /\ Mol.neighbors m x !! 0%nat = Some a.
Proof.
  induction l as [|x l IH]; simpl; intros s nbrs s' k a E Ha.
  - unfold ret in E. inversion E; subst. discriminate Ha.
  - apply bind_inv_ok in E. destruct E as (b & s1 & E1 & E).
    apply bind_inv_ok in E. destruct E as (bs & s2 & E2 & E).
    unfold ret in E. inversion E; subst.
    destruct k as [|k]; simpl in Ha.
    + inversion Ha; subst. apply index_inv in E1.
      exists x. split; [reflexivity | exact (proj1 E1)].
    + exact (IH _ _ _ _ _ E2 Ha).
Qed.

Lemma mapM_first_neighbor_attachment m s nbrs s' k a :
  mapM (first_neighbor m) (Mol.dummies m) s = (Ok nbrs, s') -> nbrs !! k = Some a ->
  attachment m k = Some a.
Proof.
  intros E Ha. destruct (mapM_first_neighbor_lookup _ _ _ _ _ _ _ E Ha) as (x & Hx & Hn).
  unfold attachment. now rewrite Hx.
Qed.

(** One completed pass of the loop, in full: the object is read from the
    store and noted at its attachment atom; the structure is the object
    and the running structure side by side with one more bond, between
    two atoms that had none, from the atom found under the note of the
    role to the atom found under the note [attatch], which is then noted
    [done]. *)
Lemma fuse_inator_inv add_initiator add_terminator m bh inator s m' bh' s' :
  fuse_inator add_initiator add_terminator (m, bh) inator s = (Ok (m', bh'), s') ->
  exists r im attatch b a,
    inator = PMol r /\ heap s !! r = Some im /\ attachment im 0 = Some attatch
    /\ let im' := Mol.SetProp im attatch "attatch" in
       let merged := Mol.CombineMols im' m in
       Mol.note_at merged a = Some "attatch"
       /\ (pyeq inator (snd add_terminator) = true -> Mol.note_at merged b = Some "tail")
       /\ (pyeq inator (snd add_terminator) = false ->
           pyeq inator (snd add_initiator) = true -> Mol.note_at merged b = Some "head")
       /\ b <> a /\ existsb (Mol.joins b a) (bonds merged) = false
       /\ m' = Mol.SetProp
                 {| atoms := atoms merged;
                    bonds := bonds merged
                             ++ [{| begin_idx := b; end_idx := a; btype := SINGLE |}] |}
                 a "done"
       /\ bh' = Some b
       /\ s' = {| heap := <[r := im']> (heap s);
                  calls := calls s ++ [CallAddBond b a (Mol.note_at merged b)
                                         (Some "attatch") SINGLE] |}.
Proof.
  unfold fuse_inator. destruct inator as [x|r|]; try (unfold raise; discriminate).
  intros E.
  apply bind_inv_ok in E. destruct E as (im & s1 & E1 & E).
  assert (Him : heap s !! r = Some im /\ s1 = s).
  { unfold deref in E1. destruct (heap s !! r); inversion E1; subst. split; reflexivity. }
  destruct Him as (Him & ->). clear E1.
  apply bind_inv_ok in E. destruct E as (nbrs & s1 & E1 & E).
  assert (Hs1 := mapM_state _ _ (first_neighbor_state im) _ _ _ E1). subst s1.
  apply bind_inv_ok in E. destruct E as (attatch & s1 & E0 & E).
  apply index_inv in E0. destruct E0 as (Hatt & ->).
  apply (mapM_first_neighbor_attachment _ _ _ _ _ _ E1) in Hatt. clear E1.
  apply bind_inv_ok in E. destruct E as ([] & s1 & E1 & E).
  unfold store, modify in E1. inversion E1; subst s1; clear E1.
  set (im' := Mol.SetProp im attatch "attatch") in *.
  set (merged := Mol.CombineMols im' m) in *.
  set (s1 := {| heap := <[r:=im']> (heap s); calls := calls s |}) in *.
  apply bind_inv_ok in E. destruct E as (ia & s2 & E1 & E).
  apply first_noted_inv in E1. destruct E1 as (Hia & ->).
  apply bind_inv_ok in E. destruct E as (bh1 & s2 & E1 & E).
  assert (H1 : s2 = s1 /\ (pyeq (PMol r) (snd add_initiator) = true ->
                           exists b, bh1 = Some b /\ Mol.note_at merged b = Some "head")).
  { destruct (pyeq (PMol r) (snd add_initiator)).
    - apply bind_inv_ok in E1. destruct E1 as (b & s3 & E1 & E3).
      apply first_noted_inv in E1. destruct E1 as (Hb & ->).
      unfold ret in E3. inversion E3; subst. split; [reflexivity|].
      intros _. exists b. split; [reflexivity | exact Hb].
    - unfold ret in E1. inversion E1; subst. split; [reflexivity | discriminate]. }
  destruct H1 as (-> & Hhead). clear E1.
  apply bind_inv_ok in E. destruct E as (bh2 & s2 & E1 & E).
  assert (H2 : s2 = s1
               /\ (pyeq (PMol r) (snd add_terminator) = true ->
                   exists b, bh2 = Some b /\ Mol.note_at merged b = Some "tail")
               /\ (pyeq (PMol r) (snd add_terminator) = false -> bh2 = bh1)).
  { destruct (pyeq (PMol r) (snd add_terminator)).
    - apply bind_inv_ok in E1. destruct E1 as (b & s3 & E1 & E3).
      apply first_noted_inv in E1. destruct E1 as (Hb & ->).
      unfold ret in E3. inversion E3; subst. split; [reflexivity|].
      split; [|discriminate]. intros _. exists b. split; [reflexivity | exact Hb].
    - unfold ret in E1. inversion E1; subst.
      split; [reflexivity|]. split; [discriminate | reflexivity]. }
  destruct H2 as (-> & Htail & Hkeep). clear E1.
  destruct bh2 as [b|]; [|unfold raise in E; discriminate E].
  apply bind_inv_ok in E. destruct E as ([] & s2 & E1 & E).
  unfold log_call, modify in E1. inversion E1; subst s2; clear E1.
  apply bind_inv_ok in E. destruct E as (m2 & s2 & E1 & E).
  apply AddBond_inv in E1. destruct E1 as (-> & Hat & Hbo & Hne & Hfree).
  unfold ret in E. inversion E; subst m' bh' s'. clear E.
  exists r, im, attatch, b, ia.
  split; [reflexivity|]. split; [exact Him|]. split; [exact Hatt|].
  cbn zeta. fold im'. fold merged.
  split; [exact Hia|].
  split.
  { intros Ht. destruct (Htail Ht) as (b' & Eb & Hn). inversion Eb; subst. exact Hn. }
  split.
  { intros Ht Hi. rewrite <- (Hkeep Ht) in Hhead.
    destruct (Hhead Hi) as (b' & Eb & Hn). inversion Eb; subst. exact Hn. }
  split; [exact Hne|]. split; [exact Hfree|].
  split.
  { f_equal. destruct m2 as [at2 bo2]. simpl in *. now subst. }
  split; [reflexivity|].
  subst s1. simpl. now rewrite Hia.
Qed.

Lemma notes_at_weaken s m L L' :
  (forall i, In i L -> In i L') -> notes_at s m L -> notes_at s m L'.
Proof. intros H Hn i Hi. apply H. now apply Hn. Qed.

Lemma notes_at_bonds s at_ bo bo' L :
  notes_at s {| atoms := at_; bonds := bo |} L ->
  notes_at s {| atoms := at_; bonds := bo' |} L.
Proof. intros H i Hi. apply H. exact Hi. Qed.

(** Noting the attachment atom of an end-group object keeps it as the
    engine expects it, and changes no size. *)
Lemma object_ok_noted im a :
  attachment im 0 = Some a -> object_ok im -> object_ok (Mol.SetProp im a "attatch").
Proof.
  intros Ha (Hh & Ht & Hat). rewrite Ha in Hat.
  split; [apply notes_at_SetProp_other; [discriminate | exact Hh]|].
  split; [apply notes_at_SetProp_other; [discriminate | exact Ht]|].
  rewrite attachment_SetProp, Ha.
  eapply notes_at_weaken; [|apply notes_at_SetProp_same; exact Hat].
  intros i [<- | Hi]; [now left | exact Hi].
Qed.

Lemma objects_after_store h r im a v :
  h !! r = Some im -> attachment im 0 = Some a -> object_ok im ->
  objects_ok h v ->
  objects_ok (<[r := Mol.SetProp im a "attatch"]> h) v
  /\ object_atoms (<[r := Mol.SetProp im a "attatch"]> h) v = object_atoms h v
  /\ object_bonds (<[r := Mol.SetProp im a "attatch"]> h) v = object_bonds h v.
Proof.
  intros Hr Ha Hok Hv. destruct v as [x|q|]; simpl; try (repeat split; exact I).
  destruct (decide (q = r)) as [->|Hq].
  - rewrite list_lookup_insert_eq by (apply lookup_lt_Some in Hr; exact Hr).
    rewrite Hr. rewrite SetProp_atoms_length, SetProp_bonds.
    split; [|split; reflexivity].
    intros im' E. inversion E; subst. now apply object_ok_noted.
  - rewrite list_lookup_insert_ne by congruence.
    split; [exact Hv | split; reflexivity].
Qed.

(** What one completed pass of the loop means for the notes, the sizes
    and the store. *)
Lemma fuse_inator_facts add_initiator add_terminator m bh inator s m' bh' s' Lh Lt :
  fuse_inator add_initiator add_terminator (m, bh) inator s = (Ok (m', bh'), s') ->
  objects_ok (heap s) inator ->
  notes_at "attatch" m [] -> notes_at "head" m Lh -> notes_at "tail" m Lt ->
  exists r im a b nb,
    inator = PMol r /\ heap s !! r = Some im /\ attachment im 0 = Some a
    /\ object_ok im
    /\ calls s' = calls s ++ [CallAddBond b a nb (Some "attatch") SINGLE]
    /\ (pyeq inator (snd add_terminator) = true ->
        nb = Some "tail" /\ exists t, In t Lt /\ b = (length (atoms im) + t)%nat)
    /\ (pyeq inator (snd add_terminator) = false ->
        pyeq inator (snd add_initiator) = true ->
        nb = Some "head" /\ exists h, In h Lh /\ b = (length (atoms im) + h)%nat)
    /\ notes_at "attatch" m' []
    /\ notes_at "head" m' (map (fun j => length (atoms im) + j)%nat Lh)
    /\ notes_at "tail" m' (map (fun j => length (atoms im) + j)%nat Lt)
    /\ length (atoms m') = (length (atoms im) + length (atoms m))%nat
    /\ length (bonds m') = S (length (bonds im) + length (bonds m))
    /\ heap s' = <[r := Mol.SetProp im a "attatch"]> (heap s).
Proof.
  intros E Hobj Nat0 Nh Nt.
  apply fuse_inator_inv in E.
  destruct E as (r & im & a0 & b & a & -> & Him & Hatt & Hrest).
  cbn zeta in Hrest.
  destruct Hrest as (Hna & Htail & Hhead & Hne & Hfree & -> & -> & ->).
  assert (Hok : object_ok im) by exact (Hobj im Him).
  assert (Hok' := object_ok_noted _ _ Hatt Hok).
  destruct Hok' as (Oh & Ot & Oa). rewrite attachment_SetProp, Hatt in Oa.
  set (im' := Mol.SetProp im a0 "attatch") in *.
  assert (Hlen : length (atoms im') = length (atoms im)) by apply SetProp_atoms_length.
  assert (Ma := notes_at_CombineMols "attatch" im' m _ _ Oa Nat0).
  assert (Mh := notes_at_CombineMols "head" im' m _ _ Oh Nh).
  assert (Mt := notes_at_CombineMols "tail" im' m _ _ Ot Nt).
  rewrite Hlen in Ma, Mh, Mt. simpl in Ma, Mh, Mt.
  assert (Ea : a = a0).
  { destruct (Ma a Hna) as [E | []]. now symmetry. }
  subst a0.
  exists r, im, a, b, (Mol.note_at (Mol.CombineMols im' m) b).
  split; [reflexivity|]. split; [exact Him|]. split; [exact Hatt|].
  split; [exact Hok|]. split; [reflexivity|].
  split.
  { intros Ht. assert (Hb := Htail Ht). split; [exact Hb|].
    apply Mt in Hb. apply in_map_iff in Hb. destruct Hb as (t & <- & Hin).
    exists t. split; [exact Hin | reflexivity]. }
  split.
  { intros Ht Hi. assert (Hb := Hhead Ht Hi). split; [exact Hb|].
    apply Mh in Hb. apply in_map_iff in Hb. destruct Hb as (h & <- & Hin).
    exists h. split; [exact Hin | reflexivity]. }
  split.
  { apply notes_at_SetProp_over; [discriminate | |].
    - simpl. exact (note_at_lt _ _ _ Hna).
    - eapply notes_at_bonds. exact Ma. }
  split.
  { apply notes_at_SetProp_other; [discriminate|]. eapply notes_at_bonds. exact Mh. }
  split.
  { apply notes_at_SetProp_other; [discriminate|]. eapply notes_at_bonds. exact Mt. }
  split.
  { rewrite SetProp_atoms_length. cbn [atoms Mol.CombineMols].
    rewrite length_app, Hlen. reflexivity. }
  split.
  { rewrite SetProp_bonds. cbn [bonds Mol.CombineMols].
    rewrite !length_app, length_map. unfold im'. rewrite SetProp_bonds.
    cbn [length]. lia. }
  reflexivity.
Qed.

(** One completed pass of the loop, without any assumption on the notes
    that the object and the running structure carried: one call, one bond
    more, and no size changed in the store. *)
Lemma fuse_inator_sizes add_initiator add_terminator m bh inator s m' bh' s' :
  fuse_inator add_initiator add_terminator (m, bh) inator s = (Ok (m', bh'), s') ->
  exists r im b a nb,
    inator = PMol r /\ heap s !! r = Some im
    /\ calls s' = (calls s ++ [CallAddBond b a nb (Some "attatch") SINGLE])%list
    /\ (pyeq inator (snd add_terminator) = true -> nb = Some "tail")
    /\ (pyeq inator (snd add_terminator) = false ->
        pyeq inator (snd add_initiator) = true -> nb = Some "head")
    /\ length (atoms m') = (length (atoms im) + length (atoms m))%nat
    /\ b <> a
    /\ length (bonds m') = S (length (bonds im) + length (bonds m))
    /\ (forall v, object_atoms (heap s') v = object_atoms (heap s) v
                  /\ object_bonds (heap s') v = object_bonds (heap s) v).
Proof.
  intros E. apply fuse_inator_inv in E.
  destruct E as (r & im & a0 & b & a & -> & Him & Hatt & Hrest).
  cbn zeta in Hrest.
  destruct Hrest as (Hna & Htail & Hhead & Hne & Hfree & -> & -> & ->).
  exists r, im, b, a, (Mol.note_at (Mol.CombineMols (Mol.SetProp im a0 "attatch") m) b).
  split; [reflexivity|]. split; [exact Him|]. split; [reflexivity|].
  split; [exact Htail|]. split; [exact Hhead|].
  split.
  { rewrite SetProp_atoms_length. cbn [atoms Mol.CombineMols].
    rewrite length_app, SetProp_atoms_length. reflexivity. }
  split; [exact Hne|].
  split.
  { rewrite SetProp_bonds. cbn [bonds Mol.CombineMols].
    rewrite !length_app, length_map, SetProp_bonds. cbn [length]. lia. }
  intros v. cbn [heap]. destruct v as [x|q|]; simpl; try (split; reflexivity).
  destruct (decide (q = r)) as [->|Hq].
  - rewrite Him. rewrite list_lookup_insert_eq by (apply lookup_lt_Some in Him; exact Him).
    rewrite SetProp_atoms_length, SetProp_bonds. split; reflexivity.
  - rewrite list_lookup_insert_ne by congruence. split; reflexivity.
Qed.

Lemma add_inator_smiles_unfold smi init term :
  add_inator_smiles smi init term =
    if not_str term || not_str init
    then attatch_frags (marked_body init term smi) (not_str init, init) (not_str term, term)
    else ret (marked_body init term smi).
Proof. destruct init, term; reflexivity. Qed.

Lemma attatch_frags_inv polymer_smiles add_initiator add_terminator s out s' :
  attatch_frags polymer_smiles add_initiator add_terminator s = (Ok out, s') ->
  exists merged m,
    fuse_ends polymer_smiles add_initiator add_terminator s = (Ok merged, s')
    /\ strip_dummies merged s' = (Ok m, s')
    /\ Mol.dummies m = []
    /\ out = MolToSmiles m.
Proof.
  unfold attatch_frags. intros E.
  apply bind_inv_ok in E. destruct E as (merged & s1 & E1 & E).
  apply bind_inv_ok in E. destruct E as (m & s2 & E2 & E).
  unfold ret in E. inversion E; subst; clear E.
  assert (H := E2). unfold strip_dummies in H. apply remove_dummies_inv in H.
  destruct H as (-> & Hlen). rewrite Nat.sub_diag in Hlen.
  exists merged, m. split; [exact E1|]. split; [exact E2|].
  split; [now apply length_zero_iff_nil | reflexivity].
Qed.

(** What a completed run of the fusion loop has done: after the entry into
    the engine the calls are one [AddBond] per fused end, the initiator
    first, and the structure holds the atoms and the bonds of the chain
    and of the fused end groups, and one bond more per fused end. *)
Lemma fuse_ends_inv polymer_smiles init term s merged s' :
  fuse_ends polymer_smiles (not_str init, init) (not_str term, term) s = (Ok merged, s') ->
  (forall r, init = PMol r -> pyeq init term = false) ->
  exists pol bond_calls,
    MolFromSmiles polymer_smiles = Some pol
    /\ calls s' = (calls s ++ CallAttatchFrags polymer_smiles :: bond_calls)%list
    /\ Forall2 bond_for (fused_roles init term) bond_calls
    /\ length (atoms merged)
       = (length (atoms pol) + object_atoms (heap s) init + object_atoms (heap s) term)%nat
    /\ length (bonds merged)
       = (length (bonds pol) + object_bonds (heap s) init
          + object_bonds (heap s) term + length (fused_roles init term))%nat.
Proof.
  unfold fuse_ends. intros E Hne.
  apply bind_inv_ok in E. destruct E as ([] & s0 & E0 & E).
  unfold log_call, modify in E0. inversion E0; subst s0; clear E0.
  destruct (MolFromSmiles polymer_smiles) as [pol|]; [|unfold raise in E; discriminate E].
  apply bind_inv_ok in E. destruct E as (conn & s1 & E1 & E).
  apply (mapM_state _ _ (first_neighbor_state pol)) in E1. subst s1.
  apply bind_inv_ok in E. destruct E as ([pol' inators] & s1 & E1 & E).
  apply bind_inv_ok in E. destruct E as ([mergedrw bh] & s2 & E2 & E).
  unfold ret in E. inversion E; subst; clear E.
  exists pol. unfold fused_roles. cbn [fst snd] in E1.
  destruct (not_str init) eqn:Fi.
  - apply bind_inv_ok in E1. destruct E1 as (head & s3 & Eh & E1).
    apply index_inv in Eh. destruct Eh as (_ & ->).
    destruct (not_str term) eqn:Ft.
    + apply bind_inv_ok in E1. destruct E1 as (tail & s3 & Et & E1).
      apply index_inv in Et. destruct Et as (_ & ->).
      unfold ret in E1. inversion E1; subst; clear E1.
      cbn [foldM] in E2.
      apply bind_inv_ok in E2. destruct E2 as ([m1 bh1] & s3 & F1 & E2).
      apply bind_inv_ok in E2. destruct E2 as ([m2 bh2] & s4 & F2 & E2).
      unfold ret in E2. inversion E2; subst; clear E2.
      apply fuse_inator_sizes in F1.
      destruct F1 as (r1 & im1 & b1 & a1 & n1 & Hr1 & Hh1 & C1 & _ & H1 & A1 & _ & B1 & S1).
      apply fuse_inator_sizes in F2.
      destruct F2 as (r2 & im2 & b2 & a2 & n2 & Hr2 & Hh2 & C2 & H2 & _ & A2 & _ & B2 & S2).
      cbn [snd] in *. rewrite (H1 (Hne _ Hr1) (pyeq_refl _)) in C1.
      rewrite (H2 (pyeq_refl _)) in C2. simpl in C1, Hh1.
      assert (O1 : object_atoms (heap s) init = length (atoms im1)
                   /\ object_bonds (heap s) init = length (bonds im1)).
      { rewrite Hr1. simpl. rewrite Hh1. split; reflexivity. }
      assert (O2 : object_atoms (heap s) term = length (atoms im2)
                   /\ object_bonds (heap s) term = length (bonds im2)).
      { destruct (S1 term) as (Sa & Sb). simpl in Sa, Sb. rewrite <- Sa, <- Sb.
        rewrite Hr2. simpl. rewrite Hh2. split; reflexivity. }
      destruct O1 as (-> & ->). destruct O2 as (-> & ->).
      eexists. split; [reflexivity|]. split.
      * rewrite C2, C1. rewrite <- !app_assoc. reflexivity.
      * split; [repeat constructor; eexists; eexists; reflexivity|].
        cbn [fst]. rewrite A2, A1, B2, B1, !SetProp_atoms_length, !SetProp_bonds.
        simpl. split; lia.
    + unfold ret in E1. inversion E1; subst; clear E1.
      cbn [foldM] in E2.
      apply bind_inv_ok in E2. destruct E2 as ([m1 bh1] & s3 & F1 & E2).
      unfold ret in E2. inversion E2; subst; clear E2.
      apply fuse_inator_sizes in F1.
      destruct F1 as (r1 & im1 & b1 & a1 & n1 & Hr1 & Hh1 & C1 & _ & H1 & A1 & _ & B1 & S1).
      cbn [snd] in *. rewrite (H1 (Hne _ Hr1) (pyeq_refl _)) in C1. simpl in C1, Hh1.
      assert (O1 : object_atoms (heap s) init = length (atoms im1)
                   /\ object_bonds (heap s) init = length (bonds im1)).
      { rewrite Hr1. simpl. rewrite Hh1. split; reflexivity. }
      destruct O1 as (-> & ->).
      assert (O2 : object_atoms (heap s) term = O /\ object_bonds (heap s) term = O)
        by (destruct term; try discriminate Ft; split; reflexivity).
      destruct O2 as (-> & ->).
      eexists. split; [reflexivity|]. split.
      * rewrite C1. rewrite <- !app_assoc. reflexivity.
      * split; [repeat constructor; eexists; eexists; reflexivity|].
        cbn [fst]. rewrite A1, B1, !SetProp_atoms_length, !SetProp_bonds.
        simpl. split; lia.
  - destruct (not_str term) eqn:Ft; [|unfold raise in E1; discriminate E1].
    apply bind_inv_ok in E1. destruct E1 as (tail & s3 & Et & E1).
    apply index_inv in Et. destruct Et as (_ & ->).
    unfold ret in E1. inversion E1; subst; clear E1.
    cbn [foldM] in E2.
    apply bind_inv_ok in E2. destruct E2 as ([m1 bh1] & s3 & F1 & E2).
    unfold ret in E2. inversion E2; subst; clear E2.
    apply fuse_inator_sizes in F1.
    destruct F1 as (r1 & im1 & b1 & a1 & n1 & Hr1 & Hh1 & C1 & H1 & _ & A1 & _ & B1 & S1).
    cbn [snd] in *. rewrite (H1 (pyeq_refl _)) in C1. simpl in C1, Hh1.
    assert (O1 : object_atoms (heap s) term = length (atoms im1)
                 /\ object_bonds (heap s) term = length (bonds im1)).
    { rewrite Hr1. simpl. rewrite Hh1. split; reflexivity. }
    destruct O1 as (-> & ->).
    assert (O2 : object_atoms (heap s) init = O /\ object_bonds (heap s) init = O)
      by (destruct init; try discriminate Fi; split; reflexivity).
    destruct O2 as (-> & ->).
    eexists. split; [reflexivity|]. split.
    * rewrite C1. rewrite <- !app_assoc. reflexivity.
    * split; [repeat constructor; eexists; eexists; reflexivity|].
      cbn [fst]. rewrite A1, B1, !SetProp_atoms_length, !SetProp_bonds.
      simpl. split; lia.
Qed.

Lemma notes_at_clean s m : (forall k, Mol.note_at m k = None) -> notes_at s m [].
Proof. intros H i Hi. rewrite H in Hi. discriminate Hi. Qed.

Lemma object_ok_clean m : (forall k, Mol.note_at m k = None) -> object_ok m.
Proof.
  intros H. split; [now apply notes_at_clean|]. split; [now apply notes_at_clean|].
  intros i Hi. rewrite H in Hi. discriminate Hi.
Qed.

(** The fusion loop on end-group objects that carry no note but
    [attatch] on their attachment atom, with a reader that gives
    structures without notes: the bonds go from the attachment atoms of
    the chain to the attachment atoms of the end groups. *)
Lemma fuse_ends_atoms polymer_smiles init term s merged s' :
  reads_without_notes ->
  fuse_ends polymer_smiles (not_str init, init) (not_str term, term) s = (Ok merged, s') ->
  (forall r, init = PMol r -> pyeq init term = false) ->
  objects_ok (heap s) init -> objects_ok (heap s) term ->
  exists pol bond_calls,
    MolFromSmiles polymer_smiles = Some pol
    /\ calls s' = calls s ++ CallAttatchFrags polymer_smiles :: bond_calls
    /\ expected_calls pol (heap s) init term = Some bond_calls
    /\ objects_ok (heap s') init /\ objects_ok (heap s') term.
Proof.
  unfold fuse_ends. intros Hclean E Hne Hoi Hot.
  apply bind_inv_ok in E. destruct E as ([] & s0 & E0 & E).
  unfold log_call, modify in E0. inversion E0; subst s0; clear E0.
  destruct (MolFromSmiles polymer_smiles) as [pol|] eqn:Epol;
    [|unfold raise in E; discriminate E].
  assert (Hpol := Hclean _ _ Epol).
  apply bind_inv_ok in E. destruct E as (conn & s1 & Econn & E).
  assert (Hs1 := mapM_state _ _ (first_neighbor_state pol) _ _ _ Econn). subst s1.
  apply bind_inv_ok in E. destruct E as ([pol' inators] & s1 & E1 & E).
  apply bind_inv_ok in E. destruct E as ([mergedrw bh] & s2 & E2 & E).
  unfold ret in E. inversion E; subst; clear E.
  exists pol. cbn [fst snd] in E1.
  destruct (not_str init) eqn:Fi.
  - apply bind_inv_ok in E1. destruct E1 as (head & s3 & Eh & E1).
    apply index_inv in Eh. destruct Eh as (Hhead & ->).
    apply (mapM_first_neighbor_attachment _ _ _ _ _ _ Econn) in Hhead.
    destruct (not_str term) eqn:Ft.
    + apply bind_inv_ok in E1. destruct E1 as (tail & s3 & Et & E1).
      apply index_inv in Et. destruct Et as (Htail & ->).
      apply (mapM_first_neighbor_attachment _ _ _ _ _ _ Econn) in Htail.
      unfold ret in E1. inversion E1; subst; clear E1.
      cbn [foldM] in E2.
      apply bind_inv_ok in E2. destruct E2 as ([m1 bh1] & s3 & F1 & E2).
      apply bind_inv_ok in E2. destruct E2 as ([m2 bh2] & s4 & F2 & E2).
      unfold ret in E2. inversion E2; subst; clear E2.
      apply (fuse_inator_facts _ _ _ _ _ _ _ _ _ [head] [tail]) in F1;
        [ | exact Hoi
          | apply notes_at_SetProp_other; [discriminate|];
            apply notes_at_SetProp_other; [discriminate|]; now apply notes_at_clean
          | apply notes_at_SetProp_other; [discriminate|];
            apply notes_at_SetProp_same; now apply notes_at_clean
          | apply notes_at_SetProp_same;
            apply notes_at_SetProp_other; [discriminate|]; now apply notes_at_clean ].
      destruct F1 as (r1 & im1 & a1 & b1 & nb1 & Hr1 & Hh1 & Ha1 & Hok1 & C1 & _ & H1
                      & Na1 & Nh1 & Nt1 & _ & _ & Hheap1).
      cbn [heap snd] in Hh1, H1, Hheap1.
      destruct (H1 (Hne _ Hr1) (pyeq_refl _)) as (-> & h & [<- | []] & ->).
      destruct (objects_after_store _ _ _ _ term Hh1 Ha1 Hok1 Hot) as (Hot3 & _ & _).
      destruct (objects_after_store _ _ _ _ init Hh1 Ha1 Hok1 Hoi) as (Hoi3 & _ & _).
      rewrite <- Hheap1 in Hot3, Hoi3.
      pose proof (fuse_inator_facts _ _ _ _ _ _ _ _ _ _ _ F2 Hot3 Na1 Nh1 Nt1) as F2'.
      destruct F2' as (r2 & im2 & a2 & b2 & nb2 & Hr2 & Hh2 & Ha2 & Hok2 & C2 & H2 & _
                       & _ & _ & _ & _ & _ & Hheap2).
      cbn [snd] in H2.
      destruct (H2 (pyeq_refl _)) as (-> & t & [<- | []] & ->).
      assert (Hr12 : r2 <> r1).
      { assert (Hp := Hne _ Hr1). rewrite Hr1, Hr2 in Hp. simpl in Hp.
        apply Nat.eqb_neq in Hp. congruence. }
      assert (Hh2' : heap s !! r2 = Some im2).
      { rewrite Hheap1 in Hh2. now rewrite list_lookup_insert_ne in Hh2 by congruence. }
      destruct (objects_after_store _ _ _ _ term Hh2 Ha2 Hok2 Hot3) as (Hot4 & _ & _).
      destruct (objects_after_store _ _ _ _ init Hh2 Ha2 Hok2 Hoi3) as (Hoi4 & _ & _).
      rewrite <- Hheap2 in Hot4, Hoi4.
      eexists. split; [reflexivity|]. split.
      * rewrite C2, C1. cbn [calls]. rewrite <- !app_assoc. reflexivity.
      * split; [|split; assumption].
        rewrite Hr1, Hr2. cbn [expected_calls].
        rewrite Hh1, Hh2', Hhead, Htail, Ha1, Ha2. reflexivity.
    + unfold ret in E1. inversion E1; subst; clear E1.
      cbn [foldM] in E2.
      apply bind_inv_ok in E2. destruct E2 as ([m1 bh1] & s3 & F1 & E2).
      unfold ret in E2. inversion E2; subst; clear E2.
      apply (fuse_inator_facts _ _ _ _ _ _ _ _ _ [head] []) in F1;
        [ | exact Hoi
          | apply notes_at_SetProp_other; [discriminate|]; now apply notes_at_clean
          | apply notes_at_SetProp_same; now apply notes_at_clean
          | apply notes_at_SetProp_other; [discriminate|]; now apply notes_at_clean ].
      destruct F1 as (r1 & im1 & a1 & b1 & nb1 & Hr1 & Hh1 & Ha1 & Hok1 & C1 & _ & H1
                      & _ & _ & _ & _ & _ & Hheap1).
      cbn [heap snd] in Hh1, H1, Hheap1.
      destruct (H1 (Hne _ Hr1) (pyeq_refl _)) as (-> & h & [<- | []] & ->).
      destruct (objects_after_store _ _ _ _ term Hh1 Ha1 Hok1 Hot) as (Hot3 & _ & _).
      destruct (objects_after_store _ _ _ _ init Hh1 Ha1 Hok1 Hoi) as (Hoi3 & _ & _).
      rewrite <- Hheap1 in Hot3, Hoi3.
      eexists. split; [reflexivity|]. split.
      * rewrite C1. cbn [calls]. rewrite <- !app_assoc. reflexivity.
      * split; [|split; assumption].
        rewrite Hr1. destruct term as [b|y|]; try discriminate Ft.
        cbn [expected_calls]. rewrite Hh1, Hhead, Ha1. reflexivity.
  - destruct (not_str term) eqn:Ft; [|unfold raise in E1; discriminate E1].
    apply bind_inv_ok in E1. destruct E1 as (tail & s3 & Et & E1).
    apply index_inv in Et. destruct Et as (Htail & ->).
    apply (mapM_first_neighbor_attachment _ _ _ _ _ _ Econn) in Htail.
    unfold ret in E1. inversion E1; subst; clear E1.
    cbn [foldM] in E2.
    apply bind_inv_ok in E2. destruct E2 as ([m1 bh1] & s3 & F1 & E2).
    unfold ret in E2. inversion E2; subst; clear E2.
    apply (fuse_inator_facts _ _ _ _ _ _ _ _ _ [] [tail]) in F1;
      [ | exact Hot
        | apply notes_at_SetProp_other; [discriminate|]; now apply notes_at_clean
        | apply notes_at_SetProp_other; [discriminate|]; now apply notes_at_clean
        | apply notes_at_SetProp_same; now apply notes_at_clean ].
    destruct F1 as (r1 & im1 & a1 & b1 & nb1 & Hr1 & Hh1 & Ha1 & Hok1 & C1 & H1 & _
                    & _ & _ & _ & _ & _ & Hheap1).
    cbn [heap snd] in Hh1, H1, Hheap1.
    destruct (H1 (pyeq_refl _)) as (-> & t & [<- | []] & ->).
    destruct (objects_after_store _ _ _ _ term Hh1 Ha1 Hok1 Hot) as (Hot3 & _ & _).
    destruct (objects_after_store _ _ _ _ init Hh1 Ha1 Hok1 Hoi) as (Hoi3 & _ & _).
    rewrite <- Hheap1 in Hot3, Hoi3.
    eexists. split; [reflexivity|]. split.
    * rewrite C1. cbn [calls]. rewrite <- !app_assoc. reflexivity.
    * split; [|split; assumption].
      rewrite Hr1. destruct init as [a|x|]; try discriminate Fi.
      cbn [expected_calls]. rewrite Hh1, Htail, Ha1. reflexivity.
Qed.

(** The validation of an end group leaves the objects of the store as
    they are; an object it returns is new, and is what the reader gave. *)
Lemma validate_end_group_store inator Init Term s v s' :
  validate_end_group inator Init Term s = (Ok v, s') ->
  match v with
  | PMol r =>
      exists m, MolFromSmiles inator = Some m
                /\ r = length (heap s) /\ heap s' = (heap s ++ [m])%list
  | _ => s' = s
  end.
Proof.
  unfold validate_end_group.
  destruct (negb Init && negb Term); [discriminate|].
  destruct (negb (String.eqb inator "")
            && bool_decide (PyStr.at_end Init inator = Some PyStr.marker)).
  - unfold new_object. destruct (MolFromSmiles inator) as [m|]; unfold ret; intros E;
      inversion E; subst; [|reflexivity].
    exists m. repeat split.
  - destruct (negb (String.eqb inator (PyStr.reversed inator))
              && negb (PyStr.contains PyStr.marker inator)); [discriminate|].
    unfold ret. intros E. inversion E; subst. reflexivity.
Qed.

(** With a reader that gives structures without notes, the end groups
    the resolver returns carry no note. *)
Lemma get_building_blocks_objects i t r s init term ru mpn s1 :
  reads_without_notes ->
  get_building_blocks i t r s = (Ok (init, term, ru, mpn), s1) ->
  objects_ok (heap s1) init /\ objects_ok (heap s1) term.
Proof.
  intros Hclean E. apply get_building_blocks_inv in E. destruct E as (s0 & E1 & E2).
  apply validate_end_group_store in E1. apply validate_end_group_store in E2.
  assert (Hterm : objects_ok (heap s1) term).
  { destruct term as [b|y|]; simpl; trivial.
    destruct E2 as (m2 & R2 & -> & ->). intros im Him.
    rewrite lookup_app_r in Him by lia. rewrite Nat.sub_diag in Him.
    inversion Him; subst. apply object_ok_clean. exact (Hclean _ _ R2). }
  split; [|exact Hterm].
  destruct init as [a|x|]; simpl; trivial.
  destruct E1 as (m1 & R1 & -> & H0). intros im Him.
  assert (Him0 : heap s0 !! length (heap s) = Some m1).
  { rewrite H0. rewrite lookup_app_r by lia. now rewrite Nat.sub_diag. }
  assert (Him1 : heap s1 !! length (heap s) = Some m1).
  { destruct term as [b|y|]; try (subst s1; exact Him0).
    destruct E2 as (m2 & _ & _ & ->). rewrite lookup_app_l; [exact Him0|].
    apply lookup_lt_Some in Him0. exact Him0. }
  rewrite Him1 in Him. inversion Him; subst.
  apply object_ok_clean. exact (Hclean _ _ R1).
Qed.

(** The two end groups the resolver returns are never the same object. *)
Lemma get_building_blocks_distinct i t r s init term ru mpn s1 :
  get_building_blocks i t r s = (Ok (init, term, ru, mpn), s1) ->
  forall x, init = PMol x -> pyeq init term = false.
Proof.
  intros E x ->. apply get_building_blocks_inv in E. destruct E as (s0 & E1 & E2).
  apply validate_end_group_object in E1. destruct E1 as (-> & Hlen & _).
  destruct term as [b|y|]; try reflexivity.
  apply validate_end_group_object in E2. destruct E2 as (-> & _ & _).
  simpl. apply Nat.eqb_neq. lia.
Qed.

(** C2, as the code has it.  Take the end groups the resolver returns and
    attach them to any chain body.  When an end needs fusion, the
    structure the engine writes back has no placeholder atom, and the
    engine has made exactly one [AddBond] call per fused end, for a single
    bond from the atom noted [head] (for the initiator) or [tail] (for the
    terminator) to the atom noted [attatch]; before the placeholders are
    removed the structure has the atoms of the chain and of the fused end
    groups, and their bonds and one bond more per fused end.  When the
    reader gives structures without notes, the end groups of the resolver
    carry none, and on end groups that carry no note but [attatch] on
    their attachment atom the two atoms of each bond are the attachment
    atom of the chain for that role and the attachment atom of the end
    group; the end groups are left in that condition, ready for the next
    chain.  On the string path nothing is called, and the end groups bring
    no marker: the notation has the markers of the chain body, no more and
    no fewer. *)
Theorem end_group_attachment
    (i t : string) (r : repeat_spec) (s s1 : chem_state)
    (init term : pyval) (ru : string) (mpn : Z) :
  get_building_blocks i t r s = (Ok (init, term, ru, mpn), s1) ->
  (reads_without_notes -> objects_ok (heap s1) init /\ objects_ok (heap s1) term)
  /\ forall (body : string) (st st' : chem_state) (out : string),
    add_inator_smiles body init term st = (Ok out, st') ->
    match init, term with
    | PStr a, PStr b =>
        st' = st /\ out = (a +:+ body) +:+ b
        /\ PyStr.count PyStr.marker out = PyStr.count PyStr.marker body
    | _, _ =>
        exists (pol merged m : mol) (bond_calls : list fusion_call),
          MolFromSmiles (marked_body init term body) = Some pol
          /\ fuse_ends (marked_body init term body)
                       (not_str init, init) (not_str term, term) st
             = (Ok merged, st')
          /\ strip_dummies merged st' = (Ok m, st')
          /\ out = MolToSmiles m
          /\ Mol.dummies m = []
          /\ calls st'
             = (calls st ++ CallAttatchFrags (marked_body init term body) :: bond_calls)%list
          /\ Forall2 bond_for (fused_roles init term) bond_calls
          /\ length (bonds merged)
             = (length (bonds pol) + object_bonds (heap st) init
                + object_bonds (heap st) term + length (fused_roles init term))%nat
          /\ length (atoms merged)
             = (length (atoms pol) + object_atoms (heap st) init
                + object_atoms (heap st) term)%nat
          /\ (reads_without_notes ->
              objects_ok (heap st) init -> objects_ok (heap st) term ->
              expected_calls pol (heap st) init term = Some bond_calls
              /\ objects_ok (heap st') init /\ objects_ok (heap st') term)
    end.
Proof.
  intros E.
  split; [intros Hclean; exact (get_building_blocks_objects _ _ _ _ _ _ _ _ _ Hclean E)|].
  intros body st st' out A.
  assert (Hd := get_building_blocks_distinct _ _ _ _ _ _ _ _ _ E).
  rewrite add_inator_smiles_unfold in A.
  assert (Hfuse :
            attatch_frags (marked_body init term body)
                          (not_str init, init) (not_str term, term) st = (Ok out, st') ->
            exists (pol merged m : mol) (bond_calls : list fusion_call),
              MolFromSmiles (marked_body init term body) = Some pol
              /\ fuse_ends (marked_body init term body)
                           (not_str init, init) (not_str term, term) st
                 = (Ok merged, st')
              /\ strip_dummies merged st' = (Ok m, st')
              /\ out = MolToSmiles m
              /\ Mol.dummies m = []
              /\ calls st'
                 = (calls st ++ CallAttatchFrags (marked_body init term body) :: bond_calls)%list
              /\ Forall2 bond_for (fused_roles init term) bond_calls
              /\ length (bonds merged)
                 = (length (bonds pol) + object_bonds (heap st) init
                    + object_bonds (heap st) term + length (fused_roles init term))%nat
              /\ length (atoms merged)
                 = (length (atoms pol) + object_atoms (heap st) init
                    + object_atoms (heap st) term)%nat
              /\ (reads_without_notes ->
                  objects_ok (heap st) init -> objects_ok (heap st) term ->
                  expected_calls pol (heap st) init term = Some bond_calls
                  /\ objects_ok (heap st') init /\ objects_ok (heap st') term)).
  { intros F. apply attatch_frags_inv in F.
    destruct F as (merged & m & F & R & Hz & Ho).
    destruct (fuse_ends_inv _ _ _ _ _ _ F Hd) as (pol & bc & Hp & Hc & Hb & Ha & Hbo).
    exists pol, merged, m, bc.
    do 9 (split; [assumption|]).
    intros Hclean Hoi Hot.
    destruct (fuse_ends_atoms _ _ _ _ _ _ Hclean F Hd Hoi Hot)
      as (pol' & bc' & Hp' & Hc' & He & Hoi' & Hot').
    rewrite Hp in Hp'. inversion Hp'; subst pol'.
    rewrite Hc in Hc'. apply app_inv_head in Hc'. inversion Hc'; subst bc'.
    repeat split; assumption. }
  destruct init as [a|x|]; destruct term as [b|y|]; try (exact (Hfuse A)).
  cbn in A. unfold ret in A. inversion A; subst; clear A.
  destruct (get_building_blocks_plain _ _ _ _ _ _ _ _ _ E) as (_ & Ha & Hb).
  repeat split. unfold marked_body. rewrite !count_app, Ha, Hb. lia.
Qed.

End FusionClaims.

(** The sample reader gives structures without notes. *)
Lemma Sample_read_atoms_notes s l :
  Sample.read_atoms s = Some l -> Forall (fun a => atomNote a = None) l.
Proof.
  revert l. induction s as [|c s IH]; simpl; intros l E.
  - inversion E. constructor.
  - destruct (Sample.atom_of_char c) as [a|] eqn:Ea; [|discriminate E].
    destruct (Sample.read_atoms s) as [l'|]; [|discriminate E].
    inversion E; subst. constructor; [|now apply IH].
    unfold Sample.atom_of_char in Ea.
    repeat (destruct (Ascii.eqb c _); [inversion Ea; reflexivity|]).
    discriminate Ea.
Qed.

Lemma Sample_reads_without_notes : @reads_without_notes Sample.toolkit.
Proof.
  intros smi m E k. simpl in E. unfold Sample.read in E.
  destruct (Sample.read_atoms smi) as [l|] eqn:El; [|discriminate E].
  inversion E; subst. unfold Mol.note_at. cbn [atoms].
  destruct (l !! k) as [a|] eqn:Ek; [|reflexivity].
  apply Sample_read_atoms_notes in El.
  exact (Forall_lookup_1 _ _ _ _ El Ek).
Qed.

(** C2, as stated, fails on the string path: a marker of the repeat unit
    stays in the chain, which then has placeholder atoms. *)
Lemma createPolymerSMILES_keeps_markers :
  @createPolymerSMILES Sample.toolkit Sample.tables "C" 1 (RList ["*CC*"]) "C" false
    Sample.fresh
  = (Ok (None, "C*CC*C", 0), Sample.fresh)
  /\ PyStr.count PyStr.marker "C*CC*C" = 2%nat
  /\ (length ∘ Mol.dummies) <$> @MolFromSmiles Sample.toolkit "C*CC*C" = Some 2%nat.
Proof. repeat split. Qed.

Lemma end_group_attachment_witness :
  @createPolymerSMILES Sample.toolkit Sample.tables "*O" 3 (RList ["CC"]) "N*" false
    Sample.fresh
  = (Ok (None, "NOCCCCCC", 0),
     snd (@createPolymerSMILES Sample.toolkit Sample.tables "*O" 3 (RList ["CC"]) "N*" false
            Sample.fresh))
  /\ exists (merged m : mol) (bond_calls : list fusion_call),
      "NOCCCCCC" = @MolToSmiles Sample.toolkit m
      /\ Mol.dummies m = []
      /\ bond_calls
         = [CallAddBond 3 1 (Some "head") (Some "attatch") SINGLE;
            CallAddBond 10 0 (Some "tail") (Some "attatch") SINGLE]
      /\ length (bonds merged) = (7 + 1 + 1 + 2)%nat.
Proof.
  split; [vm_compute; reflexivity|].
  destruct (@end_group_attachment Sample.toolkit Sample.tables "*O" "N*" (RList ["CC"])
              Sample.fresh
              (snd (@get_building_blocks Sample.toolkit Sample.tables "*O" "N*" (RList ["CC"])
                      Sample.fresh))
              (PMol 0) (PMol 1) "CC" 0 eq_refl)
    as (Hobj & Hatt).
  destruct (Hobj Sample_reads_without_notes) as (Hoi & Hot).
  destruct (Hatt "CCCCCC"
              (snd (@get_building_blocks Sample.toolkit Sample.tables "*O" "N*" (RList ["CC"])
                      Sample.fresh))
              (snd (@createPolymerSMILES Sample.toolkit Sample.tables "*O" 3 (RList ["CC"])
                      "N*" false Sample.fresh))
              "NOCCCCCC" ltac:(vm_compute; reflexivity))
    as (pol & merged & m & bc & Hp & _ & _ & Ho & Hz & _ & _ & Hl & _ & Hat).
  destruct (Hat Sample_reads_without_notes Hoi Hot) as (He & _ & _).
  exists merged, m, bc. split; [exact Ho|]. split; [exact Hz|].
  vm_compute in Hp. inversion Hp; subst pol. clear Hp.
  split; [vm_compute in He; inversion He; reflexivity|].
  rewrite Hl. reflexivity.
Defined.

(* ===================================================================== *)
(** ** The confirmation path and the chain-family driver *)
(* ===================================================================== *)

Section DriverFacts.

Context `{Toolkit : RDKit} `{Tables : SmilesTables}.

Lemma optPol_unfold smiles w :
  optPol smiles w =
    match MolFromSmiles smiles with
    | None => (Raise (Exn ToolkitError "SanitizeMol"), w)
    | Some pol =>
        match lowest_energy_conformer (AddHs pol) with
        | None => (Raise (Exn IndexError "list index out of range"),
                   with_event w (EmbedMultipleConfs smiles))
        | Some pol_h => (Ok (pol_h, pol), with_event w (EmbedMultipleConfs smiles))
        end
    end.
Proof.
  unfold optPol. destruct (MolFromSmiles smiles) as [pol|]; [|reflexivity].
  unfold bind, emit, modify. cbn iota beta.
  destruct (lowest_energy_conformer (AddHs pol)); reflexivity.
Qed.

Lemma confirmStructure_unfold smi p w :
  confirmStructure smi p w =
    match MolFromSmiles smi with
    | None => (Raise (Exn ToolkitError "drawPol"), w)
    | Some _ =>
        match stdin w with
        | [] => (Raise (Exn EOFError "input"), with_event w (ShowPreview smi))
        | resp :: rest =>
            (if affirmative resp
             then Ok (match p with Some _ => Some true | None => None end)
             else Raise (Exn SystemExit "quit"),
             {| chem := chem w; stdin := rest; trace := trace w ++ [ShowPreview smi] |})
        end
    end.
Proof.
  unfold confirmStructure. destruct (MolFromSmiles smi) as [pol|]; [|reflexivity].
  unfold bind, emit, modify, input. cbn iota beta. cbn [stdin chem trace].
  destruct (stdin w) as [|resp rest] eqn:Es;
    [unfold with_event; now rewrite Es|].
  destruct (affirmative resp); [destruct p|]; reflexivity.
Qed.

Lemma liftC_unfold {A} (c : Chem A) w :
  liftC c w = (fst (c (chem w)), with_chem w (snd (c (chem w)))).
Proof. unfold liftC. destruct (c (chem w)); reflexivity. Qed.

(** What a completed call of [createPolymerSMILES] has done. *)
Lemma createPolymerSMILES_inv i n r t test s res full mpn s' :
  createPolymerSMILES i n r t test s = (Ok (res, full, mpn), s') ->
  exists init term ru s1 s2,
    get_building_blocks i t r s = (Ok (init, term, ru, mpn), s1)
    /\ (if test
        then exists test_smi,
            res = Some test_smi
            /\ add_inator_smiles ru init term s1 = (Ok test_smi, s2)
        else res = None /\ s2 = s1)
    /\ add_inator_smiles (PyStr.mul n ru) init term s2 = (Ok full, s').
Proof.
  unfold createPolymerSMILES. intros E.
  apply bind_inv_ok in E. destruct E as ([[[init term] ru] m] & s1 & E1 & E).
  apply bind_inv_ok in E. destruct E as (ts & s2 & E2 & E).
  apply bind_inv_ok in E. destruct E as (fs & s3 & E3 & E).
  unfold ret in E. inversion E; subst; clear E.
  exists init, term, ru, s1, s2. split; [exact E1|]. split; [|exact E3].
  destruct test.
  - apply bind_inv_ok in E2. destruct E2 as (x & s4 & E2 & E).
    unfold ret in E. inversion E; subst. exists x. split; [reflexivity | exact E2].
  - unfold ret in E2. inversion E2; subst. split; reflexivity.
Qed.

(** The fragment and the count depend on the repeat specification and
    the monomer table only. *)
Lemma get_building_blocks_det i t r s a b ru mpn s1 i' t' s' a' b' ru' mpn' s1' :
  get_building_blocks i t r s = (Ok (a, b, ru, mpn), s1) ->
  get_building_blocks i' t' r s' = (Ok (a', b', ru', mpn'), s1') ->
  ru = ru' /\ mpn = mpn'.
Proof.
  intros E E'. destruct r as [m|m].
  - rewrite get_building_blocks_str in E, E'.
    destruct (monomer_dict !! m) as [frag|]; [|discriminate E].
    apply bind_inv_ok in E. destruct E as (x & s2 & _ & E).
    apply bind_inv_ok in E. destruct E as (y & s3 & _ & E).
    apply bind_inv_ok in E'. destruct E' as (x' & s2' & _ & E').
    apply bind_inv_ok in E'. destruct E' as (y' & s3' & _ & E').
    unfold ret in E, E'. inversion E; inversion E'; subst. split; reflexivity.
  - rewrite get_building_blocks_list in E, E'. cbn zeta in E, E'.
    destruct (forallb coef_defined _); [|discriminate E].
    apply bind_inv_ok in E. destruct E as (x & s2 & _ & E).
    apply bind_inv_ok in E. destruct E as (y & s3 & _ & E).
    apply bind_inv_ok in E'. destruct E' as (x' & s2' & _ & E').
    apply bind_inv_ok in E'. destruct E' as (y' & s3' & _ & E').
    unfold ret in E, E'. inversion E; inversion E'; subst. split; reflexivity.
Qed.

End DriverFacts.

Lemma family_entries_length E js hs smis ps :
  family_entries E js hs smis ps ->
  length hs = length js /\ length smis = length js /\ length ps = length js.
Proof.
  induction 1 as [|j js h hs smi smis p ps He Hf (IH1 & IH2 & IH3)]; simpl;
    [repeat split | repeat split; congruence].
Qed.

Lemma family_entries_lookup E js hs smis ps k j :
  family_entries E js hs smis ps -> js !! k = Some j ->
  exists h smi p,
    hs !! k = Some h /\ smis !! k = Some smi /\ ps !! k = Some p /\ E j h smi p.
Proof.
  intros Hf. revert k. induction Hf as [|j0 js h hs smi smis p ps He Hf IH];
    intros k Hk; [discriminate Hk|].
  destruct k as [|k]; simpl in Hk.
  - inversion Hk; subst. exists h, smi, p. repeat split; assumption.
  - exact (IH _ Hk).
Qed.

Lemma family_entries_impl (E F : Z -> mol -> string -> mol -> Prop) js hs smis ps :
  (forall j h smi p, E j h smi p -> F j h smi p) ->
  family_entries E js hs smis ps -> family_entries F js hs smis ps.
Proof. intros H. induction 1; constructor; auto. Qed.

Lemma range_1_lookup n k :
  (k < Z.to_nat n)%nat -> range_1 n !! k = Some (Z.of_nat k + 1).
Proof.
  intros Hk. unfold range_1. rewrite list_lookup_fmap.
  rewrite lookup_seq_lt by exact Hk. simpl. f_equal. lia.
Qed.

Lemma range_1_length n : length (range_1 n) = Z.to_nat n.
Proof. unfold range_1. now rewrite length_map, length_seq. Qed.

Lemma range_1_cons n :
  1 <= n -> range_1 n = 1 :: map Z.of_nat (seq 2 (Nat.pred (Z.to_nat n))).
Proof.
  intros Hn. unfold range_1.
  destruct (Z.to_nat n) as [|k] eqn:E; [lia|]. reflexivity.
Qed.

Section FamilyFacts.

Context `{Toolkit : RDKit} `{Tables : SmilesTables}.
Variables (i : string) (r : repeat_spec) (t : string) (confirm : bool).

Lemma family_step_unprompted v j w :
  unprompted confirm (proceed v) j ->
  family_step i r t confirm v j w =
    match createPolymerSMILES i j r t false (chem w) with
    | (Ok (None, s, mpn), c1) =>
        match optPol s (with_chem w c1) with
        | (Ok (pol_h, pol), w2) =>
            (Ok {| proceed := proceed v; smi := Some s; m_per_n := Some mpn;
                   POL_LIST := POL_LIST v ++ [pol_h]; SMI_LIST := SMI_LIST v ++ [s];
                   Unopt_pols := Unopt_pols v ++ [pol] |}, w2)
        | (Raise e, w2) => (Raise e, w2)
        end
    | (Ok (Some _, _, _), c1) =>
        (Raise (Exn ValueError "too many values to unpack"), with_chem w c1)
    | (Raise e, c1) => (Raise e, with_chem w c1)
    end.
Proof.
  intros [H1 H2]. unfold family_step. rewrite H1, H2.
  unfold bind at 1. unfold ret at 1. cbn iota beta.
  unfold bind at 1. unfold bind at 1. rewrite liftC_unfold.
  destruct (createPolymerSMILES i j r t false (chem w)) as [[[[res s] mpn]|e] c1];
    cbn [fst snd]; [|reflexivity].
  destruct res as [ts|]; cbn; [reflexivity|].
  unfold bind. destruct (optPol s (with_chem w c1)) as [[[pol_h pol]|e] w2]; reflexivity.
Qed.

(** One unprompted step: it reads no input, its only event is an
    embedding, and when it completes it has appended one entry. *)
Lemma family_step_unprompted_inv v j w o w' :
  unprompted confirm (proceed v) j ->
  family_step i r t confirm v j w = (o, w') ->
  stdin w' = stdin w
  /\ (trace w' = trace w \/ exists s, trace w' = trace w ++ [EmbedMultipleConfs s])
  /\ (trace w' = trace w -> exists e, o = Raise e)
  /\ forall v', o = Ok v' ->
       exists s mpn pol_h pol,
         trace w' = trace w ++ [EmbedMultipleConfs s]
         /\ proceed v' = proceed v
         /\ m_per_n v' = Some mpn
         /\ SMI_LIST v' = SMI_LIST v ++ [s]
         /\ POL_LIST v' = POL_LIST v ++ [pol_h]
         /\ Unopt_pols v' = Unopt_pols v ++ [pol]
         /\ entry i r t mpn j pol_h s pol.
Proof.
  intros Hu E. rewrite (family_step_unprompted _ _ _ Hu) in E.
  destruct (createPolymerSMILES i j r t false (chem w)) as [[[[res s] mpn]|e] c1] eqn:EC.
  - destruct res as [ts|].
    + inversion E; subst. simpl. repeat split; eauto. intros v' Hv. discriminate Hv.
    + rewrite optPol_unfold in E.
      destruct (MolFromSmiles s) as [pol|] eqn:EM.
      * destruct (lowest_energy_conformer (AddHs pol)) as [pol_h|] eqn:EL;
          inversion E; subst; simpl.
        -- split; [reflexivity|]. split; [right; eauto|]. split.
           ++ intros Ht. exfalso. apply (f_equal (@length _)) in Ht.
              rewrite length_app in Ht. simpl in Ht. lia.
           ++ intros v' Hv. inversion Hv; subst. simpl.
              exists s, mpn, pol_h, pol. repeat split; try assumption.
              exists false, (chem w), None, c1. exact EC.
        -- split; [reflexivity|]. split; [right; eauto|]. split; [eauto|].
           intros v' Hv. discriminate Hv.
      * inversion E; subst. simpl. repeat split; eauto. intros v' Hv. discriminate Hv.
  - inversion E; subst. simpl. repeat split; eauto. intros v' Hv. discriminate Hv.
Qed.

(** A run of unprompted steps. *)
Lemma family_loop_unprompted js : forall v w o w',
  Forall (unprompted confirm (proceed v)) js ->
  foldM (family_step i r t confirm) v js w = (o, w') ->
  stdin w' = stdin w
  /\ exists smis,
      trace w' = trace w ++ map EmbedMultipleConfs smis
      /\ forall v', o = Ok v' ->
           proceed v' = proceed v
           /\ SMI_LIST v' = SMI_LIST v ++ smis
           /\ (js = [] -> m_per_n v' = m_per_n v)
           /\ exists hs ps,
               POL_LIST v' = POL_LIST v ++ hs
               /\ Unopt_pols v' = Unopt_pols v ++ ps
               /\ family_entries (fun j h s p => exists mpn, entry i r t mpn j h s p)
                                 js hs smis ps
               /\ (js <> [] -> exists mpn j s, m_per_n v' = Some mpn /\ built i r t j s mpn).
Proof.
  induction js as [|j js IH]; intros v w o w' Hall E.
  - simpl in E. unfold ret in E. inversion E; subst.
    split; [reflexivity|]. exists []. split; [simpl; now rewrite app_nil_r|].
    intros v' Hv. inversion Hv; subst. split; [reflexivity|].
    split; [now rewrite app_nil_r|]. split; [reflexivity|].
    exists [], []. rewrite !app_nil_r. repeat split; [constructor | congruence].
  - inversion Hall as [|? ? Hj Hjs]; subst. cbn [foldM] in E.
    apply bind_inv in E. destruct E as [(e & E & ->) | (v1 & w1 & E1 & E)].
    + destruct (family_step_unprompted_inv _ _ _ _ _ Hj E) as (Hs & Ht & _ & _).
      split; [exact Hs|]. destruct Ht as [Ht | (s & Ht)].
      * exists []. split; [simpl; now rewrite app_nil_r|]. intros v' Hv. discriminate Hv.
      * exists [s]. split; [exact Ht|]. intros v' Hv. discriminate Hv.
    + destruct (family_step_unprompted_inv _ _ _ _ _ Hj E1) as (Hs & _ & _ & Hok).
      destruct (Hok v1 eq_refl) as (s & mpn & pol_h & pol & Ht & Hp & Hm & HS & HP & HU & He).
      rewrite <- Hp in Hjs.
      destruct (IH _ _ _ _ Hjs E) as (Hs' & smis & Ht' & Hok').
      split; [congruence|]. exists (s :: smis). split.
      * rewrite Ht', Ht. rewrite <- app_assoc. reflexivity.
      * intros v' Hv. destruct (Hok' v' Hv) as (Hp' & HS' & Hm' & hs & ps & HP' & HU' & Hf & Hlast).
        split; [congruence|]. split; [rewrite HS', HS, <- app_assoc; reflexivity|].
        split; [discriminate|].
        exists (pol_h :: hs), (pol :: ps).
        split; [rewrite HP', HP, <- app_assoc; reflexivity|].
        split; [rewrite HU', HU, <- app_assoc; reflexivity|].
        split; [constructor; [exists mpn; exact He | exact Hf]|].
        intros _. destruct js as [|j2 js2].
        -- exists mpn, j, s. split; [|exact (proj1 He)].
           rewrite (Hm' eq_refl). exact Hm.
        -- apply Hlast. discriminate.
Qed.

End FamilyFacts.

Section ConfirmationFacts.

Context `{Toolkit : RDKit} `{Tables : SmilesTables}.
Variables (i : string) (r : repeat_spec) (t : string).

Lemma createPolymerSMILES_preview n s ts full mpn s' :
  createPolymerSMILES i n r t true s = (Ok (Some ts, full, mpn), s') ->
  preview i r t s ts.
Proof.
  intros E. apply createPolymerSMILES_inv in E.
  destruct E as (init & term & ru & s1 & s2 & E1 & (x & Hx & E2) & _).
  inversion Hx; subst. exists init, term, ru, mpn, s1, s2. split; assumption.
Qed.

Lemma createPolymerSMILES_test_some n s full mpn s' :
  createPolymerSMILES i n r t true s <> (Ok (None, full, mpn), s').
Proof.
  intros E. apply createPolymerSMILES_inv in E.
  destruct E as (init & term & ru & s1 & s2 & _ & (x & Hx & _) & _). discriminate Hx.
Qed.

(** The first step of a family that asks for confirmation. *)
Lemma family_step_prompted v w :
  proceed v = Some false ->
  family_step i r t true v 1 w =
    match createPolymerSMILES i 1 r t true (chem w) with
    | (Ok (Some ts, full, mpn), c1) =>
        prompt_then_embed ts (Some (Some false)) true full
          (fun q pol_h pol =>
             {| proceed := q; smi := Some full; m_per_n := Some mpn;
                POL_LIST := POL_LIST v ++ [pol_h]; SMI_LIST := SMI_LIST v ++ [full];
                Unopt_pols := Unopt_pols v ++ [pol] |})
          (with_chem w c1)
    | (Ok (None, _, _), c1) =>
        (Raise (Exn ValueError "not enough values to unpack"), with_chem w c1)
    | (Raise e, c1) => (Raise e, with_chem w c1)
    end.
Proof.
  intros Hp. unfold family_step. rewrite Hp. cbn [Z.eqb Pos.eqb andb not_ orb negb Z.ltb Z.compare Pos.compare Pos.compare_cont].
  unfold bind at 1. unfold bind at 1. rewrite liftC_unfold.
  destruct (createPolymerSMILES i 1 r t true (chem w)) as [[[[res full] mpn]|e] c1];
    cbn [fst snd]; [|reflexivity].
  destruct res as [ts|]; cbn [unpack3]; [|reflexivity].
  unfold bind at 1. unfold ret at 1. cbn iota beta.
  unfold prompt_then_embed, bind, ret.
  destruct (confirmStructure ts (Some (Some false)) (with_chem w c1)) as [[p|e] w2];
    [|reflexivity].
  cbn [Z.eqb Pos.eqb andb not_ orb negb Z.ltb Z.compare Pos.compare Pos.compare_cont smi].
  destruct (optPol full w2) as [[[pol_h pol]|e] w3]; reflexivity.
Qed.

(** The driver for one chain. *)
Lemma make_One_unfold n confirm w :
  make_One_or_More_Polymers i n r t false confirm w =
    match createPolymerSMILES i n r t true (chem w) with
    | (Ok (Some ts, full, mpn), c1) =>
        prompt_then_embed ts None confirm full
          (fun _ pol_h pol => OnePolymer pol_h full pol mpn) (with_chem w c1)
    | (Ok (None, _, _), c1) =>
        (Raise (Exn ValueError "not enough values to unpack"), with_chem w c1)
    | (Raise e, c1) => (Raise e, with_chem w c1)
    end.
Proof.
  unfold make_One_or_More_Polymers.
  unfold bind at 1. rewrite liftC_unfold.
  destruct (createPolymerSMILES i n r t true (chem w)) as [[[[res full] mpn]|e] c1];
    cbn [fst snd]; [|reflexivity].
  destruct res as [ts|]; cbn [unpack3]; [|reflexivity].
  unfold bind at 1. unfold ret at 1. cbn iota beta.
  unfold prompt_then_embed, bind, ret. destruct confirm.
  - destruct (confirmStructure ts None (with_chem w c1)) as [[p|e] w2]; [|reflexivity].
    destruct (optPol full w2) as [[[pol_h pol]|e] w3]; reflexivity.
  - destruct (optPol full (with_chem w c1)) as [[[pol_h pol]|e] w3]; reflexivity.
Qed.

End ConfirmationFacts.

Section PromptFacts.

Context `{Toolkit : RDKit} `{Tables : SmilesTables}.

Lemma prompt_then_embed_unfold {A} ts p ask full (f : option bool -> mol -> mol -> A) w1 :
  prompt_then_embed ts p ask full f w1 =
    let go (w2 : world) (q : option bool) :=
      match MolFromSmiles full with
      | None => (Raise (Exn ToolkitError "SanitizeMol"), w2)
      | Some pol =>
          match lowest_energy_conformer (AddHs pol) with
          | None => (Raise (Exn IndexError "list index out of range"),
                     with_event w2 (EmbedMultipleConfs full))
          | Some pol_h => (Ok (f q pol_h pol), with_event w2 (EmbedMultipleConfs full))
          end
      end in
    if ask then
      match MolFromSmiles ts with
      | None => (Raise (Exn ToolkitError "drawPol"), w1)
      | Some _ =>
          match stdin w1 with
          | [] => (Raise (Exn EOFError "input"), with_event w1 (ShowPreview ts))
          | resp :: rest =>
              if affirmative resp
              then go {| chem := chem w1; stdin := rest;
                         trace := trace w1 ++ [ShowPreview ts] |} (confirmed p)
              else (Raise (Exn SystemExit "quit"),
                    {| chem := chem w1; stdin := rest;
                       trace := trace w1 ++ [ShowPreview ts] |})
          end
      end
    else go w1 None.
Proof.
  unfold prompt_then_embed, bind. destruct ask.
  - rewrite confirmStructure_unfold.
    destruct (MolFromSmiles ts); [|reflexivity].
    destruct (stdin w1) as [|resp rest]; [reflexivity|].
    destruct (affirmative resp); [|reflexivity].
    rewrite optPol_unfold. cbn zeta.
    destruct (MolFromSmiles full) as [pol|]; [|reflexivity].
    destruct (lowest_energy_conformer (AddHs pol)); reflexivity.
  - unfold ret at 1. rewrite optPol_unfold. cbn zeta.
    destruct (MolFromSmiles full) as [pol|]; [|reflexivity].
    destruct (lowest_energy_conformer (AddHs pol)); reflexivity.
Qed.

(** What the end of a branch of the driver does, case by case. *)
Lemma prompt_then_embed_inv {A} ts p ask full (f : option bool -> mol -> mol -> A)
    w1 o w' :
  prompt_then_embed ts p ask full f w1 = (o, w') ->
  chem w' = chem w1
  /\ exists evs,
      trace w' = trace w1 ++ evs
      /\ (ask = false ->
          stdin w' = stdin w1 /\ (evs = [] \/ evs = [EmbedMultipleConfs full]))
      /\ (ask = true ->
          evs = [] \/ evs = [ShowPreview ts]
          \/ evs = [ShowPreview ts; EmbedMultipleConfs full])
      /\ (evs = [] -> exists e, o = Raise e)
      /\ (ask = true -> forall resp rest,
            stdin w1 = resp :: rest -> affirmative resp = false ->
            (exists e, o = Raise e)
            /\ (evs = [] \/ (evs = [ShowPreview ts] /\ o = Raise (Exn SystemExit "quit")
                             /\ stdin w' = rest)))
      /\ (ask = true -> forall resp rest,
            stdin w1 = resp :: rest -> affirmative resp = true -> evs <> [] ->
            stdin w' = rest
            /\ ((MolFromSmiles full = None /\ evs = [ShowPreview ts]
                 /\ o = Raise (Exn ToolkitError "SanitizeMol"))
                \/ evs = [ShowPreview ts; EmbedMultipleConfs full]))
      /\ (forall a, o = Ok a ->
            exists pol_h pol,
              MolFromSmiles full = Some pol
              /\ lowest_energy_conformer (AddHs pol) = Some pol_h
              /\ a = f (if ask then confirmed p else None) pol_h pol
              /\ evs = (if ask then [ShowPreview ts] else []) ++ [EmbedMultipleConfs full]).
Proof.
  rewrite prompt_then_embed_unfold. cbn zeta. intros E.
  destruct ask;
    [ destruct (MolFromSmiles ts) as [pt|] eqn:Ets;
      [ destruct (stdin w1) as [|resp rest] eqn:Es;
        [ | destruct (affirmative resp) eqn:Ea ] | ] | ];
    try (destruct (MolFromSmiles full) as [pol|] eqn:Ef;
         [ destruct (lowest_energy_conformer (AddHs pol)) as [pol_h|] eqn:El | ]);
    inversion E; subst; clear E; (split; [reflexivity|]);
    eexists; (split; [ simpl; rewrite <- ?app_assoc;
                       first [ reflexivity | symmetry; apply app_nil_r ] | ]).
  all: split; [solve [intros Hq; try discriminate Hq; simpl; auto]|].
  all: split; [solve [intros Hq; try discriminate Hq; simpl; auto]|].
  all: split; [solve [intros Hq; try discriminate Hq; simpl; eauto]|].
  all: split; [solve [intros Hq; try discriminate Hq; intros resp' rest' Hs Hr;
               inversion Hs; subst; try congruence; simpl; naive_solver]|].
  all: split; [solve [intros Hq; try discriminate Hq; intros resp' rest' Hs Hr Hne;
               inversion Hs; subst; try congruence; simpl; naive_solver]|].
  all: intros a Ha; try discriminate Ha; inversion Ha; subst; eauto 8.
Qed.

End PromptFacts.

Lemma unprompted_quiet p j : unprompted false p j.
Proof.
  unfold unprompted. rewrite andb_false_r. simpl. rewrite orb_true_r.
  split; reflexivity.
Qed.

Lemma unprompted_later j : 1 < j -> unprompted true (Some true) j.
Proof.
  intros H. unfold unprompted. simpl. rewrite andb_false_r, orb_false_r.
  split; [reflexivity | now apply Z.ltb_lt].
Qed.

Lemma unprompted_tail k :
  Forall (unprompted true (Some true)) (map Z.of_nat (seq 2 k)).
Proof.
  apply List.Forall_forall. intros j Hj. apply in_map_iff in Hj.
  destruct Hj as (x & <- & Hx). apply in_seq in Hx. apply unprompted_later. lia.
Qed.

Section LoopFacts.
Context `{Toolkit : RDKit} `{Tables : SmilesTables}.
Variables (i : string) (r : repeat_spec) (t : string).

(** What the loop of the driver has done when it stops, whatever the
    outcome. *)
Lemma family_loop_inv n confirm w o w' :
  foldM (family_step i r t confirm) (family_start confirm) (range_1 n) w = (o, w') ->
  exists evs,
    trace w' = trace w ++ evs
    /\ (confirm = false ->
        stdin w' = stdin w /\ exists smis, evs = map EmbedMultipleConfs smis)
    /\ (confirm = true ->
        evs = []
        \/ exists ts smis,
            evs = ShowPreview ts :: map EmbedMultipleConfs smis
            /\ preview i r t (chem w) ts)
    /\ (confirm = true -> forall resp rest,
          stdin w = resp :: rest -> affirmative resp = false ->
          (n < 1 \/ exists e, o = Raise e)
          /\ (evs = []
              \/ ((exists ts, evs = [ShowPreview ts])
                  /\ o = Raise (Exn SystemExit "quit") /\ stdin w' = rest)))
    /\ (confirm = true -> forall resp rest,
          stdin w = resp :: rest -> affirmative resp = true -> evs <> [] ->
          stdin w' = rest
          /\ exists ts full mpn,
              built i r t 1 full mpn
              /\ ((MolFromSmiles full = None /\ evs = [ShowPreview ts]
                   /\ o = Raise (Exn ToolkitError "SanitizeMol"))
                  \/ exists smis,
                      evs = ShowPreview ts :: EmbedMultipleConfs full
                            :: map EmbedMultipleConfs smis))
    /\ (forall v', o = Ok v' ->
          List.filter is_embedding evs = map EmbedMultipleConfs (SMI_LIST v')
          /\ family_entries (fun j h s p => exists mpn, entry i r t mpn j h s p)
                            (range_1 n) (POL_LIST v') (SMI_LIST v') (Unopt_pols v')
          /\ (n < 1 -> m_per_n v' = None)
          /\ (1 <= n -> exists mpn j s, m_per_n v' = Some mpn /\ built i r t j s mpn)).
Proof.
  intros E. destruct (Z.lt_ge_cases n 1) as [Hn | Hn].
  - assert (Hr : range_1 n = []) by (unfold range_1; replace (Z.to_nat n) with O by lia; reflexivity).
    rewrite Hr in *. simpl in E. unfold ret in E. inversion E; subst; clear E.
    exists []. split; [now rewrite app_nil_r|].
    split; [intros _; split; [reflexivity | exists []; reflexivity]|].
    split; [intros _; now left|].
    split; [intros _ resp rest _ _; split; [now left | now left]|].
    split; [intros _ resp rest _ _ Hne; congruence|].
    intros v' Hv. inversion Hv; subst. simpl.
    split; [reflexivity|]. split; [constructor|]. split; [reflexivity | lia].
  - destruct confirm.
    + (* with confirmation *)
      rewrite (range_1_cons _ Hn) in E |- *. set (tl := map Z.of_nat (seq 2 (Nat.pred (Z.to_nat n)))) in *.
      cbn [foldM] in E.
      assert (Hstep : forall o1 w1,
                 family_step i r t true (family_start true) 1 w = (o1, w1) ->
                 (exists e, o1 = Raise e /\ trace w1 = trace w /\ stdin w1 = stdin w)
                 \/ exists ts full mpn c1,
                     createPolymerSMILES i 1 r t true (chem w) = (Ok (Some ts, full, mpn), c1)
                     /\ prompt_then_embed ts (Some (Some false)) true full
                          (fun q pol_h pol =>
                             {| proceed := q; smi := Some full; m_per_n := Some mpn;
                                POL_LIST := [] ++ [pol_h]; SMI_LIST := [] ++ [full];
                                Unopt_pols := [] ++ [pol] |})
                          (with_chem w c1) = (o1, w1)).
      { intros o1 w1 E1. rewrite family_step_prompted in E1 by reflexivity.
        destruct (createPolymerSMILES i 1 r t true (chem w)) as [[[[[ts|] full] mpn]|e] c1] eqn:EC.
        - right. exists ts, full, mpn, c1. split; [reflexivity | exact E1].
        - left. inversion E1; subst. eexists. repeat split.
        - left. inversion E1; subst. eexists. repeat split. }
      apply bind_inv in E. destruct E as [(e & E1 & ->) | (v1 & w1 & E1 & E2)].
      * (* the first step raises *)
        destruct (Hstep _ _ E1) as [(e' & _ & Ht & Hs) | (ts & full & mpn & c1 & EC & P1)].
        -- exists []. split; [now rewrite app_nil_r|].
           split; [discriminate|]. split; [intros _; now left|].
           split; [intros _ resp rest _ _; split; [right; eauto | now left]|].
           split; [intros _ resp rest _ _ Hne; congruence|].
           intros v' Hv. discriminate Hv.
        -- apply prompt_then_embed_inv in P1.
           destruct P1 as (_ & evs & Ht & _ & HP & _ & HR & HA & _).
           cbn [with_chem trace stdin] in Ht, HR, HA.
           exists evs. split; [exact Ht|].
           split; [discriminate|].
           split.
           { intros _. destruct (HP eq_refl) as [-> | [-> | ->]]; [now left | right | right].
             - exists ts, []. split; [reflexivity|]. eapply createPolymerSMILES_preview; eauto.
             - exists ts, [full]. split; [reflexivity|]. eapply createPolymerSMILES_preview; eauto. }
           split.
           { intros _ resp rest Hs Hr. destruct (HR eq_refl resp rest Hs Hr) as (He & Hev).
             split; [now right|]. destruct Hev as [-> | (-> & Ho & Hst)]; [now left | right].
             split; [eauto | split; assumption]. }
           split.
           { intros _ resp rest Hs Hr Hne. destruct (HA eq_refl resp rest Hs Hr Hne) as (Hst & Hd).
             split; [exact Hst|]. exists ts, full, mpn.
             split; [exists true, (chem w), (Some ts), c1; exact EC|].
             destruct Hd as [(Hf & -> & Ho) | ->]; [left; repeat split; assumption | right].
             exists []. reflexivity. }
           intros v' Hv. discriminate Hv.
      * (* the first step completes *)
        destruct (Hstep _ _ E1) as [(e' & He & _) | (ts & full & mpn & c1 & EC & P1)];
          [discriminate He|].
        apply prompt_then_embed_inv in P1.
        destruct P1 as (_ & evs & Ht & _ & _ & _ & HR & HA & HK).
        cbn [with_chem trace stdin] in Ht, HR, HA.
        destruct (HK v1 eq_refl) as (pol_h & pol & Hpol & Hh & Hv1 & Hevs).
        simpl in Hevs. subst evs.
        assert (Hp1 : proceed v1 = Some true) by (subst v1; reflexivity).
        assert (Htl : Forall (unprompted true (proceed v1)) tl)
          by (rewrite Hp1; apply unprompted_tail).
        destruct (family_loop_unprompted i r t true tl v1 w1 o w' Htl E2)
          as (Hs2 & smis & Ht2 & HK2).
        assert (Hb : built i r t 1 full mpn)
          by (exists true, (chem w), (Some ts), c1; exact EC).
        exists (ShowPreview ts :: EmbedMultipleConfs full :: map EmbedMultipleConfs smis).
        split; [rewrite Ht2, Ht, <- app_assoc; reflexivity|].
        split; [discriminate|].
        split.
        { intros _. right. exists ts, (full :: smis). split; [reflexivity|].
          eapply createPolymerSMILES_preview; eauto. }
        split.
        { intros _ resp rest Hs Hr. destruct (HR eq_refl resp rest Hs Hr) as ((e & He) & _).
          discriminate He. }
        split.
        { intros _ resp rest Hs Hr _.
          destruct (HA eq_refl resp rest Hs Hr ltac:(discriminate)) as (Hst & _).
          split; [congruence|]. exists ts, full, mpn. split; [exact Hb|].
          right. exists smis. reflexivity. }
        intros v' Hv.
        destruct (HK2 v' Hv) as (_ & HS & Hm & hs & ps & HP & HU & Hf & Hlast).
        subst v1. cbn [SMI_LIST POL_LIST Unopt_pols m_per_n app] in *.
        rewrite HS, HP, HU. simpl.
        split.
        { f_equal. clear. induction smis as [|x l IH]; simpl; [reflexivity | now rewrite IH]. }
        split.
        { constructor; [|exact Hf]. exists mpn. repeat split; assumption. }
        split; [lia|].
        intros _. destruct tl as [|j2 tl2].
        -- exists mpn, 1, full. split; [now rewrite (Hm eq_refl) | exact Hb].
        -- apply Hlast. discriminate.
    + (* without confirmation *)
      assert (Hall : Forall (unprompted false (proceed (family_start false))) (range_1 n))
        by (apply List.Forall_forall; intros j _; apply unprompted_quiet).
      destruct (family_loop_unprompted i r t false _ _ _ _ _ Hall E)
        as (Hs & smis & Ht & HK).
      exists (map EmbedMultipleConfs smis). split; [exact Ht|].
      split; [intros _; split; [exact Hs | eauto]|].
      split; [discriminate|]. split; [discriminate|]. split; [discriminate|].
      intros v' Hv.
      destruct (HK v' Hv) as (_ & HS & Hm & hs & ps & HP & HU & Hf & Hlast).
      cbn [family_start SMI_LIST POL_LIST Unopt_pols m_per_n app] in *.
      rewrite HS, HP, HU.
      split.
      { clear. induction smis as [|x l IH]; simpl; [reflexivity | now rewrite IH]. }
      split; [exact Hf|]. split; [lia|].
      intros _. apply Hlast. rewrite (range_1_cons _ Hn). discriminate.
Qed.
End LoopFacts.

Section DriverEvents.

Context `{Toolkit : RDKit} `{Tables : SmilesTables}.
Variables (i : string) (r : repeat_spec) (t : string).

Lemma make_family_unfold n confirm w :
  make_One_or_More_Polymers i n r t true confirm w =
    match foldM (family_step i r t confirm) (family_start confirm) (range_1 n) w with
    | (Ok v, w1) =>
        (match m_per_n v with
         | None => Raise (Exn UnboundLocalError "m_per_n")
         | Some mpn => Ok (Family (POL_LIST v) (SMI_LIST v) (Unopt_pols v) mpn)
         end, w1)
    | (Raise e, w1) => (Raise e, w1)
    end.
Proof.
  unfold make_One_or_More_Polymers, bind. fold (family_start confirm).
  destruct (foldM _ _ _ w) as [[v|e] w1]; [|reflexivity].
  destruct (m_per_n v); reflexivity.
Qed.

(** The events of a call of the driver, whatever its outcome. *)
Lemma make_One_or_More_Polymers_events n plot confirm w o w' :
  make_One_or_More_Polymers i n r t plot confirm w = (o, w') ->
  exists evs,
    trace w' = trace w ++ evs
    /\ (confirm = false ->
        stdin w' = stdin w /\ exists smis, evs = map EmbedMultipleConfs smis)
    /\ (confirm = true ->
        evs = []
        \/ exists ts smis,
            evs = ShowPreview ts :: map EmbedMultipleConfs smis
            /\ preview i r t (chem w) ts)
    /\ (confirm = true -> forall resp rest,
          stdin w = resp :: rest -> affirmative resp = false ->
          (exists e, o = Raise e)
          /\ (evs = []
              \/ ((exists ts, evs = [ShowPreview ts])
                  /\ o = Raise (Exn SystemExit "quit") /\ stdin w' = rest)))
    /\ (confirm = true -> forall resp rest,
          stdin w = resp :: rest -> affirmative resp = true -> evs <> [] ->
          stdin w' = rest
          /\ exists ts full mpn,
              built i r t (if plot then 1 else n) full mpn
              /\ ((MolFromSmiles full = None /\ evs = [ShowPreview ts]
                   /\ o = Raise (Exn ToolkitError "SanitizeMol"))
                  \/ exists smis,
                      evs = ShowPreview ts :: EmbedMultipleConfs full
                            :: map EmbedMultipleConfs smis)).
Proof.
  destruct plot.
  - rewrite make_family_unfold.
    destruct (foldM _ _ _ w) as [o1 w1] eqn:EL. intros E.
    assert (Hw : w1 = w') by (destruct o1; inversion E; reflexivity). subst w1.
    destruct (family_loop_inv i r t n confirm w o1 w' EL)
      as (evs & Ht & HQ & HP & HR & HA & HK).
    exists evs. split; [exact Ht|]. split; [exact HQ|]. split; [exact HP|].
    split.
    + intros Hc resp rest Hs Hr. destruct (HR Hc resp rest Hs Hr) as (He & Hev).
      assert (Hraise : exists e, o = Raise e).
      { destruct o1 as [v|e]; [|inversion E; eauto].
        destruct He as [Hn | (e & He)]; [|discriminate He].
        destruct (HK v eq_refl) as (_ & _ & Hm & _). rewrite (Hm Hn) in E.
        inversion E; eauto. }
      split; [exact Hraise|].
      destruct Hev as [-> | (Hts & Ho & Hst)]; [now left | right].
      split; [exact Hts|]. split; [|exact Hst]. subst o1. inversion E; reflexivity.
    + intros Hc resp rest Hs Hr Hne. destruct (HA Hc resp rest Hs Hr Hne) as (Hst & ts & full & mpn & Hb & Hd).
      split; [exact Hst|]. exists ts, full, mpn. split; [exact Hb|].
      destruct Hd as [(Hf & Hev & Ho) | Hd]; [left | now right].
      repeat split; try assumption. subst o1. inversion E; reflexivity.
  - rewrite make_One_unfold.
    destruct (createPolymerSMILES i n r t true (chem w)) as [[[[[ts|] full] mpn]|e] c1] eqn:EC;
      intros E.
    + apply prompt_then_embed_inv in E.
      destruct E as (_ & evs & Ht & HQ & HP & _ & HR & HA & _).
      cbn [with_chem trace stdin] in Ht, HQ, HR, HA.
      exists evs. split; [exact Ht|].
      split.
      { intros Hc. destruct (HQ Hc) as (Hs & [-> | ->]); split; try exact Hs;
          [exists [] | exists [full]]; reflexivity. }
      split.
      { intros Hc. destruct (HP Hc) as [-> | [-> | ->]]; [now left | right | right].
        - exists ts, []. split; [reflexivity|]. eapply createPolymerSMILES_preview; eauto.
        - exists ts, [full]. split; [reflexivity|]. eapply createPolymerSMILES_preview; eauto. }
      split.
      { intros Hc resp rest Hs Hr. destruct (HR Hc resp rest Hs Hr) as (He & Hev).
        split; [exact He|]. destruct Hev as [-> | (-> & Ho & Hst)]; [now left | right].
        split; [eauto | split; assumption]. }
      intros Hc resp rest Hs Hr Hne. destruct (HA Hc resp rest Hs Hr Hne) as (Hst & Hd).
      split; [exact Hst|]. exists ts, full, mpn.
      split; [exists true, (chem w), (Some ts), c1; exact EC|].
      destruct Hd as [(Hf & -> & Ho) | ->]; [left; repeat split; assumption | right].
      exists []. reflexivity.
    + inversion E; subst. exists []. split; [simpl; now rewrite app_nil_r|].
      split; [intros _; split; [reflexivity | exists []; reflexivity]|].
      split; [intros _; now left|].
      split; [intros _ resp rest _ _; split; [eauto | now left]|].
      intros _ resp rest _ _ Hne. congruence.
    + inversion E; subst. exists []. split; [simpl; now rewrite app_nil_r|].
      split; [intros _; split; [reflexivity | exists []; reflexivity]|].
      split; [intros _; now left|].
      split; [intros _ resp rest _ _; split; [eauto | now left]|].
      intros _ resp rest _ _ Hne. congruence.
Qed.

End DriverEvents.

Section ConfirmationClaim.

Context `{Toolkit : RDKit} `{Tables : SmilesTables}.

(** C9. In a run with confirmation (no [-q]), the preview of the chain of
    one repeat unit is shown before any call of [EmbedMultipleConfs], and
    it is shown at most once, also for a family of chains: the events of
    the run are none, or the preview followed by embeddings only.  When
    the operator answers anything but [y], [Y] or the empty line, the run
    ends with [SystemExit] as soon as the answer is read and no embedding
    is ever called.  When the answer is one of those three, the run goes
    on: the next call is the optimisation of the first chain.  In a run
    with [-q] no preview is shown and no answer is read. *)
Theorem confirmation_before_embedding (v : vardict) (w w' : world) (o : outcome polymers) :
  main_make_polymers v w = (o, w') ->
  exists evs : list run_event,
    trace w' = trace w ++ evs
    /\ (arg_quiet v = true ->
        stdin w' = stdin w /\ exists smis, evs = map EmbedMultipleConfs smis)
    /\ (arg_quiet v = false ->
        evs = []
        \/ exists r ts smis,
            getRepeatUnit (arg_single_monomer v) (arg_super_monomer v) = Ok r
            /\ preview (arg_initiator v) r (arg_terminator v) (chem w) ts
            /\ evs = ShowPreview ts :: map EmbedMultipleConfs smis)
    /\ (arg_quiet v = false -> forall resp rest,
          stdin w = resp :: rest -> resp <> "y" -> resp <> "Y" -> resp <> "" ->
          (exists e, o = Raise e)
          /\ Forall (fun e => is_embedding e = false) evs
          /\ (evs <> [] ->
              (exists ts, evs = [ShowPreview ts])
              /\ o = Raise (Exn SystemExit "quit") /\ stdin w' = rest))
    /\ (arg_quiet v = false -> forall resp rest,
          stdin w = resp :: rest -> resp = "y" \/ resp = "Y" \/ resp = "" ->
          evs <> [] ->
          stdin w' = rest
          /\ exists r ts full mpn,
              getRepeatUnit (arg_single_monomer v) (arg_super_monomer v) = Ok r
              /\ built (arg_initiator v) r (arg_terminator v)
                       (if arg_plot v then 1 else arg_n v) full mpn
              /\ ((MolFromSmiles full = None /\ evs = [ShowPreview ts]
                   /\ o = Raise (Exn ToolkitError "SanitizeMol"))
                  \/ exists smis,
                      evs = ShowPreview ts :: EmbedMultipleConfs full
                            :: map EmbedMultipleConfs smis)).
Proof.
  unfold main_make_polymers, bind, lift_outcome.
  destruct (getRepeatUnit (arg_single_monomer v) (arg_super_monomer v)) as [r|e] eqn:ER.
  - intros E.
    destruct (make_One_or_More_Polymers_events _ _ _ _ _ _ _ _ _ E)
      as (evs & Ht & HQ & HP & HR & HA).
    exists evs. split; [exact Ht|].
    split; [intros Hq; apply HQ; now rewrite Hq|].
    split.
    { intros Hq. destruct (HP ltac:(now rewrite Hq)) as [-> | (ts & smis & -> & Hpv)];
        [now left | right].
      exists r, ts, smis. repeat split; assumption. }
    split.
    { intros Hq resp rest Hs H1 H2 H3.
      assert (Hr : affirmative resp = false).
      { destruct (affirmative resp) eqn:Ea; [|reflexivity].
        apply affirmative_iff in Ea. destruct Ea as [-> | [-> | ->]]; congruence. }
      destruct (HR ltac:(now rewrite Hq) resp rest Hs Hr) as (He & Hev).
      split; [exact He|].
      destruct Hev as [-> | ((ts & ->) & Ho & Hst)].
      - split; [constructor | congruence].
      - split; [repeat constructor|]. intros _. split; [eauto | split; assumption]. }
    intros Hq resp rest Hs Hy Hne.
    apply affirmative_iff in Hy.
    destruct (HA ltac:(now rewrite Hq) resp rest Hs Hy Hne)
      as (Hst & ts & full & mpn & Hb & Hd).
    split; [exact Hst|]. exists r, ts, full, mpn. repeat split; assumption.
  - intros E. inversion E; subst. exists []. split; [now rewrite app_nil_r|].
    split; [intros _; split; [reflexivity | exists []; reflexivity]|].
    split; [intros _; now left|].
    split; [intros _ resp rest _ _ _ _; split; [eauto|]; split; [constructor | congruence]|].
    intros _ resp rest _ _ Hne. congruence.
Qed.

End ConfirmationClaim.

Lemma confirmation_before_embedding_witness :
  @main_make_polymers Sample.toolkit Sample.tables
    {| arg_n := 2; arg_initiator := "C"; arg_terminator := "C";
       arg_single_monomer := None; arg_super_monomer := Some ["CC"];
       arg_plot := true; arg_quiet := false |} (Sample.start ["no"])
  = (Raise (Exn SystemExit "quit"),
     {| chem := Sample.fresh; stdin := []; trace := [ShowPreview "CCCC"] |})
  /\ exists evs,
      [ShowPreview "CCCC"] = [] ++ evs
      /\ Forall (fun e => is_embedding e = false) evs.
Proof.
  split; [reflexivity|].
  destruct (@confirmation_before_embedding Sample.toolkit Sample.tables
              {| arg_n := 2; arg_initiator := "C"; arg_terminator := "C";
                 arg_single_monomer := None; arg_super_monomer := Some ["CC"];
                 arg_plot := true; arg_quiet := false |}
              (Sample.start ["no"])
              {| chem := Sample.fresh; stdin := []; trace := [ShowPreview "CCCC"] |}
              (Raise (Exn SystemExit "quit")) eq_refl)
    as (evs & Ht & _ & _ & HR & _).
  exists evs. split; [exact Ht|].
  apply (HR eq_refl "no" [] eq_refl); discriminate.
Defined.

Section FamilyClaim.

Context `{Toolkit : RDKit} `{Tables : SmilesTables}.
Variables (i : string) (r : repeat_spec) (t : string).

(** Every assembly for one repeat specification returns the same count. *)
Lemma built_shared_count j s mpn j' s' mpn' :
  built i r t j s mpn -> built i r t j' s' mpn' -> mpn = mpn'.
Proof.
  intros (test & c & res & c' & E) (test' & d & res' & d' & E').
  apply createPolymerSMILES_inv in E. destruct E as (a & b & ru & s1 & s2 & G & _).
  apply createPolymerSMILES_inv in E'. destruct E' as (a' & b' & ru' & s1' & s2' & G' & _).
  exact (proj2 (get_building_blocks_det _ _ _ _ _ _ _ _ _ _ _ _ _ _ _ _ _ G G')).
Qed.

(** What a family that the driver returns holds. *)
Lemma make_family_inv n confirm w w' pols smis unopt mpn :
  1 <= n ->
  make_One_or_More_Polymers i n r t true confirm w
  = (Ok (Family pols smis unopt mpn), w') ->
  family_entries (entry i r t mpn) (range_1 n) pols smis unopt
  /\ exists evs,
      trace w' = trace w ++ evs
      /\ List.filter is_embedding evs = map EmbedMultipleConfs smis.
Proof.
  intros Hn E. rewrite make_family_unfold in E.
  destruct (foldM _ _ _ w) as [[v|e] w1] eqn:EL; [|discriminate E].
  destruct (m_per_n v) as [m|] eqn:Em; [|discriminate E].
  inversion E; subst; clear E.
  destruct (family_loop_inv i r t n confirm w _ _ EL)
    as (evs & Ht & _ & _ & _ & _ & HK).
  destruct (HK v eq_refl) as (Hf & He & _ & Hm).
  destruct (Hm Hn) as (m0 & j0 & s0 & Em0 & Hb0).
  rewrite Em in Em0. inversion Em0; subst m0.
  split.
  - eapply family_entries_impl; [|exact He].
    intros j h s p (m' & Hb & Hp & Hh). repeat split; try assumption.
    now rewrite (built_shared_count _ _ _ _ _ _ Hb0 Hb).
  - exists evs. split; assumption.
Qed.

Variables (a b ru : string) (mpn : Z) (pol pol_h : Z -> mol).

Local Abbreviation chain := (plain_chain a ru b).

Hypothesis Hplain : forall j test s2,
  createPolymerSMILES i j r t test s2
  = (Ok (if test then Some ((a +:+ ru) +:+ b) else None, chain j, mpn), s2).

Lemma family_loop_string_path confirm js : forall v w,
  Forall (unprompted confirm (proceed v)) js ->
  (forall j, In j js ->
             MolFromSmiles (chain j) = Some (pol j)
             /\ lowest_energy_conformer (AddHs (pol j)) = Some (pol_h j)) ->
  exists v',
    foldM (family_step i r t confirm) v js w
    = (Ok v', {| chem := chem w; stdin := stdin w;
                 trace := trace w ++ map (fun j => EmbedMultipleConfs (chain j)) js |})
    /\ POL_LIST v' = POL_LIST v ++ map pol_h js
    /\ SMI_LIST v' = SMI_LIST v ++ map chain js
    /\ Unopt_pols v' = Unopt_pols v ++ map pol js
    /\ (js <> [] -> m_per_n v' = Some mpn)
    /\ (js = [] -> m_per_n v' = m_per_n v).
Proof.
  induction js as [|j js IH]; intros v w Hall Hjs.
  - exists v. simpl. rewrite !app_nil_r. destruct w; repeat split; congruence.
  - inversion Hall as [|? ? Hj Hrest]; subst.
    destruct (Hjs j (or_introl eq_refl)) as (Hp & Hh).
    cbn [foldM]. unfold bind at 1.
    rewrite (family_step_unprompted _ _ _ _ _ _ _ Hj), Hplain, optPol_unfold, Hp, Hh.
    set (v1 := {| proceed := proceed v; smi := Some (chain j); m_per_n := Some mpn;
                  POL_LIST := POL_LIST v ++ [pol_h j]; SMI_LIST := SMI_LIST v ++ [chain j];
                  Unopt_pols := Unopt_pols v ++ [pol j] |}).
    destruct (IH v1 (with_event (with_chem w (chem w)) (EmbedMultipleConfs (chain j)))
                Hrest (fun x Hx => Hjs x (or_intror Hx)))
      as (v' & E & HP & HS & HU & Hm1 & Hm2).
    exists v'. cbn [with_event with_chem chem stdin trace] in E.
    split; [rewrite E; cbn [map]; now rewrite <- app_assoc|].
    subst v1. cbn [POL_LIST SMI_LIST Unopt_pols m_per_n] in *.
    split; [rewrite HP, <- app_assoc; reflexivity|].
    split; [rewrite HS, <- app_assoc; reflexivity|].
    split; [rewrite HU, <- app_assoc; reflexivity|].
    split; [|discriminate].
    intros _. destruct js; [apply Hm2; reflexivity | apply Hm1; discriminate].
Qed.

Lemma In_range_1 n j : In j (range_1 n) -> 1 <= j <= n.
Proof.
  unfold range_1. intros Hj. apply in_map_iff in Hj. destruct Hj as (x & <- & Hx).
  apply in_seq in Hx. lia.
Qed.

(** The family on the string path, in closed form. *)
Lemma make_family_string_path n confirm w resp rest :
  1 <= n ->
  (forall j, 1 <= j <= n ->
             MolFromSmiles (chain j) = Some (pol j)
             /\ lowest_energy_conformer (AddHs (pol j)) = Some (pol_h j)) ->
  (confirm = true -> stdin w = resp :: rest /\ affirmative resp = true) ->
  make_One_or_More_Polymers i n r t true confirm w
  = (Ok (Family (map pol_h (range_1 n)) (map chain (range_1 n)) (map pol (range_1 n)) mpn),
     {| chem := chem w;
        stdin := if confirm then rest else stdin w;
        trace := trace w
                 ++ (if confirm then [ShowPreview ((a +:+ ru) +:+ b)] else [])
                 ++ map (fun j => EmbedMultipleConfs (chain j)) (range_1 n) |}).
Proof.
  intros Hn Hjs Hc. rewrite make_family_unfold. destruct confirm.
  - destruct (Hc eq_refl) as (Hs & Ha).
    rewrite (range_1_cons _ Hn).
    set (tl := map Z.of_nat (seq 2 (Nat.pred (Z.to_nat n)))).
    assert (Htl : forall j, In j tl -> 1 <= j <= n).
    { intros j Hj. apply In_range_1. rewrite (range_1_cons _ Hn). now right. }
    destruct (Hjs 1 ltac:(lia)) as (Hp1 & Hh1).
    assert (Hts : MolFromSmiles ((a +:+ ru) +:+ b) = Some (pol 1)).
    { unfold plain_chain in Hp1. now rewrite mul_1 in Hp1. }
    cbn [foldM]. unfold bind at 1.
    rewrite family_step_prompted by reflexivity.
    rewrite Hplain, prompt_then_embed_unfold. cbn zeta.
    rewrite Hts. cbn [with_chem stdin]. rewrite Hs, Ha, Hp1, Hh1.
    set (v1 := {| proceed := confirmed (Some (Some false)); smi := Some (chain 1);
                  m_per_n := Some mpn;
                  POL_LIST := POL_LIST (family_start true) ++ [pol_h 1];
                  SMI_LIST := SMI_LIST (family_start true) ++ [chain 1];
                  Unopt_pols := Unopt_pols (family_start true) ++ [pol 1] |}).
    match goal with |- context [foldM _ v1 tl ?w1] => set (wa := w1) end.
    destruct (family_loop_string_path true tl v1 wa (unprompted_tail _)
                (fun j Hj => Hjs j (Htl j Hj)))
      as (v' & E & HP & HS & HU & Hm1 & Hm2).
    rewrite E.
    assert (Hm : m_per_n v' = Some mpn).
    { destruct tl; [rewrite Hm2; reflexivity | apply Hm1; discriminate]. }
    rewrite Hm, HP, HS, HU. subst v1 wa. cbn.
    rewrite <- !app_assoc. reflexivity.
  - destruct (family_loop_string_path false (range_1 n) (family_start false) w
                ltac:(apply List.Forall_forall; intros j _; apply unprompted_quiet)
                (fun j Hj => Hjs j (In_range_1 _ _ Hj)))
      as (v' & E & HP & HS & HU & Hm1 & _).
    rewrite E. rewrite Hm1 by (rewrite (range_1_cons _ Hn); discriminate).
    rewrite HP, HS, HU. reflexivity.
Qed.

End FamilyClaim.

Section FamilyTheorem.

Context `{Toolkit : RDKit} `{Tables : SmilesTables}.

(** C8. Called for the lengths 1 to [n], [n >= 1], the driver returns [n]
    structures, [n] notations and [n] unoptimised structures, in the order
    of the lengths: the entry at position [k] (counted from 0) is the
    chain built with [k + 1] repeat passes, the structure read from it and
    its conformer, and the embeddings were called in that order.  With
    them comes the one count that every assembly of the run returned, so
    the label of entry [k] is [(k + 1) * mpn].  On the string path the
    driver does return, whenever the toolkit reads and embeds each chain
    and the operator confirms: the family is given in closed form. *)
Theorem family_of_chains :
  (forall (i : string) (r : repeat_spec) (t : string) (n : Z) (confirm : bool)
          (w w' : world) (pols : list mol) (smis : list string) (unopt : list mol)
          (mpn : Z),
      1 <= n ->
      make_One_or_More_Polymers i n r t true confirm w
      = (Ok (Family pols smis unopt mpn), w') ->
      length pols = Z.to_nat n /\ length smis = Z.to_nat n
      /\ length unopt = Z.to_nat n
      /\ (forall k, (k < Z.to_nat n)%nat ->
            exists h s p,
              pols !! k = Some h /\ smis !! k = Some s /\ unopt !! k = Some p
              /\ entry i r t mpn (Z.of_nat k + 1) h s p
              /\ legend_n k mpn = (Z.of_nat k + 1) * mpn)
      /\ exists evs,
          trace w' = trace w ++ evs
          /\ List.filter is_embedding evs = map EmbedMultipleConfs smis)
  /\ (forall (i : string) (r : repeat_spec) (t : string) (n : Z) (confirm : bool)
             (w : world) (a b ru : string) (mpn : Z) (s1 : chem_state)
             (pol pol_h : Z -> mol) (resp : string) (rest : list string),
        1 <= n ->
        get_building_blocks i t r (chem w) = (Ok (PStr a, PStr b, ru, mpn), s1) ->
        (forall j, 1 <= j <= n ->
                   MolFromSmiles (plain_chain a ru b j) = Some (pol j)
                   /\ lowest_energy_conformer (AddHs (pol j)) = Some (pol_h j)) ->
        (confirm = true -> stdin w = resp :: rest /\ affirmative resp = true) ->
        make_One_or_More_Polymers i n r t true confirm w
        = (Ok (Family (map pol_h (range_1 n)) (map (plain_chain a ru b) (range_1 n))
                      (map pol (range_1 n)) mpn),
           {| chem := chem w;
              stdin := if confirm then rest else stdin w;
              trace := trace w
                       ++ (if confirm then [ShowPreview ((a +:+ ru) +:+ b)] else [])
                       ++ map (fun j => EmbedMultipleConfs (plain_chain a ru b j))
                              (range_1 n) |})).
Proof.
  split.
  - intros i r t n confirm w w' pols smis unopt mpn Hn E.
    destruct (make_family_inv _ _ _ _ _ _ _ _ _ _ _ Hn E) as (Hf & Hev).
    destruct (family_entries_length _ _ _ _ _ Hf) as (L1 & L2 & L3).
    rewrite range_1_length in L1, L2, L3.
    split; [exact L1|]. split; [exact L2|]. split; [exact L3|]. split; [|exact Hev].
    intros k Hk.
    destruct (family_entries_lookup _ _ _ _ _ _ _ Hf (range_1_lookup _ _ Hk))
      as (h & s & p & H1 & H2 & H3 & He).
    exists h, s, p.
    split; [exact H1|]. split; [exact H2|]. split; [exact H3|].
    split; [exact He | reflexivity].
  - intros i r t n confirm w a b ru mpn s1 pol pol_h resp rest Hn G Hjs Hc.
    apply (make_family_string_path i r t a b ru mpn pol pol_h) with (resp := resp);
      try assumption.
    intros j test s2. apply (createPolymerSMILES_plain _ _ _ _ _ _ _ _ _ _ _ G).
Qed.

End FamilyTheorem.

Lemma family_of_chains_witness :
  match @make_One_or_More_Polymers Sample.toolkit Sample.tables "*O" 3 (RList ["CC"]) "C"
          true true (Sample.start ["Y"]) with
  | (Ok (Family pols smis unopt mpn), _) =>
      length pols = 3%nat /\ length smis = 3%nat /\ length unopt = 3%nat
      /\ smis = ["OCCC"; "OCCCCC"; "OCCCCCCC"]
  | _ => False
  end
  /\ fst (@make_One_or_More_Polymers Sample.toolkit Sample.tables "C" 2 (RStr "Ethylene")
            "O*C" true true (Sample.start [""]))
     = Ok (Family (map (fun j => default {| atoms := []; bonds := [] |}
                                   (Sample.read (plain_chain "C" "CC" "OC" j))) (range_1 2))
                  (map (plain_chain "C" "CC" "OC") (range_1 2))
                  (map (fun j => default {| atoms := []; bonds := [] |}
                                   (Sample.read (plain_chain "C" "CC" "OC" j))) (range_1 2))
                  1).
Proof.
  split.
  - destruct (@make_One_or_More_Polymers Sample.toolkit Sample.tables "*O" 3 (RList ["CC"])
                "C" true true (Sample.start ["Y"]))
      as [[[pols smis unopt mpn | pol_h full pol mpn] | e] w'] eqn:E.
    + destruct (proj1 (@family_of_chains Sample.toolkit Sample.tables)
                  "*O" (RList ["CC"]) "C" 3 true (Sample.start ["Y"]) w'
                  pols smis unopt mpn ltac:(lia) E) as (L1 & L2 & L3 & _).
      repeat split; try assumption.
      vm_compute in E. inversion E. reflexivity.
    + vm_compute in E. discriminate E.
    + vm_compute in E. discriminate E.
  - rewrite (proj2 (@family_of_chains Sample.toolkit Sample.tables)
               "C" (RStr "Ethylene") "O*C" 2 true (Sample.start [""])
               "C" "OC" "CC" 1 Sample.fresh
               (fun j => default {| atoms := []; bonds := [] |}
                           (Sample.read (plain_chain "C" "CC" "OC" j)))
               (fun j => default {| atoms := []; bonds := [] |}
                           (Sample.read (plain_chain "C" "CC" "OC" j)))
               "" [] ltac:(lia) eq_refl).
    + reflexivity.
    + intros j Hj. assert (Hc : j = 1 \/ j = 2) by lia.
      destruct Hc as [-> | ->]; split; reflexivity.
    + intros _. split; reflexivity.
Defined.

(** ** Edges of the resolver and of the driver *)

Lemma int_one_char c : PyStr.int (String c "") = None <-> PyStr.digit_val c = None.
Proof.
  unfold PyStr.int, PyStr.strip. cbn [list_ascii_of_string PyStr.lstrip].
  destruct (PyStr.is_space c) eqn:Esp.
  - simpl. split; [|reflexivity]. intros _.
    destruct c as [[] [] [] [] [] [] [] []]; vm_compute in Esp; try discriminate Esp;
      reflexivity.
  - cbn [rev app PyStr.lstrip]. rewrite Esp. cbn [rev app].
    destruct (Ascii.eqb c "-") eqn:Em.
    { apply Ascii.eqb_eq in Em. subst c. split; reflexivity. }
    destruct (Ascii.eqb c "+") eqn:Ep.
    { apply Ascii.eqb_eq in Ep. subst c. split; reflexivity. }
    cbn [PyStr.digits_go].
    destruct (Ascii.eqb c "_") eqn:Eu.
    { apply Ascii.eqb_eq in Eu. subst c. split; reflexivity. }
    destruct (PyStr.digit_val c) as [d|]; [|split; reflexivity].
    cbn [PyStr.digits_go]. split; discriminate.
Qed.

Section ResolverEdges.

Context `{Toolkit : RDKit} `{Tables : SmilesTables}.

(** A token of one character that is not a decimal digit, such as the
    one-atom fragment [C], is read as a coefficient by line 100: the
    resolver raises the [ValueError] of [int], whatever the other tokens
    and the end groups are, and nothing has been validated or created. *)
Theorem get_building_blocks_one_character_token
    (i t : string) (m : list string) (s : chem_state) (c : ascii) :
  In (String c "") (map (lookup_or_literal monomer_dict) m) ->
  PyStr.digit_val c = None ->
  get_building_blocks i t (RList m) s = (Raise (Exn ValueError "int"), s).
Proof.
  intros Hin Hc. rewrite get_building_blocks_list. cbn zeta.
  destruct (forallb coef_defined _) eqn:E; [|reflexivity].
  rewrite forallb_forall in E. specialize (E _ Hin).
  unfold coef_defined in E. simpl in E.
  apply int_one_char in Hc. rewrite Hc in E. discriminate E.
Qed.

End ResolverEdges.

Lemma get_building_blocks_one_character_token_witness :
  @get_building_blocks Sample.toolkit Sample.tables "Hydrogen" "Hydrogen"
    (RList ["2"; "Ethylene"; "C"]) Sample.fresh
  = (Raise (Exn ValueError "int"), Sample.fresh).
Proof.
  apply (@get_building_blocks_one_character_token Sample.toolkit Sample.tables
           "Hydrogen" "Hydrogen" ["2"; "Ethylene"; "C"] Sample.fresh "C"%char).
  - vm_compute. right. right. left. reflexivity.
  - reflexivity.
Defined.

Section DriverEdges.

Context `{Toolkit : RDKit} `{Tables : SmilesTables}.

(** A family asked for with a length below one: the loop of the driver
    has nothing to go through, and the [return] of line 321 reads the
    name [m_per_n] that no pass has bound.  Nothing has been looked up,
    built, shown or read by then. *)
Theorem make_One_or_More_Polymers_empty_family
    (i : string) (n : Z) (r : repeat_spec) (t : string) (confirm : bool) (w : world) :
  n < 1 ->
  make_One_or_More_Polymers i n r t true confirm w
  = (Raise (Exn UnboundLocalError "m_per_n"), w).
Proof.
  intros Hn. rewrite make_family_unfold. unfold range_1.
  replace (Z.to_nat n) with O by lia. reflexivity.
Qed.

(** When standard input is at its end, a run with confirmation stops at
    the prompt with [EOFError]: the chain has been built and its preview
    shown, and no embedding is called.  This holds for one chain and for
    a family, whose first pass builds the chain of length one. *)
Theorem confirmation_at_end_of_input
    (i : string) (n : Z) (r : repeat_spec) (t : string) (plot : bool) (w : world)
    (ts full : string) (mpn : Z) (c1 : chem_state) (pol : mol) :
  stdin w = [] ->
  (plot = true -> 1 <= n) ->
  createPolymerSMILES i (if plot then 1 else n) r t true (chem w)
  = (Ok (Some ts, full, mpn), c1) ->
  MolFromSmiles ts = Some pol ->
  make_One_or_More_Polymers i n r t plot true w
  = (Raise (Exn EOFError "input"),
     {| chem := c1; stdin := []; trace := trace w ++ [ShowPreview ts] |}).
Proof.
  intros Hin Hn E Hts. destruct plot.
  - rewrite make_family_unfold. unfold range_1.
    destruct (Z.to_nat n) as [|k] eqn:Ek; [specialize (Hn eq_refl); lia|].
    cbn [seq map foldM]. change (Z.of_nat 1) with 1.
    unfold bind at 1. rewrite family_step_prompted by reflexivity.
    rewrite E. unfold prompt_then_embed. unfold bind at 1.
    rewrite confirmStructure_unfold, Hts.
    unfold with_chem at 1. cbn [stdin]. rewrite Hin.
    unfold with_event, with_chem. cbn [chem stdin trace]. rewrite Hin. reflexivity.
  - rewrite make_One_unfold, E. unfold prompt_then_embed. unfold bind at 1.
    rewrite confirmStructure_unfold, Hts.
    unfold with_chem at 1. cbn [stdin]. rewrite Hin.
    unfold with_event, with_chem. cbn [chem stdin trace]. rewrite Hin. reflexivity.
Qed.

End DriverEdges.

Lemma make_One_or_More_Polymers_empty_family_witness :
  @make_One_or_More_Polymers Sample.toolkit Sample.tables "Hydrogen" 0 (RStr "Ethylene")
    "Hydrogen" true true (Sample.start ["y"])
  = (Raise (Exn UnboundLocalError "m_per_n"), Sample.start ["y"]).
Proof.
  apply (@make_One_or_More_Polymers_empty_family Sample.toolkit Sample.tables). lia.
Defined.

Lemma confirmation_at_end_of_input_witness :
  @make_One_or_More_Polymers Sample.toolkit Sample.tables "Hydrogen" 3 (RStr "Ethylene")
    "Hydrogen" true true (Sample.start [])
  = (Raise (Exn EOFError "input"),
     {| chem := Sample.fresh; stdin := []; trace := [ShowPreview "CC"] |}).
Proof.
  apply (@confirmation_at_end_of_input Sample.toolkit Sample.tables "Hydrogen" 3
           (RStr "Ethylene") "Hydrogen" true (Sample.start []) "CC" "CC" 1 Sample.fresh
           {| atoms := [{| atomic_num := 6; atomNote := None |};
                        {| atomic_num := 6; atomNote := None |}];
              bonds := [{| begin_idx := 0; end_idx := 1; btype := SINGLE |}] |}).
  - reflexivity.
  - intros _. lia.
  - vm_compute. reflexivity.
  - vm_compute. reflexivity.
Defined.

(** ** The removal of the placeholder atoms *)

Lemma indices_from_split (P : atom -> bool) i l k rest :
  Mol.indices_from P i l = k :: rest ->
  exists pre a post,
    l = pre ++ a :: post /\ k = (i + length pre)%nat
    /\ List.filter P pre = [] /\ P a = true.
Proof.
  revert i. induction l as [|x l IH]; intros i E; simpl in E; [discriminate E|].
  destruct (P x) eqn:Px.
  - inversion E; subst. exists [], x, l. repeat split; [simpl; lia | assumption].
  - destruct (IH _ E) as (pre & a & post & -> & -> & Hpre & Pa).
    exists (x :: pre), a, post. repeat split; [simpl; lia | simpl; now rewrite Px | exact Pa].
Qed.

Lemma indices_from_nil (P : atom -> bool) i l :
  Mol.indices_from P i l = [] -> List.filter (fun a => negb (P a)) l = l.
Proof.
  revert i. induction l as [|x l IH]; intros i E; simpl in E; [reflexivity|].
  destruct (P x) eqn:Px; [discriminate E|]. simpl. rewrite Px. simpl.
  now rewrite (IH _ E).
Qed.

Lemma filter_none_length (P : atom -> bool) l :
  List.filter P l = [] -> forall u, length (List.filter P (take u l)) = O.
Proof.
  induction l as [|x l IH]; intros E u; [now destruct u|].
  simpl in E. destruct (P x) eqn:Px; [discriminate E|].
  destruct u as [|u]; [reflexivity|]. simpl. rewrite Px. now apply IH.
Qed.

Lemma filter_none_lookup (P : atom -> bool) l u a :
  List.filter P l = [] -> l !! u = Some a -> P a = false.
Proof.
  revert u. induction l as [|x l IH]; intros u E Hu; [discriminate Hu|].
  simpl in E. destruct (P x) eqn:Px; [discriminate E|].
  destruct u as [|u]; simpl in Hu; [inversion Hu; now subst | exact (IH _ E Hu)].
Qed.

(** Removing the first placeholder atom and then all the others gives
    what removing all of them gives. *)
Lemma without_placeholders_RemoveAtom m i rest :
  Mol.dummies m = i :: rest ->
  without_placeholders (Mol.RemoveAtom m i) = without_placeholders m.
Proof.
  intros E. unfold Mol.dummies, Mol.indices in E.
  destruct (indices_from_split _ _ _ _ _ E) as (pre & a & post & Hl & Hi & Hpre & Pa).
  simpl in Hi. subst i.
  assert (Hdel : delete (length pre) (atoms m) = pre ++ post).
  { rewrite Hl. rewrite delete_middle. reflexivity. }
  assert (Hat : forall u, u <> length pre ->
                  placeholder_at (Mol.RemoveAtom m (length pre)) (Mol.renumber (length pre) u)
                  = placeholder_at m u).
  { intros u Hu. unfold placeholder_at, Mol.renumber. cbn [atoms Mol.RemoveAtom].
    rewrite Hdel, Hl.
    destruct (Nat.ltb_spec (length pre) u) as [Hlt|Hge].
    - rewrite !lookup_app_r by lia.
      replace (u - length pre)%nat with (S (Nat.pred u - length pre)) by lia.
      reflexivity.
    - assert (u < length pre)%nat by lia.
      rewrite !lookup_app_l by lia. reflexivity. }
  assert (Hse : forall u, u <> length pre ->
                  settled (Mol.RemoveAtom m (length pre)) (Mol.renumber (length pre) u)
                  = settled m u).
  { intros u Hu. unfold settled, Mol.renumber. cbn [atoms Mol.RemoveAtom].
    rewrite Hdel, Hl.
    destruct (Nat.ltb_spec (length pre) u) as [Hlt|Hge].
    - rewrite !take_app_ge by lia.
      replace (u - length pre)%nat with (S (Nat.pred u - length pre)) by lia.
      cbn [take]. rewrite !List.filter_app, !length_app. cbn [List.filter].
      rewrite Pa. cbn [length]. lia.
    - assert (u < length pre)%nat by lia.
      rewrite !take_app_le by lia. reflexivity. }
  unfold without_placeholders. f_equal.
  - cbn [atoms Mol.RemoveAtom]. rewrite Hdel, Hl.
    rewrite !List.filter_app. cbn [List.filter]. rewrite Pa. reflexivity.
  - cbn [bonds Mol.RemoveAtom].
    assert (Hmid : placeholder_at m (length pre) = true).
    { unfold placeholder_at. rewrite Hl, lookup_app_r by lia.
      rewrite Nat.sub_diag. exact Pa. }
    induction (bonds m) as [|b bs IH]; [reflexivity|].
    rewrite filter_cons. cbn [List.filter].
    destruct (decide (begin_idx b <> length pre /\ end_idx b <> length pre)) as [[Hb He]|Hn].
    + cbn [map List.filter]. unfold kept_bond at 1. cbn [begin_idx end_idx].
      rewrite (Hat _ Hb), (Hat _ He). fold (kept_bond m b).
      destruct (kept_bond m b); [|exact IH].
      cbn [map begin_idx end_idx btype]. rewrite (Hse _ Hb), (Hse _ He), IH. reflexivity.
    + assert (Hk : kept_bond m b = false).
      { unfold kept_bond.
        destruct (decide (begin_idx b = length pre)) as [->|Hb];
          [now rewrite Hmid|].
        destruct (decide (end_idx b = length pre)) as [->|He];
          [rewrite Hmid; now rewrite andb_false_r|].
        exfalso. apply Hn. split; assumption. }
      rewrite Hk. exact IH.
Qed.

Lemma without_placeholders_none m : Mol.dummies m = [] -> without_placeholders m = m.
Proof.
  intros E. unfold Mol.dummies, Mol.indices in E.
  assert (Hnone : List.filter Mol.is_dummy (atoms m) = []).
  { assert (H := indices_from_length Mol.is_dummy 0 (atoms m)).
    rewrite E in H. simpl in H. symmetry in H. now apply length_zero_iff_nil in H. }
  unfold without_placeholders. rewrite (indices_from_nil _ _ _ E).
  destruct m as [at_ bo]. cbn [atoms bonds] in *. f_equal.
  set (m := {| atoms := at_; bonds := bo |}).
  assert (Hm : atoms m = at_) by reflexivity. clearbody m.
  induction bo as [|[bi ei bt] bs IH]; [reflexivity|].
  assert (Hk : kept_bond m {| begin_idx := bi; end_idx := ei; btype := bt |} = true).
  { unfold kept_bond, placeholder_at. cbn [begin_idx end_idx]. rewrite Hm.
    destruct (at_ !! bi) as [x|] eqn:Ex;
      [rewrite (filter_none_lookup _ _ _ _ Hnone Ex)|];
      (destruct (at_ !! ei) as [y|] eqn:Ey;
       [rewrite (filter_none_lookup _ _ _ _ Hnone Ey)|]); reflexivity. }
  cbn [List.filter]. rewrite Hk. cbn [map begin_idx end_idx btype].
  unfold settled at 1 2. rewrite Hm.
  rewrite !(filter_none_length _ _ Hnone), !Nat.sub_0_r.
  now rewrite IH.
Qed.

Section Placeholders.

Context `{Toolkit : RDKit} `{Tables : SmilesTables}.

Lemma remove_dummies_all k : forall m s,
  length (Mol.dummies m) = k ->
  remove_dummies k m s = (Ok (without_placeholders m), s).
Proof.
  induction k as [|k IH]; intros m s Hk.
  - apply length_zero_iff_nil in Hk. simpl. unfold ret.
    now rewrite without_placeholders_none.
  - destruct (Mol.dummies m) as [|i rest] eqn:E; [discriminate Hk|].
    cbn [remove_dummies]. unfold bind, index. rewrite E. cbn [lookup list_lookup]. unfold ret.
    rewrite IH.
    + now rewrite (without_placeholders_RemoveAtom _ _ _ E).
    + rewrite (RemoveAtom_first_dummy _ _ _ E), E. simpl in *. lia.
Qed.

(** The loop of lines 177 to 183 always ends without an exception, and
    it leaves the structure without its placeholder atoms: the atoms that
    are not placeholders stay, in their order and with their notes, each
    moved down by the number of placeholders that came before it, and the
    bonds that stay are those that join two such atoms.  So a bond to a
    placeholder atom goes with it, and every other bond, the ones the
    fusion made among them, is kept. *)
Theorem strip_dummies_result (mergedrw : mol) (s : chem_state) :
  strip_dummies mergedrw s = (Ok (without_placeholders mergedrw), s)
  /\ Mol.dummies (without_placeholders mergedrw) = []
  /\ (forall b, In b (bonds mergedrw) ->
        placeholder_at mergedrw (begin_idx b) = false ->
        placeholder_at mergedrw (end_idx b) = false ->
        In {| begin_idx := settled mergedrw (begin_idx b);
              end_idx := settled mergedrw (end_idx b);
              btype := btype b |} (bonds (without_placeholders mergedrw)))
  /\ length (atoms (without_placeholders mergedrw))
     = (length (atoms mergedrw) - length (Mol.dummies mergedrw))%nat.
Proof.
  assert (E : strip_dummies mergedrw s = (Ok (without_placeholders mergedrw), s)).
  { unfold strip_dummies. now apply remove_dummies_all. }
  split; [exact E|]. split.
  - unfold strip_dummies in E. apply remove_dummies_inv in E.
    destruct E as (_ & E). rewrite Nat.sub_diag in E.
    now apply length_zero_iff_nil in E.
  - split.
    + intros b Hb H1 H2. cbn [bonds without_placeholders].
      apply (in_map (fun b => {| begin_idx := settled mergedrw (begin_idx b);
                                 end_idx := settled mergedrw (end_idx b);
                                 btype := btype b |})).
      apply filter_In. split; [exact Hb|]. unfold kept_bond. now rewrite H1, H2.
    + cbn [atoms without_placeholders]. rewrite dummies_length.
      assert (H := List.filter_length Mol.is_dummy (atoms mergedrw)).
      lia.
Qed.

End Placeholders.

(** ** An end group the toolkit cannot read *)

Section UnreadableEndGroup.

Context `{Toolkit : RDKit} `{Tables : SmilesTables}.

(** What the validator returns for a role, in full. *)
Lemma validate_end_group_cases inator Init Term s :
  Init || Term = true ->
  validate_end_group inator Init Term s =
    if bool_decide (PyStr.at_end Init inator = Some PyStr.marker) then
      match MolFromSmiles inator with
      | Some m => (Ok (PMol (length (heap s))),
                   {| heap := heap s ++ [m]; calls := calls s |})
      | None => (Ok PNone, s)
      end
    else if negb (String.eqb inator (PyStr.reversed inator))
            && negb (PyStr.contains PyStr.marker inator)
    then (Raise asymmetric_error, s)
    else (Ok (PStr (PyStr.remove PyStr.marker inator)), s).
Proof.
  intros Hr. unfold validate_end_group.
  replace (negb Init && negb Term) with false
    by (destruct Init, Term; simpl in *; congruence).
  destruct (bool_decide (PyStr.at_end Init inator = Some PyStr.marker)) eqn:Eb.
  - assert (Hne : String.eqb inator "" = false).
    { apply bool_decide_eq_true in Eb. destruct inator; [|reflexivity].
      destruct Init; discriminate Eb. }
    rewrite Hne. cbn [negb andb].
    unfold new_object. destruct (MolFromSmiles inator); reflexivity.
  - rewrite andb_false_r.
    destruct (negb (String.eqb inator (PyStr.reversed inator))
              && negb (PyStr.contains PyStr.marker inator)); reflexivity.
Qed.

(** No chain comes out of the builder when an end group is [None]. *)
Lemma add_inator_smiles_none body init term s out s' :
  init = PNone \/ term = PNone ->
  add_inator_smiles body init term s <> (Ok out, s').
Proof.
  intros Hn E. rewrite add_inator_smiles_unfold in E.
  assert (Hstr : not_str term || not_str init = true).
  { destruct Hn as [-> | ->]; [apply orb_true_r | reflexivity]. }
  rewrite Hstr in E. apply attatch_frags_inv in E.
  destruct E as (merged & m & E & _).
  unfold fuse_ends in E.
  apply bind_inv_ok in E. destruct E as ([] & s0 & _ & E).
  destruct (MolFromSmiles _) as [pol|]; [|discriminate E].
  apply bind_inv_ok in E. destruct E as (conn & s1 & _ & E).
  apply bind_inv_ok in E. destruct E as ([pol' inators] & s2 & E1 & E).
  apply bind_inv_ok in E. destruct E as ([mergedrw bh] & s3 & E2 & _).
  cbn [fst snd] in E1.
  destruct (not_str init) eqn:Fi.
  - apply bind_inv_ok in E1. destruct E1 as (head & s4 & _ & E1).
    destruct (not_str term) eqn:Ft.
    + apply bind_inv_ok in E1. destruct E1 as (tail & s5 & _ & E1).
      unfold ret in E1. inversion E1; subst; clear E1.
      cbn [foldM] in E2.
      apply bind_inv_ok in E2. destruct E2 as ([m1 bh1] & s6 & F1 & E2).
      apply bind_inv_ok in E2. destruct E2 as ([m2 bh2] & s7 & F2 & _).
      apply fuse_inator_inv in F1. destruct F1 as (r1 & _ & _ & _ & _ & H1 & _).
      apply fuse_inator_inv in F2. destruct F2 as (r2 & _ & _ & _ & _ & H2 & _).
      destruct Hn; congruence.
    + unfold ret in E1. inversion E1; subst; clear E1.
      cbn [foldM] in E2.
      apply bind_inv_ok in E2. destruct E2 as ([m1 bh1] & s6 & F1 & _).
      apply fuse_inator_inv in F1. destruct F1 as (r1 & _ & _ & _ & _ & H1 & _).
      destruct Hn as [Hn|Hn]; [congruence|]. subst term. discriminate Ft.
  - destruct (not_str term) eqn:Ft; [|discriminate E1].
    apply bind_inv_ok in E1. destruct E1 as (tail & s5 & _ & E1).
    unfold ret in E1. inversion E1; subst; clear E1.
    cbn [foldM] in E2.
    apply bind_inv_ok in E2. destruct E2 as ([m1 bh1] & s6 & F1 & _).
    apply fuse_inator_inv in F1. destruct F1 as (r1 & _ & _ & _ & _ & H1 & _).
    destruct Hn as [Hn|Hn]; [subst init; discriminate Fi | congruence].
Qed.

(** An end group whose marker faces outwards is handed to the reader of
    the toolkit, and the validator does not look at the answer: when the
    reader cannot parse the fragment the end group is [None], no object
    is created and no error is raised.  The error comes later: with such
    an end group every call of [createPolymerSMILES] ends in an
    exception, whatever the length, and no notation is returned. *)
Theorem createPolymerSMILES_unreadable_end_group
    (i t : string) (r : repeat_spec) (n : Z) (test : bool) (s : chem_state) :
  let init := lookup_or_literal init_dict i in
  let term := lookup_or_literal init_dict t in
  (PyStr.first init = Some PyStr.marker /\ MolFromSmiles init = None)
  \/ (PyStr.last term = Some PyStr.marker /\ MolFromSmiles term = None) ->
  (PyStr.first init = Some PyStr.marker -> MolFromSmiles init = None ->
   validate_end_group init true false s = (Ok PNone, s))
  /\ (PyStr.last term = Some PyStr.marker -> MolFromSmiles term = None ->
      validate_end_group term false true s = (Ok PNone, s))
  /\ exists e s', createPolymerSMILES i n r t test s = (Raise e, s').
Proof.
  intros init term Hbad.
  assert (Hi : PyStr.first init = Some PyStr.marker -> MolFromSmiles init = None ->
               forall s0, validate_end_group init true false s0 = (Ok PNone, s0)).
  { intros Hf Hm s0. rewrite validate_end_group_cases by reflexivity.
    cbn [PyStr.at_end]. rewrite bool_decide_eq_true_2 by exact Hf. now rewrite Hm. }
  assert (Ht : PyStr.last term = Some PyStr.marker -> MolFromSmiles term = None ->
               forall s0, validate_end_group term false true s0 = (Ok PNone, s0)).
  { intros Hf Hm s0. rewrite validate_end_group_cases by reflexivity.
    cbn [PyStr.at_end]. rewrite bool_decide_eq_true_2 by exact Hf. now rewrite Hm. }
  split; [intros Hf Hm; now apply Hi|]. split; [intros Hf Hm; now apply Ht|].
  destruct (createPolymerSMILES i n r t test s) as [[[[res full] mpn]|e] s'] eqn:E;
    [|exists e, s'; reflexivity].
  exfalso. apply createPolymerSMILES_inv in E.
  destruct E as (a & b & ru & s1 & s2 & E1 & _ & E3).
  apply get_building_blocks_inv in E1. destruct E1 as (s0 & Va & Vb).
  fold init in Va. fold term in Vb.
  apply (add_inator_smiles_none _ _ _ _ _ _ ltac:(
           destruct Hbad as [[Hf Hm]|[Hf Hm]];
           [ left; rewrite (Hi Hf Hm) in Va; now inversion Va
           | right; rewrite (Ht Hf Hm) in Vb; now inversion Vb ]) E3).
Qed.

End UnreadableEndGroup.

Lemma createPolymerSMILES_unreadable_end_group_witness :
  @validate_end_group Sample.toolkit "*S" true false Sample.fresh = (Ok PNone, Sample.fresh)
  /\ exists e s',
      @createPolymerSMILES Sample.toolkit Sample.tables "*S" 2 (RStr "Ethylene") "Hydrogen"
        false Sample.fresh = (Raise e, s').
Proof.
  destruct (@createPolymerSMILES_unreadable_end_group Sample.toolkit Sample.tables
              "*S" "Hydrogen" (RStr "Ethylene") 2 false Sample.fresh
              ltac:(left; split; reflexivity)) as (Hv & _ & He).
  split; [apply Hv; reflexivity | exact He].
Defined.

(** ** The preview and the chain that is built *)

Lemma alter_twice {A} (f : A -> A) i (l : list A) :
  (forall a, f (f a) = f a) -> alter f i (alter f i l) = alter f i l.
Proof.
  intros Hf. revert i. induction l as [|x l IH]; intros [|i]; try reflexivity.
  - cbn. now rewrite Hf.
  - cbn. f_equal. apply IH.
Qed.

Lemma SetProp_twice m i s : Mol.SetProp (Mol.SetProp m i s) i s = Mol.SetProp m i s.
Proof.
  unfold Mol.SetProp. cbn [atoms bonds]. f_equal.
  apply alter_twice. intros a. reflexivity.
Qed.

Lemma renoted_twice im : renoted (renoted im) = renoted im.
Proof.
  unfold renoted. destruct (attachment im 0) as [a|] eqn:E.
  - rewrite attachment_SetProp, E. apply SetProp_twice.
  - now rewrite E.
Qed.

Lemma renoted_attachment im k : attachment (renoted im) k = attachment im k.
Proof.
  unfold renoted. destruct (attachment im 0); [apply attachment_SetProp | reflexivity].
Qed.

Lemma renoted_dummies im : Mol.dummies (renoted im) = Mol.dummies im.
Proof.
  unfold renoted. destruct (attachment im 0); [apply dummies_SetProp | reflexivity].
Qed.

Lemma renoted_bonds im : bonds (renoted im) = bonds im.
Proof.
  unfold renoted. destruct (attachment im 0); reflexivity.
Qed.

Lemma renoted_SetProp im a :
  attachment im 0 = Some a -> renoted (Mol.SetProp im a "attatch") = renoted im.
Proof.
  intros E. unfold renoted. rewrite attachment_SetProp, E. apply SetProp_twice.
Qed.

Lemma same_objects_refl s : same_objects s s.
Proof. reflexivity. Qed.

Lemma same_objects_sym s s' : same_objects s s' -> same_objects s' s.
Proof. unfold same_objects. congruence. Qed.

Lemma same_objects_trans s1 s2 s3 :
  same_objects s1 s2 -> same_objects s2 s3 -> same_objects s1 s3.
Proof. unfold same_objects. congruence. Qed.

Lemma same_objects_lookup s s' r im :
  same_objects s s' -> heap s !! r = Some im ->
  exists im', heap s' !! r = Some im' /\ renoted im' = renoted im.
Proof.
  unfold same_objects. intros H Hr.
  assert (Hm : (renoted <$> heap s) !! r = Some (renoted im)).
  { rewrite list_lookup_fmap, Hr. reflexivity. }
  rewrite H, list_lookup_fmap in Hm.
  destruct (heap s' !! r) as [im'|]; [|discriminate Hm].
  exists im'. split; [reflexivity|]. now inversion Hm.
Qed.

Lemma same_objects_lookup_None s s' r :
  same_objects s s' -> heap s !! r = None -> heap s' !! r = None.
Proof.
  unfold same_objects. intros H Hr.
  apply lookup_ge_None in Hr. apply lookup_ge_None.
  apply (f_equal (@length mol)) in H. rewrite !length_fmap in H. lia.
Qed.

Lemma same_objects_store s s' r im im' :
  same_objects s s' -> renoted im = renoted im' ->
  same_objects {| heap := <[r := im]> (heap s); calls := calls s |}
               {| heap := <[r := im']> (heap s'); calls := calls s' |}.
Proof.
  unfold same_objects. cbn [heap]. intros H Hr.
  rewrite !list_fmap_insert, H, Hr. reflexivity.
Qed.

(** *** Computations that do not look at the note *)

Lemma alike_refl {A} (r : outcome A * chem_state) : alike r r.
Proof. split; reflexivity. Qed.

Lemma note_blind_ret {A} (a : A) : note_blind (ret a).
Proof. intros s s' H. split; [reflexivity | exact H]. Qed.

Lemma note_blind_raise {A} e : note_blind (@raise chem_state A e).
Proof. intros s s' H. split; [reflexivity | exact H]. Qed.

Lemma note_blind_bind {A B} (m : Chem A) (k : A -> Chem B) :
  note_blind m -> (forall a, note_blind (k a)) -> note_blind (bind m k).
Proof.
  intros Hm Hk s s' H. unfold bind.
  destruct (Hm s s' H) as [Hv Hs].
  destruct (m s) as [[a|e] s1], (m s') as [[a'|e'] s1']; cbn [fst snd] in *;
    try discriminate Hv.
  - inversion Hv; subst. exact (Hk a' _ _ Hs).
  - inversion Hv; subst. split; [reflexivity | exact Hs].
Qed.

Lemma note_blind_index {A} (l : list A) k : note_blind (index l k).
Proof. unfold index. destruct (l !! k); [apply note_blind_ret | apply note_blind_raise]. Qed.

Lemma note_blind_mapM {A B} (f : A -> Chem B) l :
  (forall a, note_blind (f a)) -> note_blind (mapM f l).
Proof.
  intros Hf. induction l as [|a l IH]; cbn [mapM]; [apply note_blind_ret|].
  apply note_blind_bind; [apply Hf|]. intros b.
  apply note_blind_bind; [exact IH|]. intros bs. apply note_blind_ret.
Qed.

Lemma note_blind_foldM {A B} (f : B -> A -> Chem B) l :
  (forall b a, note_blind (f b a)) -> forall b, note_blind (foldM f b l).
Proof.
  intros Hf. induction l as [|a l IH]; intros b; cbn [foldM]; [apply note_blind_ret|].
  apply note_blind_bind; [apply Hf | exact IH].
Qed.

Lemma note_blind_log_call c : note_blind (log_call c).
Proof. intros s s' H. split; [reflexivity | exact H]. Qed.

Lemma note_blind_store r im : note_blind (store r im).
Proof.
  intros s s' H. split; [reflexivity|]. now apply same_objects_store.
Qed.

Lemma note_blind_AddBond m i j t : note_blind (Mol.AddBond m i j t).
Proof.
  unfold Mol.AddBond. destruct (_ && _); [apply note_blind_ret | apply note_blind_raise].
Qed.

Lemma note_blind_remove_dummies k : forall m, note_blind (remove_dummies k m).
Proof.
  induction k as [|k IH]; intros m; cbn [remove_dummies]; [apply note_blind_ret|].
  apply note_blind_bind; [apply note_blind_index|]. intros i. apply IH.
Qed.

Lemma neighbors_bonds m m' x : bonds m = bonds m' -> Mol.neighbors m x = Mol.neighbors m' x.
Proof. unfold Mol.neighbors. now intros ->. Qed.

Section Preview.

Context `{Toolkit : RDKit} `{Tables : SmilesTables}.

Lemma note_blind_first_neighbor m x : note_blind (first_neighbor m x).
Proof. apply note_blind_index. Qed.

Lemma note_blind_first_noted m str : note_blind (first_noted m str).
Proof. apply note_blind_index. Qed.

Lemma note_blind_deref_block {B} r (k k' : mol -> Chem B) :
  (forall im im', renoted im' = renoted im ->
     forall s s', same_objects s s' -> alike (k im s) (k' im' s')) ->
  forall s s', same_objects s s' ->
    alike ((im <- deref r ;; k im) s) ((im <- deref r ;; k' im) s').
Proof.
  intros Hk s s' H. unfold bind, deref.
  destruct (heap s !! r) as [im|] eqn:Hr.
  - destruct (same_objects_lookup _ _ _ _ H Hr) as (im' & Hr' & Hre).
    rewrite Hr'. now apply Hk.
  - rewrite (same_objects_lookup_None _ _ _ H Hr). split; [reflexivity | exact H].
Qed.

Lemma note_blind_attach_block {B} im im' (k k' : nat -> Chem B) :
  renoted im' = renoted im ->
  (forall a, attachment im 0 = Some a ->
     forall s s', same_objects s s' -> alike (k a s) (k' a s')) ->
  forall s s', same_objects s s' ->
    alike ((nbrs <- mapM (first_neighbor im) (Mol.dummies im) ;;
            attatch <- index nbrs 0 ;; k attatch) s)
          ((nbrs <- mapM (first_neighbor im') (Mol.dummies im') ;;
            attatch <- index nbrs 0 ;; k' attatch) s').
Proof.
  intros Hre Hk s s' H.
  assert (Hd : Mol.dummies im' = Mol.dummies im).
  { rewrite <- (renoted_dummies im'), Hre. apply renoted_dummies. }
  assert (Hb : bonds im' = bonds im).
  { rewrite <- (renoted_bonds im'), Hre. apply renoted_bonds. }
  assert (Hfn : first_neighbor im' = first_neighbor im).
  { unfold first_neighbor, Mol.neighbors. now rewrite Hb. }
  rewrite Hd, Hfn.
  assert (Hm := note_blind_mapM (first_neighbor im) (Mol.dummies im)
                  (note_blind_first_neighbor im) s s' H).
  unfold bind at 1 3.
  destruct (mapM (first_neighbor im) (Mol.dummies im) s) as [[nbrs|e] s1] eqn:E1;
    destruct (mapM (first_neighbor im) (Mol.dummies im) s') as [[nbrs'|e'] s1'] eqn:E1';
    destruct Hm as [Hv Hs]; cbn [fst snd] in Hv, Hs; try discriminate Hv.
  - inversion Hv; subst nbrs'. unfold bind, index.
    destruct (nbrs !! 0%nat) as [a|] eqn:Ea.
    + unfold ret. apply Hk; [|exact Hs].
      exact (mapM_first_neighbor_attachment _ _ _ _ _ _ E1 Ea).
    + split; [reflexivity | exact Hs].
  - inversion Hv; subst. split; [reflexivity | exact Hs].
Qed.

Lemma note_blind_fuse_inator add_initiator add_terminator vars inator :
  note_blind (fuse_inator add_initiator add_terminator vars inator).
Proof.
  destruct vars as [mergedrw bond_here]. unfold fuse_inator.
  destruct inator as [x|r|]; try apply note_blind_raise.
  intros s s' H. revert s s' H. apply note_blind_deref_block.
  intros im im' Hre. apply note_blind_attach_block; [exact Hre|].
  intros a Ha. cbn zeta.
  assert (Hset : Mol.SetProp im' a "attatch" = Mol.SetProp im a "attatch").
  { assert (Ha' : attachment im' 0 = Some a).
    { rewrite <- (renoted_attachment im'), Hre, renoted_attachment. exact Ha. }
    assert (E := Hre). unfold renoted in E. rewrite Ha, Ha' in E. exact E. }
  rewrite Hset.
  change (note_blind
    (store r (Mol.SetProp im a "attatch") ;;;
     inator_attatchment <-
       first_noted (Mol.CombineMols (Mol.SetProp im a "attatch") mergedrw) "attatch" ;;
     bond_here0 <- (if pyeq (PMol r) (snd add_initiator)
                    then b <- first_noted
                                (Mol.CombineMols (Mol.SetProp im a "attatch") mergedrw) "head" ;;
                         ret (Some b)
                    else ret bond_here) ;;
     bond_here1 <- (if pyeq (PMol r) (snd add_terminator)
                    then b <- first_noted
                                (Mol.CombineMols (Mol.SetProp im a "attatch") mergedrw) "tail" ;;
                         ret (Some b)
                    else ret bond_here0) ;;
     match bond_here1 with
     | None => raise (Exn UnboundLocalError "bond_here")
     | Some b =>
         log_call (CallAddBond b inator_attatchment
                     (Mol.note_at (Mol.CombineMols (Mol.SetProp im a "attatch") mergedrw) b)
                     (Mol.note_at (Mol.CombineMols (Mol.SetProp im a "attatch") mergedrw)
                                  inator_attatchment) SINGLE) ;;;
         mergedrw0 <- Mol.AddBond (Mol.CombineMols (Mol.SetProp im a "attatch") mergedrw)
                                  b inator_attatchment SINGLE ;;
         ret (Mol.SetProp mergedrw0 inator_attatchment "done", Some b)
     end)).
  apply note_blind_bind; [apply note_blind_store|]. intros _.
  apply note_blind_bind; [apply note_blind_first_noted|]. intros ia.
  apply note_blind_bind.
  { destruct (pyeq _ _); [|apply note_blind_ret].
    apply note_blind_bind; [apply note_blind_first_noted|]. intros b. apply note_blind_ret. }
  intros bh0. apply note_blind_bind.
  { destruct (pyeq _ _); [|apply note_blind_ret].
    apply note_blind_bind; [apply note_blind_first_noted|]. intros b. apply note_blind_ret. }
  intros [b|]; [|apply note_blind_raise].
  apply note_blind_bind; [apply note_blind_log_call|]. intros _.
  apply note_blind_bind; [apply note_blind_AddBond|]. intros m0. apply note_blind_ret.
Qed.

Lemma note_blind_fuse_ends polymer_smiles add_initiator add_terminator :
  note_blind (fuse_ends polymer_smiles add_initiator add_terminator).
Proof.
  unfold fuse_ends.
  apply note_blind_bind; [apply note_blind_log_call|]. intros _.
  destruct (MolFromSmiles polymer_smiles) as [pol|]; [|apply note_blind_raise].
  apply note_blind_bind; [apply note_blind_mapM; intros x; apply note_blind_first_neighbor|].
  intros conn. apply note_blind_bind.
  { destruct (fst add_initiator).
    - apply note_blind_bind; [apply note_blind_index|]. intros head. cbn zeta.
      destruct (fst add_terminator); [|apply note_blind_ret].
      apply note_blind_bind; [apply note_blind_index|]. intros tail. apply note_blind_ret.
    - destruct (fst add_terminator); [|apply note_blind_raise].
      apply note_blind_bind; [apply note_blind_index|]. intros tail. apply note_blind_ret. }
  intros [pol' inators].
  apply note_blind_bind; [apply note_blind_foldM; intros; apply note_blind_fuse_inator|].
  intros vars. apply note_blind_ret.
Qed.

Lemma note_blind_add_inator_smiles smi init term :
  note_blind (add_inator_smiles smi init term).
Proof.
  rewrite add_inator_smiles_unfold.
  destruct (not_str term || not_str init); [|apply note_blind_ret].
  unfold attatch_frags.
  apply note_blind_bind; [apply note_blind_fuse_ends|]. intros merged.
  apply note_blind_bind; [apply note_blind_remove_dummies|]. intros m. apply note_blind_ret.
Qed.

End Preview.

(** *** What the fusion does to the store *)

Lemma noted_only_heap R s s' : heap s' = heap s -> noted_only R s s'.
Proof. intros E. split; [now rewrite E|]. intros i im Hi. left. now rewrite E. Qed.

Lemma noted_only_refl R s : noted_only R s s.
Proof. now apply noted_only_heap. Qed.

Lemma noted_only_trans R s1 s2 s3 :
  noted_only R s1 s2 -> noted_only R s2 s3 -> noted_only R s1 s3.
Proof.
  intros [L12 H12] [L23 H23]. split; [congruence|].
  intros i im Hi. destruct (H12 _ _ Hi) as [H | [HR H]].
  - exact (H23 _ _ H).
  - destruct (H23 _ _ H) as [H' | [_ H']].
    + right. split; assumption.
    + right. split; [exact HR|]. now rewrite renoted_twice in H'.
Qed.

Lemma noted_only_weaken (R R' : nat -> Prop) s s' :
  (forall i, R i -> R' i) -> noted_only R s s' -> noted_only R' s s'.
Proof.
  intros HR [L H]. split; [exact L|]. intros i im Hi.
  destruct (H _ _ Hi) as [H' | [Hr H']]; [now left | right; split; auto].
Qed.

Lemma noted_only_same R s s' : noted_only R s s' -> same_objects s s'.
Proof.
  intros [L H]. unfold same_objects. apply list_eq. intros i.
  rewrite !list_lookup_fmap.
  destruct (heap s !! i) as [im|] eqn:Hi.
  - destruct (H _ _ Hi) as [-> | [_ ->]]; [reflexivity|].
    cbn. now rewrite renoted_twice.
  - apply lookup_ge_None in Hi. rewrite <- L in Hi. apply lookup_ge_None in Hi.
    now rewrite Hi.
Qed.

Lemma noted_only_store (R : nat -> Prop) s r im a :
  R r -> heap s !! r = Some im -> attachment im 0 = Some a ->
  noted_only R s {| heap := <[r := Mol.SetProp im a "attatch"]> (heap s);
                    calls := calls s |}.
Proof.
  intros HR Hr Ha. split; cbn [heap]; [now rewrite length_insert|].
  intros i x Hx. destruct (decide (i = r)) as [->|Hne].
  - right. split; [exact HR|].
    rewrite list_lookup_insert_eq by (apply lookup_lt_Some in Hr; exact Hr).
    rewrite Hr in Hx. inversion Hx; subst x. unfold renoted. now rewrite Ha.
  - left. now rewrite list_lookup_insert_ne by congruence.
Qed.

Lemma notes_only_ret {A} R (a : A) : notes_only R (ret a).
Proof. intros s o s' E. inversion E; subst. apply noted_only_refl. Qed.

Lemma notes_only_raise {A} R e : notes_only R (@raise chem_state A e).
Proof. intros s o s' E. inversion E; subst. apply noted_only_refl. Qed.

Lemma notes_only_bind {A B} R (m : Chem A) (k : A -> Chem B) :
  notes_only R m ->
  (forall a, (exists s s1, m s = (Ok a, s1)) -> notes_only R (k a)) ->
  notes_only R (bind m k).
Proof.
  intros Hm Hk s o s' E. apply bind_inv in E.
  destruct E as [(e & E & _) | (a & s1 & E1 & E)].
  - exact (Hm _ _ _ E).
  - refine (noted_only_trans _ _ _ _ (Hm _ _ _ E1) (Hk _ _ _ _ _ E)).
    exists s, s1. exact E1.
Qed.

Lemma notes_only_index {A} R (l : list A) k : notes_only R (index l k).
Proof. unfold index. destruct (l !! k); [apply notes_only_ret | apply notes_only_raise]. Qed.

Lemma notes_only_mapM {A B} R (f : A -> Chem B) l :
  (forall a, notes_only R (f a)) -> notes_only R (mapM f l).
Proof.
  intros Hf. induction l as [|a l IH]; cbn [mapM]; [apply notes_only_ret|].
  apply notes_only_bind; [apply Hf|]. intros b _.
  apply notes_only_bind; [exact IH|]. intros bs _. apply notes_only_ret.
Qed.

Lemma notes_only_foldM {A B} R (f : B -> A -> Chem B) l :
  (forall b a, In a l -> notes_only R (f b a)) -> forall b, notes_only R (foldM f b l).
Proof.
  induction l as [|a l IH]; intros Hf b; cbn [foldM]; [apply notes_only_ret|].
  apply notes_only_bind; [apply Hf; now left|]. intros b' _.
  apply IH. intros b0 a0 Ha. apply Hf. now right.
Qed.

Lemma notes_only_log_call R c : notes_only R (log_call c).
Proof.
  intros s o s' E. unfold log_call, modify in E. inversion E; subst.
  now apply noted_only_heap.
Qed.

Lemma notes_only_AddBond R m i j t : notes_only R (Mol.AddBond m i j t).
Proof.
  unfold Mol.AddBond. destruct (_ && _); [apply notes_only_ret | apply notes_only_raise].
Qed.

Lemma notes_only_remove_dummies R k : forall m, notes_only R (remove_dummies k m).
Proof.
  induction k as [|k IH]; intros m; cbn [remove_dummies]; [apply notes_only_ret|].
  apply notes_only_bind; [apply notes_only_index|]. intros i _. apply IH.
Qed.

Section StoreFacts.

Context `{Toolkit : RDKit} `{Tables : SmilesTables}.

Lemma notes_only_fuse_inator (R : nat -> Prop) add_initiator add_terminator vars inator :
  (forall r, inator = PMol r -> R r) ->
  notes_only R (fuse_inator add_initiator add_terminator vars inator).
Proof.
  intros HR.
  destruct vars as [mergedrw bond_here]. unfold fuse_inator.
  destruct inator as [x|r|]; try apply notes_only_raise.
  specialize (HR r eq_refl).
  intros s o s' E.
  apply bind_inv in E. destruct E as [(e & E & _) | (im & s1 & E1 & E)].
  { unfold deref in E. destruct (heap s !! r); inversion E; subst. apply noted_only_refl. }
  assert (Hr : heap s !! r = Some im /\ s1 = s).
  { unfold deref in E1. destruct (heap s !! r); inversion E1; subst. split; reflexivity. }
  destruct Hr as [Hr ->]. clear E1.
  apply bind_inv in E. destruct E as [(e & E & _) | (nbrs & s1 & E1 & E)].
  { apply (mapM_state _ _ (first_neighbor_state im)) in E. subst. apply noted_only_refl. }
  assert (Hs1 := mapM_state _ _ (first_neighbor_state im) _ _ _ E1). subst s1.
  apply bind_inv in E. destruct E as [(e & E & _) | (a & s1 & Ea & E)].
  { apply index_state in E. subst. apply noted_only_refl. }
  apply index_inv in Ea. destruct Ea as [Ha ->].
  assert (Hatt := mapM_first_neighbor_attachment _ _ _ _ _ _ E1 Ha).
  cbn zeta in E.
  apply bind_inv in E. destruct E as [(e & E & _) | ([] & s1 & Est & E)];
    [unfold store, modify in E; discriminate E|].
  unfold store, modify in Est. inversion Est; subst s1; clear Est.
  apply (noted_only_trans _ _ _ _ (noted_only_store R _ _ _ _ HR Hr Hatt)).
  revert E. generalize {| heap := <[r:=Mol.SetProp im a "attatch"]> (heap s);
                          calls := calls s |}.
  intros s1 E. revert s1 o s' E.
  change (notes_only R
    (inator_attatchment <-
       first_noted (Mol.CombineMols (Mol.SetProp im a "attatch") mergedrw) "attatch" ;;
     bond_here0 <- (if pyeq (PMol r) (snd add_initiator)
                    then b <- first_noted
                                (Mol.CombineMols (Mol.SetProp im a "attatch") mergedrw) "head" ;;
                         ret (Some b)
                    else ret bond_here) ;;
     bond_here1 <- (if pyeq (PMol r) (snd add_terminator)
                    then b <- first_noted
                                (Mol.CombineMols (Mol.SetProp im a "attatch") mergedrw) "tail" ;;
                         ret (Some b)
                    else ret bond_here0) ;;
     match bond_here1 with
     | None => raise (Exn UnboundLocalError "bond_here")
     | Some b =>
         log_call (CallAddBond b inator_attatchment
                     (Mol.note_at (Mol.CombineMols (Mol.SetProp im a "attatch") mergedrw) b)
                     (Mol.note_at (Mol.CombineMols (Mol.SetProp im a "attatch") mergedrw)
                                  inator_attatchment) SINGLE) ;;;
         mergedrw0 <- Mol.AddBond (Mol.CombineMols (Mol.SetProp im a "attatch") mergedrw)
                                  b inator_attatchment SINGLE ;;
         ret (Mol.SetProp mergedrw0 inator_attatchment "done", Some b)
     end)).
  apply notes_only_bind; [apply notes_only_index|]. intros ia _.
  apply notes_only_bind.
  { destruct (pyeq _ _); [|apply notes_only_ret].
    apply notes_only_bind; [apply notes_only_index|]. intros b _. apply notes_only_ret. }
  intros bh0 _. apply notes_only_bind.
  { destruct (pyeq _ _); [|apply notes_only_ret].
    apply notes_only_bind; [apply notes_only_index|]. intros b _. apply notes_only_ret. }
  intros [b|] _; [|apply notes_only_raise].
  apply notes_only_bind; [apply notes_only_log_call|]. intros _ _.
  apply notes_only_bind; [apply notes_only_AddBond|]. intros m0 _. apply notes_only_ret.
Qed.

Lemma notes_only_fuse_ends polymer_smiles add_initiator add_terminator :
  notes_only (end_group_ref (snd add_initiator) (snd add_terminator))
             (fuse_ends polymer_smiles add_initiator add_terminator).
Proof.
  unfold fuse_ends.
  apply notes_only_bind; [apply notes_only_log_call|]. intros _ _.
  destruct (MolFromSmiles polymer_smiles) as [pol|]; [|apply notes_only_raise].
  apply notes_only_bind; [apply notes_only_mapM; intros x; apply notes_only_index|].
  intros conn _. apply notes_only_bind.
  { destruct (fst add_initiator).
    - apply notes_only_bind; [apply notes_only_index|]. intros head _. cbn zeta.
      destruct (fst add_terminator); [|apply notes_only_ret].
      apply notes_only_bind; [apply notes_only_index|]. intros tail _. apply notes_only_ret.
    - destruct (fst add_terminator); [|apply notes_only_raise].
      apply notes_only_bind; [apply notes_only_index|]. intros tail _. apply notes_only_ret. }
  intros [pol' inators] (s & s1 & E).
  assert (Hin : forall a, In a inators -> a = snd add_initiator \/ a = snd add_terminator).
  { destruct (fst add_initiator).
    - apply bind_inv_ok in E. destruct E as (head & s2 & _ & E).
      destruct (fst add_terminator).
      + apply bind_inv_ok in E. destruct E as (tail & s3 & _ & E).
        unfold ret in E. inversion E; subst. intros a [<- | [<- | []]]; auto.
      + unfold ret in E. inversion E; subst. intros a [<- | []]; auto.
    - destruct (fst add_terminator); [|discriminate E].
      apply bind_inv_ok in E. destruct E as (tail & s3 & _ & E).
      unfold ret in E. inversion E; subst. intros a [<- | []]; auto. }
  apply notes_only_bind.
  - apply notes_only_foldM. intros b a Ha. apply notes_only_fuse_inator.
    intros r ->. unfold end_group_ref. destruct (Hin _ Ha) as [<- | <-]; auto.
  - intros vars _. apply notes_only_ret.
Qed.

Lemma notes_only_add_inator_smiles smi init term :
  notes_only (end_group_ref init term) (add_inator_smiles smi init term).
Proof.
  rewrite add_inator_smiles_unfold.
  destruct (not_str term || not_str init); [|apply notes_only_ret].
  unfold attatch_frags.
  apply notes_only_bind; [apply (notes_only_fuse_ends _ (_, init) (_, term))|]. intros merged _.
  apply notes_only_bind; [apply notes_only_remove_dummies|]. intros m _. apply notes_only_ret.
Qed.

End StoreFacts.

Section PreviewClaims.

Context `{Toolkit : RDKit} `{Tables : SmilesTables}.

(** A validation creates at most one object, the one it returns, and
    changes no other. *)
Lemma validate_end_group_grows inator Init Term s o s1 :
  validate_end_group inator Init Term s = (o, s1) ->
  (s1 = s /\ forall r, o <> Ok (PMol r))
  \/ (exists m, heap s1 = heap s ++ [m] /\ o = Ok (PMol (length (heap s)))).
Proof.
  unfold validate_end_group.
  destruct (negb Init && negb Term).
  { unfold raise. intros E. inversion E; subst. left. split; [reflexivity | discriminate]. }
  destruct (negb (String.eqb inator "")
            && bool_decide (PyStr.at_end Init inator = Some PyStr.marker)).
  - unfold new_object. destruct (MolFromSmiles inator) as [m|]; unfold ret; intros E;
      inversion E; subst.
    + right. exists m. split; reflexivity.
    + left. split; [reflexivity | discriminate].
  - destruct (negb (String.eqb inator (PyStr.reversed inator))
              && negb (PyStr.contains PyStr.marker inator));
      unfold ret, raise; intros E; inversion E; subst; left;
      (split; [reflexivity | discriminate]).
Qed.

Lemma validations_grow a b (k : pyval -> pyval -> pyval * pyval * string * Z) s o s1 :
  (forall x y, fst (fst (fst (k x y))) = x /\ snd (fst (fst (k x y))) = y) ->
  bind (validate_end_group a true false)
       (fun init => bind (validate_end_group b false true)
                         (fun term => ret (k init term))) s = (o, s1) ->
  exists new,
    heap s1 = heap s ++ new /\ (length new <= 2)%nat
    /\ forall init term ru mpn, o = Ok (init, term, ru, mpn) ->
         forall j, end_group_ref init term j ->
           (length (heap s) <= j < length (heap s1))%nat.
Proof.
  intros Hk E.
  apply bind_inv in E. destruct E as [(e & E & ->) | (x & s0 & E1 & E)].
  { apply validate_end_group_grows in E.
    destruct E as [[-> _] | (m & Hm & Ho)]; [|discriminate Ho].
    exists []. rewrite app_nil_r. split; [reflexivity|]. split; [simpl; lia|].
    intros; discriminate. }
  apply bind_inv in E. destruct E as [(e & E & ->) | (y & s2 & E2 & E)].
  { apply validate_end_group_grows in E1. apply validate_end_group_grows in E.
    destruct E as [[-> _] | (m & Hm & Ho)]; [|discriminate Ho].
    destruct E1 as [[-> _] | (m1 & Hm1 & _)].
    - exists []. rewrite app_nil_r. split; [reflexivity|]. split; [simpl; lia|].
      intros; discriminate.
    - exists [m1]. split; [exact Hm1|]. split; [simpl; lia|]. intros; discriminate. }
  unfold ret in E. inversion E; subst o s2; clear E.
  apply validate_end_group_grows in E1. apply validate_end_group_grows in E2.
  destruct E1 as [[-> Hx] | (m1 & Hm1 & Hx)], E2 as [[-> Hy] | (m2 & Hm2 & Hy)].
  - exists []. rewrite app_nil_r. split; [reflexivity|]. split; [simpl; lia|].
    intros init term ru mpn Ho j Hj. inversion Ho as [Hkk].
    destruct (Hk x y) as [H1 H2]. rewrite Hkk in H1, H2. cbn in H1, H2. subst.
    destruct Hj as [Hj | Hj]; [exfalso; eapply Hx | exfalso; eapply Hy];
      rewrite <- Hj; reflexivity.
  - exists [m2]. split; [exact Hm2|]. split; [simpl; lia|].
    intros init term ru mpn Ho j Hj. inversion Ho as [Hkk].
    destruct (Hk x y) as [H1 H2]. rewrite Hkk in H1, H2. cbn in H1, H2. subst.
    rewrite Hm2, length_app. simpl.
    destruct Hj as [Hj | Hj]; [exfalso; eapply Hx; rewrite <- Hj; reflexivity|].
    inversion Hy as [Hyy]. rewrite <- Hj in Hyy. inversion Hyy. lia.
  - exists [m1]. split; [exact Hm1|]. split; [simpl; lia|].
    intros init term ru mpn Ho j Hj. inversion Ho as [Hkk].
    destruct (Hk x y) as [H1 H2]. rewrite Hkk in H1, H2. cbn in H1, H2. subst.
    rewrite Hm1, length_app. simpl.
    destruct Hj as [Hj | Hj]; [|exfalso; eapply Hy; rewrite <- Hj; reflexivity].
    inversion Hx as [Hxx]. rewrite <- Hj in Hxx. inversion Hxx. lia.
  - exists [m1; m2]. split; [rewrite Hm2, Hm1, <- app_assoc; reflexivity|].
    split; [simpl; lia|].
    intros init term ru mpn Ho j Hj. inversion Ho as [Hkk].
    destruct (Hk x y) as [H1 H2]. rewrite Hkk in H1, H2. cbn in H1, H2. subst.
    rewrite Hm2, Hm1, !length_app. simpl.
    destruct Hj as [Hj | Hj].
    + inversion Hx as [Hxx]. rewrite <- Hj in Hxx. inversion Hxx. lia.
    + inversion Hy as [Hyy]. rewrite <- Hj in Hyy. inversion Hyy.
      rewrite Hm1, length_app. simpl. lia.
Qed.

Lemma get_building_blocks_grows i t r s o s1 :
  get_building_blocks i t r s = (o, s1) ->
  exists new,
    heap s1 = heap s ++ new /\ (length new <= 2)%nat
    /\ forall init term ru mpn, o = Ok (init, term, ru, mpn) ->
         forall j, end_group_ref init term j ->
           (length (heap s) <= j < length (heap s1))%nat.
Proof.
  intros E. destruct r as [m|m].
  - rewrite get_building_blocks_str in E.
    destruct (monomer_dict !! m) as [ru|].
    + apply (validations_grow _ _ (fun x y => (x, y, ru, 1))) in E; [exact E|].
      intros x y. split; reflexivity.
    + inversion E; subst. exists []. rewrite app_nil_r.
      split; [reflexivity|]. split; [simpl; lia|]. intros; discriminate.
  - rewrite get_building_blocks_list in E. cbn zeta in E.
    destruct (forallb coef_defined _).
    + apply (validations_grow _ _ (fun x y => (x, y, _, _))) in E; [exact E|].
      intros x y. split; reflexivity.
    + inversion E; subst. exists []. rewrite app_nil_r.
      split; [reflexivity|]. split; [simpl; lia|]. intros; discriminate.
Qed.

(** A store that was only noted at references from [n0] on begins with
    the [n0] objects it began with. *)
Lemma noted_only_from (R : nat -> Prop) n0 s s' old new :
  noted_only R s s' -> (forall j, R j -> (n0 <= j)%nat) ->
  heap s = old ++ new -> length old = n0 ->
  exists new', heap s' = old ++ new' /\ length new' = length new.
Proof.
  intros [L H] HR Hs Hn.
  exists (drop n0 (heap s')). split.
  - rewrite <- (take_drop n0 (heap s')) at 1. f_equal.
    apply list_eq. intros j.
    destruct (decide (j < n0)%nat) as [Hj|Hj].
    + rewrite lookup_take_lt by lia.
      assert (Hold : heap s !! j = old !! j) by (rewrite Hs; apply lookup_app_l; lia).
      destruct (old !! j) as [im|] eqn:Ej.
      * destruct (H _ _ Hold) as [H' | [HRj _]]; [exact H'|].
        apply HR in HRj. lia.
      * apply lookup_ge_None in Ej. lia.
    + rewrite lookup_take_ge by lia. symmetry. apply lookup_ge_None. lia.
  - rewrite length_drop, L, Hs, length_app. lia.
Qed.

(** [createPolymerSMILES] works on objects of its own: whatever its
    outcome, every molecule object that was in the store before the call
    is there unchanged after it, and at most two objects are new, the end
    groups of this call. *)
Theorem createPolymerSMILES_store
    (i : string) (n : Z) (r : repeat_spec) (t : string) (test : bool)
    (s s' : chem_state) (o : outcome (option string * string * Z)) :
  createPolymerSMILES i n r t test s = (o, s') ->
  exists new, heap s' = heap s ++ new /\ (length new <= 2)%nat.
Proof.
  unfold createPolymerSMILES. intros E.
  apply bind_inv in E. destruct E as [(e & E & _) | ([[[init term] ru] mpn] & s1 & E1 & E)].
  { apply get_building_blocks_grows in E. destruct E as (new & Hn & Hl & _).
    exists new. split; assumption. }
  apply get_building_blocks_grows in E1. destruct E1 as (new & Hn & Hl & Href).
  specialize (Href _ _ _ _ eq_refl).
  assert (HR : forall j, end_group_ref init term j -> (length (heap s) <= j)%nat).
  { intros j Hj. apply Href in Hj. lia. }
  assert (Hfin : forall s2, noted_only (end_group_ref init term) s1 s2 ->
                 exists new', heap s2 = heap s ++ new' /\ (length new' <= 2)%nat).
  { intros s2 Hs2.
    destruct (noted_only_from _ _ _ _ _ _ Hs2 HR Hn eq_refl) as (new' & H1 & H2).
    exists new'. split; [exact H1 | lia]. }
  apply Hfin.
  apply bind_inv in E. destruct E as [(e & E & _) | (ts & s2 & E2 & E)].
  { destruct test; [|inversion E].
    apply bind_inv in E. destruct E as [(e' & E & _) | (x & s3 & _ & E)]; [|inversion E].
    exact (notes_only_add_inator_smiles _ _ _ _ _ _ E). }
  assert (H12 : noted_only (end_group_ref init term) s1 s2).
  { destruct test; [|inversion E2; subst; apply noted_only_refl].
    apply bind_inv_ok in E2. destruct E2 as (x & s3 & E2 & E3).
    inversion E3; subst. exact (notes_only_add_inator_smiles _ _ _ _ _ _ E2). }
  apply (noted_only_trans _ _ _ _ H12).
  apply bind_inv in E. destruct E as [(e & E & _) | (full & s3 & E3 & E)].
  - exact (notes_only_add_inator_smiles _ _ _ _ _ _ E).
  - inversion E; subst. exact (notes_only_add_inator_smiles _ _ _ _ _ _ E3).
Qed.

(** The fusion writes nothing on an object but the note [attatch] on its
    attachment atom, and only on the end groups of the call: whatever the
    outcome of [add_inator_smiles], the store holds as many objects as
    before, each as it was or, for an end group, with that note.  So an
    end-group object keeps its atoms and its bonds, and can be fused to
    the next chain. *)
Theorem add_inator_smiles_store
    (smi : string) (init term : pyval) (s s' : chem_state) (o : outcome string) :
  add_inator_smiles smi init term s = (o, s') ->
  length (heap s') = length (heap s)
  /\ forall k im, heap s !! k = Some im ->
       heap s' !! k = Some im
       \/ ((PMol k = init \/ PMol k = term)
           /\ exists a, attachment im 0 = Some a
                        /\ heap s' !! k = Some (Mol.SetProp im a "attatch")).
Proof.
  intros E. destruct (notes_only_add_inator_smiles _ _ _ _ _ _ E) as [L H].
  split; [exact L|]. intros k im Hk.
  destruct (H _ _ Hk) as [H' | [HR H']]; [now left|].
  unfold renoted in H'. destruct (attachment im 0) as [a|] eqn:Ea; [|now left].
  right. split; [exact HR|]. exists a. split; [reflexivity | exact H'].
Qed.

(** The preview is the chain of length one, and building it first does
    not change the chain that is built next: a call with [test] returns
    the two notations exactly when the calls without it, for the length
    one and for the length asked for, return them. *)
Theorem createPolymerSMILES_preview_is_first_chain
    (i : string) (n : Z) (r : repeat_spec) (t : string) (s : chem_state)
    (ts full : string) (mpn : Z) :
  (exists s', createPolymerSMILES i n r t true s = (Ok (Some ts, full, mpn), s'))
  <-> (exists s1, createPolymerSMILES i 1 r t false s = (Ok (None, ts, mpn), s1))
      /\ (exists s2, createPolymerSMILES i n r t false s = (Ok (None, full, mpn), s2)).
Proof.
  split.
  - intros (s' & E). apply createPolymerSMILES_inv in E.
    destruct E as (init & term & ru & s1 & s2 & E1 & (x & Hx & E2) & E3).
    inversion Hx; subst x; clear Hx.
    assert (Hsim : same_objects s2 s1).
    { apply same_objects_sym.
      exact (noted_only_same _ _ _ (notes_only_add_inator_smiles _ _ _ _ _ _ E2)). }
    destruct (note_blind_add_inator_smiles (PyStr.mul n ru) init term _ _ Hsim)
      as [Hv _].
    rewrite E3 in Hv. cbn [fst] in Hv.
    destruct (add_inator_smiles (PyStr.mul n ru) init term s1) as [o3 s3] eqn:E3'.
    cbn [fst] in Hv. subst o3.
    split.
    + exists s2. unfold createPolymerSMILES.
      rewrite (bind_ok _ _ _ _ _ E1). cbn iota beta.
      unfold bind at 1. unfold ret at 1. rewrite mul_1.
      rewrite (bind_ok _ _ _ _ _ E2). reflexivity.
    + exists s3. unfold createPolymerSMILES.
      rewrite (bind_ok _ _ _ _ _ E1). cbn iota beta.
      unfold bind at 1. unfold ret at 1.
      rewrite (bind_ok _ _ _ _ _ E3'). reflexivity.
  - intros [(s1 & Ea) (s2 & Eb)].
    apply createPolymerSMILES_inv in Ea.
    destruct Ea as (init & term & ru & sa & sa' & E1 & (_ & ->) & E2).
    apply createPolymerSMILES_inv in Eb.
    destruct Eb as (init' & term' & ru' & sb & sb' & E1' & (_ & ->) & E3).
    rewrite E1 in E1'. inversion E1'; subst init' term' ru' sb; clear E1'.
    rewrite mul_1 in E2.
    assert (Hsim : same_objects sa s1).
    { exact (noted_only_same _ _ _ (notes_only_add_inator_smiles _ _ _ _ _ _ E2)). }
    destruct (note_blind_add_inator_smiles (PyStr.mul n ru) init term _ _ Hsim)
      as [Hv _].
    rewrite E3 in Hv. cbn [fst] in Hv.
    destruct (add_inator_smiles (PyStr.mul n ru) init term s1) as [o3 s3] eqn:E3'.
    cbn [fst] in Hv. subst o3.
    exists s3. unfold createPolymerSMILES.
    rewrite (bind_ok _ _ _ _ _ E1). cbn iota beta.
    unfold bind at 1. rewrite (bind_ok _ _ _ _ _ E2). unfold ret at 1.
    rewrite (bind_ok _ _ _ _ _ E3'). reflexivity.
Qed.

End PreviewClaims.

Lemma createPolymerSMILES_store_witness :
  exists new,
    heap (snd (@createPolymerSMILES Sample.toolkit Sample.tables "*O" 3 (RList ["CC"]) "N*"
                 true Sample.fresh))
    = heap Sample.fresh ++ new /\ (length new <= 2)%nat.
Proof.
  apply (@createPolymerSMILES_store Sample.toolkit Sample.tables "*O" 3 (RList ["CC"]) "N*"
           true Sample.fresh _
           (fst (@createPolymerSMILES Sample.toolkit Sample.tables "*O" 3 (RList ["CC"]) "N*"
                   true Sample.fresh))).
  vm_compute. reflexivity.
Defined.

Lemma add_inator_smiles_store_witness :
  let s := snd (@get_building_blocks Sample.toolkit Sample.tables "*O" "N*" (RList ["CC"])
                  Sample.fresh) in
  let s' := snd (@add_inator_smiles Sample.toolkit "CC" (PMol 0) (PMol 1) s) in
  length (heap s') = 2%nat
  /\ heap s' !! 0%nat
     = Some (Mol.SetProp {| atoms := [{| atomic_num := 0; atomNote := None |};
                                      {| atomic_num := 8; atomNote := None |}];
                            bonds := [{| begin_idx := 0; end_idx := 1; btype := SINGLE |}] |}
                         1 "attatch").
Proof.
  intros s s'.
  destruct (@add_inator_smiles_store Sample.toolkit "CC" (PMol 0) (PMol 1) s s'
              (fst (@add_inator_smiles Sample.toolkit "CC" (PMol 0) (PMol 1) s))
              ltac:(vm_compute; reflexivity)) as [L H].
  split; [exact L|]. vm_compute. reflexivity.
Defined.

Lemma createPolymerSMILES_preview_is_first_chain_witness :
  (exists s1, @createPolymerSMILES Sample.toolkit Sample.tables "*O" 1 (RList ["CC"]) "N*"
                false Sample.fresh = (Ok (None, "NOCC", 0), s1))
  /\ (exists s2, @createPolymerSMILES Sample.toolkit Sample.tables "*O" 3 (RList ["CC"]) "N*"
                   false Sample.fresh = (Ok (None, "NOCCCCCC", 0), s2)).
Proof.
  apply (proj1 (@createPolymerSMILES_preview_is_first_chain Sample.toolkit Sample.tables
                  "*O" 3 (RList ["CC"]) "N*" Sample.fresh "NOCC" "NOCCCCCC" 0)).
  eexists. vm_compute. reflexivity.
Defined.

(* ===================================================================== *)
(** ** The arguments of the runs *)
(* ===================================================================== *)

(** A run with the keys it lacked: the run wins where both have a key. *)
Lemma fill_run_union {S} (dict r : gmap string json) (s : S) :
  fill_run dict (JDict r) s = (Ok (JDict (r ∪ dict)), s).
Proof.
  unfold fill_run, ret. do 2 f_equal. f_equal.
  apply (map_fold_weak_ind (fun res m => res = r ∪ m)).
  - now rewrite (right_id_L ∅ (∪)).
  - intros k v m res Hk ->.
    destruct ((r ∪ m) !! k) as [x|] eqn:E.
    + apply lookup_union_Some_raw in E. destruct E as [E | [_ E]]; [|congruence].
      apply map_eq. intros j. rewrite !lookup_union.
      destruct (decide (j = k)) as [->|Hj].
      * rewrite lookup_insert_eq, E, Hk. reflexivity.
      * now rewrite lookup_insert_ne by congruence.
    + apply lookup_union_None in E. destruct E as [E _].
      now rewrite insert_union_r.
Qed.

Lemma mapM_fill_run {S} (dict : gmap string json) (runs : list (gmap string json)) (s : S) :
  mapM (fill_run dict) (map JDict runs) s
  = (Ok (map (fun r => JDict (r ∪ dict)) runs), s).
Proof.
  induction runs as [|r runs IH]; [reflexivity|].
  cbn [map mapM]. unfold bind at 1. rewrite fill_run_union.
  unfold bind at 1. rewrite IH. reflexivity.
Qed.

(** A loop over runs returns only when every run is an object. *)
Lemma mapM_fill_run_inv {S} (dict : gmap string json) (l : list json) (s : S) v s' :
  mapM (fill_run dict) l s = (Ok v, s') ->
  exists runs, l = map JDict runs.
Proof.
  revert s v s'. induction l as [|x l IH]; intros s v s' E.
  - exists []. reflexivity.
  - cbn [mapM] in E. apply bind_inv_ok in E. destruct E as (y & s1 & E1 & E).
    apply bind_inv_ok in E. destruct E as (ys & s2 & E2 & _).
    destruct (IH _ _ _ E2) as (runs & ->).
    destruct x as [| | | | | |r]; try discriminate E1.
    exists (r :: runs). reflexivity.
Qed.

Lemma mapM_fill_run_raise {S} (dict : gmap string json) (l : list json) (s : S) :
  (exists x, In x l /\ forall r, x <> JDict r) ->
  mapM (fill_run dict) l s = (Raise (Exn AttributeError "keys"), s).
Proof.
  induction l as [|x l IH]; intros (y & Hy & Hn); [destruct Hy|].
  cbn [mapM]. unfold bind at 1.
  destruct x as [| | | | | |r]; try reflexivity.
  rewrite fill_run_union. unfold bind at 1.
  rewrite IH; [reflexivity|].
  exists y. split; [|exact Hn]. destruct Hy as [<- | Hy]; [|exact Hy].
  exfalso. exact (Hn r eq_refl).
Qed.

(** In a file [{"runs": [run, ...]}] whose runs are objects, every run
    gets the arguments of the command line that it does not give itself:
    the runs come back in their number and order, a key of a run keeps
    the value of the file (also when that value is [null]), and a key of
    the command line that the run lacks is added with the value of the
    command line.  So every run has every key of the command line. *)
Theorem getJsonArgs_fills_runs {S} (top : gmap string json)
    (runs : list (gmap string json)) (dict : gmap string json) (s : S) :
  top !! "runs" = Some (JList (map JDict runs)) ->
  getJsonArgs (JDict top) dict s
  = (Ok (JList (map (fun run => JDict (run ∪ dict)) runs)), s)
  /\ forall run key,
       (run ∪ dict) !! key
       = match run !! key with Some v => Some v | None => dict !! key end.
Proof.
  intros Hr. split.
  - unfold getJsonArgs, py_getitem_runs. rewrite Hr.
    unfold bind at 1. unfold ret at 1. unfold bind at 1. cbn [py_iter]. unfold ret at 1.
    unfold bind at 1. rewrite mapM_fill_run. reflexivity.
  - intros run key. rewrite lookup_union.
    destruct (run !! key), (dict !! key); reflexivity.
Qed.

(** What [getJsonArgs] does with a file of another form.  Without the
    key ["runs"] it raises [KeyError]; a file that is not an object, and
    runs that are [null], a number or a truth value, raise [TypeError]; a
    run that is not an object raises [AttributeError].  It returns only
    for a list of objects, and for the empty object and the empty string,
    which it returns as they are, so that [main] has no run to go
    through. *)
Theorem getJsonArgs_other_files {S} (runs_dict : json) (dict : gmap string json) (s : S) :
  (forall top, runs_dict = JDict top -> top !! "runs" = None ->
     getJsonArgs runs_dict dict s = (Raise (Exn KeyError "runs"), s))
  /\ ((forall top, runs_dict <> JDict top) ->
      exists msg, getJsonArgs runs_dict dict s = (Raise (Exn TypeError msg), s))
  /\ (forall top l x, runs_dict = JDict top -> top !! "runs" = Some (JList l) ->
        In x l -> (forall r, x <> JDict r) ->
        getJsonArgs runs_dict dict s = (Raise (Exn AttributeError "keys"), s))
  /\ (forall top runs, runs_dict = JDict top -> top !! "runs" = Some runs ->
        match runs with JNull | JBool _ | JInt _ | JFloat _ => True | _ => False end ->
        getJsonArgs runs_dict dict s
        = (Raise (Exn TypeError "object is not iterable"), s))
  /\ (forall v s', getJsonArgs runs_dict dict s = (Ok v, s') ->
        s' = s
        /\ exists top, runs_dict = JDict top
           /\ ((exists runs, top !! "runs" = Some (JList (map JDict runs))
                             /\ v = JList (map (fun run => JDict (run ∪ dict)) runs))
               \/ (top !! "runs" = Some (JDict ∅) /\ v = JDict ∅)
               \/ (top !! "runs" = Some (JStr "") /\ v = JStr ""))).
Proof.
  split; [|split; [|split; [|split]]].
  - intros top -> Hn. unfold getJsonArgs, py_getitem_runs. rewrite Hn. reflexivity.
  - intros Hn. destruct runs_dict as [| | | | | |top];
      try (eexists; reflexivity). exfalso. exact (Hn top eq_refl).
  - intros top l x -> Hr Hx Hn. unfold getJsonArgs, py_getitem_runs. rewrite Hr.
    unfold bind at 1. unfold ret at 1. unfold bind at 1. cbn [py_iter]. unfold ret at 1.
    unfold bind at 1. rewrite mapM_fill_run_raise; [reflexivity|].
    exists x. split; assumption.
  - intros top runs -> Hr Hk. unfold getJsonArgs, py_getitem_runs. rewrite Hr.
    destruct runs; try contradiction; reflexivity.
  - intros v s' E. unfold getJsonArgs in E.
    apply bind_inv_ok in E. destruct E as (runs & s1 & E1 & E).
    destruct runs_dict as [| | | | | |top]; try discriminate E1.
    cbn [py_getitem_runs] in E1.
    destruct (top !! "runs") as [x|] eqn:Hr; [|discriminate E1].
    unfold ret in E1. inversion E1; subst x s1; clear E1.
    apply bind_inv_ok in E. destruct E as (elements & s1 & E1 & E).
    apply bind_inv_ok in E. destruct E as (filled & s2 & E2 & E).
    unfold ret in E. inversion E; subst v s2; clear E.
    destruct (mapM_fill_run_inv _ _ _ _ _ E2) as (rs & Hel).
    subst elements. rewrite mapM_fill_run in E2. inversion E2; subst filled s'; clear E2.
    destruct runs as [| | | |str|l|d]; try discriminate E1;
      cbn [py_iter] in E1; unfold ret in E1; inversion E1 as [[Hl Hs]]; subst s1;
      (split; [reflexivity|]); exists top; (split; [reflexivity|]).
    + right. right.
      destruct str as [|c str]; [split; [exact Hr | reflexivity]|].
      destruct rs; discriminate Hl.
    + left. exists rs. subst l. split; [exact Hr | reflexivity].
    + right. left.
      assert (Hd : d = ∅).
      { apply map_to_list_empty_iff. destruct (map_to_list d) as [|kv l]; [reflexivity|].
        destruct rs; discriminate Hl. }
      subst d. split; [exact Hr | reflexivity].
Qed.

Lemma getJsonArgs_fills_runs_witness :
  @getJsonArgs unit
    (JDict {[ "runs" := JList [JDict {[ "n" := JInt 3; "initiator" := JNull ]}; JDict ∅] ]})
    {[ "n" := JNull; "initiator" := JStr "Hydrogen"; "plot" := JBool false ]} tt
  = (Ok (JList [JDict ({[ "n" := JInt 3; "initiator" := JNull ]}
                       ∪ {[ "n" := JNull; "initiator" := JStr "Hydrogen";
                            "plot" := JBool false ]});
                JDict (∅ ∪ {[ "n" := JNull; "initiator" := JStr "Hydrogen";
                               "plot" := JBool false ]})]), tt).
Proof.
  apply (@getJsonArgs_fills_runs unit
           {[ "runs" := JList [JDict {[ "n" := JInt 3; "initiator" := JNull ]}; JDict ∅] ]}
           [{[ "n" := JInt 3; "initiator" := JNull ]}; ∅]).
  vm_compute. reflexivity.
Defined.

Lemma getJsonArgs_other_files_witness :
  @getJsonArgs unit (JDict ∅) ∅ tt = (Raise (Exn KeyError "runs"), tt).
Proof.
  destruct (@getJsonArgs_other_files unit (JDict ∅) ∅ tt) as [H _].
  exact (H ∅ eq_refl (lookup_empty _)).
Defined.

(* ===================================================================== *)
(** ** File names *)
(* ===================================================================== *)

Lemma split_cons sep c r :
  PyText.split sep (String c r) =
    if Ascii.eqb c sep then "" :: PyText.split sep r
    else match PyText.split sep r with
         | h :: t => String c h :: t
         | [] => [String c ""]
         end.
Proof. reflexivity. Qed.

Lemma split_not_nil sep s : PyText.split sep s <> [].
Proof.
  induction s as [|c r IH]; [discriminate|].
  rewrite split_cons. destruct (Ascii.eqb c sep); [discriminate|].
  destruct (PyText.split sep r); [contradiction | discriminate].
Qed.

(** A text without the separator is its own single piece. *)
Lemma split_none sep s : PyStr.count sep s = O -> PyText.split sep s = [s].
Proof.
  induction s as [|c r IH]; [reflexivity|].
  rewrite split_cons. simpl. destruct (Ascii.eqb c sep); [discriminate|].
  intros E. now rewrite (IH E).
Qed.

(** The first piece ends at the first separator. *)
Lemma split_first sep a b :
  PyStr.count sep a = O ->
  PyText.split sep (a +:+ String sep b) = a :: PyText.split sep b.
Proof.
  induction a as [|c r IH]; intros E.
  - rewrite append_nil_l, split_cons, Ascii.eqb_refl. reflexivity.
  - rewrite append_cons, split_cons. simpl in E.
    destruct (Ascii.eqb c sep); [discriminate|]. now rewrite (IH E).
Qed.

Lemma split_length sep s : length (PyText.split sep s) = S (PyStr.count sep s).
Proof.
  induction s as [|c r IH]; [reflexivity|].
  rewrite split_cons. simpl. destruct (Ascii.eqb c sep); simpl; [now rewrite IH|].
  destruct (PyText.split sep r) as [|h t] eqn:E; [now destruct (split_not_nil sep r)|].
  simpl in *. exact IH.
Qed.

(** The pieces of a text hold no separator. *)
Lemma split_pieces sep s p : In p (PyText.split sep s) -> PyStr.count sep p = O.
Proof.
  revert p. induction s as [|c r IH]; intros p Hp.
  - destruct Hp as [<- | []]. reflexivity.
  - rewrite split_cons in Hp. destruct (Ascii.eqb c sep) eqn:Ec.
    + destruct Hp as [<- | Hp]; [reflexivity | now apply IH].
    + destruct (PyText.split sep r) as [|h t] eqn:E.
      * destruct Hp as [<- | []]. simpl. now rewrite Ec.
      * destruct Hp as [<- | Hp].
        -- simpl. rewrite Ec. apply IH. now left.
        -- apply IH. now right.
Qed.

(** The digits of a number hold no dot. *)
Lemma string_of_uint_no_dot d : PyStr.count "." (NilEmpty.string_of_uint d) = O.
Proof. induction d; simpl; auto. Qed.

Lemma of_int_no_dot n : PyStr.count "." (PyText.of_int n) = O.
Proof.
  unfold PyText.of_int, NilZero.string_of_int.
  destruct (Z.to_int n) as [d|d]; unfold NilZero.string_of_uint.
  - destruct d; try reflexivity; apply string_of_uint_no_dot.
  - simpl. destruct d; try reflexivity; apply string_of_uint_no_dot.
Qed.

Lemma of_int_inj n m : PyText.of_int n = PyText.of_int m -> n = m.
Proof.
  unfold PyText.of_int. intros E.
  assert (Hn : forall z, Z.to_int z <> Decimal.Pos Decimal.Nil /\
                         Z.to_int z <> Decimal.Neg Decimal.Nil).
  { intros z. split; intros H; assert (H' := f_equal Z.of_int H);
      rewrite DecimalZ.of_to in H'; subst z; vm_compute in H; discriminate H. }
  apply DecimalZ.to_int_inj.
  assert (H1 := NilZero.isi (Z.to_int n) (proj1 (Hn n)) (proj2 (Hn n))).
  assert (H2 := NilZero.isi (Z.to_int m) (proj1 (Hn m)) (proj2 (Hn m))).
  rewrite E in H1. rewrite H1 in H2. now inversion H2.
Qed.

(** The second piece of a name is what stands between its first and its
    second dot. *)
Lemma split_second base ext rest :
  PyStr.count "." base = O -> PyStr.count "." ext = O -> dot_or_end rest ->
  PyText.split "." (base +:+ String "." (ext +:+ rest)) !! 1%nat = Some ext.
Proof.
  intros Hb He [-> | (r & ->)].
  - rewrite split_first by exact Hb. rewrite append_empty_r, split_none by exact He.
    reflexivity.
  - rewrite split_first by exact Hb. rewrite split_first by exact He. reflexivity.
Qed.

Lemma split_first_piece base rest :
  PyStr.count "." base = O -> dot_or_end rest ->
  PyText.split "." (base +:+ rest) !! 0%nat = Some base.
Proof.
  intros Hb [-> | (r & ->)].
  - rewrite append_empty_r, split_none by exact Hb. reflexivity.
  - rewrite split_first by exact Hb. reflexivity.
Qed.

Lemma split_no_second name :
  PyStr.count "." name = O -> PyText.split "." name !! 1%nat = None.
Proof. intros H. now rewrite split_none. Qed.

Section FileClaims.

Context `{Toolkit : RDKit} `{Tables : SmilesTables}
        `{Calc : Descriptors} `{Readers : MolReaders}.

(** Writing, by the second piece of the name. *)
Lemma write_or_read_pol_write name m x :
  write_or_read_pol name false (Some m) x =
    match PyText.split "." name !! 1%nat with
    | None => (Raise (Exn IndexError "list index out of range"), x)
    | Some ext =>
        match format_named ext with
        | Some fmt => (Ok None, with_file x name (MolFile fmt m))
        | None => (Raise (Exn SystemExit "quit"), x)
        end
    end.
Proof.
  unfold write_or_read_pol, bind, index.
  destruct (PyText.split "." name !! 1%nat) as [ext|]; [|reflexivity].
  unfold ret at 1. unfold format_named.
  destruct (String.eqb ext "xyz"); [reflexivity|].
  destruct (String.eqb ext "pdb"); [reflexivity|].
  destruct (String.eqb ext "mol"); reflexivity.
Qed.

(** Reading, by the second piece of the name. *)
Lemma write_or_read_pol_read name m x :
  write_or_read_pol name true m x =
    match PyText.split "." name !! 1%nat with
    | None => (Raise (Exn IndexError "list index out of range"), x)
    | Some ext =>
        match files x !! name with
        | None => (Raise (FileNotFoundError name), x)
        | Some content =>
            match (if String.eqb ext "pdb" then Some (MolFromPDBFile content)
                   else if String.eqb ext "mol" then Some (MolFromMolFile content)
                   else None) with
            | None => (Raise (Exn SystemExit "quit"), x)
            | Some None => (Raise (Exn ToolkitError "MolToSmiles"), x)
            | Some (Some pol_h) =>
                (Ok (Some (pol_h, MolToSmiles pol_h, MolFromSmiles (MolToSmiles pol_h))), x)
            end
        end
    end.
Proof.
  unfold write_or_read_pol, bind, index.
  destruct (PyText.split "." name !! 1%nat) as [ext|]; [|reflexivity].
  unfold ret at 1. unfold gets. destruct (files x !! name) as [content|]; [|reflexivity].
  destruct (String.eqb ext "pdb"); [unfold ret at 1; destruct (MolFromPDBFile content); reflexivity|].
  destruct (String.eqb ext "mol"); [unfold ret at 1; destruct (MolFromMolFile content); reflexivity|].
  reflexivity.
Qed.

(** The extension [write_or_read_pol] goes by is the text between the
    first and the second dot of the name, not the text after the last
    dot.  A name without a dot raises [IndexError], in both modes and
    before the file system is looked at.  For a name [base.ext] or
    [base.ext.more], a call that writes stores the structure in the
    format of [ext] when [ext] is [xyz], [pdb] or [mol], and otherwise
    ends the program and writes nothing: so does [run.v2.pdb], whose
    extension is [v2].  A call that reads a name that is no file raises
    [FileNotFoundError], whatever the extension. *)
Theorem write_or_read_pol_extension
    (base ext rest : string) (read : bool) (m : mol) (x : session) :
  PyStr.count "." base = O ->
  (write_or_read_pol base read (Some m) x
   = (Raise (Exn IndexError "list index out of range"), x))
  /\ (PyStr.count "." ext = O -> dot_or_end rest ->
      let name := base +:+ String "." (ext +:+ rest) in
      write_or_read_pol name false (Some m) x
      = match format_named ext with
        | Some fmt => (Ok None, with_file x name (MolFile fmt m))
        | None => (Raise (Exn SystemExit "quit"), x)
        end
      /\ (files x !! name = None ->
          write_or_read_pol name true None x = (Raise (FileNotFoundError name), x))).
Proof.
  intros Hb. split.
  - destruct read.
    + rewrite write_or_read_pol_read, split_no_second by exact Hb. reflexivity.
    + rewrite write_or_read_pol_write, split_no_second by exact Hb. reflexivity.
  - intros He Hr name. split.
    + rewrite write_or_read_pol_write. unfold name.
      rewrite (split_second _ _ _ Hb He Hr). reflexivity.
    + intros Hf. rewrite write_or_read_pol_read. unfold name.
      rewrite (split_second _ _ _ Hb He Hr). fold name. now rewrite Hf.
Qed.

(** What was written under a name is what a later call reads under it,
    by the reader of the same format: after a call that has written the
    structure [m], a call that reads the same name hands the file to
    [MolFromPDBFile] for [pdb] and to [MolFromMolFile] for [mol], and
    returns the structure read, its notation and the structure read back
    from the notation.  A file written as [xyz] cannot be read: the call
    ends the program. *)
Theorem write_or_read_pol_round_trip (name : string) (m : mol) (x x' : session) :
  write_or_read_pol name false (Some m) x = (Ok None, x') ->
  exists fmt,
    x' = with_file x name (MolFile fmt m)
    /\ write_or_read_pol name true None x'
       = match match fmt with
               | XYZ => None
               | PDB => Some (MolFromPDBFile (MolFile PDB m))
               | MOLFILE => Some (MolFromMolFile (MolFile MOLFILE m))
               end with
         | None => (Raise (Exn SystemExit "quit"), x')
         | Some None => (Raise (Exn ToolkitError "MolToSmiles"), x')
         | Some (Some pol_h) =>
             (Ok (Some (pol_h, MolToSmiles pol_h, MolFromSmiles (MolToSmiles pol_h))), x')
         end.
Proof.
  rewrite write_or_read_pol_write. intros E.
  destruct (PyText.split "." name !! 1%nat) as [ext|] eqn:Es; [|discriminate E].
  destruct (format_named ext) as [fmt|] eqn:Ef; [|discriminate E].
  inversion E; subst x'; clear E. exists fmt. split; [reflexivity|].
  rewrite write_or_read_pol_read, Es. unfold with_file at 1. cbn [files].
  rewrite lookup_insert_eq. unfold format_named in Ef.
  destruct (String.eqb ext "xyz") eqn:E1.
  { inversion Ef; subst fmt. apply String.eqb_eq in E1. subst ext. reflexivity. }
  destruct (String.eqb ext "pdb") eqn:E2.
  { inversion Ef; subst fmt. reflexivity. }
  destruct (String.eqb ext "mol") eqn:E3; [|discriminate Ef].
  inversion Ef; subst fmt. reflexivity.
Qed.

End FileClaims.

Lemma write_or_read_pol_extension_witness :
  @write_or_read_pol Sample.toolkit SampleSession.readers "run.v2.pdb" false
    (Some {| atoms := []; bonds := [] |}) (SampleSession.start ∅ [])
  = (Raise (Exn SystemExit "quit"), SampleSession.start ∅ []).
Proof.
  destruct (@write_or_read_pol_extension Sample.toolkit SampleSession.readers
              "run" "v2" ".pdb" false {| atoms := []; bonds := [] |}
              (SampleSession.start ∅ []) eq_refl) as [_ H].
  destruct (H eq_refl ltac:(right; eexists; reflexivity)) as [Hw _].
  exact Hw.
Defined.

Lemma write_or_read_pol_round_trip_witness :
  exists x',
    @write_or_read_pol Sample.toolkit SampleSession.readers "pol.pdb" false
      (Some {| atoms := [{| atomic_num := 6; atomNote := None |}]; bonds := [] |})
      (SampleSession.start ∅ []) = (Ok None, x')
    /\ @write_or_read_pol Sample.toolkit SampleSession.readers "pol.pdb" true None x'
       = (Ok (Some ({| atoms := [{| atomic_num := 6; atomNote := None |}]; bonds := [] |},
                    "C",
                    Some {| atoms := [{| atomic_num := 6; atomNote := None |}];
                            bonds := [] |})), x').
Proof.
  eexists. split; [vm_compute; reflexivity|].
  destruct (@write_or_read_pol_round_trip Sample.toolkit SampleSession.readers "pol.pdb"
              {| atoms := [{| atomic_num := 6; atomNote := None |}]; bonds := [] |}
              (SampleSession.start ∅ []) _ ltac:(vm_compute; reflexivity))
    as (fmt & Hx & Hr).
  assert (Hf : fmt = PDB).
  { apply (f_equal (fun s => files s !! "pol.pdb")) in Hx. vm_compute in Hx.
    now inversion Hx. }
  subst fmt. exact Hr.
Defined.

(* ===================================================================== *)
(** ** The calculations *)
(* ===================================================================== *)

Lemma asked_difference a b (c : gset string) :
  asked a (c ∖ {[b]}) = asked a c && negb (String.eqb a b).
Proof.
  unfold asked. destruct (String.eqb a b) eqn:E.
  - apply String.eqb_eq in E. subst b. rewrite andb_false_r.
    apply bool_decide_eq_false. set_solver.
  - apply String.eqb_neq in E. rewrite andb_true_r.
    apply bool_decide_ext. set_solver.
Qed.

Lemma unasked_difference a (c : gset string) : asked a c = false -> c ∖ {[a]} = c.
Proof. unfold asked. intros E. apply bool_decide_eq_false in E. set_solver. Qed.

Lemma difference_known (c : gset string) :
  (((((c ∖ {["SA"]}) ∖ {["LogP"]}) ∖ {["RG"]}) ∖ {["MV"]}) ∖ {["MHP"]}) ∖ {["XMHP"]}
  = c ∖ known_calcs.
Proof. unfold known_calcs. set_solver. Qed.

Section CalcClaims.

Context `{Calc : Descriptors}.

(** The five steps of [doCalcs], each on the set as the steps before
    have left it. *)
Lemma doCalcs_steps {S} (pol_h : mol) (calcs : gset string) (s : S) :
  doCalcs pol_h calcs s =
    (let f1 := asked "SA" calcs || asked "MHP" calcs || asked "XMHP" calcs in
     let f2 := asked "LogP" calcs || asked "MHP" calcs || asked "XMHP" calcs in
     let f5 := asked "MHP" calcs || asked "XMHP" calcs in
     match (if f1 then CalcSASA pol_h else Some 0%float) with
     | None => (Raise (Exn ToolkitError "CalcSASA"), s)
     | Some sasa =>
     match (if f2 then MolLogP pol_h else Some 0%float) with
     | None => (Raise (Exn ToolkitError "MolLogP"), s)
     | Some logP =>
     match (if asked "RG" calcs then CalcRadiusOfGyration pol_h else Some 0%float) with
     | None => (Raise (Exn ToolkitError "CalcRadiusOfGyration"), s)
     | Some rg =>
     match (if asked "MV" calcs then ComputeMolVolume pol_h else Some 0%float) with
     | None => (Raise (Exn ToolkitError "ComputeMolVolume"), s)
     | Some mv =>
         if f5 && PrimFloat.eqb sasa 0%float then (Raise ZeroDivisionError, s)
         else (Ok (calc_table sasa logP rg mv calcs, calcs ∖ known_calcs), s)
     end end end end).
Proof.
  cbn zeta. rewrite <- difference_known. unfold doCalcs, calc_table.
  destruct (asked "SA" calcs) eqn:F1, (asked "LogP" calcs) eqn:F2,
           (asked "RG" calcs) eqn:F3, (asked "MV" calcs) eqn:F4,
           (asked "MHP" calcs) eqn:F5, (asked "XMHP" calcs) eqn:F6;
    cbn [orb andb negb];
    unfold bind, Sasa, LogP, RadGyration, MolVolume, toolkit_float, ret, raise, py_truediv;
    repeat first
      [ rewrite asked_difference
      | rewrite F1 | rewrite F2 | rewrite F3 | rewrite F4 | rewrite F5 | rewrite F6
      | progress cbn [orb andb negb String.eqb Ascii.eqb Bool.eqb od_set app fst snd]
      | match goal with
        | |- context [match CalcSASA pol_h with _ => _ end] =>
            destruct (CalcSASA pol_h) as [sasa|]
        | |- context [match MolLogP pol_h with _ => _ end] =>
            destruct (MolLogP pol_h) as [logP|]
        | |- context [match CalcRadiusOfGyration pol_h with _ => _ end] =>
            destruct (CalcRadiusOfGyration pol_h) as [rg|]
        | |- context [match ComputeMolVolume pol_h with _ => _ end] =>
            destruct (ComputeMolVolume pol_h) as [mv|]
        | |- context [PrimFloat.eqb ?a 0%float] => destruct (PrimFloat.eqb a 0%float)
        end
      | reflexivity ];
    unfold ret; try reflexivity;
    do 3 f_equal; unfold asked in *;
    repeat match goal with
      | H : bool_decide _ = false |- _ => apply bool_decide_eq_false in H
      | H : bool_decide _ = true |- _ => apply bool_decide_eq_true in H
      end;
    set_solver.
Qed.

End CalcClaims.

Section CalcTables.

Context `{Calc : Descriptors}.

(** The call returns the table when the descriptors it asks for
    return. *)
Lemma doCalcs_returns {S} (sa lp rg mv : mol -> float) (calcs : gset string)
    (pol_h : mol) (s : S) :
  described sa lp rg mv calcs pol_h ->
  doCalcs pol_h calcs s
  = (Ok (calc_table (sa pol_h) (lp pol_h) (rg pol_h) (mv pol_h) calcs,
         calcs ∖ known_calcs), s).
Proof.
  intros (H1 & H2 & H3 & H4 & H5).
  rewrite doCalcs_steps. cbn zeta. unfold calc_table.
  destruct (asked "SA" calcs), (asked "LogP" calcs), (asked "RG" calcs),
           (asked "MV" calcs), (asked "MHP" calcs), (asked "XMHP" calcs);
    cbn [orb andb negb] in *;
    rewrite ?(H1 eq_refl), ?(H2 eq_refl), ?(H3 eq_refl), ?(H4 eq_refl), ?(H5 eq_refl);
    reflexivity.
Qed.

(** When the descriptors that are asked for return, and the surface
    area is not zero when the ratio is asked for, [doCalcs] returns the
    table of the structure, in the order [SA], [LogP], [RG], [MV],
    [MHP], and leaves in the set the names it does not know, which it
    only reports.  With [XMHP] neither the surface area nor the partition
    coefficient is in the table, also when they are asked for by name,
    and the ratio is. *)
Theorem doCalcs_table {S} (pol_h : mol) (calcs : gset string)
    (sasa logP rg mv : float) (s : S) :
  (asked "SA" calcs || asked "MHP" calcs || asked "XMHP" calcs = true ->
   CalcSASA pol_h = Some sasa) ->
  (asked "LogP" calcs || asked "MHP" calcs || asked "XMHP" calcs = true ->
   MolLogP pol_h = Some logP) ->
  (asked "RG" calcs = true -> CalcRadiusOfGyration pol_h = Some rg) ->
  (asked "MV" calcs = true -> ComputeMolVolume pol_h = Some mv) ->
  (asked "MHP" calcs || asked "XMHP" calcs = true -> PrimFloat.eqb sasa 0%float = false) ->
  doCalcs pol_h calcs s
  = (Ok (calc_table sasa logP rg mv calcs, calcs ∖ known_calcs), s)
  /\ (asked "XMHP" calcs = true ->
      od_get (calc_table sasa logP rg mv calcs) "SA" = None
      /\ od_get (calc_table sasa logP rg mv calcs) "LogP" = None
      /\ od_get (calc_table sasa logP rg mv calcs) "MHP"
         = Some (JFloat (logP / sasa)%float)).
Proof.
  intros H1 H2 H3 H4 H5. split.
  - apply (doCalcs_returns (fun _ => sasa) (fun _ => logP) (fun _ => rg) (fun _ => mv)).
    repeat split; assumption.
  - intros HX. unfold calc_table. rewrite HX.
    destruct (asked "SA" calcs), (asked "LogP" calcs), (asked "RG" calcs),
             (asked "MV" calcs), (asked "MHP" calcs); repeat split.
Qed.

(** [doCalcs] raises nothing of its own but the [ZeroDivisionError] of
    the ratio, and that only for a surface area that is zero; any
    other exception is one of the toolkit, from a descriptor that was
    asked for.  A name it does not know raises nothing, and neither
    [sasa] nor [logP] is ever read unbound.  The state is as it was. *)
Theorem doCalcs_raises {S} (pol_h : mol) (calcs : gset string) (s s' : S) (e : exn) :
  doCalcs pol_h calcs s = (Raise e, s') ->
  s' = s
  /\ ((e = ZeroDivisionError
       /\ asked "MHP" calcs || asked "XMHP" calcs = true
       /\ exists sasa, CalcSASA pol_h = Some sasa /\ PrimFloat.eqb sasa 0%float = true)
      \/ (e = Exn ToolkitError "CalcSASA" /\ CalcSASA pol_h = None
          /\ asked "SA" calcs || asked "MHP" calcs || asked "XMHP" calcs = true)
      \/ (e = Exn ToolkitError "MolLogP" /\ MolLogP pol_h = None
          /\ asked "LogP" calcs || asked "MHP" calcs || asked "XMHP" calcs = true)
      \/ (e = Exn ToolkitError "CalcRadiusOfGyration"
          /\ CalcRadiusOfGyration pol_h = None /\ asked "RG" calcs = true)
      \/ (e = Exn ToolkitError "ComputeMolVolume"
          /\ ComputeMolVolume pol_h = None /\ asked "MV" calcs = true)).
Proof.
  rewrite doCalcs_steps. cbn zeta. intros E.
  destruct (asked "SA" calcs) eqn:F1, (asked "LogP" calcs) eqn:F2,
           (asked "RG" calcs) eqn:F3, (asked "MV" calcs) eqn:F4,
           (asked "MHP" calcs) eqn:F5, (asked "XMHP" calcs) eqn:F6;
    cbn [orb andb] in *;
    repeat match type of E with
      | context [match CalcSASA pol_h with _ => _ end] =>
          destruct (CalcSASA pol_h) as [sasa|] eqn:D1
      | context [match MolLogP pol_h with _ => _ end] =>
          destruct (MolLogP pol_h) as [logP|] eqn:D2
      | context [match CalcRadiusOfGyration pol_h with _ => _ end] =>
          destruct (CalcRadiusOfGyration pol_h) as [rg|] eqn:D3
      | context [match ComputeMolVolume pol_h with _ => _ end] =>
          destruct (ComputeMolVolume pol_h) as [mv|] eqn:D4
      | context [PrimFloat.eqb ?a 0%float] => destruct (PrimFloat.eqb a 0%float) eqn:Z
      end;
    try discriminate E;
    inversion E; subst; (split; [reflexivity|]);
    solve [ left; eauto
          | right; left; auto
          | right; right; left; auto
          | do 3 right; left; auto
          | do 4 right; auto ].
Qed.

End CalcTables.

Lemma doCalcs_table_witness :
  @doCalcs SampleSession.descriptors unit
    {| atoms := [{| atomic_num := 6; atomNote := None |};
                 {| atomic_num := 8; atomNote := None |}];
       bonds := [{| begin_idx := 0; end_idx := 1; btype := SINGLE |}] |}
    {[ "SA"; "XMHP"; "volume" ]} tt
  = (Ok ([("MHP", JFloat 0.5%float)], {[ "SA"; "XMHP"; "volume" ]} ∖ known_calcs), tt).
Proof.
  destruct (@doCalcs_table SampleSession.descriptors unit
              {| atoms := [{| atomic_num := 6; atomNote := None |};
                           {| atomic_num := 8; atomNote := None |}];
                 bonds := [{| begin_idx := 0; end_idx := 1; btype := SINGLE |}] |}
              {[ "SA"; "XMHP"; "volume" ]} 2%float 1%float 0%float 0%float tt
              ltac:(intros _; vm_compute; reflexivity)
              ltac:(intros _; vm_compute; reflexivity)
              ltac:(intros H; vm_compute in H; discriminate H)
              ltac:(intros H; vm_compute in H; discriminate H)
              ltac:(intros _; vm_compute; reflexivity)) as [H _].
  rewrite H. vm_compute. reflexivity.
Defined.

Lemma doCalcs_raises_witness :
  exists sasa,
    @CalcSASA SampleSession.descriptors {| atoms := []; bonds := [] |} = Some sasa
    /\ PrimFloat.eqb sasa 0%float = true.
Proof.
  assert (E : @doCalcs SampleSession.descriptors unit {| atoms := []; bonds := [] |}
                ({[ "MHP" ]} : gset string) tt = (Raise ZeroDivisionError, tt))
    by (vm_compute; reflexivity).
  destruct (@doCalcs_raises SampleSession.descriptors unit _ _ _ _ _ E)
    as [_ [(_ & _ & H) | [H | [H | [H | H]]]]];
    [ exact H | | | | ]; destruct H as [H _]; discriminate H.
Defined.

(* ===================================================================== *)
(** ** The table of a family *)
(* ===================================================================== *)

Lemma od_set_fresh k v d : ~ In k (od_keys d) -> od_set k v d = d ++ [(k, v)].
Proof.
  induction d as [|[k' v'] d IH]; intros Hk; [reflexivity|].
  cbn [od_set app]. destruct (String.eqb k' k) eqn:E.
  - apply String.eqb_eq in E. subst k'. exfalso. apply Hk. now left.
  - rewrite IH; [reflexivity|]. intros H. apply Hk. now right.
Qed.

Lemma od_keys_app d d' : od_keys (d ++ d') = od_keys d ++ od_keys d'.
Proof. unfold od_keys. apply map_app. Qed.

Lemma od_get_app d d' k :
  od_get (d ++ d') k = match od_get d k with Some v => Some v | None => od_get d' k end.
Proof.
  induction d as [|[k' v'] d IH]; [reflexivity|].
  cbn [od_get app]. destruct (String.eqb k' k); [reflexivity | exact IH].
Qed.

Lemma od_get_None d k : od_get d k = None <-> ~ In k (od_keys d).
Proof.
  induction d as [|[k' v'] d IH]; cbn [od_get od_keys map In fst]; [tauto|].
  destruct (String.eqb k' k) eqn:E.
  - apply String.eqb_eq in E. subst. split; [discriminate | intros H; exfalso; auto].
  - apply String.eqb_neq in E. rewrite IH. unfold od_keys. tauto.
Qed.

Lemma od_get_map (f : string -> json) ks k :
  In k ks -> od_get (map (fun k => (k, f k)) ks) k = Some (f k).
Proof.
  induction ks as [|k' ks IH]; intros Hk; [destruct Hk|].
  cbn [map od_get]. destruct (String.eqb k' k) eqn:E.
  - apply String.eqb_eq in E. now subst.
  - apply String.eqb_neq in E. destruct Hk as [Hk|Hk]; [contradiction | now apply IH].
Qed.

Lemma od_keys_map (f : string -> json) ks : od_keys (map (fun k => (k, f k)) ks) = ks.
Proof. unfold od_keys. rewrite map_map. cbn. apply map_id. Qed.

(** The keys of a table do not depend on the values, have no
    duplicates, and are neither [N] nor [smi]. *)
Lemma calc_table_keys a b c d calcs : od_keys (calc_table a b c d calcs) = calc_keys calcs.
Proof.
  unfold calc_keys, calc_table.
  destruct (asked "SA" calcs), (asked "LogP" calcs), (asked "RG" calcs),
           (asked "MV" calcs), (asked "MHP" calcs), (asked "XMHP" calcs); reflexivity.
Qed.

Lemma calc_keys_sub calcs :
  exists b1 b2 b3 b4 b5 : bool,
    calc_keys calcs
    = (if b1 then ["SA"] else []) ++ (if b2 then ["LogP"] else [])
      ++ (if b3 then ["RG"] else []) ++ (if b4 then ["MV"] else [])
      ++ (if b5 then ["MHP"] else []).
Proof.
  unfold calc_keys, calc_table.
  exists ((asked "SA" calcs || asked "MHP" calcs) && negb (asked "XMHP" calcs)),
         ((asked "LogP" calcs || asked "MHP" calcs) && negb (asked "XMHP" calcs)),
         (asked "RG" calcs), (asked "MV" calcs),
         (asked "MHP" calcs || asked "XMHP" calcs).
  rewrite !od_keys_app.
  destruct ((asked "SA" calcs || asked "MHP" calcs) && negb (asked "XMHP" calcs)),
           ((asked "LogP" calcs || asked "MHP" calcs) && negb (asked "XMHP" calcs)),
           (asked "RG" calcs), (asked "MV" calcs),
           (asked "MHP" calcs || asked "XMHP" calcs); reflexivity.
Qed.

Lemma calc_keys_NoDup calcs : List.NoDup (calc_keys calcs ++ ["N"; "smi"]).
Proof.
  destruct (calc_keys_sub calcs) as (b1 & b2 & b3 & b4 & b5 & ->).
  destruct b1, b2, b3, b4, b5; cbn;
    repeat (constructor; [cbn; intuition discriminate|]); constructor.
Qed.

Lemma calc_keys_plain calcs k : In k (calc_keys calcs) -> k <> "N" /\ k <> "smi".
Proof.
  destruct (calc_keys_sub calcs) as (b1 & b2 & b3 & b4 & b5 & ->).
  destruct b1, b2, b3, b4, b5; cbn; intuition (subst; discriminate).
Qed.

Lemma plot_rowdict_keys sa lp rg mv calcs mpn i pol smi :
  od_keys (plot_rowdict sa lp rg mv calcs mpn i pol smi) = calc_keys calcs ++ ["N"; "smi"].
Proof. unfold plot_rowdict. now rewrite od_keys_app, calc_table_keys. Qed.

Lemma plot_rowdict_N sa lp rg mv calcs mpn i pol smi :
  od_get (plot_rowdict sa lp rg mv calcs mpn i pol smi) "N" = Some (JInt (legend_n i mpn)).
Proof.
  unfold plot_rowdict. rewrite od_get_app.
  destruct (od_get (calc_table _ _ _ _ calcs) "N") eqn:E; [|reflexivity].
  exfalso. assert (H : In "N" (calc_keys calcs)).
  { rewrite <- (calc_table_keys (sa pol) (lp pol) (rg pol) (mv pol)).
    destruct (in_dec string_dec "N" (od_keys (calc_table (sa pol) (lp pol) (rg pol) (mv pol) calcs)))
      as [H|H]; [exact H|]. apply od_get_None in H. congruence. }
  apply calc_keys_plain in H. destruct H as [H _]. now apply H.
Qed.

Lemma plot_rowdict_smi sa lp rg mv calcs mpn i pol smi :
  od_get (plot_rowdict sa lp rg mv calcs mpn i pol smi) "smi" = Some (JStr smi).
Proof.
  unfold plot_rowdict. rewrite od_get_app.
  destruct (od_get (calc_table _ _ _ _ calcs) "smi") eqn:E; [|reflexivity].
  exfalso. assert (H : In "smi" (calc_keys calcs)).
  { rewrite <- (calc_table_keys (sa pol) (lp pol) (rg pol) (mv pol)).
    destruct (in_dec string_dec "smi" (od_keys (calc_table (sa pol) (lp pol) (rg pol) (mv pol) calcs)))
      as [H|H]; [exact H|]. apply od_get_None in H. congruence. }
  apply calc_keys_plain in H. destruct H as [_ H]. now apply H.
Qed.

Section PlotFacts.

Context `{Toolkit : RDKit} `{Tables : SmilesTables}
        `{Calc : Descriptors} `{Readers : MolReaders}.

(** One row. *)
Lemma plot_row_returns sa lp rg mv calculations smiles_list mpn i pol smi x :
  described sa lp rg mv (list_to_set calculations) pol ->
  smiles_list !! i = Some smi ->
  plot_row calculations smiles_list mpn (i, pol) x
  = (Ok (plot_rowdict sa lp rg mv (list_to_set calculations) mpn i pol smi), x).
Proof.
  intros Hd Hs. unfold plot_row.
  rewrite (bind_ok _ _ _ _ _ (doCalcs_returns sa lp rg mv _ pol x Hd)). cbn [fst].
  unfold bind, index. rewrite Hs. unfold ret.
  rewrite (od_set_fresh "N").
  - rewrite od_set_fresh; [unfold plot_rowdict; now rewrite <- app_assoc|].
    rewrite od_keys_app, calc_table_keys. intros H. apply in_app_or in H.
    destruct H as [H | [H | []]]; [|discriminate H].
    apply calc_keys_plain in H. destruct H as [_ H]. now apply H.
  - rewrite calc_table_keys. intros H. apply calc_keys_plain in H.
    destruct H as [H _]. now apply H.
Qed.

(** All the rows. *)
Lemma plot_rows_return sa lp rg mv calculations smiles_list mpn x :
  forall pol_list k,
    (forall pol, In pol pol_list -> described sa lp rg mv (list_to_set calculations) pol) ->
    (k + length pol_list <= length smiles_list)%nat ->
    mapM (plot_row calculations smiles_list mpn)
         (imap (fun i pol => ((k + i)%nat, pol)) pol_list) x
    = (Ok (plot_rows_from sa lp rg mv (list_to_set calculations) mpn k pol_list
             (drop k smiles_list)), x).
Proof.
  induction pol_list as [|pol pols IH]; intros k Hd Hl.
  - cbn. destruct (drop k smiles_list); reflexivity.
  - cbn [imap mapM length] in *.
    destruct (drop k smiles_list) as [|smi smis] eqn:Ed.
    { apply (f_equal (@length string)) in Ed. rewrite length_drop in Ed. simpl in Ed. lia. }
    assert (Hs : smiles_list !! k = Some smi).
    { assert (H0 := lookup_drop smiles_list k 0). rewrite Ed, Nat.add_0_r in H0.
      symmetry. exact H0. }
    rewrite Nat.add_0_r.
    rewrite (bind_ok _ _ _ _ _ (plot_row_returns sa lp rg mv _ _ _ _ _ _ x
                                   (Hd pol (or_introl eq_refl)) Hs)).
    assert (Himap : imap ((fun i pol0 => ((k + i)%nat, pol0)) ∘ S) pols
                    = imap (fun i pol0 => ((S k + i)%nat, pol0)) pols).
    { apply imap_ext. intros i y _. cbn. f_equal. lia. }
    rewrite Himap.
    rewrite (bind_ok _ _ _ _ _ (IH (S k) (fun p Hp => Hd p (or_intror Hp)) ltac:(lia))).
    unfold ret. cbn [plot_rows_from].
    assert (Hdrop : drop (S k) smiles_list = smis).
    { assert (H1 := drop_drop smiles_list 1 k). rewrite Ed in H1. cbn in H1.
      rewrite Nat.add_1_r in H1. symmetry. exact H1. }
    now rewrite Hdrop.
Qed.

End PlotFacts.

Lemma plot_rows_keys sa lp rg mv calcs mpn pol_list : forall k smiles_list d,
  In d (plot_rows_from sa lp rg mv calcs mpn k pol_list smiles_list) ->
  od_keys d = calc_keys calcs ++ ["N"; "smi"].
Proof.
  induction pol_list as [|pol pols IH]; intros k [|smi smis] d Hd; try destruct Hd.
  - subst d. apply plot_rowdict_keys.
  - exact (IH _ _ _ H).
Qed.

Lemma plot_rows_length sa lp rg mv calcs mpn pol_list : forall k smiles_list,
  (length pol_list <= length smiles_list)%nat ->
  length (plot_rows_from sa lp rg mv calcs mpn k pol_list smiles_list) = length pol_list.
Proof.
  induction pol_list as [|pol pols IH]; intros k [|smi smis] Hl; cbn in *; try lia.
  rewrite IH; lia.
Qed.

Lemma plot_rows_N sa lp rg mv calcs mpn pol_list : forall k smiles_list,
  (length pol_list <= length smiles_list)%nat ->
  omap (fun d => od_get d "N") (plot_rows_from sa lp rg mv calcs mpn k pol_list smiles_list)
  = imap (fun i _ => JInt (legend_n (k + i) mpn)) pol_list.
Proof.
  induction pol_list as [|pol pols IH]; intros k [|smi smis] Hl; cbn in *; try lia;
    try reflexivity.
  rewrite plot_rowdict_N, Nat.add_0_r. f_equal.
  rewrite IH by lia. apply imap_ext. intros i y _. cbn. do 2 f_equal. lia.
Qed.

Lemma plot_rows_smi sa lp rg mv calcs mpn pol_list : forall k smiles_list,
  (length pol_list <= length smiles_list)%nat ->
  omap (fun d => od_get d "smi") (plot_rows_from sa lp rg mv calcs mpn k pol_list smiles_list)
  = map JStr (take (length pol_list) smiles_list).
Proof.
  induction pol_list as [|pol pols IH]; intros k [|smi smis] Hl; cbn in *; try lia;
    try reflexivity.
  rewrite plot_rowdict_smi. f_equal. apply IH. lia.
Qed.

Lemma with_calls_nil x : with_calls x [] = x.
Proof. destruct x. unfold with_calls. cbn. now rewrite app_nil_r. Qed.

Lemma with_calls_app x cs cs' : with_calls (with_calls x cs) cs' = with_calls x (cs ++ cs').
Proof. unfold with_calls. cbn. now rewrite app_assoc. Qed.

Lemma plt_unfold c x : plt c x = (Ok tt, with_calls x [c]).
Proof. reflexivity. Qed.

Section PlotClaims.

Context `{Toolkit : RDKit} `{Tables : SmilesTables}
        `{Calc : Descriptors} `{Readers : MolReaders}.

Lemma mapM_getitem (dicts : list odict) k (x : session) :
  (forall d, In d dicts -> In k (od_keys d)) ->
  mapM (fun d => od_getitem d k) dicts x = (Ok (omap (fun d => od_get d k) dicts), x).
Proof.
  induction dicts as [|d ds IH]; intros H; [reflexivity|].
  cbn [mapM omap]. unfold bind at 1. unfold od_getitem at 1.
  destruct (od_get d k) as [v|] eqn:E.
  - unfold ret at 1. unfold bind at 1. rewrite IH by (intros; apply H; now right).
    unfold ret. cbn. rewrite E. reflexivity.
  - exfalso. apply od_get_None in E. apply E, H. now left.
Qed.

Lemma columns_fold (dicts : list odict) (x : session) : forall ks acc,
  List.NoDup (od_keys acc ++ ks) ->
  (forall k d, In k ks -> In d dicts -> In k (od_keys d)) ->
  foldM (fun data k =>
           col <- mapM (fun d => od_getitem d k) dicts ;;
           ret (od_set k (JList col) data)) acc ks x
  = (Ok (acc ++ map (fun k => (k, column dicts k)) ks), x).
Proof.
  induction ks as [|k ks IH]; intros acc Hnd Hk.
  - cbn. now rewrite app_nil_r.
  - cbn [foldM map]. unfold bind at 1. unfold bind at 1.
    rewrite mapM_getitem by (intros d Hd; apply (Hk k d); [now left | exact Hd]).
    unfold ret at 1.
    rewrite od_set_fresh.
    + rewrite IH.
      * now rewrite <- app_assoc.
      * rewrite od_keys_app. cbn. rewrite <- app_assoc. exact Hnd.
      * intros k' d Hk' Hd. apply Hk; [now right | exact Hd].
    + intros Hin. apply NoDup_remove_2 in Hnd. apply Hnd.
      apply in_or_app. now left.
Qed.

Lemma columns_returns (dicts : list odict) first rest (x : session) :
  dicts = first :: rest ->
  List.NoDup (od_keys first) ->
  (forall d, In d dicts -> od_keys d = od_keys first) ->
  columns dicts x = (Ok (table_columns dicts), x).
Proof.
  intros -> Hnd Hk. unfold columns.
  rewrite (bind_ok _ _ x first x) by reflexivity.
  rewrite columns_fold; [reflexivity | exact Hnd |].
  intros k d Hkk Hd. now rewrite (Hk d Hd).
Qed.

(** The loop that draws one scatter plot for each key. *)
Lemma scatter_loop (data : odict) (dicts : list odict) (ncols : nat) :
  od_get data "N" = Some (column dicts "N") ->
  forall ks j x,
    (forall k, In k ks -> k <> "N" /\ k <> "smi"
                          /\ od_get data k = Some (column dicts k)) ->
    (j + length ks <= ncols)%nat ->
    foldM (scatter_step (Z.of_nat ncols) data) j ks x
    = (Ok (j + length ks)%nat, with_calls x (scatters_from dicts j ks)).
Proof.
  intros HN. induction ks as [|k ks IH]; intros j x Hk Hl.
  - cbn. rewrite with_calls_nil, Nat.add_0_r. reflexivity.
  - cbn [foldM scatters_from length] in *. unfold bind at 1. unfold scatter_step.
    destruct (Hk k (or_introl eq_refl)) as (H1 & H2 & H3).
    apply String.eqb_neq in H1. apply String.eqb_neq in H2. rewrite H1, H2.
    cbn [negb andb].
    assert (Hlt : (Z.of_nat j <? Z.of_nat ncols) = true) by (apply Z.ltb_lt; lia).
    rewrite Hlt. unfold bind at 1. unfold ret at 1.
    unfold bind at 1. unfold od_getitem at 1. rewrite HN. unfold ret at 1.
    unfold bind at 1. unfold od_getitem at 1. rewrite H3. unfold ret at 1.
    unfold bind at 1. rewrite plt_unfold.
    unfold bind at 1. rewrite plt_unfold. unfold ret at 1.
    rewrite IH by (try (intros; apply Hk; now right); lia).
    rewrite !with_calls_app. do 2 f_equal. lia.
Qed.

(** The two keys that are not drawn. *)
Lemma scatter_skip (data : odict) ncols j x :
  foldM (scatter_step ncols data) j ["N"; "smi"] x = (Ok j, x).
Proof. reflexivity. Qed.

Lemma foldM_app {S A B} (f : B -> A -> SE S B) l1 l2 b s :
  foldM f b (l1 ++ l2) s =
    match foldM f b l1 s with
    | (Ok b', s') => foldM f b' l2 s'
    | (Raise e, s') => (Raise e, s')
    end.
Proof.
  revert b s. induction l1 as [|a l1 IH]; intros b s; [reflexivity|].
  cbn [app foldM]. unfold bind. destruct (f b a s) as [[b'|e] s']; [apply IH | reflexivity].
Qed.

End PlotClaims.

Section PlotTheorems.

Context `{Toolkit : RDKit} `{Tables : SmilesTables}
        `{Calc : Descriptors} `{Readers : MolReaders}.

(** The rows and the columns of a family whose descriptors return. *)
Lemma makePlot_rows sa lp rg mv pol_list calculations smiles_list mpn x :
  (length pol_list <= length smiles_list)%nat ->
  (forall pol, In pol pol_list -> described sa lp rg mv (list_to_set calculations) pol) ->
  mapM (plot_row calculations smiles_list mpn) (enumerate pol_list) x
  = (Ok (plot_rows_from sa lp rg mv (list_to_set calculations) mpn 0 pol_list smiles_list),
     x).
Proof.
  intros Hl Hd.
  exact (plot_rows_return sa lp rg mv calculations smiles_list mpn x pol_list 0 Hd Hl).
Qed.

Lemma makePlot_columns sa lp rg mv calcs mpn pol_list smiles_list (x : session) :
  pol_list <> [] -> (length pol_list <= length smiles_list)%nat ->
  let rows := plot_rows_from sa lp rg mv calcs mpn 0 pol_list smiles_list in
  columns rows x = (Ok (table_columns rows), x)
  /\ od_keys (table_columns rows) = calc_keys calcs ++ ["N"; "smi"]
  /\ forall k, In k (calc_keys calcs ++ ["N"; "smi"]) ->
       od_get (table_columns rows) k = Some (column rows k).
Proof.
  intros Hne Hl rows.
  destruct pol_list as [|pol pols]; [contradiction|].
  destruct smiles_list as [|smi smis]; [simpl in Hl; lia|].
  assert (Hrows : rows = plot_rowdict sa lp rg mv calcs mpn 0 pol smi
                         :: plot_rows_from sa lp rg mv calcs mpn 1 pols smis)
    by reflexivity.
  assert (Hkeys : forall d, In d rows ->
                    od_keys d = od_keys (plot_rowdict sa lp rg mv calcs mpn 0 pol smi)).
  { intros d Hd. rewrite plot_rowdict_keys. exact (plot_rows_keys _ _ _ _ _ _ _ _ _ _ Hd). }
  split; [|split].
  - apply (columns_returns rows _ _ x Hrows); [|exact Hkeys].
    rewrite plot_rowdict_keys. apply calc_keys_NoDup.
  - rewrite Hrows. cbn [table_columns]. rewrite od_keys_map. apply plot_rowdict_keys.
  - intros k Hk. rewrite Hrows. cbn [table_columns]. rewrite <- Hrows.
    rewrite plot_rowdict_keys. now apply (od_get_map (column rows)).
Qed.

(** The end of [makePlot]: the figure is saved, and shown with
    [verbosity]. *)
Lemma makePlot_end (verbosity : bool) (r : odict * list odict) (x : session) :
  (plt (PltSavefig figname) ;;;
   write_file figname FigureFile ;;;
   (if verbosity then plt PltShow else ret tt) ;;;
   ret r) x
  = (Ok r, {| run_world := run_world x;
              files := <[figname := FigureFile]> (files x);
              plt_calls := plt_calls x
                           ++ PltSavefig figname :: (if verbosity then [PltShow] else []) |}).
Proof.
  destruct verbosity; unfold bind, plt, write_file, modify, ret; cbn;
    rewrite <- ?app_assoc; reflexivity.
Qed.

(** The call of [makePlot] that returns. *)
Lemma makePlot_returns
    (sa lp rg mv : mol -> float) (pol_list : list mol) (calculations : list string)
    (smiles_list : list string) (verbosity : bool) (mpn : Z) (x : session) :
  let calcs : gset string := list_to_set calculations in
  let keys := calc_keys calcs in
  let rows := plot_rows_from sa lp rg mv calcs mpn 0 pol_list smiles_list in
  pol_list <> [] ->
  (length pol_list <= length smiles_list)%nat ->
  (forall pol, In pol pol_list -> described sa lp rg mv calcs pol) ->
  (2 <= length keys)%nat \/ (exists k, keys = [k] /\ first_calc calculations = Some k) ->
  makePlot pol_list calculations smiles_list verbosity mpn x
  = (Ok (table_columns rows, rows),
     {| run_world := run_world x;
        files := <[figname := FigureFile]> (files x);
        plt_calls := plt_calls x ++ plot_calls rows keys
                     ++ PltSavefig figname :: (if verbosity then [PltShow] else []) |}).
Proof.
  intros calcs keys rows Hne Hl Hd Hplot.
  destruct (makePlot_columns sa lp rg mv calcs mpn pol_list smiles_list x Hne Hl)
    as (Hcols & Hkeys & Hget).
  fold rows in Hcols, Hkeys, Hget. fold keys in Hkeys, Hget.
  unfold makePlot.
  rewrite (bind_ok _ _ _ _ _ (makePlot_rows sa lp rg mv _ _ _ mpn x Hl Hd)).
  fold calcs. fold rows.
  rewrite (bind_ok _ _ _ _ _ Hcols). cbn zeta.
  assert (Hlen : Z.of_nat (length (table_columns rows)) - 2 = Z.of_nat (length keys)).
  { assert (H := f_equal (@length string) Hkeys). unfold od_keys in H.
    rewrite length_map, length_app in H. cbn in H. lia. }
  rewrite Hlen.
  assert (HN : od_get (table_columns rows) "N" = Some (column rows "N")).
  { apply Hget. apply in_or_app. right. now left. }
  destruct Hplot as [H2 | (k & Hk & Hfirst)].
  + assert (E1 : (Z.of_nat (length keys) =? 1) = false) by (apply Z.eqb_neq; lia).
    assert (E0 : (0 <? Z.of_nat (length keys)) = true) by (apply Z.ltb_lt; lia).
    rewrite E1, E0. unfold bind at 1. unfold bind at 1. rewrite plt_unfold.
    unfold bind at 1. rewrite Hkeys, foldM_app.
    rewrite (scatter_loop _ rows (length keys) HN keys 0);
      [ | intros k Hk; destruct (calc_keys_plain _ _ Hk) as [Ha Hb];
          split; [exact Ha | split; [exact Hb|]];
          apply Hget; apply in_or_app; now left
        | lia ].
    rewrite scatter_skip. unfold ret at 1.
    rewrite makePlot_end. rewrite with_calls_app. unfold with_calls.
    cbn [run_world files plt_calls].
    assert (Hpc : plot_calls rows keys
                  = [PltSubplots (Z.of_nat (length keys))] ++ scatters_from rows 0 keys).
    { unfold plot_calls. destruct keys as [|k1 [|k2 ks]]; cbn in H2; try lia; reflexivity. }
    rewrite Hpc, <- !app_assoc. reflexivity.
  + rewrite Hk. cbn [length]. change (Z.of_nat 1 =? 1) with true. cbn iota.
    unfold bind at 1. unfold bind at 1. unfold index.
    unfold first_calc in Hfirst. rewrite head_lookup in Hfirst. rewrite Hfirst.
    unfold ret at 1.
    unfold bind at 1. unfold od_getitem at 1. rewrite HN. unfold ret at 1.
    assert (Hgk : od_get (table_columns rows) k = Some (column rows k)).
    { apply Hget. rewrite Hk. now left. }
    unfold bind at 1. unfold od_getitem at 1. rewrite Hgk. unfold ret at 1.
    unfold bind at 1. rewrite plt_unfold.
    unfold bind at 1. rewrite plt_unfold.
    unfold bind at 1. rewrite plt_unfold.
    rewrite plt_unfold.
    rewrite makePlot_end. rewrite !with_calls_app. unfold with_calls.
    cbn [run_world files plt_calls]. unfold plot_calls.
    rewrite <- !app_assoc. reflexivity.
Qed.

(** [makePlot] on a family whose descriptors return: the rows, one for
    each structure, with its table, its length [(i + 1) * mpn] and its
    notation; the same values by column; one plot of the single column
    against the lengths, or a row of scatter plots, one for each column
    in the order of the table; and the figure saved under its fixed name.
    The call returns whenever the table has two columns or more, or one
    column that goes by the first name of [calculations]. *)
Theorem makePlot_table
    (sa lp rg mv : mol -> float) (pol_list : list mol) (calculations : list string)
    (smiles_list : list string) (verbosity : bool) (mpn : Z) (x : session) :
  let calcs : gset string := list_to_set calculations in
  let keys := calc_keys calcs in
  let rows := plot_rows_from sa lp rg mv calcs mpn 0 pol_list smiles_list in
  pol_list <> [] ->
  (length pol_list <= length smiles_list)%nat ->
  (forall pol, In pol pol_list -> described sa lp rg mv calcs pol) ->
  (2 <= length keys)%nat \/ (exists k, keys = [k] /\ first_calc calculations = Some k) ->
  makePlot pol_list calculations smiles_list verbosity mpn x
  = (Ok (table_columns rows, rows),
     {| run_world := run_world x;
        files := <[figname := FigureFile]> (files x);
        plt_calls := plt_calls x ++ plot_calls rows keys
                     ++ PltSavefig figname :: (if verbosity then [PltShow] else []) |})
  /\ od_keys (table_columns rows) = keys ++ ["N"; "smi"]
  /\ length rows = length pol_list
  /\ column rows "N" = JList (imap (fun i _ => JInt (legend_n i mpn)) pol_list)
  /\ column rows "smi" = JList (map JStr (take (length pol_list) smiles_list)).
Proof.
  intros calcs keys rows Hne Hl Hd Hplot.
  destruct (makePlot_columns sa lp rg mv calcs mpn pol_list smiles_list x Hne Hl)
    as (Hcols & Hkeys & Hget).
  fold rows in Hcols, Hkeys, Hget. fold keys in Hkeys, Hget.
  split; [|split; [exact Hkeys|split; [now apply plot_rows_length|split]]].
  - exact (makePlot_returns sa lp rg mv pol_list calculations smiles_list verbosity mpn x
             Hne Hl Hd Hplot).
  - unfold column. f_equal. exact (plot_rows_N _ _ _ _ _ _ _ 0 _ Hl).
  - unfold column. f_equal. exact (plot_rows_smi _ _ _ _ _ _ _ 0 _ Hl).
Qed.

(** Where [makePlot] stops after it has computed every row.  When no
    name of [calculations] gives a column, [plt.subplots] refuses the
    zero columns with [ValueError].  When there is one column, it is
    looked up by the first name of [calculations], and a first name that
    is not the column (nor [N] nor [smi]) raises [KeyError]: so do
    [SA XMHP], where the one column is [MHP], and an unknown name before
    a known one.  In both
    cases no plot has been made and no figure saved.  An empty family
    raises [IndexError]. *)
Theorem makePlot_refuses
    (sa lp rg mv : mol -> float) (pol_list : list mol) (calculations : list string)
    (smiles_list : list string) (verbosity : bool) (mpn : Z) (x : session) :
  let calcs : gset string := list_to_set calculations in
  let keys := calc_keys calcs in
  (length pol_list <= length smiles_list)%nat ->
  (forall pol, In pol pol_list -> described sa lp rg mv calcs pol) ->
  (pol_list = [] ->
   makePlot pol_list calculations smiles_list verbosity mpn x
   = (Raise (Exn IndexError "list index out of range"), x))
  /\ (pol_list <> [] -> keys = [] ->
      makePlot pol_list calculations smiles_list verbosity mpn x
      = (Raise (Exn ValueError "Number of columns must be a positive integer"), x))
  /\ (forall k first, pol_list <> [] -> keys = [k] ->
        first_calc calculations = Some first ->
        first <> k -> first <> "N" -> first <> "smi" ->
        makePlot pol_list calculations smiles_list verbosity mpn x
        = (Raise (Exn KeyError first), x)).
Proof.
  intros calcs keys Hl Hd. split; [|split].
  - intros ->. reflexivity.
  - intros Hne Hk.
    destruct (makePlot_columns sa lp rg mv calcs mpn pol_list smiles_list x Hne Hl)
      as (Hcols & Hkeys & Hget).
    unfold makePlot.
    rewrite (bind_ok _ _ _ _ _ (makePlot_rows sa lp rg mv _ _ _ mpn x Hl Hd)).
    fold calcs. rewrite (bind_ok _ _ _ _ _ Hcols). cbn zeta.
    assert (Hlen : length (table_columns
                     (plot_rows_from sa lp rg mv calcs mpn 0 pol_list smiles_list)) = 2%nat).
    { assert (H := f_equal (@length string) Hkeys). unfold od_keys in H.
      rewrite length_map, length_app in H. fold keys in H. rewrite Hk in H. exact H. }
    rewrite Hlen. reflexivity.
  - intros k first Hne Hk Hfirst Hdiff HdN Hds.
    destruct (makePlot_columns sa lp rg mv calcs mpn pol_list smiles_list x Hne Hl)
      as (Hcols & Hkeys & Hget).
    unfold makePlot.
    rewrite (bind_ok _ _ _ _ _ (makePlot_rows sa lp rg mv _ _ _ mpn x Hl Hd)).
    fold calcs. rewrite (bind_ok _ _ _ _ _ Hcols). cbn zeta.
    assert (Hlen : length (table_columns
                     (plot_rows_from sa lp rg mv calcs mpn 0 pol_list smiles_list)) = 3%nat).
    { assert (H := f_equal (@length string) Hkeys). unfold od_keys in H.
      rewrite length_map, length_app in H. fold keys in H. rewrite Hk in H. exact H. }
    rewrite Hlen. change (Z.of_nat 3 - 2 =? 1) with true. cbn iota.
    unfold bind at 1. unfold bind at 1. unfold index.
    unfold first_calc in Hfirst. rewrite head_lookup in Hfirst. rewrite Hfirst.
    unfold ret at 1.
    unfold bind at 1. unfold od_getitem at 1.
    rewrite (Hget "N") by (apply in_or_app; right; now left). unfold ret at 1.
    unfold bind at 1. unfold od_getitem at 1.
    assert (Hnone : od_get (table_columns
                      (plot_rows_from sa lp rg mv calcs mpn 0 pol_list smiles_list)) first
                    = None).
    { apply od_get_None. rewrite Hkeys. fold keys. rewrite Hk.
      intros [H | [H | [H | []]]]; congruence. }
    rewrite Hnone. reflexivity.
Qed.

End PlotTheorems.

(* ===================================================================== *)
(** ** The export *)
(* ===================================================================== *)

Lemma with_file_twice x name c c' :
  with_file (with_file x name c) name c' = with_file x name c'.
Proof. unfold with_file. cbn. now rewrite insert_insert_eq. Qed.

Lemma dict_to_list_fits {S} fieldnames rowdict (s : S) :
  fits fieldnames rowdict ->
  dict_to_list fieldnames rowdict s = (Ok (csv_row fieldnames rowdict), s).
Proof.
  intros H. unfold dict_to_list.
  replace (forallb _ (od_keys rowdict)) with true; [reflexivity|].
  symmetry. apply forallb_forall. intros k Hk. apply bool_decide_eq_true.
  apply list_elem_of_In. now apply H.
Qed.

Lemma dict_to_list_misfit {S} fieldnames rowdict (s : S) :
  ~ fits fieldnames rowdict ->
  dict_to_list fieldnames rowdict s
  = (Raise (Exn ValueError "dict contains fields not in fieldnames"), s).
Proof.
  intros H. unfold dict_to_list.
  destruct (forallb _ (od_keys rowdict)) eqn:E; [|reflexivity].
  exfalso. apply H. intros k Hk. rewrite forallb_forall in E.
  specialize (E k Hk). apply bool_decide_eq_true in E. now apply list_elem_of_In.
Qed.

Section ExportClaims.

Context `{Toolkit : RDKit} `{Tables : SmilesTables}
        `{Calc : Descriptors} `{Readers : MolReaders}.

Lemma export_rows exptName cols : forall dicts rows0 x,
  Forall (fits cols) dicts ->
  foldM (fun rows rowdict =>
           row <- dict_to_list cols rowdict ;;
           let rows := rows ++ [row] in
           write_file exptName (CsvFile cols rows) ;;;
           ret rows)
        rows0 dicts (with_file x exptName (CsvFile cols rows0))
  = (Ok (rows0 ++ map (csv_row cols) dicts),
     with_file x exptName (CsvFile cols (rows0 ++ map (csv_row cols) dicts))).
Proof.
  induction dicts as [|d ds IH]; intros rows0 x Hf.
  - cbn. now rewrite app_nil_r.
  - inversion Hf as [|? ? Hd Hds]; subst. cbn [foldM map].
    unfold bind at 1. unfold bind at 1. rewrite dict_to_list_fits by exact Hd.
    cbn zeta. unfold bind at 1. unfold write_file at 1, modify at 1.
    unfold ret at 1.
    change {| run_world := run_world (with_file x exptName (CsvFile cols rows0));
              files := <[exptName := CsvFile cols (rows0 ++ [csv_row cols d])]>
                         (files (with_file x exptName (CsvFile cols rows0)));
              plt_calls := plt_calls (with_file x exptName (CsvFile cols rows0)) |}
      with (with_file (with_file x exptName (CsvFile cols rows0)) exptName
              (CsvFile cols (rows0 ++ [csv_row cols d]))).
    rewrite with_file_twice, IH by exact Hds.
    now rewrite <- app_assoc.
Qed.

(** The export that returns. *)
Lemma exportToCSV_returns (exptName : string) (data : odict) (dicts_list : list odict)
    (x : session) :
  Forall (fits (od_keys data)) dicts_list ->
  exportToCSV exptName data dicts_list x
  = (Ok tt, with_file x exptName
              (CsvFile (od_keys data) (map (csv_row (od_keys data)) dicts_list))).
Proof.
  intros Hf. unfold exportToCSV. unfold bind at 1.
  change (write_file exptName (CsvFile (od_keys data) []) x)
    with (Ok tt, with_file x exptName (CsvFile (od_keys data) [])).
  cbn iota beta. unfold bind at 1. rewrite export_rows by exact Hf. reflexivity.
Qed.

(** [exportToCSV] writes, under the name it is given, a table whose
    field names are the keys of [data] in their order, with one row for
    each [dict] of the list, in order, and a value for every field.  It
    replaces what the file held, and returns whenever every row has no
    key but field names.  A row with another key raises [ValueError];
    the file then holds the header and the rows before that one. *)
Theorem exportToCSV_table (exptName : string) (data : odict) (dicts_list : list odict)
    (x : session) :
  let cols := od_keys data in
  (Forall (fits cols) dicts_list ->
   exportToCSV exptName data dicts_list x
   = (Ok tt, with_file x exptName (CsvFile cols (map (csv_row cols) dicts_list))))
  /\ (forall good bad rest,
        dicts_list = good ++ bad :: rest ->
        Forall (fits cols) good -> ~ fits cols bad ->
        exportToCSV exptName data dicts_list x
        = (Raise (Exn ValueError "dict contains fields not in fieldnames"),
           with_file x exptName (CsvFile cols (map (csv_row cols) good)))).
Proof.
  intros cols. split.
  - exact (exportToCSV_returns exptName data dicts_list x).
  - intros good bad rest -> Hg Hb. unfold exportToCSV. fold cols. unfold bind at 1.
    change (write_file exptName (CsvFile cols []) x)
      with (Ok tt, with_file x exptName (CsvFile cols [])).
    cbn iota beta. unfold bind at 1. rewrite foldM_app, export_rows by exact Hg.
    cbn [foldM app]. unfold bind at 1. unfold bind at 1.
    rewrite dict_to_list_misfit by exact Hb. reflexivity.
Qed.

End ExportClaims.

(* ===================================================================== *)
(** ** The passes of [main] *)
(* ===================================================================== *)

Lemma append_inj_l (a b c : string) : a +:+ b = a +:+ c -> b = c.
Proof.
  induction a as [|ch r IH]; [auto|]. rewrite !append_cons. intros E.
  injection E. exact IH.
Qed.

Lemma length_append (a b : string) :
  String.length (a +:+ b) = (String.length a + String.length b)%nat.
Proof. induction a as [|ch r IH]; [reflexivity|]. rewrite append_cons. simpl. now rewrite IH. Qed.

Lemma append_inj_r (a b c : string) : a +:+ c = b +:+ c -> a = b.
Proof.
  revert b. induction a as [|ch r IH]; intros [|ch' r'] E.
  - reflexivity.
  - exfalso. assert (H := f_equal String.length E).
    rewrite append_nil_l, append_cons in H. simpl in H. rewrite length_append in H. lia.
  - exfalso. assert (H := f_equal String.length E).
    rewrite append_nil_l, append_cons in H. simpl in H. rewrite length_append in H. lia.
  - rewrite !append_cons in E. injection E as -> E. f_equal. now apply IH.
Qed.

Lemma family_file_name_inj base ext i j :
  family_file_name base ext i = family_file_name base ext j -> i = j.
Proof.
  unfold family_file_name. intros E. apply append_inj_l in E.
  rewrite !append_cons, !append_nil_l in E. injection E as E.
  apply append_inj_r, of_int_inj in E. lia.
Qed.

Lemma family_file_name_ext base ext i :
  PyStr.count "." base = O -> PyStr.count "." ext = O ->
  PyText.split "." (family_file_name base ext i) !! 1%nat = Some ext.
Proof.
  intros Hb He. unfold family_file_name.
  replace (base +:+ "_" +:+ PyText.of_int (Z.of_nat i + 1) +:+ "." +:+ ext)
    with ((base +:+ "_" +:+ PyText.of_int (Z.of_nat i + 1)) +:+ String "." (ext +:+ "")).
  - apply split_second; [|exact He|now left].
    rewrite !count_app, Hb, of_int_no_dot. reflexivity.
  - rewrite append_empty_r, !append_assoc. reflexivity.
Qed.

Lemma family_file_name_other base ext rest i :
  base +:+ String "." (ext +:+ rest) <> family_file_name base ext i.
Proof.
  unfold family_file_name. intros E. apply append_inj_l in E.
  rewrite append_cons in E. discriminate E.
Qed.

Lemma csv_row_self (d : odict) : List.NoDup (od_keys d) -> csv_row (od_keys d) d = map snd d.
Proof.
  induction d as [|[k v] d IH]; intros Hn; [reflexivity|].
  cbn [od_keys map fst] in Hn. inversion Hn as [|? ? Hk Hd]; subst.
  unfold csv_row. cbn [od_keys map fst snd od_get]. rewrite String.eqb_refl. f_equal.
  rewrite <- (IH Hd). unfold csv_row. apply map_ext_in. intros key Hkey.
  destruct (String.eqb k key) eqn:E; [|reflexivity].
  apply String.eqb_eq in E. subst key. contradiction.
Qed.

Lemma fits_same cols d : od_keys d = cols -> fits cols d.
Proof. intros <- k Hk. exact Hk. Qed.

Section MainClaims.

Context `{Toolkit : RDKit} `{Tables : SmilesTables}
        `{Calc : Descriptors} `{Readers : MolReaders}.

(** The loop of lines 503 to 505 from position [k] on. *)
Lemma save_family_loop base ext fmt :
  PyStr.count "." base = O -> PyStr.count "." ext = O -> format_named ext = Some fmt ->
  forall pols k x, exists r x',
    mapM (fun im : nat * mol =>
            write_or_read_pol (family_file_name base ext (fst im)) false (Some (snd im)))
         (imap (fun i m => ((k + i)%nat, m)) pols) x = (Ok r, x')
    /\ run_world x' = run_world x /\ plt_calls x' = plt_calls x
    /\ (forall i m, pols !! i = Some m ->
          files x' !! family_file_name base ext (k + i) = Some (MolFile fmt m))
    /\ (forall name,
          (forall i, (i < length pols)%nat -> name <> family_file_name base ext (k + i)) ->
          files x' !! name = files x !! name).
Proof.
  intros Hb He Hf. induction pols as [|m pols IH]; intros k x.
  - exists [], x. repeat split; try reflexivity. intros i m H. discriminate H.
  - destruct (IH (S k) (with_file x (family_file_name base ext k) (MolFile fmt m)))
      as (r & x' & E & Hw & Hp & Hin & Hout).
    exists (None :: r), x'. split; [|split; [exact Hw|split; [exact Hp|split]]].
    + rewrite imap_cons. cbn [mapM]. unfold bind at 1. cbn [fst snd].
      rewrite Nat.add_0_r, write_or_read_pol_write, family_file_name_ext, Hf by assumption.
      unfold bind at 1.
      rewrite (imap_ext _ (fun i m => ((S k + i)%nat, m)))
        by (intros i y _; cbn; f_equal; lia).
      rewrite E. reflexivity.
    + intros [|i] m' Hi.
      * cbn in Hi. injection Hi as <-. rewrite Nat.add_0_r.
        rewrite Hout.
        -- cbn. apply lookup_insert_eq.
        -- intros i _ Hname. apply family_file_name_inj in Hname. lia.
      * cbn in Hi. replace (k + S i)%nat with (S k + i)%nat by lia. now apply Hin.
    + intros name Hname. rewrite Hout.
      * cbn. apply lookup_insert_ne. intros Heq. apply (Hname O); [cbn; lia|].
        now rewrite Nat.add_0_r.
      * intros i Hi. replace (S k + i)%nat with (k + S i)%nat by lia.
        apply Hname. cbn. lia.
Qed.

(** Saving a family, lines 501 to 507: for a file name [base.ext] (with
    or without more after [ext]) the structures are written to
    [base_1.ext], [base_2.ext], ... in the format of [ext], one file
    for each structure and no two under one name; no other file changes,
    and the name that was given is itself not written.  With an
    extension that is none of the three formats the run ends at the
    first structure with nothing written. *)
Theorem main_save_family (v : run_args) (e : main_env) (x : session)
    (base ext rest : string) (pols : list mol) :
  arg_plot (polymer_args v) = true ->
  arg_file v = Some (base +:+ String "." (ext +:+ rest)) ->
  PyStr.count "." base = O -> PyStr.count "." ext = O -> dot_or_end rest ->
  POL_LIST_ e = Some pols ->
  match format_named ext with
  | Some fmt =>
      exists x',
        main_save v e x = (Ok tt, x')
        /\ run_world x' = run_world x /\ plt_calls x' = plt_calls x
        /\ (forall i m, pols !! i = Some m ->
              files x' !! family_file_name base ext i = Some (MolFile fmt m))
        /\ (forall name,
              (forall i, (i < length pols)%nat -> name <> family_file_name base ext i) ->
              files x' !! name = files x !! name)
        /\ files x' !! (base +:+ String "." (ext +:+ rest))
           = files x !! (base +:+ String "." (ext +:+ rest))
        /\ (forall i j, family_file_name base ext i = family_file_name base ext j -> i = j)
  | None =>
      main_save v e x
      = match pols with
        | [] => (Ok tt, x)
        | _ :: _ => (Raise (Exn SystemExit "quit"), x)
        end
  end.
Proof.
  intros Hplot Hfile Hb He Hrest Hpols.
  assert (H0 : PyText.split "." (base +:+ String "." (ext +:+ rest)) !! 0%nat = Some base).
  { apply (split_first_piece base (String "." (ext +:+ rest)) Hb). right. now eexists. }
  assert (H1 := split_second base ext rest Hb He Hrest).
  destruct (format_named ext) as [fmt|] eqn:Hf.
  - destruct (save_family_loop base ext fmt Hb He Hf pols O x)
      as (r & x' & E & Hw & Hp & Hin & Hout).
    exists x'. split; [|split; [exact Hw|split; [exact Hp|split; [exact Hin|split; [exact Hout|split]]]]].
    + unfold main_save. rewrite Hfile, Hplot. unfold bind at 1. unfold index at 1.
      rewrite H0. unfold ret at 1. unfold bind at 1. unfold index at 1. rewrite H1.
      unfold ret at 1. rewrite Hpols. unfold bind at 1. unfold read_name at 1, ret at 1.
      unfold bind at 1. unfold enumerate. cbn in E. rewrite E. reflexivity.
    + apply Hout. intros i _. apply family_file_name_other.
    + intros i j. apply family_file_name_inj.
  - unfold main_save. rewrite Hfile, Hplot. unfold bind at 1. unfold index at 1.
    rewrite H0. unfold ret at 1. unfold bind at 1. unfold index at 1. rewrite H1.
    unfold ret at 1. rewrite Hpols. unfold bind at 1. unfold read_name at 1, ret at 1.
    destruct pols as [|m pols]; [reflexivity|].
    unfold bind at 1. unfold enumerate. rewrite imap_cons. cbn [mapM fst snd].
    unfold bind at 1. rewrite write_or_read_pol_write, family_file_name_ext, Hf by assumption.
    reflexivity.
Qed.

End MainClaims.

Section MainRuns.

Context `{Toolkit : RDKit} `{Tables : SmilesTables}
        `{Calc : Descriptors} `{Readers : MolReaders}.

(** The picture of a run, lines 510 to 514: it is written under the
    text of the draw name before its first dot followed by [.png],
    whatever follows that dot.  For a family it is the grid of the
    structures before optimisation, each with the legend [n = ] and its
    length; for one polymer it is the structure read from its notation. *)
Theorem main_draw_name (v : run_args) (e : main_env) (x : session)
    (base rest : string) (mpn : Z) :
  arg_draw v = Some (base +:+ rest) ->
  PyStr.count "." base = O -> dot_or_end rest ->
  M_PER_N_ e = Some mpn ->
  (arg_plot (polymer_args v) = true ->
   forall pols, UNOPT_POL_LIST_ e = Some pols ->
     main_draw v e x
     = (Ok {| POL_LIST_ := POL_LIST_ e; SMI_LIST_ := SMI_LIST_ e;
              UNOPT_POL_LIST_ := UNOPT_POL_LIST_ e; M_PER_N_ := M_PER_N_ e;
              pol_h_ := pol_h_ e; polSMILES_ := polSMILES_ e;
              pol_ := Some (PolMany pols) |},
        with_file x (base +:+ ".png")
          (GridImage pols
             (imap (fun i _ => "n = " +:+ PyText.of_int (legend_n i mpn)) pols))))
  /\ (arg_plot (polymer_args v) = false ->
      forall m, pol_ e = Some (PolOne (Some m)) ->
        main_draw v e x = (Ok e, with_file x (base +:+ ".png") (MolImage m))).
Proof.
  intros Hdraw Hb Hrest Hm.
  assert (H0 := split_first_piece base rest Hb Hrest).
  split.
  - intros Hplot pols Hpols. unfold main_draw. rewrite Hplot, Hpols, Hdraw.
    unfold bind at 1. unfold bind at 1. unfold read_name at 1, ret at 1. unfold ret at 1.
    unfold bind at 1. unfold index at 1. rewrite H0. unfold ret at 1.
    cbn [pol_ M_PER_N_]. rewrite Hm. reflexivity.
  - intros Hplot m Hpol. unfold main_draw. rewrite Hplot, Hdraw.
    unfold bind at 1. unfold ret at 1.
    unfold bind at 1. unfold index at 1. rewrite H0. unfold ret at 1.
    rewrite Hpol, Hm. reflexivity.
Qed.

(** Reading a structure from a file leaves the session as it is. *)
Lemma write_or_read_pol_read_state name m x o x' :
  write_or_read_pol name true m x = (o, x') -> x' = x.
Proof.
  rewrite write_or_read_pol_read.
  destruct (PyText.split "." name !! 1%nat) as [ext|]; [|now intros [= _ <-]].
  destruct (files x !! name) as [content|]; [|now intros [= _ <-]].
  destruct (if String.eqb ext "pdb" then _ else _) as [[pol_h|]|]; now intros [= _ <-].
Qed.

(** What [main_subject] binds for a run that reads its structure. *)
Lemma main_subject_read v e x name e1 x1 :
  arg_read v = Some name -> arg_plot (polymer_args v) = false ->
  main_subject v e x = (Ok e1, x1) ->
  x1 = x /\ M_PER_N_ e1 = M_PER_N_ e /\ pol_h_ e1 <> None /\ polSMILES_ e1 <> None
  /\ pol_ e1 <> None.
Proof.
  intros Hread Hplot. unfold main_subject. rewrite Hread, Hplot. intros E.
  apply bind_inv_ok in E. destruct E as (r & x0 & Er & E).
  apply write_or_read_pol_read_state in Er. subst x0.
  destruct r as [[[pol_h smi] pol]|]; [|discriminate E].
  unfold ret in E. injection E as <- <-. cbn. repeat split; discriminate.
Qed.

(** The first piece of a name is always there. *)
Lemma split_head sep s : exists b, PyText.split sep s !! 0%nat = Some b.
Proof.
  destruct (PyText.split sep s) as [|b t] eqn:E; [now destruct (split_not_nil sep s)|].
  now exists b.
Qed.

Lemma main_draw_unbound v e x e' x' :
  M_PER_N_ e = None -> arg_plot (polymer_args v) = false ->
  main_draw v e x = (Ok e', x') ->
  arg_draw v = None /\ arg_verbose v = false /\ e' = e /\ x' = x.
Proof.
  intros Hm Hplot. unfold main_draw. rewrite Hplot. unfold bind at 1. unfold ret at 1.
  destruct (arg_draw v) as [draw|].
  - destruct (split_head "." draw) as (b & Hb).
    unfold bind at 1. unfold index at 1. rewrite Hb. unfold ret at 1.
    rewrite Hm. destruct (pol_ e); discriminate.
  - destruct (arg_verbose v).
    + rewrite Hm. discriminate.
    + unfold ret. intros [= <- <-]. repeat split.
Qed.

Lemma main_calculate_unbound v e x x' :
  M_PER_N_ e = None -> arg_plot (polymer_args v) = false ->
  main_calculate v e x = (Ok tt, x') -> arg_calculation v = None.
Proof.
  intros Hm Hplot. unfold main_calculate. rewrite Hplot.
  destruct (arg_calculation v) as [calculation|]; [|reflexivity].
  cbn [negb]. intros E. exfalso.
  apply bind_inv_ok in E. destruct E as (dd & x0 & E & _).
  apply bind_inv_ok in E. destruct E as (pol_h & x1 & _ & E).
  apply bind_inv_ok in E. destruct E as (r & x2 & _ & E).
  cbn zeta in E. rewrite Hm in E. discriminate E.
Qed.

(** A run that reads its structure from a file, lines 492 to 495.  With
    [plot] it raises [TypeError] before anything is read.  Without, the
    run binds no [M_PER_N]: when no earlier run of the list has made a
    polymer, it can only return if neither a picture nor verbosity nor a
    calculation is asked for.  Such a run, which converts the file into
    another, returns when the file is read and the other written. *)
Theorem main_run_from_file (v : run_args) (e : main_env) (x : session) (name : string) :
  arg_read v = Some name ->
  (arg_plot (polymer_args v) = true ->
   main_run e v x = (Raise (Exn TypeError "You may not plot data read from a file."), x))
  /\ (arg_plot (polymer_args v) = false -> M_PER_N_ e = None ->
      forall e' x', main_run e v x = (Ok e', x') ->
        arg_draw v = None /\ arg_verbose v = false /\ arg_calculation v = None
        /\ M_PER_N_ e' = None)
  /\ (arg_plot (polymer_args v) = false ->
      arg_draw v = None -> arg_verbose v = false -> arg_calculation v = None ->
      forall out pol_h polSMILES pol x',
        arg_file v = Some out ->
        write_or_read_pol name true None x = (Ok (Some (pol_h, polSMILES, pol)), x) ->
        write_or_read_pol out false (Some pol_h) x = (Ok None, x') ->
        main_run e v x
        = (Ok {| POL_LIST_ := POL_LIST_ e; SMI_LIST_ := SMI_LIST_ e;
                 UNOPT_POL_LIST_ := UNOPT_POL_LIST_ e; M_PER_N_ := M_PER_N_ e;
                 pol_h_ := Some pol_h; polSMILES_ := Some polSMILES;
                 pol_ := Some (PolOne pol) |}, x')).
Proof.
  intros Hread. split; [|split].
  - intros Hplot. unfold main_run, main_subject. rewrite Hread, Hplot. reflexivity.
  - intros Hplot Hm e' x' E. unfold main_run in E.
    apply bind_inv_ok in E. destruct E as (e1 & x1 & E1 & E).
    destruct (main_subject_read _ _ _ _ _ _ Hread Hplot E1) as (-> & Hm1 & _).
    rewrite Hm in Hm1.
    apply bind_inv_ok in E. destruct E as ([] & x2 & _ & E).
    apply bind_inv_ok in E. destruct E as (e2 & x3 & E3 & E).
    destruct (main_draw_unbound _ _ _ _ _ Hm1 Hplot E3) as (Hd & Hv & -> & ->).
    apply bind_inv_ok in E. destruct E as ([] & x4 & E4 & E).
    unfold ret in E. injection E as <- <-.
    repeat split; try assumption.
    exact (main_calculate_unbound _ _ _ _ Hm1 Hplot E4).
  - intros Hplot Hd Hv Hc out pol_h polSMILES pol x' Hfile Er Ew.
    unfold main_run. unfold bind at 1. unfold main_subject. rewrite Hread, Hplot.
    unfold bind at 1. rewrite Er. unfold ret at 1.
    unfold bind at 1. unfold main_save. rewrite Hfile, Hplot. cbn [pol_h_].
    unfold bind at 1. unfold read_name at 1, ret at 1. unfold bind at 1. rewrite Ew.
    unfold ret at 1.
    unfold bind at 1. unfold main_draw. rewrite Hplot, Hd, Hv.
    unfold bind at 1. unfold ret at 1. unfold ret at 1.
    unfold bind at 1. unfold main_calculate. rewrite Hc. reflexivity.
Qed.

(** The calculations of one polymer on the names as they are bound. *)
Lemma main_calculate_table (sa lp rg mv : mol -> float)
    (v : run_args) (e : main_env) (x : session)
    (calculation : list string) (pol_h : mol) (mpn : Z) (polSMILES : string) :
  let calcs : gset string := list_to_set calculation in
  let data := calc_table (sa pol_h) (lp pol_h) (rg pol_h) (mv pol_h) calcs
              ++ [("N", JInt (arg_n (polymer_args v) * mpn)); ("smi", JStr polSMILES)] in
  arg_plot (polymer_args v) = false ->
  arg_calculation v = Some calculation ->
  pol_h_ e = Some pol_h -> M_PER_N_ e = Some mpn -> polSMILES_ e = Some polSMILES ->
  described sa lp rg mv calcs pol_h ->
  main_calculate v e x
  = (Ok tt, match arg_export v with
            | Some export =>
                with_file x export (CsvFile (calc_keys calcs ++ ["N"; "smi"]) [map snd data])
            | None => x
            end).
Proof.
  intros calcs data Hplot Hc Hp Hm Hs Hd.
  assert (Hkeys : od_keys data = calc_keys calcs ++ ["N"; "smi"]).
  { unfold data. now rewrite od_keys_app, calc_table_keys. }
  assert (Hset : od_set "smi" (JStr polSMILES)
                   (od_set "N" (JInt (arg_n (polymer_args v) * mpn))
                      (calc_table (sa pol_h) (lp pol_h) (rg pol_h) (mv pol_h) calcs))
                 = data).
  { rewrite (od_set_fresh "N").
    - rewrite (od_set_fresh "smi").
      + unfold data. now rewrite <- app_assoc.
      + rewrite od_keys_app, calc_table_keys. intros H. apply in_app_or in H.
        destruct H as [H | [H | []]]; [|discriminate H].
        now destruct (calc_keys_plain _ _ H).
    - rewrite calc_table_keys. intros H. now destruct (calc_keys_plain _ _ H). }
  unfold main_calculate. rewrite Hc, Hplot. cbn [negb].
  unfold bind at 1. unfold bind at 1. rewrite Hp. unfold read_name at 1, ret at 1.
  unfold bind at 1. fold calcs. rewrite (doCalcs_returns sa lp rg mv calcs pol_h x Hd).
  cbn zeta. cbn [fst]. rewrite Hm. unfold bind at 1. unfold read_name at 1, ret at 1.
  rewrite Hs. unfold bind at 1. unfold read_name at 1, ret at 1. unfold ret at 1.
  rewrite Hset.
  destruct (arg_export v) as [export|]; [|reflexivity].
  rewrite exportToCSV_returns.
  - rewrite Hkeys. cbn [map]. rewrite <- Hkeys, csv_row_self; [reflexivity|].
    rewrite Hkeys. apply calc_keys_NoDup.
  - constructor; [|constructor]. now apply fits_same.
Qed.

(** What a pass that makes one polymer binds. *)
Lemma main_subject_made v e0 x0 e x1 :
  arg_read v = None -> arg_plot (polymer_args v) = false ->
  main_subject v e0 x0 = (Ok e, x1) ->
  exists pol_h polSMILES mpn,
    pol_h_ e = Some pol_h /\ polSMILES_ e = Some polSMILES /\ M_PER_N_ e = Some mpn.
Proof.
  intros Hread Hplot E. unfold main_subject in E. rewrite Hread in E.
  apply bind_inv_ok in E. destruct E as (made & x2 & _ & E).
  rewrite Hplot in E. destruct made as [pols smis unopt mpn | pol_h smi pol mpn];
    [discriminate E|].
  unfold ret in E. injection E as <- _. exists pol_h, smi, mpn. repeat split.
Qed.

(** The calculations of one polymer, lines 527 to 531 and 536 to 541, in
    a pass that has made its polymer (no [read], no [plot]): the
    structure, its notation and [M_PER_N] are bound by that pass, and
    when the descriptors return, [data] is the table of the names asked
    for, then [N], which is the [n] of the run times [M_PER_N], and the
    notation.  The export writes these keys as the header and their
    values as the single row, and never refuses the row.  The [n] of
    such a pass is an [int]: a run without [-n] has raised [TypeError]
    at line 220, where the polymer is made. *)
Theorem main_calculate_one (sa lp rg mv : mol -> float)
    (v : run_args) (e0 e : main_env) (x0 x1 x : session) (calculation : list string) :
  let calcs : gset string := list_to_set calculation in
  arg_read v = None ->
  arg_plot (polymer_args v) = false ->
  arg_calculation v = Some calculation ->
  main_subject v e0 x0 = (Ok e, x1) ->
  exists pol_h polSMILES mpn,
    pol_h_ e = Some pol_h /\ polSMILES_ e = Some polSMILES /\ M_PER_N_ e = Some mpn
    /\ (described sa lp rg mv calcs pol_h ->
        let data := calc_table (sa pol_h) (lp pol_h) (rg pol_h) (mv pol_h) calcs
                    ++ [("N", JInt (arg_n (polymer_args v) * mpn));
                        ("smi", JStr polSMILES)] in
        main_calculate v e x
        = (Ok tt, match arg_export v with
                  | Some export =>
                      with_file x export
                        (CsvFile (calc_keys calcs ++ ["N"; "smi"]) [map snd data])
                  | None => x
                  end)).
Proof.
  intros calcs Hread Hplot Hc E.
  destruct (main_subject_made _ _ _ _ _ Hread Hplot E) as (pol_h & smi & mpn & Hp & Hs & Hm).
  exists pol_h, smi, mpn. split; [exact Hp|]. split; [exact Hs|]. split; [exact Hm|].
  intros Hd.
  exact (main_calculate_table sa lp rg mv v e x calculation pol_h mpn smi
           Hplot Hc Hp Hm Hs Hd).
Qed.

(** The calculations of a family and their export, lines 534 and 536 to
    541: after [makePlot] has returned, the export writes the keys of
    the table, [N] and [smi] as the header and one row for each
    structure, with the values of its row in that order; no row is ever
    refused. *)
Theorem main_calculate_family (sa lp rg mv : mol -> float)
    (v : run_args) (e : main_env) (x : session)
    (calculation : list string) (pols : list mol) (smis : list string) (mpn : Z)
    (export : string) :
  let calcs : gset string := list_to_set calculation in
  let keys := calc_keys calcs in
  let rows := plot_rows_from sa lp rg mv calcs mpn 0 pols smis in
  arg_plot (polymer_args v) = true ->
  arg_calculation v = Some calculation -> arg_export v = Some export ->
  POL_LIST_ e = Some pols -> SMI_LIST_ e = Some smis -> M_PER_N_ e = Some mpn ->
  pols <> [] -> (length pols <= length smis)%nat ->
  (forall pol, In pol pols -> described sa lp rg mv calcs pol) ->
  (2 <= length keys)%nat \/ (exists k, keys = [k] /\ first_calc calculation = Some k) ->
  main_calculate v e x
  = (Ok tt,
     with_file
       {| run_world := run_world x;
          files := <[figname := FigureFile]> (files x);
          plt_calls := plt_calls x ++ plot_calls rows keys
                       ++ PltSavefig figname :: (if arg_verbose v then [PltShow] else []) |}
       export (CsvFile (keys ++ ["N"; "smi"]) (map (map snd) rows)))
  /\ length rows = length pols.
Proof.
  intros calcs keys rows Hplot Hc He Hp Hs Hm Hne Hl Hd Hk.
  split; [|now apply plot_rows_length].
  destruct (makePlot_columns sa lp rg mv calcs mpn pols smis x Hne Hl)
    as (_ & Hkeys & _).
  fold rows in Hkeys. fold keys in Hkeys.
  unfold main_calculate. rewrite Hc, Hplot, He. cbn [negb].
  unfold bind at 1. unfold bind at 1. rewrite Hp. unfold read_name at 1, ret at 1.
  unfold bind at 1. rewrite Hs. unfold read_name at 1, ret at 1.
  unfold bind at 1. rewrite Hm. unfold read_name at 1, ret at 1.
  rewrite (makePlot_returns sa lp rg mv pols calculation smis (arg_verbose v) mpn x
             Hne Hl Hd Hk).
  fold calcs. fold keys. fold rows.
  rewrite exportToCSV_returns.
  - rewrite Hkeys. do 3 f_equal. apply map_ext_in. intros d Hin.
    assert (Hdk : od_keys d = keys ++ ["N"; "smi"])
      by exact (plot_rows_keys _ _ _ _ _ _ _ _ _ _ Hin).
    rewrite <- Hdk. apply csv_row_self. rewrite Hdk. apply calc_keys_NoDup.
  - rewrite Hkeys. apply List.Forall_forall. intros d Hin. apply fits_same.
    exact (plot_rows_keys _ _ _ _ _ _ _ _ _ _ Hin).
Qed.

End MainRuns.

(* ===================================================================== *)
(** ** The theorems on sample runs *)
(* ===================================================================== *)

Lemma sample_described calcs pol :
  pol = SampleRuns.methane \/ pol = SampleRuns.ethane ->
  @described SampleSession.descriptors
    SampleRuns.sa SampleRuns.lp SampleRuns.rg SampleRuns.mv calcs pol.
Proof.
  intros Hp. repeat split; intros _; try reflexivity.
  destruct Hp as [-> | ->]; vm_compute; reflexivity.
Qed.

Lemma makePlot_table_witness :
  od_keys (table_columns
             (plot_rows_from SampleRuns.sa SampleRuns.lp SampleRuns.rg SampleRuns.mv
                (list_to_set ["RG"; "MV"]) 1 0
                [SampleRuns.methane; SampleRuns.ethane] ["C"; "CC"]))
  = ["RG"; "MV"; "N"; "smi"].
Proof.
  destruct (makePlot_table (Calc := SampleSession.descriptors)
              SampleRuns.sa SampleRuns.lp SampleRuns.rg SampleRuns.mv
              [SampleRuns.methane; SampleRuns.ethane] ["RG"; "MV"] ["C"; "CC"] false 1
              (SampleSession.start ∅ [])
              ltac:(discriminate)
              ltac:(simpl; lia)
              ltac:(intros pol [<- | [<- | []]]; apply sample_described; auto)
              ltac:(left; vm_compute; lia)) as (_ & H & _).
  rewrite H. vm_compute. reflexivity.
Defined.

Lemma makePlot_refuses_witness :
  makePlot (Calc := SampleSession.descriptors)
    [SampleRuns.methane] ["SA"; "XMHP"] ["C"] false 1 (SampleSession.start ∅ [])
  = (Raise (Exn KeyError "SA"), SampleSession.start ∅ []).
Proof.
  destruct (makePlot_refuses (Calc := SampleSession.descriptors)
              SampleRuns.sa SampleRuns.lp SampleRuns.rg SampleRuns.mv
              [SampleRuns.methane] ["SA"; "XMHP"] ["C"] false 1
              (SampleSession.start ∅ [])
              ltac:(simpl; lia)
              ltac:(intros pol [<- | []]; apply sample_described; auto)) as (_ & _ & H).
  apply (H "MHP" "SA"); try discriminate; vm_compute; reflexivity.
Defined.

Lemma exportToCSV_table_witness :
  exportToCSV "table.csv" [("N", JInt 1)] [[("N", JInt 1)]; [("M", JInt 2)]]
    (SampleSession.start ∅ [])
  = (Raise (Exn ValueError "dict contains fields not in fieldnames"),
     with_file (SampleSession.start ∅ []) "table.csv" (CsvFile ["N"] [[JInt 1]])).
Proof.
  destruct (exportToCSV_table "table.csv" [("N", JInt 1)]
              [[("N", JInt 1)]; [("M", JInt 2)]] (SampleSession.start ∅ [])) as [_ H].
  apply (H [[("N", JInt 1)]] [("M", JInt 2)] []).
  - reflexivity.
  - constructor; [|constructor]. intros k Hk. exact Hk.
  - intros Hf. destruct (Hf "M" (or_introl eq_refl)) as [E | []]. discriminate E.
Defined.

Lemma main_save_family_witness :
  exists x',
    main_save (Toolkit := Sample.toolkit) (Readers := SampleSession.readers)
      {| polymer_args := SampleRuns.polymer true; arg_read := None;
         arg_file := Some "out.pdb.bak"; arg_draw := None; arg_verbose := false;
         arg_calculation := None; arg_export := None |}
      SampleRuns.family_made (SampleSession.start ∅ []) = (Ok tt, x')
    /\ files x' !! "out_2.pdb" = Some (MolFile PDB SampleRuns.ethane)
    /\ files x' !! "out.pdb.bak" = None.
Proof.
  assert (H := main_save_family (Toolkit := Sample.toolkit)
                 (Readers := SampleSession.readers)
                 {| polymer_args := SampleRuns.polymer true; arg_read := None;
                    arg_file := Some "out.pdb.bak"; arg_draw := None;
                    arg_verbose := false; arg_calculation := None; arg_export := None |}
                 SampleRuns.family_made (SampleSession.start ∅ [])
                 "out" "pdb" ".bak" [SampleRuns.methane; SampleRuns.ethane]
                 eq_refl eq_refl eq_refl eq_refl
                 (or_intror (ex_intro _ "bak" eq_refl)) eq_refl).
  simpl (format_named _) in H.
  destruct H as (x' & E & _ & _ & Hin & _ & Hself & _).
  exists x'. split; [exact E|split].
  - exact (Hin 1%nat SampleRuns.ethane eq_refl).
  - exact Hself.
Defined.

Lemma main_draw_name_witness :
  main_draw
    {| polymer_args := SampleRuns.polymer false; arg_read := None; arg_file := None;
       arg_draw := Some "pic.v2.svg"; arg_verbose := false; arg_calculation := None;
       arg_export := None |}
    SampleRuns.one_made (SampleSession.start ∅ [])
  = (Ok SampleRuns.one_made,
     with_file (SampleSession.start ∅ []) "pic.png" (MolImage SampleRuns.ethane)).
Proof.
  destruct (main_draw_name
              {| polymer_args := SampleRuns.polymer false; arg_read := None;
                 arg_file := None; arg_draw := Some "pic.v2.svg"; arg_verbose := false;
                 arg_calculation := None; arg_export := None |}
              SampleRuns.one_made (SampleSession.start ∅ []) "pic" ".v2.svg" 1
              eq_refl eq_refl (or_intror (ex_intro _ "v2.svg" eq_refl)) eq_refl)
    as [_ H].
  exact (H eq_refl SampleRuns.ethane eq_refl).
Defined.

Lemma main_run_from_file_witness :
  exists e' x',
    main_run (Toolkit := Sample.toolkit) (Tables := Sample.tables)
      (Calc := SampleSession.descriptors) (Readers := SampleSession.readers)
      main_start
      {| polymer_args := SampleRuns.polymer false; arg_read := Some "in.pdb";
         arg_file := Some "out.mol"; arg_draw := None; arg_verbose := false;
         arg_calculation := None; arg_export := None |}
      (SampleSession.start {[ "in.pdb" := MolFile PDB SampleRuns.ethane ]} [])
    = (Ok e', x')
    /\ M_PER_N_ e' = None
    /\ files x' !! "out.mol" = Some (MolFile MOLFILE SampleRuns.ethane).
Proof.
  destruct (main_run_from_file (Toolkit := Sample.toolkit) (Tables := Sample.tables)
              (Calc := SampleSession.descriptors) (Readers := SampleSession.readers)
              {| polymer_args := SampleRuns.polymer false; arg_read := Some "in.pdb";
                 arg_file := Some "out.mol"; arg_draw := None; arg_verbose := false;
                 arg_calculation := None; arg_export := None |}
              main_start
              (SampleSession.start {[ "in.pdb" := MolFile PDB SampleRuns.ethane ]} [])
              "in.pdb" eq_refl) as (_ & Hnever & Hconv).
  eexists _, _. split; [|split].
  - apply (Hconv eq_refl eq_refl eq_refl eq_refl "out.mol" SampleRuns.ethane "CC"
             (Some SampleRuns.ethane)); [reflexivity | vm_compute; reflexivity
                                         | vm_compute; reflexivity].
  - reflexivity.
  - vm_compute. reflexivity.
Defined.

Lemma main_calculate_one_witness :
  exists e x1 x2 row,
    main_subject (Toolkit := Sample.toolkit) (Tables := Sample.tables)
      (Readers := SampleSession.readers) SampleRuns.one_run main_start
      (SampleSession.start ∅ []) = (Ok e, x1)
    /\ main_calculate (Calc := SampleSession.descriptors) SampleRuns.one_run e x1
       = (Ok tt, x2)
    /\ files x2 !! "one.csv" = Some (CsvFile ["RG"; "N"; "smi"] [row]).
Proof.
  destruct (main_subject (Toolkit := Sample.toolkit) (Tables := Sample.tables)
              (Readers := SampleSession.readers) SampleRuns.one_run main_start
              (SampleSession.start ∅ [])) as [[e|err] x1] eqn:E;
    [|vm_compute in E; discriminate E].
  destruct (main_calculate_one (Toolkit := Sample.toolkit) (Tables := Sample.tables)
              (Calc := SampleSession.descriptors) (Readers := SampleSession.readers)
              SampleRuns.sa SampleRuns.lp SampleRuns.rg SampleRuns.mv
              SampleRuns.one_run main_start e (SampleSession.start ∅ []) x1 x1 ["RG"]
              eq_refl eq_refl eq_refl E)
    as (pol_h & smi & mpn & _ & _ & _ & H).
  exists e, x1. eexists. eexists. split; [reflexivity|]. split.
  - apply H. repeat split; intros Hq; try reflexivity; vm_compute in Hq; discriminate Hq.
  - cbn. apply lookup_insert_eq.
Defined.

Lemma main_calculate_family_witness :
  exists x',
    main_calculate (Calc := SampleSession.descriptors)
      {| polymer_args := SampleRuns.polymer true; arg_read := None; arg_file := None;
         arg_draw := None; arg_verbose := false; arg_calculation := Some ["RG"; "MV"];
         arg_export := Some "family.csv" |}
      SampleRuns.family_made (SampleSession.start ∅ []) = (Ok tt, x')
    /\ files x' !! "family.csv"
       = Some (CsvFile ["RG"; "MV"; "N"; "smi"]
                 [[JFloat 0%float; JFloat 2%float; JInt 1; JStr "C"];
                  [JFloat 0%float; JFloat 4%float; JInt 2; JStr "CC"]]).
Proof.
  destruct (main_calculate_family (Calc := SampleSession.descriptors)
              SampleRuns.sa SampleRuns.lp SampleRuns.rg SampleRuns.mv
              {| polymer_args := SampleRuns.polymer true; arg_read := None;
                 arg_file := None; arg_draw := None; arg_verbose := false;
                 arg_calculation := Some ["RG"; "MV"]; arg_export := Some "family.csv" |}
              SampleRuns.family_made (SampleSession.start ∅ []) ["RG"; "MV"]
              [SampleRuns.methane; SampleRuns.ethane] ["C"; "CC"] 1 "family.csv"
              eq_refl eq_refl eq_refl eq_refl eq_refl eq_refl
              ltac:(discriminate) ltac:(simpl; lia)
              ltac:(intros pol [<- | [<- | []]]; apply sample_described; auto)
              ltac:(left; vm_compute; lia)) as [H _].
  eexists. split; [exact H|]. vm_compute. reflexivity.
Defined.

(* ===================================================================== *)
(** ** The names of [main] *)
(* ===================================================================== *)

Lemma ou_ret {S A} P (a : A) : only_unbound (S := S) P (ret a).
Proof. intros s name s' E. discriminate E. Qed.

Lemma ou_raise {S A} P k msg :
  k <> UnboundLocalError -> only_unbound (S := S) (A := A) P (raise (Exn k msg)).
Proof. intros Hk s name s' E. unfold raise in E. injection E as -> _ _. contradiction. Qed.

Lemma ou_bind {S A B} P (m : SE S A) (k : A -> SE S B) :
  only_unbound P m -> (forall a, only_unbound P (k a)) -> only_unbound P (bind m k).
Proof.
  intros Hm Hk s name s' E. apply bind_inv in E.
  destruct E as [(err & E & Herr) | (a & s1 & _ & E)].
  - injection Herr as <-. exact (Hm _ _ _ E).
  - exact (Hk a _ _ _ E).
Qed.

Lemma ou_bind_ok {S A B} P (m : SE S A) (k : A -> SE S B) :
  only_unbound P m -> (forall s a s1, m s = (Ok a, s1) -> only_unbound P (k a)) ->
  only_unbound P (bind m k).
Proof.
  intros Hm Hk s name s' E. apply bind_inv in E.
  destruct E as [(err & E & Herr) | (a & s1 & Ea & E)].
  - injection Herr as <-. exact (Hm _ _ _ E).
  - exact (Hk _ _ _ Ea _ _ _ E).
Qed.

Lemma ou_mapM {S A B} P (f : A -> SE S B) l :
  (forall a, only_unbound P (f a)) -> only_unbound P (mapM f l).
Proof.
  intros Hf. induction l as [|a l IH]; cbn [mapM]; [apply ou_ret|].
  apply ou_bind; [apply Hf|]. intros b. apply ou_bind; [exact IH|].
  intros bs. apply ou_ret.
Qed.

Lemma ou_foldM {S A B} P (f : B -> A -> SE S B) l :
  (forall b a, only_unbound P (f b a)) -> forall b, only_unbound P (foldM f b l).
Proof.
  intros Hf. induction l as [|a l IH]; intros b; cbn [foldM]; [apply ou_ret|].
  apply ou_bind; [apply Hf | exact IH].
Qed.

Lemma ou_index {S A} P (l : list A) k : only_unbound (S := S) P (index l k).
Proof. unfold index. destruct (l !! k); [apply ou_ret | apply ou_raise; discriminate]. Qed.

Lemma ou_getitem {S} P d k : only_unbound (S := S) P (od_getitem d k).
Proof.
  unfold od_getitem. destruct (od_get d k); [apply ou_ret | apply ou_raise; discriminate].
Qed.

Lemma ou_modify {S} P (f : S -> S) : only_unbound P (modify f).
Proof. intros s name s' E. discriminate E. Qed.

Lemma ou_gets {S A} P (f : S -> A) : only_unbound P (gets f).
Proof. intros s name s' E. discriminate E. Qed.

Lemma ou_read_name {S A} (P : string -> Prop) name (v : option A) :
  (v = None -> P name) -> only_unbound (S := S) P (read_name name v).
Proof.
  intros H. destruct v as [a|]; [apply ou_ret|].
  intros s n s' E. unfold read_name, raise in E. injection E as <- _. now apply H.
Qed.

Lemma ou_dict_to_list {S} P fieldnames rowdict :
  only_unbound (S := S) P (dict_to_list fieldnames rowdict).
Proof.
  unfold dict_to_list. destruct (forallb _ _); [apply ou_ret | apply ou_raise; discriminate].
Qed.

Section NameClaims.

Context `{Toolkit : RDKit} `{Tables : SmilesTables}
        `{Calc : Descriptors} `{Readers : MolReaders}.

Lemma ou_doCalcs {S} P pol_h calcs : only_unbound (S := S) P (doCalcs pol_h calcs).
Proof.
  intros s name s' E. rewrite doCalcs_steps in E. cbn zeta in E.
  repeat match type of E with
    | context [match (if ?b then ?x else _) with _ => _ end] =>
        destruct (if b then x else _)
    | context [if ?b then _ else _] => destruct b
    end; discriminate E.
Qed.

Lemma ou_write_or_read_pol P name read m : only_unbound P (write_or_read_pol name read m).
Proof.
  intros s n s' E. destruct read.
  - rewrite write_or_read_pol_read in E.
    repeat match type of E with
      | context [match ?x with _ => _ end] => destruct x
      end; discriminate E.
  - unfold write_or_read_pol in E. revert E. apply ou_bind; [apply ou_index|].
    intros ext. apply ou_bind.
    + repeat match goal with
        | |- only_unbound _ (if ?b then _ else _) => destruct b
        end; first [apply ou_ret | apply ou_raise; discriminate].
    + intros fmt. destruct m; [|apply ou_raise; discriminate].
      apply ou_bind; [apply ou_modify | intros; apply ou_ret].
Qed.

Lemma ou_drawPol P pol drawName mpn : only_unbound P (drawPol pol drawName mpn).
Proof.
  unfold drawPol. destruct pol as [[m|]|pols];
    first [apply ou_modify | apply ou_raise; discriminate].
Qed.

Lemma ou_makePlot P pol_list calculations smiles_list verbosity mpn :
  only_unbound P (makePlot pol_list calculations smiles_list verbosity mpn).
Proof.
  unfold makePlot. apply ou_bind.
  { apply ou_mapM. intros [i pol]. unfold plot_row. apply ou_bind; [apply ou_doCalcs|].
    intros r. cbn zeta. apply ou_bind; [apply ou_index | intros; apply ou_ret]. }
  intros dicts. apply ou_bind.
  { unfold columns. apply ou_bind; [apply ou_index|]. intros first. apply ou_foldM.
    intros data k. apply ou_bind; [|intros; apply ou_ret].
    apply ou_mapM. intros d. apply ou_getitem. }
  intros data. cbn zeta. apply ou_bind.
  { destruct (_ =? 1).
    - apply ou_bind; [apply ou_index|]. intros calc_key.
      apply ou_bind; [apply ou_getitem|]. intros xs.
      apply ou_bind; [apply ou_getitem|]. intros ys.
      repeat (apply ou_bind; [apply ou_modify | intros _]). apply ou_modify.
    - apply ou_bind.
      + destruct (0 <? _); [apply ou_modify | apply ou_raise; discriminate].
      + intros _. apply ou_bind; [|intros; apply ou_ret]. apply ou_foldM.
        intros series key. unfold scatter_step.
        destruct (negb _ && negb _); [|apply ou_ret].
        apply ou_bind.
        { destruct (_ <? _); [apply ou_ret | apply ou_raise; discriminate]. }
        intros _. apply ou_bind; [apply ou_getitem|]. intros xs.
        apply ou_bind; [apply ou_getitem|]. intros ys.
        repeat (apply ou_bind; [apply ou_modify | intros _]). apply ou_ret. }
  intros _. apply ou_bind; [apply ou_modify|]. intros _.
  apply ou_bind; [apply ou_modify|]. intros _.
  apply ou_bind; [destruct verbosity; [apply ou_modify | apply ou_ret]|].
  intros _. apply ou_ret.
Qed.

Lemma ou_exportToCSV P exptName data dicts_list :
  only_unbound P (exportToCSV exptName data dicts_list).
Proof.
  unfold exportToCSV. cbn zeta. apply ou_bind; [apply ou_modify|]. intros _.
  apply ou_bind; [|intros; apply ou_ret]. apply ou_foldM. intros rows rowdict.
  apply ou_bind; [apply ou_dict_to_list|]. intros row. cbn zeta.
  apply ou_bind; [apply ou_modify | intros; apply ou_ret].
Qed.

(** What [main_subject] leaves bound. *)
Lemma main_subject_bound v e x e1 x1 :
  main_subject v e x = (Ok e1, x1) ->
  subject_bound v e1
  /\ (M_PER_N_ e1 = None ->
      arg_read v <> None /\ M_PER_N_ e = None /\ arg_plot (polymer_args v) = false).
Proof.
  unfold main_subject, subject_bound. intros E.
  destruct (arg_read v) as [name|].
  - destruct (arg_plot (polymer_args v)); [discriminate E|].
    apply bind_inv_ok in E. destruct E as (r & x0 & _ & E).
    destruct r as [[[pol_h smi] pol]|]; [|discriminate E].
    unfold ret in E. injection E as <- <-. cbn.
    split; [repeat split; discriminate|]. intros Hm. repeat split; [discriminate | exact Hm].
  - apply bind_inv_ok in E. destruct E as (made & x0 & _ & E).
    destruct made as [pols smis unopt mpn | pol_h smi pol mpn],
             (arg_plot (polymer_args v)); try discriminate E;
      unfold ret in E; injection E as <- <-; cbn;
      (split; [repeat split; discriminate | discriminate]).
Qed.

Lemma main_save_bound P v e : subject_bound v e -> only_unbound P (main_save v e).
Proof.
  unfold subject_bound, main_save. intros Hb.
  destruct (arg_file v) as [file|]; [|apply ou_ret].
  destruct (arg_plot (polymer_args v)).
  - destruct Hb as (Hp & _).
    apply ou_bind; [apply ou_index|]. intros base.
    apply ou_bind; [apply ou_index|]. intros ext.
    apply ou_bind; [apply ou_read_name; intros H; contradiction|]. intros pols.
    apply ou_bind; [|intros; apply ou_ret]. apply ou_mapM. intros im.
    apply ou_write_or_read_pol.
  - destruct Hb as (Hp & _).
    apply ou_bind; [apply ou_read_name; intros H; contradiction|]. intros pol_h.
    apply ou_bind; [apply ou_write_or_read_pol | intros; apply ou_ret].
Qed.

Lemma main_draw_first v e (s : session) e2 s1 :
  subject_bound v e ->
  (if arg_plot (polymer_args v) then
     UNOPT_POL_LIST <- read_name "UNOPT_POL_LIST" (UNOPT_POL_LIST_ e) ;;
     ret {| POL_LIST_ := POL_LIST_ e; SMI_LIST_ := SMI_LIST_ e;
            UNOPT_POL_LIST_ := UNOPT_POL_LIST_ e; M_PER_N_ := M_PER_N_ e;
            pol_h_ := pol_h_ e; polSMILES_ := polSMILES_ e;
            pol_ := Some (PolMany UNOPT_POL_LIST) |}
   else ret e) s = (Ok e2, s1) ->
  s1 = s /\ subject_bound v e2 /\ pol_ e2 <> None /\ M_PER_N_ e2 = M_PER_N_ e.
Proof.
  unfold subject_bound. intros Hb E. destruct (arg_plot (polymer_args v)).
  - destruct Hb as (Hp & Hs & Hu).
    destruct (UNOPT_POL_LIST_ e) as [pols|] eqn:Hpols; [|contradiction].
    unfold bind, read_name, ret in E. injection E as <- <-. cbn.
    repeat split; try assumption; discriminate.
  - unfold ret in E. injection E as <- <-. repeat split; apply Hb.
Qed.

Lemma main_draw_bound v e :
  subject_bound v e ->
  only_unbound (fun name => name = "M_PER_N" /\ M_PER_N_ e = None) (main_draw v e).
Proof.
  intros Hb. unfold main_draw. apply ou_bind_ok.
  - unfold subject_bound in Hb. destruct (arg_plot (polymer_args v)); [|apply ou_ret].
    destruct Hb as (_ & _ & Hu).
    apply ou_bind; [apply ou_read_name; intros H; contradiction | intros; apply ou_ret].
  - intros s e2 s1 E1. destruct (main_draw_first _ _ _ _ _ Hb E1) as (_ & _ & Hp & Hm).
    destruct (arg_draw v) as [draw|].
    + apply ou_bind; [apply ou_index|]. intros base. cbn zeta.
      apply ou_bind; [apply ou_read_name; intros H; contradiction|]. intros pol.
      apply ou_bind; [apply ou_read_name; intros H; split; [reflexivity | now rewrite <- Hm]|].
      intros mpn. apply ou_bind; [apply ou_drawPol | intros; apply ou_ret].
    + destruct (arg_verbose v); [|apply ou_ret].
      apply ou_bind; [apply ou_read_name; intros H; split; [reflexivity | now rewrite <- Hm]|].
      intros mpn. apply ou_bind; [apply ou_read_name; intros H; contradiction|]. intros pol.
      apply ou_bind; [apply ou_drawPol | intros; apply ou_ret].
Qed.

Lemma main_draw_keeps v e x e2 x2 :
  subject_bound v e -> main_draw v e x = (Ok e2, x2) ->
  subject_bound v e2 /\ M_PER_N_ e2 = M_PER_N_ e.
Proof.
  intros Hb E. unfold main_draw in E.
  apply bind_inv_ok in E. destruct E as (e1 & x1 & E1 & E).
  destruct (main_draw_first _ _ _ _ _ Hb E1) as (_ & Hb1 & _ & Hm).
  assert (e2 = e1); [|now subst e2].
  destruct (arg_draw v) as [draw|].
  - apply bind_inv_ok in E. destruct E as (base & x3 & _ & E). cbn zeta in E.
    apply bind_inv_ok in E. destruct E as (pol & x4 & _ & E).
    apply bind_inv_ok in E. destruct E as (mpn & x5 & _ & E).
    apply bind_inv_ok in E. destruct E as ([] & x6 & _ & E).
    unfold ret in E. now injection E as <- _.
  - destruct (arg_verbose v).
    + apply bind_inv_ok in E. destruct E as (mpn & x3 & _ & E).
      apply bind_inv_ok in E. destruct E as (pol & x4 & _ & E).
      apply bind_inv_ok in E. destruct E as ([] & x5 & _ & E).
      unfold ret in E. now injection E as <- _.
    + unfold ret in E. now injection E as <- _.
Qed.

Lemma main_calculate_bound v e :
  subject_bound v e ->
  only_unbound (fun name => name = "M_PER_N" /\ M_PER_N_ e = None) (main_calculate v e).
Proof.
  unfold subject_bound, main_calculate. intros Hb.
  destruct (arg_calculation v) as [calculation|]; [|apply ou_ret].
  apply ou_bind.
  - destruct (arg_plot (polymer_args v)); cbn [negb].
    + destruct Hb as (Hp & Hs & _).
      apply ou_bind; [apply ou_read_name; intros H; contradiction|]. intros pols.
      apply ou_bind; [apply ou_read_name; intros H; contradiction|]. intros smis.
      apply ou_bind; [apply ou_read_name; intros H; split; [reflexivity | exact H]|].
      intros mpn. apply ou_makePlot.
    + destruct Hb as (Hp & Hs & _). cbn zeta.
      apply ou_bind; [apply ou_read_name; intros H; contradiction|]. intros pol_h.
      apply ou_bind; [apply ou_doCalcs|]. intros r.
      apply ou_bind; [apply ou_read_name; intros H; split; [reflexivity | exact H]|].
      intros mpn.
      apply ou_bind; [apply ou_read_name; intros H; contradiction | intros; apply ou_ret].
  - intros [data dicts]. destruct (arg_export v); [apply ou_exportToCSV | apply ou_ret].
Qed.

(** The names of a pass of [main], lines 482 to 543: once the polymer
    has been made or read, the pass reads no name unbound but [M_PER_N],
    and that one only in a run that reads its structure from a file
    when no earlier run has made a polymer.  So an [UnboundLocalError]
    of a pass is either raised while the polymer is being made, or is
    this one. *)
Theorem main_run_unbound (v : run_args) (e : main_env) (x x' : session) (name : string) :
  main_run e v x = (Raise (Exn UnboundLocalError name), x') ->
  main_subject v e x = (Raise (Exn UnboundLocalError name), x')
  \/ (name = "M_PER_N" /\ arg_read v <> None /\ M_PER_N_ e = None
      /\ arg_plot (polymer_args v) = false).
Proof.
  intros E. unfold main_run in E. apply bind_inv in E.
  destruct E as [(err & E & Herr) | (e1 & x1 & E1 & E)].
  - left. injection Herr as <-. exact E.
  - right. destruct (main_subject_bound _ _ _ _ _ E1) as (Hb & Hnone).
    apply bind_inv in E. destruct E as [(err & E & Herr) | ([] & x2 & _ & E)].
    { injection Herr as <-. destruct (main_save_bound (fun _ => False) v e1 Hb _ _ _ E). }
    apply bind_inv in E. destruct E as [(err & E & Herr) | (e2 & x3 & E3 & E)].
    { injection Herr as <-. destruct (main_draw_bound v e1 Hb _ _ _ E) as (-> & Hm).
      split; [reflexivity | exact (Hnone Hm)]. }
    destruct (main_draw_keeps _ _ _ _ _ Hb E3) as (Hb2 & Hm2).
    apply bind_inv in E. destruct E as [(err & E & Herr) | ([] & x4 & _ & E)].
    { injection Herr as <-. destruct (main_calculate_bound v e2 Hb2 _ _ _ E) as (-> & Hm).
      rewrite Hm2 in Hm. split; [reflexivity | exact (Hnone Hm)]. }
    discriminate E.
Qed.

End NameClaims.

Lemma main_run_unbound_witness :
  exists x',
    main_run (Toolkit := Sample.toolkit) (Tables := Sample.tables)
      (Calc := SampleSession.descriptors) (Readers := SampleSession.readers)
      main_start
      {| polymer_args := SampleRuns.polymer false; arg_read := Some "in.pdb";
         arg_file := Some "out.mol"; arg_draw := Some "pic.png"; arg_verbose := false;
         arg_calculation := None; arg_export := None |}
      (SampleSession.start {[ "in.pdb" := MolFile PDB SampleRuns.ethane ]} [])
    = (Raise (Exn UnboundLocalError "M_PER_N"), x')
    /\ M_PER_N_ main_start = None.
Proof.
  assert (E : exists x',
            main_run (Toolkit := Sample.toolkit) (Tables := Sample.tables)
              (Calc := SampleSession.descriptors) (Readers := SampleSession.readers)
              main_start
              {| polymer_args := SampleRuns.polymer false; arg_read := Some "in.pdb";
                 arg_file := Some "out.mol"; arg_draw := Some "pic.png";
                 arg_verbose := false; arg_calculation := None; arg_export := None |}
              (SampleSession.start {[ "in.pdb" := MolFile PDB SampleRuns.ethane ]} [])
            = (Raise (Exn UnboundLocalError "M_PER_N"), x'))
    by (eexists; vm_compute; reflexivity).
  destruct E as [x' E]. exists x'. split; [exact E|].
  destruct (main_run_unbound _ _ _ _ _ E) as [H | (_ & _ & H & _)].
  - vm_compute in H. discriminate H.
  - exact H.
Defined.
